(** * uigen: the virtual file system and the preview pipeline

    A shallow embedding of [src/lib/path-utils.ts], of the virtual file
    system ([VirtualFileSystem]) and of the transformation pipeline
    ([jsx-transformer], [import-map-builder], [html-template]).

    JavaScript strings are sequences of UTF-16 code units; they are
    embedded as [string], one [ascii] per code unit, which covers the code
    units below 256.  Objects that the code mutates in place (the nodes of
    the file tree) live in an explicit store and are named by references. *)

From Stdlib Require Import Ascii String List Arith Lia Bool DecimalString.
From stdpp Require Import base tactics option list strings.

Import ListNotations.
Local Open Scope string_scope.
Local Open Scope list_scope.

(** ** String methods of the JavaScript standard library *)

Module JS.

(** [s.startsWith(p)] *)
Definition startsWith (s p : string) : bool := String.prefix p s.

(** [s.endsWith(p)] *)
Fixpoint endsWith (s p : string) : bool :=
  String.eqb s p ||
  match s with
  | EmptyString => false
  | String _ s' => endsWith s' p
  end.

(** [s.slice(0, -1)]: all but the last code unit. *)
Fixpoint dropLast (s : string) : string :=
  match s with
  | EmptyString => EmptyString
  | String _ EmptyString => EmptyString
  | String c s' => String c (dropLast s')
  end.

(** [s.substring(1)] *)
Definition substring1 (s : string) : string :=
  match s with
  | EmptyString => EmptyString
  | String _ s' => s'
  end.

(** [s.includes(c)] for a one-character needle. *)
Fixpoint includesChar (c : ascii) (s : string) : bool :=
  match s with
  | EmptyString => false
  | String d s' => Ascii.eqb d c || includesChar c s'
  end.

(** [s.split(sep)] for a one-character separator; never the empty list. *)
Fixpoint split (sep : ascii) (s : string) : list string :=
  match s with
  | EmptyString => [EmptyString]
  | String c s' =>
      let r := split sep s' in
      if Ascii.eqb c sep then EmptyString :: r
      else match r with
           | h :: t => String c h :: t
           | [] => [String c EmptyString]
           end
  end.

(** [l.join(sep)] *)
Fixpoint join (sep : string) (l : list string) : string :=
  match l with
  | [] => EmptyString
  | [x] => x
  | x :: l' => x +:+ sep +:+ join sep l'
  end.

(** [l.filter(Boolean)] on an array of strings: the empty string is falsy. *)
Definition filterBoolean (l : list string) : list string :=
  List.filter (fun x => negb (String.eqb x EmptyString)) l.

(** [s.replace(/\/+/g, "/")]: every maximal run of slashes becomes one. *)
Fixpoint collapseFrom (afterSlash : bool) (s : string) : string :=
  match s with
  | EmptyString => EmptyString
  | String c s' =>
      if Ascii.eqb c "/" then
        if afterSlash then collapseFrom true s'
        else String c (collapseFrom true s')
      else String c (collapseFrom false s')
  end.

Definition collapseSlashes (s : string) : string := collapseFrom false s.

End JS.

(** ** [src/lib/path-utils.ts] *)

Module PathUtils.
Import JS.

Definition normalizePath (path : string) : string :=
  let path := if startsWith path "/" then path else "/" +:+ path in
  let path :=
    if negb (String.eqb path "/") && endsWith path "/"
    then dropLast path else path in
  collapseSlashes path.

Definition getParentPath (path : string) : string :=
  let normalized := normalizePath path in
  if String.eqb normalized "/" then "/"
  else
    let parts := removelast (split "/" normalized) in
    if Nat.eqb (length parts) 1 then "/" else join "/" parts.

Definition getFileName (path : string) : string :=
  let normalized := normalizePath path in
  if String.eqb normalized "/" then "/"
  else List.last (split "/" normalized) EmptyString.

(** The loop of [createDirectoryPath]: [currentPath] grows by one segment
    per round, and every value it takes is pushed. *)
Fixpoint directoryPrefixes (currentPath : string) (parts : list string)
  : list string :=
  match parts with
  | [] => []
  | [_] => []
  | p :: rest =>
      let currentPath := currentPath +:+ "/" +:+ p in
      currentPath :: directoryPrefixes currentPath rest
  end.

Definition createDirectoryPath (targetPath : string) : list string :=
  let parts := filterBoolean (split "/" (normalizePath targetPath)) in
  directoryPrefixes "" parts.

(** The loop of [resolveRelativePath] over the segments of the specifier. *)
Fixpoint applySegments (parts relParts : list string) : list string :=
  match relParts with
  | [] => parts
  | part :: rest =>
      if String.eqb part ".." then applySegments (removelast parts) rest
      else if String.eqb part "." then applySegments parts rest
      else applySegments (parts ++ [part]) rest
  end.

Definition resolveRelativePath (fromDir relativePath : string) : string :=
  let parts := filterBoolean (split "/" fromDir) in
  let relParts := split "/" relativePath in
  "/" +:+ join "/" (applySegments parts relParts).

(** [typeof path === "string"] holds by typing; NUL is code unit 0. *)
Definition isValidPath (path : string) : bool :=
  Nat.ltb 0 (String.length path) && negb (includesChar "000"%char path).

End PathUtils.

(** ** The virtual file system *)

Module VFS.
Import JS PathUtils.

(** *** [Map]: keyed entries in insertion order

    [set] on a present key replaces the value in place, on an absent key
    appends; [delete] removes the entry. *)

Section JSMap.
Context {K V : Type} `{EqDecision K}.

Fixpoint map_get (k : K) (m : list (K * V)) : option V :=
  match m with
  | [] => None
  | (k', v) :: m' => if decide (k = k') then Some v else map_get k m'
  end.

Definition map_has (k : K) (m : list (K * V)) : bool :=
  match map_get k m with Some _ => true | None => false end.

Fixpoint map_set (k : K) (v : V) (m : list (K * V)) : list (K * V) :=
  match m with
  | [] => [(k, v)]
  | (k', v') :: m' =>
      if decide (k = k') then (k, v) :: m' else (k', v') :: map_set k v m'
  end.

Fixpoint map_delete (k : K) (m : list (K * V)) : list (K * V) :=
  match m with
  | [] => []
  | (k', v') :: m' =>
      if decide (k = k') then map_delete k m' else (k', v') :: map_delete k m'
  end.

End JSMap.

(** *** Nodes, the store and the file system object *)

Inductive NodeType := file | directory.

#[global] Instance NodeType_eq_dec : EqDecision NodeType.
Proof. solve_decision. Defined.

(** A reference to a [FileNode] object. *)
Abbreviation ref := nat.

(** [interface FileNode]; an absent optional field is [None]. *)
Record FileNode := mkNode {
  type : NodeType;
  name : string;
  path : string;
  content : option string;
  children : option (list (string * ref))
}.

(** The object [VirtualFileSystem]: its two fields, and the store that
    holds the node objects they refer to. *)
Record VirtualFileSystem := mkVFS {
  store : list FileNode;
  files : list (string * ref);
  root : ref
}.

(** [FILE_SYSTEM_LIMITS] of [src/lib/constants.ts]. *)
Definition MAX_FILE_SIZE : nat := 10 * 1024 * 1024.
Definition MAX_PATH_LENGTH : nat := 4096.

(** What a call can throw: the three [Error]s of [validatePath] and
    [validateContent], a method call on [undefined], and the engine's
    [RangeError] when the call stack is exhausted. *)
Inductive Error :=
  | INVALID_PATH
  | PATH_TOO_LONG (len : nat)
  | FILE_TOO_LARGE (len : nat)
  | TypeError
  | RangeError.

Inductive Outcome (A : Type) :=
  | Returns (a : A) (fs : VirtualFileSystem)
  | Throws (e : Error) (fs : VirtualFileSystem).
Arguments Returns {A} a fs.
Arguments Throws {A} e fs.

(** A method: from the state before to a value and the state after, or to
    an exception and the state it leaves behind. *)
Definition M (A : Type) : Type := VirtualFileSystem -> Outcome A.

Definition ret {A} (a : A) : M A := fun fs => Returns a fs.
Definition throw {A} (e : Error) : M A := fun fs => Throws e fs.
Definition bind {A B} (m : M A) (k : A -> M B) : M B :=
  fun fs =>
    match m fs with
    | Returns a fs' => k a fs'
    | Throws e fs' => Throws e fs'
    end.

Notation "x <- m ;; k" := (bind m (fun x => k))
  (at level 100, m at level 99, right associativity).
Notation "m ;;; k" := (bind m (fun _ => k))
  (at level 100, right associativity).

Definition get : M VirtualFileSystem := fun fs => Returns fs fs.
Definition put (fs' : VirtualFileSystem) : M unit := fun _ => Returns tt fs'.

Fixpoint forEach {A} (l : list A) (body : A -> M unit) : M unit :=
  match l with
  | [] => ret tt
  | x :: l' => body x ;;; forEach l' body
  end.

(** Reading a field of the object behind a reference. *)
Definition nullNode : FileNode := mkNode file "" "" None None.
Definition deref (fs : VirtualFileSystem) (r : ref) : FileNode :=
  match store fs !! r with
  | Some n => n
  | None => nullNode
  end.

Definition read (r : ref) : M FileNode := fun fs => Returns (deref fs r) fs.

(** Writing the object behind a reference. *)
Definition write (r : ref) (n : FileNode) : M unit :=
  fun fs => Returns tt (mkVFS (<[r := n]> (store fs)) (files fs) (root fs)).

(** An object literal: a fresh object in the store. *)
Definition alloc (n : FileNode) : M ref :=
  fun fs =>
    Returns (length (store fs)) (mkVFS (store fs ++ [n]) (files fs) (root fs)).

Definition filesGet (p : string) : M (option ref) :=
  fun fs => Returns (map_get p (files fs)) fs.
Definition filesSet (p : string) (r : ref) : M unit :=
  fun fs => Returns tt (mkVFS (store fs) (map_set p r (files fs)) (root fs)).
Definition filesDelete (p : string) : M unit :=
  fun fs => Returns tt (mkVFS (store fs) (map_delete p (files fs)) (root fs)).

(** [node.children!.set(k, c)] and [node.children!.delete(k)] *)
Definition childrenSet (r : ref) (k : string) (c : ref) : M unit :=
  n <- read r ;;
  match children n with
  | Some cs =>
      write r (mkNode (type n) (name n) (path n) (content n)
                 (Some (map_set k c cs)))
  | None => throw TypeError
  end.

Definition childrenDelete (r : ref) (k : string) : M unit :=
  n <- read r ;;
  match children n with
  | Some cs =>
      write r (mkNode (type n) (name n) (path n) (content n)
                 (Some (map_delete k cs)))
  | None => throw TypeError
  end.

(** [constructor] *)
Definition rootNode : FileNode := mkNode directory "/" "/" None (Some []).
Definition new : VirtualFileSystem := mkVFS [rootNode] [("/", 0)] 0.

(** The checks of [validatePath] and [validateContent]: the error to
    throw, if any. *)
Definition pathViolation (p : string) : option Error :=
  if negb (isValidPath p) then Some INVALID_PATH
  else if Nat.ltb MAX_PATH_LENGTH (String.length p)
       then Some (PATH_TOO_LONG (String.length p))
       else None.

Definition contentViolation (c : string) : option Error :=
  if Nat.ltb MAX_FILE_SIZE (String.length c)
  then Some (FILE_TOO_LARGE (String.length c))
  else None.

Definition validatePath (p : string) : M unit :=
  match pathViolation p with
  | Some e => throw e
  | None => ret tt
  end.

Definition validateContent (c : string) : M unit :=
  match contentViolation c with
  | Some e => throw e
  | None => ret tt
  end.

Definition getParentNode (p : string) : M (option ref) :=
  filesGet (getParentPath p).

(** [exists], as a function of the state and as a method. *)
Definition existsIn (fs : VirtualFileSystem) (p : string) : bool :=
  if negb (isValidPath p) then false
  else map_has (normalizePath p) (files fs).

Definition exists_ (p : string) : M bool :=
  fun fs => Returns (existsIn fs p) fs.

Definition createDirectory (p : string) : M (option ref) :=
  validatePath p ;;;
  let normalized := normalizePath p in
  fs <- get ;;
  if map_has normalized (files fs) then ret None
  else
    parent <- getParentNode normalized ;;
    match parent with
    | None => ret None
    | Some parent =>
        pn <- read parent ;;
        if decide (type pn = directory) then
          let dirName := getFileName normalized in
          dir <- alloc (mkNode directory dirName normalized None (Some [])) ;;
          filesSet normalized dir ;;;
          childrenSet parent dirName dir ;;;
          ret (Some dir)
        else ret None
    end.

Definition ensureParentDirectories (p : string) : M unit :=
  forEach (createDirectoryPath p) (fun dirPath =>
    present <- exists_ dirPath ;;
    if negb present then createDirectory dirPath ;;; ret tt
    else ret tt).

Definition createFile (p : string) (c : string) : M (option ref) :=
  validatePath p ;;;
  validateContent c ;;;
  let normalized := normalizePath p in
  fs <- get ;;
  if map_has normalized (files fs) then ret None
  else
    ensureParentDirectories normalized ;;;
    parent <- getParentNode normalized ;;
    match parent with
    | None => ret None
    | Some parent =>
        pn <- read parent ;;
        if decide (type pn = directory) then
          let fileName := getFileName normalized in
          f <- alloc (mkNode file fileName normalized (Some c) None) ;;
          filesSet normalized f ;;;
          childrenSet parent fileName f ;;;
          ret (Some f)
        else ret None
    end.

(** [x || ""] on an optional string. *)
Definition orEmpty (c : option string) : string := default "" c.

Definition readFile (p : string) : M (option string) :=
  validatePath p ;;;
  f <- filesGet (normalizePath p) ;;
  match f with
  | None => ret None
  | Some f =>
      n <- read f ;;
      if decide (type n = file) then ret (Some (orEmpty (content n)))
      else ret None
  end.

Definition updateFile (p : string) (c : string) : M bool :=
  validatePath p ;;;
  validateContent c ;;;
  f <- filesGet (normalizePath p) ;;
  match f with
  | None => ret false
  | Some f =>
      n <- read f ;;
      if decide (type n = file) then
        write f (mkNode (type n) (name n) (path n) (Some c) (children n)) ;;;
        ret true
      else ret false
  end.

(** [deleteRecursively]; [stack] bounds the depth of the recursion, and
    running out of it is the engine's [RangeError]. *)
Fixpoint deleteRecursively (stack : nat) (node : ref) : M unit :=
  match stack with
  | 0 => throw RangeError
  | S stack =>
      n <- read node ;;
      match type n, children n with
      | directory, Some cs =>
          forEach cs (fun '(_, child) =>
            deleteRecursively stack child ;;;
            c <- read child ;;
            filesDelete (path c))
      | _, _ => ret tt
      end
  end.

Definition deleteFile (stack : nat) (p : string) : M bool :=
  validatePath p ;;;
  let normalized := normalizePath p in
  f <- filesGet normalized ;;
  match f with
  | None => ret false
  | Some f =>
      if String.eqb normalized "/" then ret false
      else
        parent <- getParentNode normalized ;;
        match parent with
        | None => ret false
        | Some parent =>
            pn <- read parent ;;
            if decide (type pn = directory) then
              deleteRecursively stack f ;;;
              n <- read f ;;
              childrenDelete parent (name n) ;;;
              filesDelete normalized ;;;
              ret true
            else ret false
        end
  end.

Fixpoint updateChildrenPaths (stack : nat) (node : ref) : M unit :=
  match stack with
  | 0 => throw RangeError
  | S stack =>
      n <- read node ;;
      match type n, children n with
      | directory, Some cs =>
          forEach cs (fun '(_, child) =>
            c <- read child ;;
            let oldChildPath := path c in
            n <- read node ;;
            let newChildPath := path n +:+ "/" +:+ name c in
            write child (mkNode (type c) (name c) newChildPath (content c)
                           (children c)) ;;;
            filesDelete oldChildPath ;;;
            filesSet newChildPath child ;;;
            if decide (type c = directory)
            then updateChildrenPaths stack child
            else ret tt)
      | _, _ => ret tt
      end
  end.

Definition rename (stack : nat) (oldPath newPath : string) : M bool :=
  validatePath oldPath ;;;
  validatePath newPath ;;;
  let normalizedOld := normalizePath oldPath in
  let normalizedNew := normalizePath newPath in
  if String.eqb normalizedOld "/" || String.eqb normalizedNew "/"
  then ret false
  else
    sourceNode <- filesGet normalizedOld ;;
    fs <- get ;;
    match sourceNode with
    | None => ret false
    | Some sourceNode =>
        if map_has normalizedNew (files fs) then ret false
        else
          oldParent <- getParentNode normalizedOld ;;
          match oldParent with
          | None => ret false
          | Some oldParent =>
              opn <- read oldParent ;;
              if decide (type opn = directory) then
                ensureParentDirectories normalizedNew ;;;
                newParent <- getParentNode normalizedNew ;;
                match newParent with
                | None => ret false
                | Some newParent =>
                    npn <- read newParent ;;
                    if decide (type npn = directory) then
                      src <- read sourceNode ;;
                      childrenDelete oldParent (name src) ;;;
                      let newName := getFileName normalizedNew in
                      src <- read sourceNode ;;
                      write sourceNode
                        (mkNode (type src) newName normalizedNew
                           (content src) (children src)) ;;;
                      childrenSet newParent newName sourceNode ;;;
                      filesDelete normalizedOld ;;;
                      filesSet normalizedNew sourceNode ;;;
                      src <- read sourceNode ;;
                      match type src, children src with
                      | directory, Some _ =>
                          updateChildrenPaths stack sourceNode
                      | _, _ => ret tt
                      end ;;;
                      ret true
                    else ret false
                end
              else ret false
          end
    end.

Definition getNode (p : string) : M (option ref) :=
  if negb (isValidPath p) then ret None
  else filesGet (normalizePath p).

Definition listDirectory (p : string) : M (option (list ref)) :=
  if negb (isValidPath p) then ret None
  else
    dir <- filesGet (normalizePath p) ;;
    match dir with
    | None => ret None
    | Some dir =>
        n <- read dir ;;
        if decide (type n = directory)
        then ret (Some (List.map snd (default [] (children n))))
        else ret None
    end.

(** The loop of [getAllFiles], [fileMap] being the map built so far. *)
Fixpoint collectFiles (fs : VirtualFileSystem) (entries : list (string * ref))
  (fileMap : list (string * string)) : list (string * string) :=
  match entries with
  | [] => fileMap
  | (p, r) :: rest =>
      let node := deref fs r in
      collectFiles fs rest
        (if decide (type node = file)
         then map_set p (orEmpty (content node)) fileMap
         else fileMap)
  end.

Definition getAllFiles (fs : VirtualFileSystem) : list (string * string) :=
  collectFiles fs (files fs) [].

(** The loop of [serialize]; the descriptors carry no [children]. *)
Fixpoint serializeEntries (fs : VirtualFileSystem)
  (entries : list (string * ref)) (result : list (string * FileNode))
  : list (string * FileNode) :=
  match entries with
  | [] => result
  | (p, r) :: rest =>
      let node := deref fs r in
      serializeEntries fs rest
        (map_set p
           (if decide (type node = directory)
            then mkNode (type node) (name node) (path node) None None
            else mkNode (type node) (name node) (path node) (content node)
                   None)
           result)
  end.

Definition serialize (fs : VirtualFileSystem) : list (string * FileNode) :=
  serializeEntries fs (files fs) [].

(** [Array.prototype.sort] without a comparator, on distinct strings:
    ascending by code units. *)
Fixpoint insertSorted (x : string) (l : list string) : list string :=
  match l with
  | [] => [x]
  | y :: l' => if String.leb x y then x :: l else y :: insertSorted x l'
  end.

Definition sortStrings (l : list string) : list string :=
  List.fold_right insertSorted [] l.

(** The opening of both deserializers: the index and the root's children
    are emptied in place, the root object stays. *)
Definition clearAll : M unit :=
  fs <- get ;;
  put (mkVFS (store fs) [] (root fs)) ;;;
  rn <- read (root fs) ;;
  match children rn with
  | Some _ =>
      write (root fs) (mkNode (type rn) (name rn) (path rn) (content rn)
                         (Some []))
  | None => ret tt
  end ;;;
  filesSet "/" (root fs).

(** The inner loop shared by the deserializers: the proper prefixes of
    [parts], each created when absent. *)
Definition createMissingParents (p : string) : M unit :=
  forEach (directoryPrefixes "" (filterBoolean (split "/" p)))
    (fun currentPath =>
       present <- exists_ currentPath ;;
       if negb present then createDirectory currentPath ;;; ret tt
       else ret tt).


Definition deserializeFromNodes (data : list (string * FileNode)) : M unit :=
  clearAll ;;;
  forEach (sortStrings (List.map fst data)) (fun p =>
    if String.eqb p "/" then ret tt
    else
      match map_get p data with
      | None => ret tt
      | Some node =>
          createMissingParents p ;;;
          match type node with
          | file => createFile p (orEmpty (content node)) ;;; ret tt
          | directory => createDirectory p ;;; ret tt
          end
      end).

Definition reset : M unit :=
  fs <- get ;;
  put (mkVFS (store fs) [] (root fs)) ;;;
  r <- alloc rootNode ;;
  fs <- get ;;
  put (mkVFS (store fs) (files fs) r) ;;;
  filesSet "/" r.

End VFS.

(** ** Regular expressions

    The matcher of the JavaScript engine, for the constructs the pipeline's
    patterns use: backtracking in priority order, greedy quantifiers,
    alternatives from left to right. *)

Module Regex.

Inductive regex :=
  | Chr (p : ascii -> bool)
  | Eps
  | Seq (r1 r2 : regex)
  | Alt (r1 r2 : regex)
  | Star (r : regex)
  | Group (r : regex)
  | WordBoundary
  | EndAnchor.

Definition Plus (r : regex) : regex := Seq r (Star r).
Definition Opt (r : regex) : regex := Alt r Eps.

Definition code (c : ascii) : nat := nat_of_ascii c.
Definition inRange (lo hi : nat) (c : ascii) : bool :=
  Nat.leb lo (code c) && Nat.leb (code c) hi.

Definition isDigit : ascii -> bool := inRange 48 57.
Definition isUpper : ascii -> bool := inRange 65 90.
Definition isLower : ascii -> bool := inRange 97 122.
Definition isAlnum (c : ascii) : bool := isDigit c || isUpper c || isLower c.
(** [\w] *)
Definition isWord (c : ascii) : bool := isAlnum c || Nat.eqb (code c) 95.
(** [\s], for the code units below 256 *)
Definition isSpace (c : ascii) : bool :=
  inRange 9 13 c || Nat.eqb (code c) 32 || Nat.eqb (code c) 160.

Definition isChar (c : ascii) : ascii -> bool := fun x => Ascii.eqb x c.
Definition isNot (c : ascii) : ascii -> bool := fun x => negb (Ascii.eqb x c).

Definition toLower (c : ascii) : ascii :=
  if isUpper c then ascii_of_nat (code c + 32) else c.
(** a literal letter under the [i] flag *)
Definition isCI (c : ascii) : ascii -> bool :=
  fun x => Ascii.eqb (toLower x) (toLower c).

(** a literal word, case-sensitive or not *)
Fixpoint lit (s : string) : regex :=
  match s with
  | EmptyString => Eps
  | String c s' => Seq (Chr (isChar c)) (lit s')
  end.
Fixpoint litCI (s : string) : regex :=
  match s with
  | EmptyString => Eps
  | String c s' => Seq (Chr (isCI c)) (litCI s')
  end.

Fixpoint seqs (l : list regex) : regex :=
  match l with
  | [] => Eps
  | r :: l' => Seq r (seqs l')
  end.

Fixpoint take (n : nat) (s : string) : string :=
  match n, s with
  | S n', String c s' => String c (take n' s')
  | _, _ => EmptyString
  end.

Fixpoint lastChar (d : option ascii) (s : string) : option ascii :=
  match s with
  | EmptyString => d
  | String c s' => lastChar (Some c) s'
  end.

Definition wordBefore (prev : option ascii) : bool :=
  match prev with Some c => isWord c | None => false end.
Definition wordAfter (s : string) : bool :=
  match s with String c _ => isWord c | EmptyString => false end.

(** [matchK r prev s cap k]: match [r] at the head of [s] ([prev] is the
    code unit before it), then hand what is left to [k]; [None] makes the
    caller try its next choice.  One iteration of a star must consume. *)
Fixpoint matchK {R : Type} (r : regex) (prev : option ascii) (s : string)
  (cap : option string)
  (k : option ascii -> string -> option string -> option R) : option R :=
  match r with
  | Chr p =>
      match s with
      | String c s' => if p c then k (Some c) s' cap else None
      | EmptyString => None
      end
  | Eps => k prev s cap
  | Seq r1 r2 =>
      matchK r1 prev s cap (fun prev' s' cap' => matchK r2 prev' s' cap' k)
  | Alt r1 r2 =>
      match matchK r1 prev s cap k with
      | Some x => Some x
      | None => matchK r2 prev s cap k
      end
  | Star r' =>
      (fix loop (n : nat) (prev : option ascii) (s : string)
            (cap : option string) : option R :=
         match n with
         | 0 => k prev s cap
         | S n' =>
             match
               matchK r' prev s cap (fun prev' s' cap' =>
                 if Nat.ltb (String.length s') (String.length s)
                 then loop n' prev' s' cap' else None)
             with
             | Some x => Some x
             | None => k prev s cap
             end
         end) (String.length s) prev s cap
  | Group r' =>
      matchK r' prev s cap (fun prev' s' _ =>
        k prev' s' (Some (take (String.length s - String.length s') s)))
  | WordBoundary =>
      if xorb (wordBefore prev) (wordAfter s) then k prev s cap else None
  | EndAnchor =>
      match s with
      | EmptyString => k prev s cap
      | String _ _ => None
      end
  end.

(** A match starting exactly here: what follows it, and group 1. *)
Definition matchAt (r : regex) (prev : option ascii) (s : string)
  : option (string * option string) :=
  matchK r prev s None (fun _ rest cap => Some (rest, cap)).

(** The leftmost match: the text skipped before it, what follows it,
    and group 1. *)
Fixpoint search (r : regex) (prev : option ascii) (s : string)
  : option (string * string * option string) :=
  match matchAt r prev s with
  | Some (rest, cap) => Some (EmptyString, rest, cap)
  | None =>
      match s with
      | EmptyString => None
      | String c s' =>
          match search r (Some c) s' with
          | Some (skipped, rest, cap) => Some (String c skipped, rest, cap)
          | None => None
          end
      end
  end.

(** [re.test(s)] for a pattern without the [g] flag *)
Definition test (r : regex) (s : string) : bool :=
  match search r None s with Some _ => true | None => false end.

(** [s.match(re)[1]] for a pattern without the [g] flag *)
Definition match1 (r : regex) (s : string) : option string :=
  match search r None s with
  | Some (_, _, cap) => Some (default EmptyString cap)
  | None => None
  end.

(** [s.replace(re, "")] for a pattern without the [g] flag *)
Definition removeFirst (r : regex) (s : string) : string :=
  match search r None s with
  | Some (skipped, rest, _) => skipped +:+ rest
  | None => s
  end.

Definition prevAfter (prev : option ascii) (s rest : string) : option ascii :=
  lastChar prev (take (String.length s - String.length rest) s).

(** The loop [while ((m = re.exec(s)) !== null) out.add(m[1])] of a [g]
    pattern that matches no empty string: group 1 of the successive
    matches, each search resuming where the last match ended. *)
Fixpoint execAllFrom (rounds : nat) (r : regex) (prev : option ascii)
  (s : string) : list string :=
  match rounds with
  | 0 => []
  | S rounds =>
      match search r prev s with
      | Some (_, rest, cap) =>
          default EmptyString cap
            :: execAllFrom rounds r (prevAfter prev s rest) rest
      | None => []
      end
  end.

Definition execAll (r : regex) (s : string) : list string :=
  execAllFrom (S (String.length s)) r None s.

(** [s.replace(re, "")] for a [g] pattern that matches no empty string *)
Fixpoint removeAllFrom (rounds : nat) (r : regex) (prev : option ascii)
  (s : string) : string :=
  match rounds with
  | 0 => s
  | S rounds =>
      match search r prev s with
      | Some (skipped, rest, _) =>
          skipped +:+ removeAllFrom rounds r (prevAfter prev s rest) rest
      | None => s
      end
  end.

Definition removeAll (r : regex) (s : string) : string :=
  removeAllFrom (S (String.length s)) r None s.

End Regex.

(** ** [src/lib/transform/jsx-transformer.ts] and [import-map-builder.ts] *)

Module Pipeline.
Import JS PathUtils Regex.
Import VFS (map_get, map_has, map_set, map_delete).

(** The double quote, as a code unit and as a string. *)
Definition dq : ascii := "034"%char.
Definition Q : string := String dq EmptyString.
Definition nl : string := String "010"%char EmptyString.

Definition isQuote (c : ascii) : bool := Ascii.eqb c "'" || Ascii.eqb c dq.
Definition notQuote (c : ascii) : bool := negb (isQuote c).
Definition notChar (c : ascii) : ascii -> bool := fun x => negb (Ascii.eqb x c).

(** [import\s+(?:{[^}]+}|[^,\s]+)?\s*(?:,\s*{[^}]+})?\s+from\s+[QUOTE]([^QUOTE]+)[QUOTE]],
    QUOTE being the single and the double quote *)
Definition importRegex : regex :=
  seqs [ lit "import"; Plus (Chr isSpace);
         Opt (Alt (seqs [Chr (isChar "{"); Plus (Chr (notChar "}"));
                         Chr (isChar "}")])
                  (Plus (Chr (fun c => negb (Ascii.eqb c ",")
                                       && negb (isSpace c)))));
         Star (Chr isSpace);
         Opt (seqs [Chr (isChar ","); Star (Chr isSpace); Chr (isChar "{");
                    Plus (Chr (notChar "}")); Chr (isChar "}")]);
         Plus (Chr isSpace); lit "from"; Plus (Chr isSpace);
         Chr isQuote; Group (Plus (Chr notQuote)); Chr isQuote ].

(** [import\s+[QUOTE]([^QUOTE]+\.css)[QUOTE]] *)
Definition cssImportRegex : regex :=
  seqs [ lit "import"; Plus (Chr isSpace); Chr isQuote;
         Group (Seq (Plus (Chr notQuote)) (lit ".css")); Chr isQuote ].

(** [new Set()] filled by [add]: insertion order, no duplicates. *)
Definition setAdd (x : string) (l : list string) : list string :=
  if decide (x ∈ l) then l else l ++ [x].

Definition setOf (l : list string) : list string :=
  List.fold_left (fun acc x => setAdd x acc) l [].

(** [interface TransformResult] *)
Record TransformResult := mkTransformResult {
  code : string;
  error : option string;
  missingImports : option (list string);
  cssImports : option (list string)
}.

(** What [Babel.transform] does with a source text: it returns an object
    whose [code] may be absent, or throws. *)
Inductive BabelOutcome :=
  | BabelReturns (code : option string)
  | BabelThrows (message : string).

(** [try { ... } catch (e)] around a call that may throw an [Error]. *)
Inductive Try (A : Type) :=
  | Done (a : A)
  | Thrown (message : string).
Arguments Done {A} a.
Arguments Thrown {A} message.

(** The patterns of [createBlobURL], each with its [source]. *)
Definition dangerousPatterns : list (string * regex) :=
  [ ("<script[^>]*>",
      seqs [litCI "<script"; Star (Chr (notChar ">")); Chr (isChar ">")]);
    ("javascript:", litCI "javascript:");
    ("data:", litCI "data:");
    ("vbscript:", litCI "vbscript:");
    ("\bon[a-z]+\s*=",
      seqs [WordBoundary; litCI "on";
            Plus (Chr (fun c => isLower c || isUpper c));
            Star (Chr isSpace); Chr (isChar "=")]);
    ("eval\s*\(", seqs [litCI "eval"; Star (Chr isSpace); Chr (isChar "(")]);
    ("new\s+Function\s*\(",
      seqs [litCI "new"; Plus (Chr isSpace); litCI "Function";
            Star (Chr isSpace); Chr (isChar "(")]);
    ("setTimeout\s*\(",
      seqs [litCI "setTimeout"; Star (Chr isSpace); Chr (isChar "(")]);
    ("setInterval\s*\(",
      seqs [litCI "setInterval"; Star (Chr isSpace); Chr (isChar "(")]) ].

(** The loop over [dangerousPatterns]: the source of the first that matches. *)
Fixpoint firstMatching (patterns : list (string * regex)) (code : string)
  : option string :=
  match patterns with
  | [] => None
  | (source, pattern) :: rest =>
      if test pattern code then Some source else firstMatching rest code
  end.

Definition allowedMimeTypes : list string :=
  ["application/javascript"; "text/javascript"; "application/json"; "text/css"].

Definition CDN_BASE : string := "https://esm.sh".
Definition REACT_VERSION : string := "19".
Definition DEFAULT_IMPORTS : list (string * string) :=
  [ ("react", CDN_BASE +:+ "/react@" +:+ REACT_VERSION);
    ("react-dom", CDN_BASE +:+ "/react-dom@" +:+ REACT_VERSION);
    ("react-dom/client",
      CDN_BASE +:+ "/react-dom@" +:+ REACT_VERSION +:+ "/client");
    ("react/jsx-runtime",
      CDN_BASE +:+ "/react@" +:+ REACT_VERSION +:+ "/jsx-runtime");
    ("react/jsx-dev-runtime",
      CDN_BASE +:+ "/react@" +:+ REACT_VERSION +:+ "/jsx-dev-runtime") ].

(** [interface ImportMapResult] *)
Record ImportMapResult := mkImportMapResult {
  importMap : string;
  resultStyles : string;
  resultErrors : list (string * string)
}.

(** The fields of [ImportMapBuilder], and the count of object URLs minted
    so far. *)
Record Builder := mkBuilder {
  imports : list (string * string);
  styles : string;
  errors : list (string * string);
  transformedFiles : list (string * string);
  allImports : list string;
  allCssImports : list (string * string);
  minted : nat
}.

(** [obj[k]] in a condition: present and not the empty string.  (The
    keys looked up this way start with a dot, a slash or an at sign, so
    no inherited property of the object answers.) *)
Definition truthy (v : option string) : bool :=
  match v with
  | Some x => negb (String.eqb x EmptyString)
  | None => false
  end.

(** [s.replace(pat, rep)] with a string pattern: the first occurrence. *)
Fixpoint replaceFirst (pat rep s : string) : string :=
  if String.prefix pat s
  then rep +:+ String.substring (String.length pat)
                 (String.length s - String.length pat) s
  else match s with
       | EmptyString => EmptyString
       | String c s' => String c (replaceFirst pat rep s')
       end.

(** [s.substring(0, s.lastIndexOf("/"))] *)
Fixpoint beforeLastSlash (s : string) : string :=
  match s with
  | EmptyString => EmptyString
  | String c s' =>
      if includesChar "/" s' then String c (beforeLastSlash s')
      else EmptyString
  end.

(** [\.(js|jsx|ts|tsx)$] *)
Definition jsFileRegex : regex :=
  seqs [ Chr (isChar ".");
         Alt (lit "js") (Alt (lit "jsx") (Alt (lit "ts") (lit "tsx")));
         EndAnchor ].

(** [\.(jsx?|tsx?)$] *)
Definition extensionRegex : regex :=
  seqs [ Chr (isChar ".");
         Alt (Seq (lit "js") (Opt (Chr (isChar "x"))))
             (Seq (lit "ts") (Opt (Chr (isChar "x"))));
         EndAnchor ].

(** [\/([^\/]+)$] *)
Definition lastSegmentRegex : regex :=
  seqs [ Chr (isChar "/"); Group (Plus (Chr (notChar "/"))); EndAnchor ].

Definition isPackage (imp : string) : bool :=
  negb (startsWith imp ".") && negb (startsWith imp "/")
  && negb (startsWith imp "@/").

Definition createPlaceholderModule (componentName : string) : string :=
  "
import React from 'react';
const "
  +:+ componentName
  +:+ " = function() {
  return React.createElement('div', {}, null);
}
export default "
  +:+ componentName
  +:+ ";
export { "
  +:+ componentName
  +:+ " };
".

Section Environment.

(** The two collaborators outside the repository: Babel, called with the
    source, the file name and whether the typescript preset is on; and
    [URL.createObjectURL], whose [n]-th call on a blob of the given text
    returns [createObjectURL n text]. *)
Variable babel : string -> string -> bool -> BabelOutcome.
Variable createObjectURL : nat -> string -> string.

(** [JSON.stringify({ imports }, null, 2)] *)
Variable JSON_stringify_imports : list (string * string) -> string.

Definition transformJSX (code filename : string)
  (existingFiles : list string) : TransformResult :=
  let isTypeScript := endsWith filename ".ts" || endsWith filename ".tsx" in
  let cssImports := setOf (execAll cssImportRegex code) in
  let processedCode := removeAll cssImportRegex code in
  let imports :=
    setOf (List.filter (fun m => negb (endsWith m ".css"))
             (execAll importRegex code)) in
  match babel processedCode filename isTypeScript with
  | BabelReturns result =>
      mkTransformResult (default EmptyString result) None
        (Some imports) (Some cssImports)
  | BabelThrows message => mkTransformResult EmptyString (Some message) None None
  end.

(** [createBlobURL(code, mimeType)], [n] object URLs having been minted. *)
Definition createBlobURL (n : nat) (code mimeType : string) : Try string :=
  if negb (bool_decide (mimeType ∈ allowedMimeTypes))
  then Thrown ("Unsafe MIME type: " +:+ mimeType)
  else
    match firstMatching dangerousPatterns code with
    | Some source =>
        Thrown ("Code contains potentially dangerous patterns: " +:+ source)
    | None => Done (createObjectURL n code)
    end.

Definition setImport (k v : string) (b : Builder) : Builder :=
  mkBuilder (map_set k v (imports b)) (styles b) (errors b)
    (transformedFiles b) (allImports b) (allCssImports b) (minted b).

Definition pushError (p e : string) (b : Builder) : Builder :=
  mkBuilder (imports b) (styles b) (errors b ++ [(p, e)])
    (transformedFiles b) (allImports b) (allCssImports b) (minted b).

Definition appendStyles (t : string) (b : Builder) : Builder :=
  mkBuilder (imports b) (styles b +:+ t) (errors b)
    (transformedFiles b) (allImports b) (allCssImports b) (minted b).

Definition addImportVariations (p blobUrl : string) (b : Builder) : Builder :=
  let b := setImport p blobUrl b in
  let b := if startsWith p "/" then setImport (substring1 p) blobUrl b
           else b in
  let b := if startsWith p "/"
           then setImport ("@/" +:+ substring1 p) blobUrl
                  (setImport ("@" +:+ p) blobUrl b)
           else b in
  let pathWithoutExt := removeFirst extensionRegex p in
  let b := setImport pathWithoutExt blobUrl b in
  if startsWith p "/"
  then setImport ("@/" +:+ substring1 pathWithoutExt) blobUrl
         (setImport ("@" +:+ pathWithoutExt) blobUrl
            (setImport (substring1 pathWithoutExt) blobUrl b))
  else b.

(** The body of [missingImports.forEach]. *)
Definition collectImport (b : Builder) (imp : string) : Builder :=
  if isPackage imp then setImport imp (CDN_BASE +:+ "/" +:+ imp) b
  else mkBuilder (imports b) (styles b) (errors b) (transformedFiles b)
         (setAdd imp (allImports b)) (allCssImports b) (minted b).

(** The body of [cssImports.forEach]; every object added to the set is a
    new one. *)
Definition collectCssImport (from : string) (b : Builder) (cssImport : string)
  : Builder :=
  mkBuilder (imports b) (styles b) (errors b) (transformedFiles b)
    (allImports b) (allCssImports b ++ [(from, cssImport)]) (minted b).

Definition processJavaScriptFile (p content : string)
  (existingFiles : list string) (b : Builder) : Builder :=
  let r := transformJSX content p existingFiles in
  if truthy (error r) then pushError p (default EmptyString (error r)) b
  else
    match createBlobURL (minted b) (code r) "application/javascript" with
    | Done blobUrl =>
        let b := mkBuilder (imports b) (styles b) (errors b)
                   (map_set p blobUrl (transformedFiles b))
                   (allImports b) (allCssImports b) (S (minted b)) in
        let b := addImportVariations p blobUrl b in
        let b := List.fold_left collectImport
                   (default [] (missingImports r)) b in
        List.fold_left (collectCssImport p) (default [] (cssImports r)) b
    | Thrown message => pushError p message b
    end.

Definition processCSSFile (p content : string) (b : Builder) : Builder :=
  appendStyles ("/* " +:+ p +:+ " */" +:+ nl +:+ content +:+ nl +:+ nl) b.

Definition isJavaScriptFile (p : string) : bool := test jsFileRegex p.

(** The body of the loop of [processFiles]. *)
Definition processFile (existingFiles : list string) (b : Builder)
  (entry : string * string) : Builder :=
  let '(p, content) := entry in
  if isJavaScriptFile p then processJavaScriptFile p content existingFiles b
  else if endsWith p ".css" then processCSSFile p content b
  else b.

Definition processFiles (files : list (string * string)) (b : Builder)
  : Builder :=
  List.fold_left (processFile (List.map fst files)) files b.

(** The body of the loop of [processCssImports]. *)
Definition processCssImport (files : list (string * string)) (b : Builder)
  (entry : string * string) : Builder :=
  let '(from, cssPath) := entry in
  let resolvedPath :=
    if startsWith cssPath "@/" then replaceFirst "@/" "/" cssPath
    else if startsWith cssPath "./" || startsWith cssPath "../"
         then resolveRelativePath (beforeLastSlash from) cssPath
         else cssPath in
  if negb (map_has resolvedPath files)
  then appendStyles ("/* " +:+ cssPath +:+ " not found */" +:+ nl) b
  else b.

Definition processCssImports (files : list (string * string)) (b : Builder)
  : Builder :=
  List.fold_left (processCssImport files) (allCssImports b) b.

Definition variations (importPath : string) : list string :=
  [ importPath;
    importPath +:+ ".jsx";
    importPath +:+ ".tsx";
    importPath +:+ ".js";
    importPath +:+ ".ts";
    replaceFirst "@/" "/" importPath;
    replaceFirst "@/" "/" importPath +:+ ".jsx";
    replaceFirst "@/" "/" importPath +:+ ".tsx" ].

Definition componentNameOf (importPath : string) : string :=
  match match1 lastSegmentRegex importPath with
  | Some segment => segment
  | None => removeAll (Chr (fun c => negb (isAlnum c))) importPath
  end.

(** One round of the loop of [createPlaceholderModules]; the call of
    [createBlobURL] stands in no [try]. *)
Definition placeholderStep (files : list (string * string)) (b : Builder)
  (importPath : string) : Try Builder :=
  if truthy (map_get importPath (imports b)) || startsWith importPath "react"
  then Done b
  else if isPackage importPath
  then Done (setImport importPath (CDN_BASE +:+ "/" +:+ importPath) b)
  else
    let found :=
      existsb (fun variant =>
                 truthy (map_get variant (imports b)) || map_has variant files)
        (variations importPath) in
    if found then Done b
    else
      let componentName := componentNameOf importPath in
      let placeholderCode := createPlaceholderModule componentName in
      match createBlobURL (minted b) placeholderCode "application/javascript"
      with
      | Thrown message => Thrown message
      | Done placeholderUrl =>
          let b := mkBuilder (imports b) (styles b) (errors b)
                     (transformedFiles b) (allImports b) (allCssImports b)
                     (S (minted b)) in
          let b := setImport importPath placeholderUrl b in
          Done
            (if startsWith importPath "@/"
             then setImport (replaceFirst "@/" EmptyString importPath)
                    placeholderUrl
                    (setImport (replaceFirst "@/" "/" importPath)
                       placeholderUrl b)
             else b)
      end.

Fixpoint placeholderLoop (files : list (string * string))
  (todo : list string) (b : Builder) : Try Builder :=
  match todo with
  | [] => Done b
  | importPath :: rest =>
      match placeholderStep files b importPath with
      | Done b' => placeholderLoop files rest b'
      | Thrown message => Thrown message
      end
  end.

Definition createPlaceholderModules (files : list (string * string))
  (b : Builder) : Try Builder :=
  placeholderLoop files (allImports b) b.

Definition newBuilder : Builder :=
  mkBuilder DEFAULT_IMPORTS EmptyString [] [] [] [] 0.

(** [build()] up to its [return]: the builder's final state. *)
Definition buildState (files : list (string * string)) : Try Builder :=
  createPlaceholderModules files
    (processCssImports files (processFiles files newBuilder)).

Definition build (files : list (string * string)) : Try ImportMapResult :=
  match buildState files with
  | Done b =>
      Done (mkImportMapResult (JSON_stringify_imports (imports b))
              (styles b) (errors b))
  | Thrown message => Thrown message
  end.

Definition createImportMap (files : list (string * string))
  : Try ImportMapResult := build files.

End Environment.

End Pipeline.

(** ** [src/lib/transform/html-template.ts] *)

Module Html.
Import JS Regex.
Import VFS (map_get).
Import Pipeline (Q, nl, truthy).

(** [interface PreviewHTMLOptions]; an absent [styles] is the empty
    string and an absent [errors] the empty array, as the destructuring
    defaults make them. *)
Record PreviewHTMLOptions := mkOptions {
  entryPoint : string;
  importMap : string;
  styles : string;
  errors : list (string * string)
}.

(** [s.replace(re, rep)] for a [g] pattern of one literal character. *)
Fixpoint replaceChar (c : ascii) (rep : string) (s : string) : string :=
  match s with
  | EmptyString => EmptyString
  | String d s' =>
      if Ascii.eqb d c then rep +:+ replaceChar c rep s'
      else String d (replaceChar c rep s')
  end.

Definition escapeHtml (unsafe : string) : string :=
  replaceChar "'" "&#x27;"
    (replaceChar Pipeline.dq "&quot;"
       (replaceChar ">" "&gt;"
          (replaceChar "<" "&lt;"
             (replaceChar "&" "&amp;" unsafe)))).

(** [\((\d+:\d+)\)] *)
Definition locationRegex : regex :=
  seqs [ Chr (isChar "(");
         Group (seqs [Plus (Chr isDigit); Chr (isChar ":"); Plus (Chr isDigit)]);
         Chr (isChar ")") ].

(** [s.trim()] *)
Fixpoint trimStart (s : string) : string :=
  match s with
  | EmptyString => EmptyString
  | String c s' => if isSpace c then trimStart s' else s
  end.

Fixpoint trimEnd (s : string) : string :=
  match s with
  | EmptyString => EmptyString
  | String c s' =>
      match trimEnd s' with
      | EmptyString => if isSpace c then EmptyString else String c EmptyString
      | t => String c t
      end
  end.

Definition trim (s : string) : string := trimEnd (trimStart s).

(** A number in a template literal: its decimal digits. *)
Definition showNat (n : nat) : string :=
  DecimalString.NilEmpty.string_of_uint (Nat.to_uint n).

Definition locationSpan (location : string) : string :=
  if negb (String.eqb location EmptyString)
  then "<span class=" +:+ Q +:+ "error-location" +:+ Q +:+ ">" +:+ escapeHtml location +:+ "</span>"
  else EmptyString.

(** The body of [errors.map]. *)
Definition errorItem (e : string * string) : string :=
  let location := default EmptyString (match1 locationRegex (snd e)) in
  let cleanError := trim (removeFirst locationRegex (snd e)) in
  "
      <div class=" +:+ Q +:+ "error-item" +:+ Q +:+ ">
        <div class=" +:+ Q +:+ "error-path" +:+ Q +:+ ">
          "
  +:+ escapeHtml (fst e)
  +:+ "
          "
  +:+ locationSpan location
  +:+ "
        </div>
        <div class=" +:+ Q +:+ "error-message" +:+ Q +:+ ">"
  +:+ escapeHtml cleanError
  +:+ "</div>
      </div>
    ".

Definition generateErrorDisplay (errors : list (string * string)) : string :=
  match errors with
  | [] => EmptyString
  | _ =>
      let errorItems := String.concat EmptyString (List.map errorItem errors) in
      "
    <div class=" +:+ Q +:+ "syntax-errors" +:+ Q +:+ ">
      <h3>
        <svg width=" +:+ Q +:+ "20" +:+ Q +:+ " height=" +:+ Q +:+ "20" +:+ Q +:+ " viewBox=" +:+ Q +:+ "0 0 20 20" +:+ Q +:+ " fill=" +:+ Q +:+ "none" +:+ Q +:+ " style=" +:+ Q +:+ "flex-shrink: 0;" +:+ Q +:+ ">
          <path d=" +:+ Q +:+ "M10 0C4.48 0 0 4.48 0 10s4.48 10 10 10 10-4.48 10-10S15.52 0 10 0zm1 15h-2v-2h2v2zm0-4h-2V5h2v6z" +:+ Q +:+ " fill=" +:+ Q +:+ "#dc2626" +:+ Q +:+ "/>
        </svg>
        Syntax Error"
  +:+ (if Nat.ltb 1 (length errors) then "s" else EmptyString)
  +:+ " ("
  +:+ showNat (length errors)
  +:+ ")
      </h3>
      "
  +:+ errorItems
  +:+ "
    </div>
  "
  end.

Definition BASE_STYLES : string :=
  "
  body {
    margin: 0;
    padding: 0;
    font-family: -apple-system, BlinkMacSystemFont, 'Segoe UI', Roboto, sans-serif;
  }
  #root {
    width: 100vw;
    height: 100vh;
  }
  .error-boundary {
    color: red;
    padding: 1rem;
    border: 2px solid red;
    margin: 1rem;
    border-radius: 4px;
    background: #fee;
  }
  .syntax-errors {
    background: #fef5f5;
    border: 2px solid #ff6b6b;
    border-radius: 12px;
    padding: 32px;
    margin: 24px;
    font-family: 'SF Mono', Monaco, Consolas, 'Courier New', monospace;
    font-size: 14px;
    box-shadow: 0 4px 6px rgba(0, 0, 0, 0.1);
  }
  .syntax-errors h3 {
    color: #dc2626;
    margin: 0 0 20px 0;
    font-size: 18px;
    font-weight: 600;
    display: flex;
    align-items: center;
    gap: 8px;
  }
  .syntax-errors .error-item {
    margin: 16px 0;
    padding: 16px;
    background: #fff;
    border-radius: 8px;
    border-left: 4px solid #ff6b6b;
    box-shadow: 0 2px 4px rgba(0, 0, 0, 0.05);
  }
  .syntax-errors .error-path {
    font-weight: 600;
    color: #991b1b;
    font-size: 15px;
    margin-bottom: 8px;
  }
  .syntax-errors .error-message {
    color: #7c2d12;
    margin-top: 8px;
    white-space: pre-wrap;
    line-height: 1.5;
    font-size: 13px;
  }
  .syntax-errors .error-location {
    display: inline-block;
    background: #fee0e0;
    padding: 2px 6px;
    border-radius: 4px;
    font-size: 12px;
    margin-left: 8px;
    color: #991b1b;
  }
".

Definition styleBlock (styles : string) : string :=
  if negb (String.eqb styles EmptyString)
  then "<style>" +:+ nl +:+ styles +:+ "</style>"
  else EmptyString.

Section Json.

(** [JSON.stringify] of a string, and the [imports] object that
    [JSON.parse] finds in a text ([None] when it throws or finds none). *)
Variable JSON_stringify_string : string -> string.
Variable JSON_parse_imports : string -> option (list (string * string)).

Definition generateAppScript (entryPointUrl entryPoint importMap : string)
  : string :=
  "
    <script type=" +:+ Q +:+ "module" +:+ Q +:+ ">
      import React from 'react';
      import ReactDOM from 'react-dom/client';
      
      class ErrorBoundary extends React.Component {
        constructor(props) {
          super(props);
          this.state = { hasError: false, error: null };
        }

        static getDerivedStateFromError(error) {
          return { hasError: true, error };
        }

        componentDidCatch(error, errorInfo) {
          console.error('Error caught by boundary:', error, errorInfo);
        }

        render() {
          if (this.state.hasError) {
            return React.createElement('div', { className: 'error-boundary' },
              React.createElement('h2', null, 'Something went wrong'),
              React.createElement('pre', null, this.state.error?.toString())
            );
          }

          return this.props.children;
        }
      }

      async function loadApp() {
        try {
          if (!('"
  +:+ entryPointUrl
  +:+ "'.startsWith('blob:') || '"
  +:+ entryPointUrl
  +:+ "'.startsWith('https://esm.sh/'))) {
            throw new Error('Invalid entry point URL: Only blob URLs and esm.sh URLs are allowed');
          }
          
          const module = await import('"
  +:+ entryPointUrl
  +:+ "');
          const App = module.default || module.App;
          
          if (!App) {
            throw new Error('No default export or App export found in "
  +:+ entryPoint
  +:+ "');
          }

          const root = ReactDOM.createRoot(document.getElementById('root'));
          root.render(
            React.createElement(ErrorBoundary, null,
              React.createElement(App)
            )
          );
        } catch (error) {
          console.error('Failed to load app:', error);
          console.error('Import map:', "
  +:+ JSON_stringify_string importMap
  +:+ ");
          
          const rootElement = document.getElementById('root');
          if (rootElement) {
            rootElement.textContent = '';
            
            const errorDiv = document.createElement('div');
            errorDiv.className = 'error-boundary';
            
            const heading = document.createElement('h2');
            heading.textContent = 'Failed to load app';
            
            const pre = document.createElement('pre');
            pre.textContent = error.toString();
            
            errorDiv.appendChild(heading);
            errorDiv.appendChild(pre);
            rootElement.appendChild(errorDiv);
          }
        }
      }

      loadApp();
    </script>
  ".

(** The [try] block of [createPreviewHTML]. *)
Definition resolveEntryPoint (entryPoint importMap : string) : string :=
  match JSON_parse_imports importMap with
  | Some importsObj =>
      if truthy (map_get entryPoint importsObj)
      then default entryPoint (map_get entryPoint importsObj)
      else entryPoint
  | None => entryPoint
  end.

(** The template of [createPreviewHTML], up to [<body>] ... *)
Definition previewHead (styles importMap : string) : string :=
  "<!DOCTYPE html>
<html lang=" +:+ Q +:+ "en" +:+ Q +:+ ">
<head>
  <meta charset=" +:+ Q +:+ "UTF-8" +:+ Q +:+ ">
  <meta name=" +:+ Q +:+ "viewport" +:+ Q +:+ " content=" +:+ Q +:+ "width=device-width, initial-scale=1.0" +:+ Q +:+ ">
  <title>Preview</title>
  <script src=" +:+ Q +:+ "https://cdn.tailwindcss.com" +:+ Q +:+ "></script>
  <style>
    "
  +:+ BASE_STYLES
  +:+ "
  </style>
  "
  +:+ styleBlock styles
  +:+ "
  <script type=" +:+ Q +:+ "importmap" +:+ Q +:+ ">
    "
  +:+ importMap
  +:+ "
  </script>
</head>
".

(** ... and from [<body>] on, with its two slots. *)
Definition previewBody (errorSlot scriptSlot : string) : string :=
  "<body>
  "
  +:+ errorSlot
  +:+ "
  <div id=" +:+ Q +:+ "root" +:+ Q +:+ "></div>
  "
  +:+ scriptSlot
  +:+ "
</body>
</html>".

Definition createPreviewHTML (options : PreviewHTMLOptions) : string :=
  let entryPointUrl :=
    resolveEntryPoint (entryPoint options) (importMap options) in
  let hasErrors := Nat.ltb 0 (length (errors options)) in
  previewHead (styles options) (importMap options) +:+
  previewBody
    (if hasErrors then generateErrorDisplay (errors options) else EmptyString)
    (if negb hasErrors
     then generateAppScript entryPointUrl (entryPoint options)
            (importMap options)
     else EmptyString).

End Json.

End Html.

(** * Properties of the path algebra *)

Module PathFacts.
Import JS PathUtils.

(** C7, at the input that refutes it.  [normalizePath] drops one trailing
    slash and only then collapses the runs of slashes, so that a path
    ending in two slashes keeps one; a second pass removes it.  The
    function is not idempotent. *)
Theorem normalizePath_twice_differs :
  normalizePath "/a//" = "/a/"
  /\ normalizePath (normalizePath "/a//") = "/a"
  /\ normalizePath (normalizePath "/a//") <> normalizePath "/a//".
Proof. repeat split; vm_compute; congruence. Qed.

End PathFacts.

(** * Strings: concatenation and occurrences *)

Module StringFacts.
Import JS.

Lemma app_cons c (s t : string) : String c s +:+ t = String c (s +:+ t).
Proof. reflexivity. Qed.

Lemma app_nil_l (s : string) : "" +:+ s = s.
Proof. reflexivity. Qed.

Lemma app_nil_r (s : string) : s +:+ "" = s.
Proof. induction s as [|c s IH]; [done|]. by rewrite app_cons, IH. Qed.

Lemma app_assoc (s t u : string) : (s +:+ t) +:+ u = s +:+ t +:+ u.
Proof. induction s as [|c s IH]; [done|]. by rewrite !app_cons, IH. Qed.

Lemma length_app (s t : string) :
  String.length (s +:+ t) = String.length s + String.length t.
Proof. induction s as [|c s IH]; [done|]. rewrite app_cons. cbn. by rewrite IH. Qed.

Lemma prefix_app (n t : string) : String.prefix n (n +:+ t) = true.
Proof.
  induction n as [|a n IH]; [by destruct t|]. rewrite app_cons.
  cbn [String.prefix]. destruct (ascii_dec a a); done.
Qed.

(** [needle] occurs in [s]. *)
Definition occursIn (needle s : string) : Prop :=
  exists a b, s = a +:+ needle +:+ b.

Lemma occursIn_here a needle b : occursIn needle (a +:+ needle +:+ b).
Proof. by exists a, b. Qed.

Lemma occursIn_refl s : occursIn s s.
Proof. exists "", "". by rewrite app_nil_r. Qed.

Lemma occursIn_app_r needle a s : occursIn needle s -> occursIn needle (a +:+ s).
Proof.
  intros (x & y & ->). exists (a +:+ x), y. by rewrite app_assoc.
Qed.

Lemma occursIn_app_l needle s b : occursIn needle s -> occursIn needle (s +:+ b).
Proof.
  intros (x & y & ->). exists x, (y +:+ b). by rewrite !app_assoc.
Qed.

Lemma occursIn_trans a b c : occursIn a b -> occursIn b c -> occursIn a c.
Proof.
  intros Hab (x & y & ->). by apply occursIn_app_r, occursIn_app_l.
Qed.










Lemma includesChar_app c s t :
  includesChar c (s +:+ t) = includesChar c s || includesChar c t.
Proof.
  induction s as [|d s IH]; [done|]. rewrite app_cons. cbn.
  by rewrite IH, orb_assoc.
Qed.

End StringFacts.

(** * The [Map] operations *)

Module MapFacts.
Import VFS.

Section JSMap.
Context {K V : Type} `{EqDecision K}.
Implicit Types (k : K) (v : V) (m : list (K * V)).

Lemma map_get_set_eq k v m : map_get k (map_set k v m) = Some v.
Proof.
  induction m as [|[k' v'] m IH]; cbn.
  - rewrite decide_True by done. done.
  - destruct (decide (k = k')) as [->|Hne]; cbn.
    + rewrite decide_True by done. done.
    + rewrite decide_False by done. done.
Qed.

Lemma map_get_set_ne k k' v m :
  k <> k' -> map_get k' (map_set k v m) = map_get k' m.
Proof.
  intros Hne. induction m as [|[k0 v0] m IH]; cbn.
  - rewrite decide_False by done. done.
  - destruct (decide (k = k0)) as [->|Hne0]; cbn.
    + rewrite !decide_False by done. done.
    + destruct (decide (k' = k0)); done.
Qed.

Lemma map_get_set k k' v m :
  map_get k' (map_set k v m)
  = if decide (k = k') then Some v else map_get k' m.
Proof.
  destruct (decide (k = k')) as [->|Hne].
  - apply map_get_set_eq.
  - apply map_get_set_ne, Hne.
Qed.

Lemma map_get_delete_eq k m : map_get k (map_delete k m) = None.
Proof.
  induction m as [|[k' v'] m IH]; cbn; [done|].
  destruct (decide (k = k')) as [->|Hne]; cbn; [done|].
  rewrite decide_False by done. done.
Qed.

Lemma map_get_delete_ne k k' m :
  k <> k' -> map_get k' (map_delete k m) = map_get k' m.
Proof.
  intros Hne. induction m as [|[k0 v0] m IH]; cbn; [done|].
  destruct (decide (k = k0)) as [->|Hne0]; cbn.
  - rewrite decide_False by done. done.
  - destruct (decide (k' = k0)); done.
Qed.

Lemma map_get_delete k k' m :
  map_get k' (map_delete k m)
  = if decide (k = k') then None else map_get k' m.
Proof.
  destruct (decide (k = k')) as [->|Hne].
  - apply map_get_delete_eq.
  - apply map_get_delete_ne, Hne.
Qed.

Lemma map_has_get k m : map_has k m = true <-> is_Some (map_get k m).
Proof.
  unfold map_has. destruct (map_get k m) as [v|]; split; intros H'.
  - by exists v.
  - done.
  - done.
  - by destruct H'.
Qed.

Lemma map_has_false k m : map_has k m = false <-> map_get k m = None.
Proof. unfold map_has. destruct (map_get k m); split; done. Qed.

Lemma map_get_Some_In k v m : map_get k m = Some v -> (k, v) ∈ m.
Proof.
  induction m as [|[k' v'] m IH]; cbn; [done|].
  destruct (decide (k = k')) as [->|Hne].
  - intros [= ->]. left.
  - intros Hg. right. auto.
Qed.

Lemma map_get_None_notin k m : map_get k m = None -> k ∉ m.*1.
Proof.
  induction m as [|[k' v'] m IH]; cbn; [intros _; apply not_elem_of_nil|].
  destruct (decide (k = k')) as [->|Hne]; [done|].
  intros Hg. apply not_elem_of_cons. split; auto.
Qed.

Lemma map_get_In_NoDup k v m :
  NoDup m.*1 -> (k, v) ∈ m -> map_get k m = Some v.
Proof.
  induction m as [|[k' v'] m IH]; cbn; intros Hnd Hin.
  - by apply elem_of_nil in Hin.
  - apply NoDup_cons in Hnd as [Hk Hnd].
    apply elem_of_cons in Hin as [[= -> ->]|Hin].
    + rewrite decide_True by done. done.
    + destruct (decide (k = k')) as [->|Hne]; [|auto].
      destruct Hk. apply list_elem_of_fmap. by exists (k', v).
Qed.

Lemma map_set_keys k v m :
  (map_set k v m).*1
  = if map_has k m then m.*1 else m.*1 ++ [k].
Proof.
  unfold map_has. induction m as [|[k' v'] m IH]; cbn; [done|].
  destruct (decide (k = k')) as [->|Hne]; cbn; [done|].
  rewrite IH. destruct (map_get k m); done.
Qed.

Lemma map_set_NoDup k v m : NoDup m.*1 -> NoDup (map_set k v m).*1.
Proof.
  intros Hnd. rewrite map_set_keys.
  destruct (map_has k m) eqn:Hh; [done|].
  apply NoDup_app. split; [done|]. split; [|apply NoDup_singleton].
  intros x Hx ->%list_elem_of_singleton.
  apply map_has_false, map_get_None_notin in Hh. done.
Qed.

Lemma map_delete_keys_subset k k' m :
  k' ∈ (map_delete k m).*1 -> k' ∈ m.*1.
Proof.
  induction m as [|[k0 v0] m IH]; cbn; [done|].
  destruct (decide (k = k0)) as [->|Hne]; cbn.
  - intros Hin. right. auto.
  - intros [->|Hin]%elem_of_cons; [left|right; auto].
Qed.

Lemma map_delete_NoDup k m : NoDup m.*1 -> NoDup (map_delete k m).*1.
Proof.
  induction m as [|[k0 v0] m IH]; cbn; [done|].
  intros [Hk Hnd]%NoDup_cons.
  destruct (decide (k = k0)) as [->|Hne]; cbn; [auto|].
  apply NoDup_cons. split; [|auto].
  intros Hin. apply Hk. eapply map_delete_keys_subset, Hin.
Qed.

End JSMap.

End MapFacts.
(** * The file system: validation, and the calls that break the tree *)

Module VFSFacts.
Import JS PathUtils VFS.

(** What a caller can observe of a state: the indexed paths, each with
    the kind of its node and its content. *)
Definition observe (fs : VirtualFileSystem)
  : list (string * NodeType * string) :=
  List.map (fun '(p, r) =>
              (p, type (deref fs r), orEmpty (content (deref fs r))))
    (files fs).

(** The state a call leaves behind, whether it returns or throws. *)
Definition after {A} (o : Outcome A) : VirtualFileSystem :=
  match o with
  | Returns _ fs => fs
  | Throws _ fs => fs
  end.

(** ** Stepping through a method *)

Section Steps.
Context {A B : Type}.
Implicit Types (k : A -> M B) (fs : VirtualFileSystem).

Lemma bind_ret (a : A) k fs : bind (ret a) k fs = k a fs.
Proof. reflexivity. Qed.

Lemma bind_throw e k fs : bind (throw e) k fs = Throws e fs.
Proof. reflexivity. Qed.

Lemma bind_bind {C} (m : M C) (f : C -> M A) k fs :
  bind (bind m f) k fs = bind m (fun x => bind (f x) k) fs.
Proof. unfold bind. destruct (m fs); reflexivity. Qed.

Lemma bind_Returns (m : M A) k fs a fs' :
  m fs = Returns a fs' -> bind m k fs = k a fs'.
Proof. unfold bind. intros ->. reflexivity. Qed.

Lemma bind_Throws (m : M A) k fs e fs' :
  m fs = Throws e fs' -> bind m k fs = Throws e fs'.
Proof. unfold bind. intros ->. reflexivity. Qed.

End Steps.

Section PrimitiveSteps.
Context {B : Type}.
Implicit Types (fs : VirtualFileSystem).

Lemma bind_read r (k : FileNode -> M B) fs :
  bind (read r) k fs = k (deref fs r) fs.
Proof. reflexivity. Qed.

Lemma bind_get (k : VirtualFileSystem -> M B) fs : bind get k fs = k fs fs.
Proof. reflexivity. Qed.

Lemma bind_put fs' (k : unit -> M B) fs : bind (put fs') k fs = k tt fs'.
Proof. reflexivity. Qed.

Lemma bind_write r n (k : unit -> M B) fs :
  bind (write r n) k fs
  = k tt (mkVFS (<[r := n]> (store fs)) (files fs) (root fs)).
Proof. reflexivity. Qed.

Lemma bind_alloc n (k : ref -> M B) fs :
  bind (alloc n) k fs
  = k (length (store fs)) (mkVFS (store fs ++ [n]) (files fs) (root fs)).
Proof. reflexivity. Qed.

Lemma bind_filesGet p (k : option ref -> M B) fs :
  bind (filesGet p) k fs = k (map_get p (files fs)) fs.
Proof. reflexivity. Qed.

Lemma bind_filesSet p r (k : unit -> M B) fs :
  bind (filesSet p r) k fs
  = k tt (mkVFS (store fs) (map_set p r (files fs)) (root fs)).
Proof. reflexivity. Qed.

Lemma bind_filesDelete p (k : unit -> M B) fs :
  bind (filesDelete p) k fs
  = k tt (mkVFS (store fs) (map_delete p (files fs)) (root fs)).
Proof. reflexivity. Qed.

Lemma bind_exists p (k : bool -> M B) fs :
  bind (exists_ p) k fs = k (existsIn fs p) fs.
Proof. reflexivity. Qed.

Lemma bind_getParentNode p (k : option ref -> M B) fs :
  bind (getParentNode p) k fs = k (map_get (getParentPath p) (files fs)) fs.
Proof. reflexivity. Qed.

End PrimitiveSteps.

Lemma ret_eq {A} (a : A) fs : ret a fs = Returns a fs.
Proof. reflexivity. Qed.

Lemma throw_eq {A} e fs : @throw A e fs = Throws e fs.
Proof. reflexivity. Qed.

Lemma forEach_nil {A} (body : A -> M unit) fs :
  forEach [] body fs = Returns tt fs.
Proof. reflexivity. Qed.

Lemma forEach_cons {A} x l (body : A -> M unit) fs :
  forEach (x :: l) body fs = bind (body x) (fun _ => forEach l body) fs.
Proof. reflexivity. Qed.

Lemma deref_mkVFS s f r i :
  deref (mkVFS s f r) i = match s !! i with Some n => n | None => nullNode end.
Proof. reflexivity. Qed.

Create Rewrite HintDb vfs.
#[global] Hint Rewrite @bind_ret @bind_throw @bind_read @bind_get @bind_put
  @bind_write @bind_alloc @bind_filesGet @bind_filesSet @bind_filesDelete
  @bind_exists @bind_getParentNode @ret_eq @throw_eq @forEach_nil
  @forEach_cons @bind_bind : vfs.

#[global] Arguments bind : simpl never.
#[global] Arguments deref : simpl never.

(** One pass: the next primitive of the method runs, and the record
    projections it leaves are computed. *)
Ltac vfs_steps :=
  repeat (progress (autorewrite with vfs; cbv beta;
                    cbn [store files root type name path content children])).

(** The same on a store that is written out: the lookups are computed. *)
Ltac vfs_run :=
  repeat (progress (vfs_steps; rewrite ?deref_mkVFS;
                    cbn [lookup list_lookup insert list_insert length app
                         type name path content children])).

(** ** Validation (C10) *)

Lemma validatePath_violation p e fs :
  pathViolation p = Some e -> validatePath p fs = Throws e fs.
Proof. unfold validatePath. intros ->. reflexivity. Qed.

Lemma validatePath_ok p fs :
  pathViolation p = None -> validatePath p fs = Returns tt fs.
Proof. unfold validatePath. intros ->. reflexivity. Qed.

Lemma validateContent_violation c e fs :
  contentViolation c = Some e -> validateContent c fs = Throws e fs.
Proof. unfold validateContent. intros ->. reflexivity. Qed.

(** C10 as the specification states it fails: on the empty path,
    [exists], [getNode] and [listDirectory] return [false] and [null];
    nothing is thrown. *)
Lemma exists_of_invalid_path_returns :
  pathViolation "" = Some INVALID_PATH
  /\ exists_ "" VFS.new = Returns false VFS.new
  /\ getNode "" VFS.new = Returns None VFS.new
  /\ listDirectory "" VFS.new = Returns None VFS.new
  /\ ~ (forall p e fs, pathViolation p = Some e ->
          exists_ p fs = Throws e fs).
Proof.
  repeat split; try reflexivity.
  intros H. specialize (H "" INVALID_PATH VFS.new eq_refl). discriminate.
Qed.

(** C10, amended.  A path that fails validation makes [createFile],
    [createDirectory], [readFile], [updateFile], [deleteFile] and [rename]
    (in either argument) throw the error of [validatePath] before they
    touch the state; with a valid path, content beyond the maximum makes
    [createFile] and [updateFile] throw [FILE_TOO_LARGE].  The three
    queries never throw: [exists] answers [false] and the other two
    [null] for an empty path or one with a NUL, and none checks the
    length. *)
Theorem invalid_arguments_throw fs stack p e :
  pathViolation p = Some e ->
  (forall c q,
      createFile p c fs = Throws e fs
      /\ createDirectory p fs = Throws e fs
      /\ readFile p fs = Throws e fs
      /\ updateFile p c fs = Throws e fs
      /\ deleteFile stack p fs = Throws e fs
      /\ rename stack p q fs = Throws e fs
      /\ (pathViolation q = None -> rename stack q p fs = Throws e fs))
  /\ (forall q c e',
         pathViolation q = None -> contentViolation c = Some e' ->
         createFile q c fs = Throws e' fs
         /\ updateFile q c fs = Throws e' fs)
  /\ (forall q,
         exists_ q fs = Returns (existsIn fs q) fs
         /\ (exists v, getNode q fs = Returns v fs)
         /\ (exists v, listDirectory q fs = Returns v fs)
         /\ (isValidPath q = false ->
             exists_ q fs = Returns false fs
             /\ getNode q fs = Returns None fs
             /\ listDirectory q fs = Returns None fs)).
Proof.
  intros Hp. split; [|split].
  - intros c q.
    unfold createFile, createDirectory, readFile, updateFile, deleteFile,
      rename, bind.
    rewrite !(validatePath_violation _ _ _ Hp). repeat split; try reflexivity.
    intros Hq. rewrite (validatePath_ok _ _ Hq).
    rewrite (validatePath_violation _ _ _ Hp). reflexivity.
  - intros q c e' Hq Hc. unfold createFile, updateFile, bind.
    rewrite (validatePath_ok _ _ Hq), (validateContent_violation _ _ _ Hc).
    split; reflexivity.
  - intros q. split; [reflexivity|]. split; [|split].
    + unfold getNode. destruct (negb (isValidPath q)); eexists; reflexivity.
    + unfold listDirectory, bind, filesGet.
      destruct (negb (isValidPath q)); [eexists; reflexivity|].
      destruct (map_get _ _); [|eexists; reflexivity].
      unfold read. destruct (decide _); eexists; reflexivity.
    + intros Hq. unfold exists_, existsIn, getNode, listDirectory.
      rewrite Hq. repeat split; reflexivity.
Qed.

Lemma invalid_arguments_throw_witness :
  pathViolation "" = Some INVALID_PATH
  /\ createFile "" "x" VFS.new = Throws INVALID_PATH VFS.new.
Proof.
  split; [reflexivity|].
  exact (proj1 (proj1 (invalid_arguments_throw VFS.new 0 "" INVALID_PATH
                         eq_refl) "x" "")).
Defined.

(** ** A directory renamed into itself (C1) *)

(** The store after [rename("/a", "/a/b")] has relinked the directory
    [/a] and before it rewrites the paths below it: the directory, now
    named [b], has been unhooked from the root and hooked under the node
    found at [/a], which is itself.  [p] is the path it carries. *)
Definition selfLoop (p : string) : VirtualFileSystem :=
  mkVFS
    [ mkNode directory "/" "/" None (Some []);
      mkNode directory "b" p None (Some [("b", 1)]) ]
    [("/", 0); (p, 1)] 0.

(** The path after [n] more rounds. *)
Fixpoint grown (n : nat) (p : string) : string :=
  match n with
  | 0 => p
  | S n => grown n (p +:+ "/" +:+ "b")
  end.

Lemma append_slash_b_not_root p : p +:+ "/" +:+ "b" <> "/".
Proof. destruct p as [|c [|d p]]; discriminate. Qed.

Lemma updateChildrenPaths_selfLoop stack p :
  p <> "/" ->
  updateChildrenPaths stack 1 (selfLoop p)
  = Throws RangeError (selfLoop (grown stack p)).
Proof.
  revert p. induction stack as [|stack IH]; intros p Hp; [reflexivity|].
  cbn [updateChildrenPaths]. unfold selfLoop at 1. vfs_run.
  cbn [map_delete map_set].
  rewrite (decide_False (P := p = "/")) by done.
  rewrite (decide_True (P := p = p)) by done.
  cbn [map_set].
  rewrite (decide_False (P := p +:+ "/" +:+ "b" = "/"))
    by apply append_slash_b_not_root.
  rewrite (decide_True (P := directory = directory)) by done.
  fold (selfLoop (p +:+ "/" +:+ "b")).
  rewrite bind_Throws with (e := RangeError)
    (fs' := selfLoop (grown stack (p +:+ "/" +:+ "b"))).
  - reflexivity.
  - apply IH, append_slash_b_not_root.
Qed.

Lemma grown_not_root n p : p <> "/" -> grown n p <> "/".
Proof.
  revert p. induction n as [|n IH]; intros p Hp; [exact Hp|].
  apply IH, append_slash_b_not_root.
Qed.

(** C1, at the input that refutes it.  After [createDirectory("/a")],
    the call [rename("/a", "/a/b")] never returns, whatever the depth of
    stack the engine grants: it ends in the stack overflow.  In the state
    it leaves behind the renamed directory is its own child; it is
    indexed, under the path it carries, but the root has no child, so
    that the index and the tree disagree. *)
Theorem rename_into_own_subtree_overflows (stack : nat) :
  exists fs',
    createDirectory "/a" VFS.new
      = Returns (Some 1)
          (mkVFS [ mkNode directory "/" "/" None (Some [("a", 1)]);
                   mkNode directory "a" "/a" None (Some []) ]
             [("/", 0); ("/a", 1)] 0)
    /\ rename stack "/a" "/a/b" (after (createDirectory "/a" VFS.new))
       = Throws RangeError fs'
    /\ children (deref fs' 1) = Some [("b", 1)]
    /\ map_get (path (deref fs' 1)) (files fs') = Some 1
    /\ children (deref fs' (root fs')) = Some [].
Proof.
  exists (selfLoop (grown stack "/a/b")).
  split; [reflexivity|]. split.
  - change (rename stack "/a" "/a/b" (after (createDirectory "/a" VFS.new)))
      with (bind (updateChildrenPaths stack 1) (fun _ => ret true)
              (selfLoop "/a/b")).
    rewrite bind_Throws with (e := RangeError)
      (fs' := selfLoop (grown stack "/a/b")); [reflexivity|].
    apply updateChildrenPaths_selfLoop. discriminate.
  - split; [reflexivity|]. split; [|reflexivity].
    unfold selfLoop. rewrite deref_mkVFS.
    cbn [lookup list_lookup path files map_get].
    rewrite decide_False by (apply grown_not_root; discriminate).
    rewrite decide_True by reflexivity. reflexivity.
Qed.

(** ** A path with a doubled trailing slash (C5, C8) *)

(** A method run for the state it leaves. *)
Definition andThen {A} (fs : VirtualFileSystem) (m : M A)
  : VirtualFileSystem := after (m fs).

(** C5, at the input that refutes it.  [createFile("/a//", "x")] stores
    the file under the path [/a/], with one trailing slash, since that is
    what [normalizePath] makes of the argument.  [serialize] keys the
    descriptor by that path; [deserializeFromNodes] hands the key to
    [createFile], which normalizes it once more, to [/a].  The round trip
    changes the set of paths, and [exists("/a//")] turns from [true] to
    [false]. *)
Theorem roundtrip_changes_paths :
  let fs1 := andThen VFS.new (createFile "/a//" "x") in
  let fs2 := andThen VFS.new (deserializeFromNodes (serialize fs1)) in
  createFile "/a//" "x" VFS.new = Returns (Some 1) fs1
  /\ serialize fs1
     = [ ("/", mkNode directory "/" "/" None None);
         ("/a/", mkNode file "a" "/a/" (Some "x") None) ]
  /\ deserializeFromNodes (serialize fs1) VFS.new = Returns tt fs2
  /\ observe fs1 = [("/", directory, ""); ("/a/", file, "x")]
  /\ observe fs2 = [("/", directory, ""); ("/a", file, "x")]
  /\ existsIn fs1 "/a//" = true
  /\ existsIn fs2 "/a//" = false.
Proof. vm_compute. repeat split. Qed.

(** C8, at the input that refutes it.  Four calls, each returning
    normally, leave the file [/p/q] indexed while [/p] is not: the first
    stores a file under [/p/q/], the second a file [/p/q] that takes its
    place among the children of [/p], the third deletes the first and with
    it the child entry [q], so that the fourth, deleting [/p], does not
    see the file.  Then [createFile("/p/q/r", "c")] fails, [/p/q]
    being a file, and returns [null]; but on its way it has created the
    directory [/p]. *)
Theorem failed_createFile_changes_state (stack : nat) :
  let fs1 := andThen VFS.new (createFile "/p/q//" "a") in
  let fs2 := andThen fs1 (createFile "/p/q" "b") in
  let fs3 := andThen fs2 (deleteFile (S stack) "/p/q//") in
  let fs4 := andThen fs3 (deleteFile (S stack) "/p") in
  let fs5 := andThen fs4 (createFile "/p/q/r" "c") in
  createFile "/p/q//" "a" VFS.new = Returns (Some 2) fs1
  /\ createFile "/p/q" "b" fs1 = Returns (Some 3) fs2
  /\ deleteFile (S stack) "/p/q//" fs2 = Returns true fs3
  /\ deleteFile (S stack) "/p" fs3 = Returns true fs4
  /\ observe fs4 = [("/", directory, ""); ("/p/q", file, "b")]
  /\ createFile "/p/q/r" "c" fs4 = Returns None fs5
  /\ observe fs5
     = [("/", directory, ""); ("/p/q", file, "b"); ("/p", directory, "")]
  /\ existsIn fs4 "/p" = false
  /\ existsIn fs5 "/p" = true.
Proof. vm_compute. repeat split. Qed.

End VFSFacts.
(** * The import map builder *)

Module PipelineFacts.
Import JS PathUtils Regex Pipeline.
Import VFS (map_get, map_has, map_set, map_delete).
Import MapFacts.

(** Whether the typescript preset is on for a file name. *)
Definition isTypeScript (filename : string) : bool :=
  endsWith filename ".ts" || endsWith filename ".tsx".

(** What [transformJSX] hands to Babel. *)
Definition processedCode (code : string) : string :=
  removeAll cssImportRegex code.

(** The executable and the stylesheet specifiers it finds in a source. *)
Definition importsOf (code : string) : list string :=
  setOf (List.filter (fun m => negb (endsWith m ".css"))
           (execAll importRegex code)).

Definition cssImportsOf (code : string) : list string :=
  setOf (execAll cssImportRegex code).

Section Environment.
Variable babel : string -> string -> bool -> BabelOutcome.
Variable createObjectURL : nat -> string -> string.
Variable JSON_stringify_imports : list (string * string) -> string.

Lemma transformJSX_returns code filename existingFiles result :
  babel (processedCode code) filename (isTypeScript filename)
    = BabelReturns result ->
  transformJSX babel code filename existingFiles
  = mkTransformResult (default EmptyString result) None
      (Some (importsOf code)) (Some (cssImportsOf code)).
Proof.
  unfold transformJSX, processedCode, isTypeScript. intros ->. reflexivity.
Qed.

Lemma transformJSX_throws code filename existingFiles message :
  babel (processedCode code) filename (isTypeScript filename)
    = BabelThrows message ->
  transformJSX babel code filename existingFiles
  = mkTransformResult EmptyString (Some message) None None.
Proof.
  unfold transformJSX, processedCode, isTypeScript. intros ->. reflexivity.
Qed.

Lemma javascript_allowed : "application/javascript" ∈ allowedMimeTypes.
Proof. unfold allowedMimeTypes. left. Qed.

Lemma createBlobURL_clean n code :
  firstMatching dangerousPatterns code = None ->
  createBlobURL createObjectURL n code "application/javascript"
  = Done (createObjectURL n code).
Proof.
  unfold createBlobURL. intros ->.
  by rewrite bool_decide_true by apply javascript_allowed.
Qed.

Lemma createBlobURL_dangerous n code source :
  firstMatching dangerousPatterns code = Some source ->
  createBlobURL createObjectURL n code "application/javascript"
  = Thrown ("Code contains potentially dangerous patterns: " +:+ source).
Proof.
  unfold createBlobURL. intros ->.
  by rewrite bool_decide_true by apply javascript_allowed.
Qed.

(** ** Which files get an error (C4) *)

(** The error that [processJavaScriptFile] records for a file, if any:
    the message Babel threw, unless it is empty, or else the refusal of
    [createBlobURL]. *)
Definition fileError (p content : string) : option string :=
  match babel (processedCode content) p (isTypeScript p) with
  | BabelThrows message =>
      if String.eqb message EmptyString then None else Some message
  | BabelReturns result =>
      match firstMatching dangerousPatterns (default EmptyString result) with
      | Some source =>
          Some ("Code contains potentially dangerous patterns: " +:+ source)
      | None => None
      end
  end.

Lemma errors_addImportVariations p url b :
  errors (addImportVariations p url b) = errors b.
Proof. unfold addImportVariations. by destruct (startsWith p "/"). Qed.

Lemma errors_collectImports l b :
  errors (List.fold_left collectImport l b) = errors b.
Proof.
  revert b. induction l as [|x l IH]; intros b; cbn; [done|].
  rewrite IH. unfold collectImport. by destruct (isPackage x).
Qed.

Lemma errors_collectCssImports from l b :
  errors (List.fold_left (collectCssImport from) l b) = errors b.
Proof.
  revert b. induction l as [|x l IH]; intros b; cbn; [done|]. by rewrite IH.
Qed.

Lemma errors_processJavaScriptFile p content ex b :
  errors (processJavaScriptFile babel createObjectURL p content ex b)
  = errors b ++ match fileError p content with
                | Some e => [(p, e)]
                | None => []
                end.
Proof.
  unfold processJavaScriptFile, fileError.
  destruct (babel (processedCode content) p (isTypeScript p))
    as [result|message] eqn:Hb.
  - rewrite (transformJSX_returns _ _ _ _ Hb). cbn [error truthy code].
    unfold createBlobURL.
    rewrite bool_decide_true by apply javascript_allowed.
    cbn [negb].
    destruct (firstMatching dangerousPatterns (default "" result)); cbn.
    + done.
    + rewrite errors_collectCssImports, errors_collectImports,
        errors_addImportVariations. cbn. by rewrite app_nil_r.
  - rewrite (transformJSX_throws _ _ _ _ Hb). cbn [error truthy code].
    destruct (String.eqb message "") eqn:Hm; cbn [negb].
    + unfold createBlobURL.
      rewrite bool_decide_true by apply javascript_allowed. cbn [negb].
      change (firstMatching dangerousPatterns "") with (@None string).
      cbn. rewrite errors_addImportVariations. cbn. by rewrite app_nil_r.
    + done.
Qed.

(** The error list after [processFiles]: one entry for each source file
    that [fileError] rejects, in the order of the files. *)
Definition recordedErrors (files : list (string * string))
  : list (string * string) :=
  List.flat_map (fun '(p, content) =>
                   if isJavaScriptFile p
                   then match fileError p content with
                        | Some e => [(p, e)]
                        | None => []
                        end
                   else []) files.

Lemma errors_processFile ex b p content :
  errors (processFile babel createObjectURL ex b (p, content))
  = errors b ++ recordedErrors [(p, content)].
Proof.
  unfold processFile, recordedErrors. cbn. rewrite app_nil_r.
  destruct (isJavaScriptFile p).
  - apply errors_processJavaScriptFile.
  - rewrite app_nil_r. by destruct (endsWith p ".css").
Qed.

Lemma errors_fold_processFile ex files b :
  errors (List.fold_left (processFile babel createObjectURL ex) files b)
  = errors b ++ recordedErrors files.
Proof.
  revert b. induction files as [|[p content] files IH]; intros b.
  - cbn. by rewrite app_nil_r.
  - cbn [List.fold_left]. rewrite IH, errors_processFile.
    rewrite <- app_assoc. f_equal.
    unfold recordedErrors. cbn [List.flat_map]. by rewrite app_nil_r.
Qed.

Lemma errors_processFiles files :
  errors (processFiles babel createObjectURL files newBuilder)
  = recordedErrors files.
Proof. unfold processFiles. by rewrite errors_fold_processFile. Qed.

Lemma elem_of_recordedErrors files p e :
  (p, e) ∈ recordedErrors files
  <-> exists content,
        (p, content) ∈ files /\ isJavaScriptFile p = true
        /\ fileError p content = Some e.
Proof.
  unfold recordedErrors. rewrite list_elem_of_In, in_flat_map. split.
  - intros [[q content] [Hin Hq]]. apply list_elem_of_In in Hin.
    destruct (isJavaScriptFile q) eqn:Hjs; [|destruct Hq].
    destruct (fileError q content) as [e'|] eqn:He; [|destruct Hq].
    destruct Hq as [[= -> ->]|[]]. by exists content.
  - intros (content & Hin & Hjs & He). exists (p, content).
    split; [by apply list_elem_of_In|]. rewrite Hjs, He. by left.
Qed.

(** C4, amended.  [processFiles] always returns.  In the error list it
    leaves, a source file of the map has an entry exactly when Babel threw
    on it with a message, which is then the entry's text, or when Babel
    returned code that [createBlobURL] refuses for one of its dangerous
    patterns, the entry then naming the pattern.  A file that Babel
    accepts and whose code passes that check has no entry. *)
Theorem error_recorded_iff_rejected files p content :
  NoDup files.*1 ->
  (p, content) ∈ files ->
  isJavaScriptFile p = true ->
  let recorded :=
    errors (processFiles babel createObjectURL files newBuilder) in
  (forall e, (p, e) ∈ recorded <-> fileError p content = Some e)
  /\ (forall message,
        babel (processedCode content) p (isTypeScript p)
          = BabelThrows message ->
        message <> EmptyString -> (p, message) ∈ recorded)
  /\ (forall result source,
        babel (processedCode content) p (isTypeScript p)
          = BabelReturns result ->
        firstMatching dangerousPatterns (default EmptyString result)
          = Some source ->
        (p, "Code contains potentially dangerous patterns: " +:+ source)
          ∈ recorded)
  /\ (forall result,
        babel (processedCode content) p (isTypeScript p)
          = BabelReturns result ->
        firstMatching dangerousPatterns (default EmptyString result) = None ->
        forall e, (p, e) ∉ recorded).
Proof.
  intros Hnd Hin Hjs recorded.
  assert (Hiff : forall e, (p, e) ∈ recorded <-> fileError p content = Some e).
  { intros e. unfold recorded. rewrite errors_processFiles.
    rewrite elem_of_recordedErrors. split.
    - intros (content' & Hin' & _ & He).
      assert (content' = content) as ->; [|done].
      apply (map_get_In_NoDup _ _ _ Hnd) in Hin, Hin'. congruence.
    - intros He. by exists content. }
  split; [exact Hiff|]. split; [|split].
  - intros message Hb Hm. apply Hiff. unfold fileError. rewrite Hb.
    destruct (String.eqb_spec message ""); done.
  - intros result source Hb Hs. apply Hiff. unfold fileError.
    by rewrite Hb, Hs.
  - intros result Hb Hs e He. apply Hiff in He. unfold fileError in He.
    by rewrite Hb, Hs in He.
Qed.

(** ** Real files before placeholders *)

(** The keys under which [addImportVariations] registers a file, in the
    order of its assignments. *)
Definition importForms (p : string) : list string :=
  let pathWithoutExt := removeFirst extensionRegex p in
  if startsWith p "/"
  then [ p; substring1 p; "@" +:+ p; "@/" +:+ substring1 p;
         pathWithoutExt; substring1 pathWithoutExt;
         "@" +:+ pathWithoutExt; "@/" +:+ substring1 pathWithoutExt ]
  else [ p; pathWithoutExt ].

Definition setImports (keys : list string) (url : string) (b : Builder)
  : Builder :=
  List.fold_left (fun b k => setImport k url b) keys b.

Lemma addImportVariations_setImports p url b :
  addImportVariations p url b = setImports (importForms p) url b.
Proof.
  unfold addImportVariations, importForms, setImports.
  by destruct (startsWith p "/").
Qed.

Lemma imports_setImports keys url b k :
  map_get k (imports (setImports keys url b))
  = if decide (k ∈ keys) then Some url else map_get k (imports b).
Proof.
  revert b. induction keys as [|k0 keys IH]; intros b.
  - cbn. by rewrite decide_False by apply not_elem_of_nil.
  - change (setImports (k0 :: keys) url b)
      with (setImports keys url (setImport k0 url b)).
    rewrite IH. cbn [setImport imports]. rewrite map_get_set.
    destruct (decide (k ∈ keys)) as [Hin|Hnin].
    + by rewrite decide_True by (by right).
    + destruct (decide (k0 = k)) as [->|Hne].
      * by rewrite decide_True by left.
      * rewrite decide_False; [done|].
        intros [->|?]%elem_of_cons; done.
Qed.

Lemma transformedFiles_setImports keys url b :
  transformedFiles (setImports keys url b) = transformedFiles b.
Proof.
  revert b. induction keys as [|k keys IH]; intros b; [done|].
  change (setImports (k :: keys) url b)
    with (setImports keys url (setImport k url b)).
  by rewrite IH.
Qed.

Lemma allImports_setImports keys url b :
  allImports (setImports keys url b) = allImports b.
Proof.
  revert b. induction keys as [|k keys IH]; intros b; [done|].
  change (setImports (k :: keys) url b)
    with (setImports keys url (setImport k url b)).
  by rewrite IH.
Qed.

Lemma imports_collectImports_local l b k :
  isPackage k = false ->
  map_get k (imports (List.fold_left collectImport l b))
  = map_get k (imports b).
Proof.
  intros Hk. revert b. induction l as [|x l IH]; intros b; cbn; [done|].
  rewrite IH. unfold collectImport.
  destruct (isPackage x) eqn:Hx; [|done].
  cbn. apply map_get_set_ne. intros ->. congruence.
Qed.

Lemma transformedFiles_collectImports l b :
  transformedFiles (List.fold_left collectImport l b) = transformedFiles b.
Proof.
  revert b. induction l as [|x l IH]; intros b; cbn; [done|].
  rewrite IH. unfold collectImport. by destruct (isPackage x).
Qed.

Lemma imports_collectCssImports from l b :
  imports (List.fold_left (collectCssImport from) l b) = imports b.
Proof. revert b. induction l as [|x l IH]; intros b; cbn; [done|]. by rewrite IH. Qed.

Lemma transformedFiles_collectCssImports from l b :
  transformedFiles (List.fold_left (collectCssImport from) l b)
  = transformedFiles b.
Proof. revert b. induction l as [|x l IH]; intros b; cbn; [done|]. by rewrite IH. Qed.

(** What [processJavaScriptFile] does with a file it accepts. *)
Lemma processJavaScriptFile_accepted p content ex b :
  fileError p content = None ->
  exists code missing css,
    processJavaScriptFile babel createObjectURL p content ex b
    = List.fold_left (collectCssImport p) css
        (List.fold_left collectImport missing
           (addImportVariations p (createObjectURL (minted b) code)
              (mkBuilder (imports b) (styles b) (errors b)
                 (map_set p (createObjectURL (minted b) code)
                    (transformedFiles b))
                 (allImports b) (allCssImports b) (S (minted b))))).
Proof.
  unfold fileError, processJavaScriptFile. intros He.
  destruct (babel (processedCode content) p (isTypeScript p))
    as [result|message] eqn:Hb.
  - rewrite (transformJSX_returns _ _ _ _ Hb). cbn [error truthy code].
    destruct (firstMatching dangerousPatterns (default "" result)) eqn:Hf;
      [done|].
    rewrite (createBlobURL_clean _ _ Hf). by eexists _, _, _.
  - rewrite (transformJSX_throws _ _ _ _ Hb). cbn [error truthy code].
    destruct (String.eqb message "") eqn:Hm; [|done]. cbn [negb].
    rewrite createBlobURL_clean by reflexivity. by eexists _, _, _.
Qed.

Lemma processJavaScriptFile_rejected p content ex b e :
  fileError p content = Some e ->
  processJavaScriptFile babel createObjectURL p content ex b
  = pushError p e b.
Proof.
  unfold fileError, processJavaScriptFile. intros He.
  destruct (babel (processedCode content) p (isTypeScript p))
    as [result|message] eqn:Hb.
  - rewrite (transformJSX_returns _ _ _ _ Hb). cbn [error truthy code].
    destruct (firstMatching dangerousPatterns (default "" result)) eqn:Hf;
      [|done].
    rewrite (createBlobURL_dangerous _ _ _ Hf). congruence.
  - rewrite (transformJSX_throws _ _ _ _ Hb). cbn [error truthy code].
    destruct (String.eqb message "") eqn:Hm; [done|].
    injection He as <-. reflexivity.
Qed.

(** The table maps [s] to the module of a transformed file [q] that has
    [s] among its forms. *)
Definition servedByFile (s : string) (b : Builder) : Prop :=
  exists q code n,
    map_get q (transformedFiles b) = Some (createObjectURL n code)
    /\ s ∈ importForms q
    /\ map_get s (imports b) = Some (createObjectURL n code).

Lemma servedByFile_accepted p content ex b s :
  fileError p content = None ->
  s ∈ importForms p -> isPackage s = false ->
  servedByFile s (processJavaScriptFile babel createObjectURL p content ex b).
Proof.
  intros He Hs Hloc.
  destruct (processJavaScriptFile_accepted p content ex b He)
    as (code & missing & css & ->).
  exists p, code, (minted b).
  rewrite transformedFiles_collectCssImports, transformedFiles_collectImports,
    imports_collectCssImports, imports_collectImports_local by done.
  rewrite addImportVariations_setImports, transformedFiles_setImports,
    imports_setImports. cbn [transformedFiles].
  rewrite map_get_set_eq, decide_True by done. done.
Qed.

Lemma servedByFile_processFile ex b entry s :
  isPackage s = false ->
  servedByFile s b ->
  servedByFile s (processFile babel createObjectURL ex b entry).
Proof.
  intros Hloc Hs. destruct entry as [p content]. unfold processFile.
  destruct (isJavaScriptFile p); [|by destruct (endsWith p ".css")].
  destruct (fileError p content) as [e|] eqn:He.
  { by rewrite (processJavaScriptFile_rejected _ _ _ _ _ He). }
  destruct (decide (s ∈ importForms p)) as [Hin|Hnin].
  { by apply servedByFile_accepted. }
  destruct Hs as (q & code & n & Hq & Hsq & Himp).
  destruct (processJavaScriptFile_accepted p content ex b He)
    as (code' & missing & css & ->).
  exists q, code, n.
  rewrite transformedFiles_collectCssImports, transformedFiles_collectImports,
    imports_collectCssImports, imports_collectImports_local by done.
  rewrite addImportVariations_setImports, transformedFiles_setImports,
    imports_setImports. cbn [transformedFiles imports].
  rewrite decide_False by done. split; [|done].
  rewrite map_get_set_ne; [done|].
  intros ->. done.
Qed.

Lemma servedByFile_fold ex files b s :
  isPackage s = false ->
  servedByFile s b ->
  servedByFile s
    (List.fold_left (processFile babel createObjectURL ex) files b).
Proof.
  intros Hloc. revert b.
  induction files as [|entry files IH]; intros b Hs; [done|].
  cbn [List.fold_left]. by apply IH, servedByFile_processFile.
Qed.

Lemma servedByFile_processFiles files p content s :
  (p, content) ∈ files -> isJavaScriptFile p = true ->
  fileError p content = None ->
  s ∈ importForms p -> isPackage s = false ->
  servedByFile s (processFiles babel createObjectURL files newBuilder).
Proof.
  intros Hin Hjs He Hs Hloc. unfold processFiles.
  generalize (List.map fst files) as ex. generalize newBuilder as b.
  induction files as [|entry files IH]; intros b ex.
  { by apply elem_of_nil in Hin. }
  cbn [List.fold_left]. apply elem_of_cons in Hin as [<-|Hin].
  - apply servedByFile_fold; [done|].
    unfold processFile. rewrite Hjs. by apply servedByFile_accepted.
  - by apply IH.
Qed.

Lemma imports_processCssImports files b :
  imports (processCssImports files b) = imports b
  /\ transformedFiles (processCssImports files b) = transformedFiles b
  /\ allImports (processCssImports files b) = allImports b.
Proof.
  unfold processCssImports. generalize (allCssImports b) as l. intros l.
  revert b. induction l as [|[from cssPath] l IH]; intros b; [done|].
  cbn [List.fold_left]. destruct (IH (processCssImport files b (from, cssPath)))
    as (-> & -> & ->).
  unfold processCssImport. by destruct (negb _).
Qed.

Lemma replaceFirst_prefix pat rep s :
  String.prefix pat s = true ->
  replaceFirst pat rep s
  = rep +:+ String.substring (String.length pat)
              (String.length s - String.length pat) s.
Proof. intros H. destruct s; cbn [replaceFirst]; by rewrite H. Qed.

Lemma substring_whole s : String.substring 0 (String.length s) s = s.
Proof. induction s as [|c s IH]; cbn; [done|]. by rewrite IH. Qed.

Lemma prefix_split p s :
  String.prefix p s = true ->
  s = p +:+ String.substring (String.length p)
              (String.length s - String.length p) s.
Proof.
  revert s. induction p as [|a p IH]; intros s Hp.
  - cbn. by rewrite Nat.sub_0_r, substring_whole.
  - destruct s as [|c s]; cbn [String.prefix] in Hp; [done|].
    destruct (ascii_dec a c) as [<-|]; [|done].
    cbn [String.length String.substring Nat.sub].
    change (String a p +:+ ?t) with (String a (p +:+ t)).
    f_equal. by apply IH.
Qed.

Lemma strip_alias i s :
  startsWith i "@/" = true -> replaceFirst "@/" "" i = s -> i = "@/" +:+ s.
Proof.
  unfold startsWith. intros Hp <-. rewrite (replaceFirst_prefix _ _ _ Hp).
  by apply prefix_split.
Qed.

Lemma truthy_minted n code :
  createObjectURL n code <> "" ->
  truthy (Some (createObjectURL n code)) = true.
Proof.
  intros H. cbn. by destruct (String.eqb_spec (createObjectURL n code) "").
Qed.

Lemma existsb_false_elem {A} (f : A -> bool) l x :
  existsb f l = false -> In x l -> f x = false.
Proof.
  intros H Hin. destruct (f x) eqn:Hf; [|done].
  rewrite <- H. symmetry. apply existsb_exists. eauto.
Qed.

(** A round of the placeholder loop for another specifier leaves the
    entry of [s] alone, unless that specifier is [s] behind the alias. *)
Lemma placeholderStep_keeps files b b' i s url :
  map_get s (imports b) = Some url -> truthy (Some url) = true ->
  i <> "@/" +:+ s ->
  placeholderStep createObjectURL files b i = Done b' ->
  map_get s (imports b') = Some url
  /\ transformedFiles b' = transformedFiles b
  /\ allImports b' = allImports b.
Proof.
  intros Hs Ht Hi. unfold placeholderStep.
  destruct (truthy (map_get i (imports b)) || startsWith i "react") eqn:Hskip.
  { by intros [= <-]. }
  assert (i <> s) as Hne.
  { intros ->. rewrite Hs, Ht in Hskip. done. }
  destruct (isPackage i).
  { intros [= <-]. cbn. by rewrite map_get_set_ne. }
  destruct (existsb _ (variations i)) eqn:Hfound.
  { by intros [= <-]. }
  destruct (createBlobURL _ _ _ _) as [placeholderUrl|]; [|done].
  intros [= <-].
  destruct (startsWith i "@/") eqn:Halias; cbn.
  - split; [|done].
    rewrite !map_get_set_ne; try done.
    + intros E.
      apply (existsb_false_elem _ _ (replaceFirst "@/" "/" i)) in Hfound.
      * rewrite E, Hs, Ht in Hfound. done.
      * unfold variations. cbn. auto 10.
    + intros E. by apply strip_alias in E.
  - by rewrite map_get_set_ne.
Qed.

Lemma placeholderLoop_keeps files todo b b' s url :
  map_get s (imports b) = Some url -> truthy (Some url) = true ->
  ("@/" +:+ s) ∉ todo ->
  placeholderLoop createObjectURL files todo b = Done b' ->
  map_get s (imports b') = Some url
  /\ transformedFiles b' = transformedFiles b.
Proof.
  intros Hs Ht. revert b Hs.
  induction todo as [|i todo IH]; intros b Hs Hnin; cbn.
  { by intros [= <-]. }
  apply not_elem_of_cons in Hnin as [Hi Hnin].
  destruct (placeholderStep createObjectURL files b i) as [b1|] eqn:Hstep;
    [|done].
  destruct (placeholderStep_keeps _ _ _ _ _ _ Hs Ht (not_eq_sym Hi) Hstep)
    as (Hs1 & Htf & _).
  intros Hloop. destruct (IH b1 Hs1 Hnin Hloop) as [? ->]. done.
Qed.

(** X29.  Take a source file [p] of the map that the transformation
    accepts, and one of the keys [s] under which it is registered (its
    path, with or without the extension, with or without the alias prefix
    or the leading slash) that is not read as a package name, that is,
    that starts with a slash or with the alias.  When the build returns
    and no file imports [s] behind one more alias prefix, the table maps
    [s] to the module of a transformed file with that key, and the round
    of the placeholder loop for [s] synthesizes nothing. *)
Theorem real_file_wins files p content s b :
  (p, content) ∈ files ->
  isJavaScriptFile p = true ->
  fileError p content = None ->
  s ∈ importForms p ->
  isPackage s = false ->
  (forall n code, createObjectURL n code <> "") ->
  ("@/" +:+ s) ∉ allImports (processFiles babel createObjectURL files newBuilder) ->
  buildState babel createObjectURL files = Done b ->
  servedByFile s b
  /\ placeholderStep createObjectURL files b s = Done b.
Proof.
  intros Hin Hjs He Hs Hloc Hurl Hnin Hbuild.
  pose proof (servedByFile_processFiles files p content s Hin Hjs He Hs Hloc)
    as (q & code & n & Hq & Hsq & Himp).
  unfold buildState, createPlaceholderModules in Hbuild.
  destruct (imports_processCssImports files
              (processFiles babel createObjectURL files newBuilder))
    as (Hi & Ht & Ha).
  rewrite Ha in Hbuild. rewrite <- Hi in Himp.
  destruct (placeholderLoop_keeps _ _ _ _ _ _ Himp
              (truthy_minted _ _ (Hurl n code)) Hnin Hbuild) as [Hfinal Htf].
  split.
  - exists q, code, n. rewrite Htf, Ht. done.
  - unfold placeholderStep.
    by rewrite Hfinal, (truthy_minted _ _ (Hurl n code)).
Qed.

(** ** A dangling import whose name starts with "on" (C9) *)

(** C9, at the input that refutes it.  The one file [/a.jsx] imports
    [./online], which does not exist.  Babel accepts the file and the
    code it returns passes the check of [createBlobURL].  The placeholder
    synthesized for the import reads [const online = function() ...],
    which the pattern against event handlers matches; [createBlobURL]
    throws, [createPlaceholderModules] catches nothing, and
    [createImportMap] throws instead of returning a map. *)
Theorem dangling_import_fails_build result :
  let source := "import X from './online'" in
  babel (processedCode source) "/a.jsx" (isTypeScript "/a.jsx")
    = BabelReturns result ->
  firstMatching dangerousPatterns (default EmptyString result) = None ->
  importsOf source = ["./online"]
  /\ firstMatching dangerousPatterns (createPlaceholderModule "online")
     = Some "\bon[a-z]+\s*="
  /\ createImportMap babel createObjectURL JSON_stringify_imports
       [("/a.jsx", source)]
     = Thrown "Code contains potentially dangerous patterns: \bon[a-z]+\s*=".
Proof.
  intros source Hbabel Hclean.
  split; [vm_compute; reflexivity|]. split; [vm_compute; reflexivity|].
  unfold createImportMap, build, buildState, processFiles.
  cbn [List.map fst List.fold_left processFile].
  change (isJavaScriptFile "/a.jsx") with true. cbv iota.
  unfold processJavaScriptFile.
  rewrite (transformJSX_returns _ _ _ _ Hbabel).
  cbn [error truthy code missingImports cssImports].
  rewrite (createBlobURL_clean _ _ Hclean).
  vm_compute. reflexivity.
Qed.

End Environment.

(** A transformer that returns its input, and object URLs numbered in
    the order they are minted: an environment to run the pipeline in. *)
Definition echoBabel : string -> string -> bool -> BabelOutcome :=
  fun code _ _ => BabelReturns (Some code).

Definition numberedURL : nat -> string -> string :=
  fun n _ => "blob:" +:+ Html.showNat n.

Definition noJSON : list (string * string) -> string := fun _ => "{}".

Lemma dangling_import_fails_build_witness :
  createImportMap echoBabel numberedURL noJSON
    [("/a.jsx", "import X from './online'")]
  = Thrown "Code contains potentially dangerous patterns: \bon[a-z]+\s*=".
Proof.
  apply (dangling_import_fails_build echoBabel numberedURL noJSON
           (Some "import X from './online'")).
  - reflexivity.
  - vm_compute. reflexivity.
Defined.

(** C4 as the specification states it fails: the file below is valid
    and Babel, here a transformer that returns its input, accepts it; the
    call of [setTimeout] in it makes [createBlobURL] throw, and the file
    gets an entry in the error list.  So it is not only the files Babel
    rejects that have one. *)
Lemma accepted_file_gets_error :
  let files := [("/a.js", "setTimeout(f, 1)")] in
  echoBabel (processedCode "setTimeout(f, 1)") "/a.js" (isTypeScript "/a.js")
    = BabelReturns (Some "setTimeout(f, 1)")
  /\ errors (processFiles echoBabel numberedURL files newBuilder)
     = [("/a.js",
         "Code contains potentially dangerous patterns: setTimeout\s*\(")]
  /\ ~ (forall babel createObjectURL files p content,
          (p, content) ∈ files -> isJavaScriptFile p = true ->
          ((exists e,
              (p, e) ∈ errors (processFiles babel createObjectURL files
                                 newBuilder))
           <-> exists message,
                 babel (processedCode content) p (isTypeScript p)
                   = BabelThrows message)).
Proof.
  intros files. split; [reflexivity|]. split; [vm_compute; reflexivity|].
  intros H.
  destruct (H echoBabel numberedURL files "/a.js" "setTimeout(f, 1)")
    as [[message Hm] _].
  - left.
  - reflexivity.
  - eexists. vm_compute. left.
  - discriminate.
Qed.

(** Relative specifiers are not resolved against the importing file.
    [/App.jsx] imports [./Foo], and [/Foo.jsx] is a file of the map:
    resolved against the importing file the specifier is [/Foo], the path
    of that file without its extension.  Both files are transformed, and
    get the object URLs 0 and 1; yet the table maps [./Foo] to the object
    URL 2, minted for the placeholder that the loop synthesizes for it. *)
Lemma relative_import_gets_placeholder :
  let files := [ ("/App.jsx", "import Foo from './Foo'");
                 ("/Foo.jsx", "export default 1") ] in
  resolveRelativePath (beforeLastSlash "/App.jsx") "./Foo" = "/Foo"
  /\ "/Foo" ∈ importForms "/Foo.jsx"
  /\ exists b,
       buildState echoBabel numberedURL files = Done b
       /\ errors b = []
       /\ transformedFiles b = [("/App.jsx", "blob:0"); ("/Foo.jsx", "blob:1")]
       /\ allImports b = ["./Foo"]
       /\ map_get "./Foo" (imports b)
          = Some (numberedURL 2 (createPlaceholderModule "Foo")).
Proof.
  intros files. split; [reflexivity|]. split.
  - vm_compute. do 4 right. left.
  - eexists. split; [vm_compute; reflexivity|]. repeat split.
Qed.

Lemma numberedURL_nonempty n code : numberedURL n code <> "".
Proof. unfold numberedURL. discriminate. Qed.

Lemma real_file_wins_witness :
  let files := [ ("/App.jsx", "import Foo from '@/Foo'");
                 ("/Foo.jsx", "export default 1") ] in
  exists b,
    buildState echoBabel numberedURL files = Done b
    /\ servedByFile numberedURL "@/Foo" b.
Proof.
  intros files.
  destruct (buildState echoBabel numberedURL files) as [b|] eqn:Hb;
    [|vm_compute in Hb; discriminate].
  exists b. split; [reflexivity|].
  apply (real_file_wins echoBabel numberedURL files "/Foo.jsx"
           "export default 1" "@/Foo" b).
  - right. left.
  - reflexivity.
  - vm_compute. reflexivity.
  - vm_compute. do 6 right. left.
  - reflexivity.
  - apply numberedURL_nonempty.
  - apply (bool_decide_unpack _). vm_compute. exact I.
  - exact Hb.
Defined.

Lemma error_recorded_iff_rejected_witness :
  let files := [("/a.js", "setTimeout(f, 1)"); ("/b.js", "let x = 1")] in
  NoDup files.*1
  /\ (forall e,
        ("/a.js", e) ∈ errors (processFiles echoBabel numberedURL files
                                 newBuilder)
        <-> fileError echoBabel "/a.js" "setTimeout(f, 1)" = Some e).
Proof.
  intros files.
  assert (Hnd : NoDup files.*1).
  { apply (bool_decide_unpack _). vm_compute. exact I. }
  split; [exact Hnd|].
  apply (error_recorded_iff_rejected echoBabel numberedURL files
           "/a.js" "setTimeout(f, 1)" Hnd).
  - left.
  - reflexivity.
Defined.

End PipelineFacts.
(** * A placeholder written over the entry of a real file *)

Module Overwrite.
Import JS PathUtils Regex Pipeline StringFacts PipelineFacts.
Import VFS (map_get, map_has, map_set, map_delete).
Import MapFacts.

Section Environment.
Variable babel : string -> string -> bool -> BabelOutcome.
Variable createObjectURL : nat -> string -> string.

(** What [processJavaScriptFile] does with a file that Babel returns
    code for, when the code passes the check of [createBlobURL]. *)
Lemma processJavaScriptFile_clean p content ex b result :
  babel (processedCode content) p (isTypeScript p) = BabelReturns result ->
  firstMatching dangerousPatterns (default EmptyString result) = None ->
  processJavaScriptFile babel createObjectURL p content ex b
  = let url := createObjectURL (minted b) (default EmptyString result) in
    List.fold_left (collectCssImport p) (cssImportsOf content)
      (List.fold_left collectImport (importsOf content)
         (addImportVariations p url
            (mkBuilder (imports b) (styles b) (errors b)
               (map_set p url (transformedFiles b))
               (allImports b) (allCssImports b) (S (minted b))))).
Proof.
  intros Hb Hf. unfold processJavaScriptFile.
  rewrite (transformJSX_returns _ _ _ _ _ Hb).
  cbn [error truthy code missingImports cssImports].
  by rewrite (createBlobURL_clean _ _ _ Hf).
Qed.

(** C3, at the input that refutes it.  [/Foo.jsx] is a file of the map
    and [/App.jsx] imports it as [/Foo], its path without the extension,
    one of the keys under which [addImportVariations] registers it; it
    also imports [@//Foo].  Babel returns code for both files and the
    code passes the check of [createBlobURL]; the two modules get the
    first and the second object URL.  The placeholder loop finds none of
    the variations of [@//Foo] and synthesizes a placeholder, the third
    object URL; as the specifier starts with the alias, the loop also
    stores the placeholder under the specifier without its first alias
    prefix, which is [/Foo]: the table now maps [/Foo] to the placeholder
    and no longer to the module of [/Foo.jsx], while [@/Foo] still leads
    to that module. *)
Theorem placeholder_overwrites_real_file (rFoo rApp : option string) :
  let foo := "export default 1" in
  let app := "import Foo from '/Foo'; import Bar from '@//Foo'" in
  let files := [("/Foo.jsx", foo); ("/App.jsx", app)] in
  babel (processedCode foo) "/Foo.jsx" (isTypeScript "/Foo.jsx")
    = BabelReturns rFoo ->
  babel (processedCode app) "/App.jsx" (isTypeScript "/App.jsx")
    = BabelReturns rApp ->
  firstMatching dangerousPatterns (default EmptyString rFoo) = None ->
  firstMatching dangerousPatterns (default EmptyString rApp) = None ->
  (forall n code, createObjectURL n code <> "") ->
  importsOf app = ["/Foo"; "@//Foo"]
  /\ "/Foo" ∈ importForms "/Foo.jsx"
  /\ replaceFirst "@/" "" "@//Foo" = "/Foo"
  /\ exists b,
       buildState babel createObjectURL files = Done b
       /\ errors b = []
       /\ allImports b = ["/Foo"; "@//Foo"]
       /\ transformedFiles b
          = [ ("/Foo.jsx", createObjectURL 0 (default EmptyString rFoo));
              ("/App.jsx", createObjectURL 1 (default EmptyString rApp)) ]
       /\ map_get "@/Foo" (imports b)
          = Some (createObjectURL 0 (default EmptyString rFoo))
       /\ map_get "@//Foo" (imports b)
          = Some (createObjectURL 2 (createPlaceholderModule "Foo"))
       /\ map_get "/Foo" (imports b)
          = Some (createObjectURL 2 (createPlaceholderModule "Foo")).
Proof.
  intros foo app files HbFoo HbApp HfFoo HfApp Hurl.
  split; [vm_compute; reflexivity|].
  split; [vm_compute; do 4 right; left|].
  split; [vm_compute; reflexivity|].
  unfold buildState, createPlaceholderModules, processFiles, files.
  cbn [List.map fst List.fold_left processFile].
  change (isJavaScriptFile "/Foo.jsx") with true.
  change (isJavaScriptFile "/App.jsx") with true. cbv iota.
  rewrite (processJavaScriptFile_clean "/Foo.jsx" foo _ _ rFoo HbFoo HfFoo).
  set (uFoo := createObjectURL _ (default "" rFoo)).
  assert (HuFoo : truthy (Some uFoo) = true) by apply truthy_minted, Hurl.
  clearbody uFoo. cbv zeta.
  rewrite (processJavaScriptFile_clean "/App.jsx" app _ _ rApp HbApp HfApp).
  match goal with
  | |- context [placeholderLoop _ _ (allImports ?X) ?X] =>
      let v := eval vm_compute in X in
      replace X with v by (vm_compute; reflexivity)
  end.
  cbn [allImports placeholderLoop].
  match goal with
  | |- context [placeholderStep _ ?fs ?b0 "/Foo"] =>
      assert (Hstep : placeholderStep createObjectURL fs b0 "/Foo" = Done b0)
  end.
  { unfold placeholderStep.
    match goal with
    | |- context [map_get "/Foo" ?m] =>
        replace (map_get "/Foo" m) with (Some uFoo)
          by (vm_compute; reflexivity)
    end.
    by rewrite HuFoo. }
  rewrite Hstep. clear Hstep.
  eexists. split; [vm_compute; reflexivity|].
  vm_compute. repeat split.
Qed.

End Environment.

Lemma placeholder_overwrites_real_file_witness :
  let files :=
    [ ("/Foo.jsx", "export default 1");
      ("/App.jsx", "import Foo from '/Foo'; import Bar from '@//Foo'") ] in
  exists b,
    buildState echoBabel numberedURL files = Done b
    /\ map_get "/Foo.jsx" (transformedFiles b) = Some "blob:0"
    /\ map_get "@/Foo" (imports b) = Some "blob:0"
    /\ map_get "/Foo" (imports b) = Some "blob:2".
Proof.
  intros files.
  destruct (placeholder_overwrites_real_file echoBabel numberedURL
              (Some "export default 1")
              (Some "import Foo from '/Foo'; import Bar from '@//Foo'"))
    as (_ & _ & _ & b & Hb & _ & _ & Htf & Halias & _ & Hfoo).
  - reflexivity.
  - reflexivity.
  - vm_compute. reflexivity.
  - vm_compute. reflexivity.
  - apply numberedURL_nonempty.
  - exists b. split; [exact Hb|]. split; [by rewrite Htf|].
    split; [exact Halias|exact Hfoo].
Defined.

End Overwrite.
(** * The preview document *)

Module HtmlFacts.
Import JS Regex Html StringFacts.
Import Pipeline (Q, nl, dq).

(** ** What [escapeHtml] leaves *)

Lemma includesChar_replaceChar_other c d rep s :
  includesChar c rep = false -> includesChar c s = false ->
  includesChar c (replaceChar d rep s) = false.
Proof.
  intros Hrep. induction s as [|x s IH]; [done|]. cbn.
  intros [Hx Hs]%orb_false_iff.
  destruct (Ascii.eqb x d).
  - rewrite includesChar_app, Hrep. by apply IH.
  - cbn. rewrite Hx. by apply IH.
Qed.

Lemma includesChar_replaceChar_same c rep s :
  includesChar c rep = false ->
  includesChar c (replaceChar c rep s) = false.
Proof.
  intros Hrep. induction s as [|x s IH]; [done|]. cbn.
  destruct (Ascii.eqb x c) eqn:Hx.
  - by rewrite includesChar_app, Hrep.
  - cbn. by rewrite Hx.
Qed.

(** The four characters that open or close markup and attribute values
    do not occur in an escaped text. *)
Lemma escapeHtml_safe s :
  includesChar "<" (escapeHtml s) = false
  /\ includesChar ">" (escapeHtml s) = false
  /\ includesChar dq (escapeHtml s) = false
  /\ includesChar "'" (escapeHtml s) = false.
Proof.
  unfold escapeHtml. repeat split.
  - do 3 (apply includesChar_replaceChar_other; [done|]).
    by apply includesChar_replaceChar_same.
  - do 2 (apply includesChar_replaceChar_other; [done|]).
    by apply includesChar_replaceChar_same.
  - apply includesChar_replaceChar_other; [done|].
    by apply includesChar_replaceChar_same.
  - by apply includesChar_replaceChar_same.
Qed.

(** ** No script element in the error report *)



Lemma includesChar_string_of_uint c u :
  Regex.isDigit c = false ->
  includesChar c (NilEmpty.string_of_uint u) = false.
Proof.
  intros Hc. induction u as [|u IH|u IH|u IH|u IH|u IH|u IH|u IH|u IH|u IH|u IH];
    cbn [NilEmpty.string_of_uint includesChar]; [done|..];
    rewrite IH, orb_false_r; apply Ascii.eqb_neq; intros E; rewrite <- E in Hc;
    vm_compute in Hc; discriminate.
Qed.









(** ** What the report shows *)

Lemma occursIn_concat x l : x ∈ l -> occursIn x (String.concat "" l).
Proof.
  induction l as [|y l IH]; intros Hx; [by apply elem_of_nil in Hx|].
  cbn [String.concat]. destruct l as [|z l].
  - apply elem_of_cons in Hx as [->|Hx]; [apply occursIn_refl|].
    by apply elem_of_nil in Hx.
  - apply elem_of_cons in Hx as [->|Hx].
    + apply occursIn_app_l, occursIn_refl.
    + apply occursIn_app_r, occursIn_app_r. by apply IH.
Qed.

(** Finds the piece among the pieces of a concatenation. *)
Ltac find_piece :=
  first [ apply occursIn_refl
        | apply occursIn_app_l; apply occursIn_refl
        | apply occursIn_app_r; find_piece ].

Lemma occursIn_errorItem e errors :
  e ∈ errors -> occursIn (errorItem e) (generateErrorDisplay errors).
Proof.
  intros He. unfold generateErrorDisplay.
  destruct errors as [|e0 errors]; [by apply elem_of_nil in He|].
  eapply occursIn_trans.
  - apply (occursIn_concat _ (List.map errorItem (e0 :: errors))).
    apply list_elem_of_fmap. by exists e.
  - do 10 apply occursIn_app_r. find_piece.
Qed.

End HtmlFacts.
(** * Script elements in a document that shows an error report *)

Module Scripts.
Import JS PathUtils Regex Pipeline StringFacts PipelineFacts Html HtmlFacts.
Import VFS (map_get, map_has, map_set, map_delete).

(** The script element of the head of every document. *)
Definition tailwindScript : string :=
  "<script src=" +:+ Q +:+ "https://cdn.tailwindcss.com" +:+ Q +:+ "></script>".

Section Environment.
Variable babel : string -> string -> bool -> BabelOutcome.
Variable createObjectURL : nat -> string -> string.
Variable JSON_stringify_imports : list (string * string) -> string.
Variable JSON_stringify_string : string -> string.
Variable JSON_parse_imports : string -> option (list (string * string)).

(** What [updatePreview] of [PreviewFrame] hands to the frame: the
    document made from the result of [createImportMap]. *)
Definition previewHTML (files : list (string * string))
    (foundEntryPoint : string) : Try string :=
  match createImportMap babel createObjectURL JSON_stringify_imports files with
  | Done r =>
      Done (createPreviewHTML JSON_stringify_string JSON_parse_imports
              (mkOptions foundEntryPoint (Pipeline.importMap r)
                 (resultStyles r) (resultErrors r)))
  | Thrown message => Thrown message
  end.

(** The head of every document holds the script element of Tailwind. *)
Lemma tailwindScript_in_document options :
  occursIn tailwindScript
    (createPreviewHTML JSON_stringify_string JSON_parse_imports options).
Proof.
  unfold createPreviewHTML. apply occursIn_app_l.
  unfold previewHead, tailwindScript.
  exists ("<!DOCTYPE html>
<html lang=" +:+ Q +:+ "en" +:+ Q +:+ ">
<head>
  <meta charset=" +:+ Q +:+ "UTF-8" +:+ Q +:+ ">
  <meta name=" +:+ Q +:+ "viewport" +:+ Q +:+ " content=" +:+ Q +:+ "width=device-width, initial-scale=1.0" +:+ Q +:+ ">
  <title>Preview</title>
  ").
  eexists. rewrite !app_assoc. reflexivity.
Qed.

(** A style sheet that is not empty stands in the head as it is, between
    the tags of a style element. *)
Lemma styles_in_document options :
  styles options <> "" ->
  occursIn ("<style>" +:+ nl +:+ styles options +:+ "</style>")
    (createPreviewHTML JSON_stringify_string JSON_parse_imports options).
Proof.
  intros Hne. unfold createPreviewHTML. apply occursIn_app_l.
  unfold previewHead, styleBlock.
  destruct (String.eqb_spec (styles options) ""); [done|]. cbn [negb].
  find_piece.
Qed.

(** The script element that the style sheet of the example holds. *)
Definition injected : string := "<script>alert(1)</script>".

(** C2, at the input that refutes it.  The file map holds [/App.jsx],
    on which Babel throws with a message that is not empty, and the style
    sheet [/x.css], whose text closes the style element and opens a
    script element.  [createImportMap] returns, with one entry in the
    error list and the text of the style sheet in the styles.  The
    document that [updatePreview] makes of the result shows the error
    report, and the slot of the bootstrap script is empty; yet the
    document holds the script element of the style sheet, which
    [createPreviewHTML] writes into the head as it is, and the script
    element of Tailwind, which the head of every document holds. *)
Theorem error_report_keeps_scripts (message : string) :
  let app := "export default function App() { return <div> }" in
  let css := "</style>" +:+ injected in
  let files := [("/App.jsx", app); ("/x.css", css)] in
  babel (processedCode app) "/App.jsx" (isTypeScript "/App.jsx")
    = BabelThrows message ->
  message <> "" ->
  exists r doc,
    createImportMap babel createObjectURL JSON_stringify_imports files = Done r
    /\ resultErrors r = [("/App.jsx", message)]
    /\ resultStyles r = "/* /x.css */" +:+ nl +:+ css +:+ nl +:+ nl
    /\ previewHTML files "/App.jsx" = Done doc
    /\ doc = previewHead (resultStyles r) (Pipeline.importMap r)
             +:+ previewBody (generateErrorDisplay (resultErrors r)) ""
    /\ occursIn (generateErrorDisplay [("/App.jsx", message)]) doc
    /\ occursIn injected doc
    /\ occursIn tailwindScript doc.
Proof.
  intros app css files Hbabel Hne.
  assert (Hbuild : buildState babel createObjectURL files
            = Done (mkBuilder DEFAULT_IMPORTS
                      ("/* /x.css */" +:+ nl +:+ css +:+ nl +:+ nl)
                      [("/App.jsx", message)] [] [] [] 0)).
  { unfold buildState, createPlaceholderModules, processFiles, files.
    cbn [List.map fst List.fold_left processFile].
    change (isJavaScriptFile "/App.jsx") with true.
    change (isJavaScriptFile "/x.css") with false.
    change (endsWith "/x.css" ".css") with true. cbv iota.
    unfold processJavaScriptFile.
    rewrite (transformJSX_throws _ _ _ _ _ Hbabel).
    cbn [error truthy]. destruct (String.eqb_spec message ""); [done|].
    cbn [negb default from_option id]. reflexivity. }
  unfold previewHTML, createImportMap, build. rewrite Hbuild.
  cbn [Pipeline.styles Pipeline.errors Pipeline.imports].
  eexists _, _. split; [reflexivity|]. cbn [resultErrors resultStyles].
  split; [reflexivity|]. split; [reflexivity|]. split; [reflexivity|].
  split; [reflexivity|]. split; [|split].
  - unfold createPreviewHTML. cbn [errors length Nat.ltb Nat.leb negb].
    apply occursIn_app_r. unfold previewBody.
    apply occursIn_app_r, occursIn_app_l, occursIn_refl.
  - eapply occursIn_trans; [|apply styles_in_document; by cbn].
    cbn [styles]. apply occursIn_app_r, occursIn_app_r, occursIn_app_l.
    do 2 apply occursIn_app_r. apply occursIn_app_l.
    unfold css. apply occursIn_app_r, occursIn_refl.
  - apply tailwindScript_in_document.
Qed.

End Environment.

(** A Babel that throws on every source. *)
Definition failingBabel : string -> string -> bool -> BabelOutcome :=
  fun _ _ _ => BabelThrows "Unexpected token (1:47)".

Lemma error_report_keeps_scripts_witness :
  let files :=
    [ ("/App.jsx", "export default function App() { return <div> }");
      ("/x.css", "</style><script>alert(1)</script>") ] in
  exists doc,
    previewHTML failingBabel numberedURL noJSON (fun _ => "") (fun _ => None)
      files "/App.jsx" = Done doc
    /\ occursIn "Unexpected token" doc
    /\ occursIn "<script>alert(1)</script>" doc.
Proof.
  intros files.
  destruct (error_report_keeps_scripts failingBabel numberedURL noJSON
              (fun _ => "") (fun _ => None) "Unexpected token (1:47)")
    as (r & doc & _ & _ & _ & Hdoc & _ & Hreport & Hscript & _).
  - reflexivity.
  - discriminate.
  - exists doc. split; [exact Hdoc|]. split; [|exact Hscript].
    eapply occursIn_trans; [|exact Hreport].
    eapply occursIn_trans;
      [|apply (occursIn_errorItem ("/App.jsx", "Unexpected token (1:47)"));
        left].
    unfold errorItem. cbn [fst snd].
    replace (trim (removeFirst locationRegex "Unexpected token (1:47)"))
      with "Unexpected token" by (vm_compute; reflexivity).
    change (escapeHtml "Unexpected token") with "Unexpected token".
    find_piece.
Defined.

End Scripts.
(** * Canonical paths and their segments *)

Module Segments.
Import JS PathUtils StringFacts.

(** A segment: a non-empty name without slash. *)
Definition okSeg (k : string) : Prop :=
  k <> "" /\ includesChar "/" k = false.

(** [/k1/k2/.../kn]; the empty text for no segment. *)
Fixpoint catSegs (l : list string) : string :=
  match l with
  | [] => ""
  | k :: l' => "/" +:+ k +:+ catSegs l'
  end.

(** The canonical path with the given segments; the root has none. *)
Definition pathOf (l : list string) : string :=
  match l with
  | [] => "/"
  | _ => catSegs l
  end.

(** [parent + "/" + name], the root's own slash not repeated. *)
Definition joinPath (p k : string) : string :=
  if String.eqb p "/" then "/" +:+ k else p +:+ "/" +:+ k.

Lemma pathOf_catSegs l : l <> [] -> pathOf l = catSegs l.
Proof. by destruct l. Qed.

Lemma catSegs_app l1 l2 : catSegs (l1 ++ l2) = catSegs l1 +:+ catSegs l2.
Proof.
  induction l1 as [|k l1 IH]; [done|]. cbn [catSegs app].
  by rewrite IH, !app_assoc.
Qed.

Lemma catSegs_snoc l k : catSegs (l ++ [k]) = catSegs l +:+ "/" +:+ k.
Proof. rewrite catSegs_app. cbn [catSegs]. by rewrite app_nil_r. Qed.

Lemma catSegs_cons_eq k l : catSegs (k :: l) = String "/" (k +:+ catSegs l).
Proof. reflexivity. Qed.

Lemma catSegs_not_root l : Forall okSeg l -> catSegs l <> "/".
Proof.
  destruct l as [|k l]; [done|]. intros [[Hk _] _]%Forall_cons.
  rewrite catSegs_cons_eq. destruct k; [done|]. by rewrite app_cons.
Qed.

Lemma catSegs_nonempty l : l <> [] -> catSegs l <> "".
Proof. by destruct l. Qed.

Lemma joinPath_pathOf l k :
  Forall okSeg l -> joinPath (pathOf l) k = pathOf (l ++ [k]).
Proof.
  intros Hl. unfold joinPath, pathOf. destruct l as [|k0 l].
  { cbn [app catSegs String.eqb Ascii.eqb]. by rewrite app_nil_r. }
  destruct (String.eqb_spec (catSegs (k0 :: l)) "/") as [E|_].
  - by apply catSegs_not_root in E.
  - cbn [app]. change (k0 :: l ++ [k]) with ((k0 :: l) ++ [k]).
    by rewrite catSegs_snoc.
Qed.

Lemma joinPath_inj p k1 k2 : joinPath p k1 = joinPath p k2 -> k1 = k2.
Proof.
  unfold joinPath. destruct (String.eqb p "/"); intros E.
  - by apply (inj (String.append "/")) in E.
  - apply (inj (String.append p)) in E.
    by apply (inj (String.append "/")) in E.
Qed.

Lemma joinPath_not_root p k : okSeg k -> joinPath p k <> "/".
Proof.
  intros [Hk1 _]. unfold joinPath. destruct (String.eqb_spec p "/") as [->|Hp].
  - destruct k; [done|]. done.
  - destruct p as [|c [|c' p]]; rewrite ?app_nil_l, ?app_cons; try done.
    destruct k; done.
Qed.

(** ** [split] and [join] *)

Lemma split_nonempty sep s : split sep s <> [].
Proof.
  induction s as [|c s IH]; cbn; [done|].
  destruct (Ascii.eqb c sep); [done|]. by destruct (split sep s).
Qed.

Lemma split_cons_other sep c s :
  Ascii.eqb c sep = false ->
  exists h t, split sep s = h :: t /\ split sep (String c s) = String c h :: t.
Proof.
  intros Hc. cbn. rewrite Hc.
  destruct (split sep s) as [|h t] eqn:E; [by apply split_nonempty in E|].
  by exists h, t.
Qed.

Lemma split_slashless k : includesChar "/" k = false -> split "/" k = [k].
Proof.
  induction k as [|c k IH]; [done|]. cbn.
  intros [Hc Hk]%orb_false_iff. rewrite Hc, (IH Hk). done.
Qed.

Lemma split_app_slash x y :
  split "/" (x +:+ "/" +:+ y) = split "/" x ++ split "/" y.
Proof.
  induction x as [|c x IH].
  - rewrite app_nil_l, app_cons, app_nil_l. done.
  - rewrite app_cons. cbn [split]. rewrite IH.
    destruct (Ascii.eqb c "/"); [done|].
    destruct (split "/" x) as [|h t] eqn:E; [by apply split_nonempty in E|].
    done.
Qed.

Lemma split_catSegs l :
  Forall (fun k => includesChar "/" k = false) l ->
  split "/" (catSegs l) = "" :: l.
Proof.
  induction l as [|k l IH]; intros Hl; [done|].
  apply Forall_cons in Hl as [Hk Hl].
  cbn [catSegs].
  change ("/" +:+ k +:+ catSegs l) with ("" +:+ "/" +:+ (k +:+ catSegs l)).
  rewrite split_app_slash. cbn [split app]. f_equal.
  destruct l as [|k' l].
  - cbn [catSegs]. rewrite app_nil_r. by apply split_slashless.
  - cbn [catSegs]. rewrite split_app_slash, (split_slashless _ Hk).
    cbn [app]. f_equal. specialize (IH Hl). cbn [catSegs] in IH.
    change ("/" +:+ k' +:+ catSegs l)
      with ("" +:+ "/" +:+ (k' +:+ catSegs l)) in IH.
    rewrite split_app_slash in IH. cbn [split app] in IH. by injection IH.
Qed.

Lemma join_split s : join "/" (split "/" s) = s.
Proof.
  induction s as [|c s IH]; [done|]. cbn [split].
  destruct (Ascii.eqb_spec c "/") as [->|Hc].
  - destruct (split "/" s) as [|h t] eqn:E; [by apply split_nonempty in E|].
    cbn [join]. cbn [join] in IH. by rewrite IH.
  - destruct (split "/" s) as [|h t] eqn:E; [by apply split_nonempty in E|].
    cbn [join] in *. destruct t; [by rewrite <- IH|].
    by rewrite app_cons, IH.
Qed.

Lemma join_cons k l : l <> [] -> join "/" (k :: l) = k +:+ "/" +:+ join "/" l.
Proof. by destruct l. Qed.

Lemma catSegs_join l : l <> [] -> catSegs l = "/" +:+ join "/" l.
Proof.
  induction l as [|k l IH]; [done|]. intros _. cbn [catSegs].
  destruct l as [|k' l].
  - cbn. by rewrite app_nil_r.
  - rewrite (join_cons k) by done. by rewrite IH.
Qed.

Lemma join_empty_cons l : l <> [] -> join "/" ("" :: l) = catSegs l.
Proof.
  intros Hne. by rewrite join_cons, catSegs_join, app_nil_l.
Qed.

(** Segments are slash-free, so a canonical text has one reading. *)
Definition slashless : list string -> Prop :=
  Forall (fun k => includesChar "/" k = false).

Lemma okSeg_slashless l : Forall okSeg l -> slashless l.
Proof. intros Hl. eapply Forall_impl; [exact Hl|]. by intros k [_ Hk]. Qed.

Lemma catSegs_inj l1 l2 :
  Forall okSeg l1 -> Forall okSeg l2 -> catSegs l1 = catSegs l2 -> l1 = l2.
Proof.
  intros H1%okSeg_slashless H2%okSeg_slashless E.
  apply (f_equal (split "/")) in E.
  rewrite !split_catSegs in E by done. by injection E.
Qed.

(** A text that ends in canonical segments and is canonical as a whole
    starts with canonical segments. *)
Lemma catSegs_cancel n r l :
  Forall okSeg r -> Forall okSeg l ->
  n +:+ catSegs r = catSegs l ->
  exists l0, n = catSegs l0 /\ l = l0 ++ r.
Proof.
  intros Hr Hl. revert l Hl.
  induction r as [|k r IH] using rev_ind; intros l Hl E.
  - exists l. cbn in E. rewrite app_nil_r in E. by rewrite List.app_nil_r.
  - apply Forall_app in Hr as [Hr [Hk _]%Forall_cons].
    rewrite catSegs_snoc, <- app_assoc in E.
    destruct (exists_last (l := l)) as (l' & k' & ->).
    { intros ->. cbn in E. apply (f_equal String.length) in E.
      rewrite !length_app in E. cbn in E. lia. }
    apply Forall_app in Hl as [Hl' [Hk' _]%Forall_cons].
    rewrite catSegs_snoc in E.
    assert (Hs := f_equal (split "/") E).
    rewrite !split_app_slash in Hs.
    rewrite (split_slashless k) in Hs by apply Hk.
    rewrite (split_slashless k') in Hs by apply Hk'.
    apply app_inj_tail in Hs as [Hs ->].
    apply (f_equal (join "/")) in Hs. rewrite !join_split in Hs.
    destruct (IH Hr l' Hl' Hs) as (l0 & -> & ->).
    exists l0. by rewrite List.app_assoc.
Qed.

(** ** The path functions on canonical paths *)

Lemma collapseFrom_slashless b k :
  includesChar "/" k = false -> collapseFrom b k = k.
Proof.
  revert b. induction k as [|c k IH]; intros b; [done|]. cbn.
  intros [Hc Hk]%orb_false_iff. rewrite Hc. by rewrite IH.
Qed.

Lemma collapseFrom_app_slashless b k s :
  k <> "" -> includesChar "/" k = false ->
  collapseFrom b (k +:+ s) = k +:+ collapseFrom false s.
Proof.
  revert b. induction k as [|c k IH]; intros b Hne; [done|].
  intros [Hc Hk]%orb_false_iff. rewrite !app_cons. cbn [collapseFrom].
  cbn in Hc. rewrite Hc. f_equal.
  destruct k as [|c' k]; [done|]. by apply IH.
Qed.

Lemma collapseSlashes_catSegs l :
  Forall okSeg l -> collapseSlashes (catSegs l) = catSegs l.
Proof.
  unfold collapseSlashes. induction l as [|k l IH]; [done|].
  intros [[Hne Hk] Hl]%Forall_cons.
  rewrite catSegs_cons_eq. cbn [collapseFrom Ascii.eqb].
  change (Ascii.eqb "/" "/") with true. cbv iota. f_equal.
  rewrite collapseFrom_app_slashless by done. by rewrite IH.
Qed.

Lemma endsWith_app_slashless s k :
  k <> "" -> includesChar "/" k = false -> endsWith (s +:+ k) "/" = false.
Proof.
  intros Hne Hk. induction s as [|c s IH].
  - rewrite app_nil_l. induction k as [|c k IHk]; [done|].
    cbn in Hk. apply orb_false_iff in Hk as [Hc Hk]. cbn [endsWith].
    destruct k as [|c' k].
    + cbn. destruct (Ascii.eqb_spec c "/"); [done|].
      by destruct (Ascii.eqb c "/").
    + rewrite IHk by done. rewrite orb_false_r. cbn.
      destruct (Ascii.eqb c "/"); done.
  - rewrite app_cons. cbn [endsWith]. rewrite IH, orb_false_r.
    destruct (s +:+ k) eqn:E.
    + destruct s; [|done]. rewrite app_nil_l in E. done.
    + cbn. by destruct (Ascii.eqb c "/").
Qed.

Lemma endsWith_catSegs l :
  Forall okSeg l -> l <> [] -> endsWith (catSegs l) "/" = false.
Proof.
  intros Hl Hne. destruct (exists_last Hne) as (l' & k & ->).
  apply Forall_app in Hl as [_ [[Hk1 Hk2] _]%Forall_cons].
  rewrite catSegs_snoc, <- app_assoc. by apply endsWith_app_slashless.
Qed.

Lemma normalizePath_catSegs l :
  Forall okSeg l -> l <> [] -> normalizePath (catSegs l) = catSegs l.
Proof.
  intros Hl Hne. unfold normalizePath.
  assert (startsWith (catSegs l) "/" = true) as ->.
  { destruct l as [|k l]; [done|]. rewrite catSegs_cons_eq.
    unfold startsWith. cbn. by destruct (k +:+ catSegs l). }
  rewrite endsWith_catSegs by done. rewrite andb_false_r.
  by apply collapseSlashes_catSegs.
Qed.

Lemma normalizePath_pathOf l :
  Forall okSeg l -> normalizePath (pathOf l) = pathOf l.
Proof.
  intros Hl. destruct l as [|k l]; [done|].
  by apply normalizePath_catSegs.
Qed.

Lemma getParentPath_snoc l k :
  Forall okSeg l -> okSeg k ->
  getParentPath (catSegs (l ++ [k])) = pathOf l.
Proof.
  intros Hl Hk. unfold getParentPath.
  assert (Hall : Forall okSeg (l ++ [k])).
  { apply Forall_app. split; [done|]. by apply Forall_singleton. }
  rewrite normalizePath_catSegs by (done || by destruct l).
  destruct (String.eqb_spec (catSegs (l ++ [k])) "/") as [E|_].
  { by apply catSegs_not_root in E. }
  rewrite split_catSegs by (by apply okSeg_slashless).
  change ("" :: l ++ [k]) with (("" :: l) ++ [k]).
  rewrite removelast_last. cbn [length].
  destruct l as [|k0 l]; [done|]. cbn [Nat.eqb pathOf].
  by apply join_empty_cons.
Qed.

Lemma getFileName_snoc l k :
  Forall okSeg l -> okSeg k -> getFileName (catSegs (l ++ [k])) = k.
Proof.
  intros Hl Hk. unfold getFileName.
  assert (Hall : Forall okSeg (l ++ [k])).
  { apply Forall_app. split; [done|]. by apply Forall_singleton. }
  rewrite normalizePath_catSegs by (done || by destruct l).
  destruct (String.eqb_spec (catSegs (l ++ [k])) "/") as [E|_].
  { by apply catSegs_not_root in E. }
  rewrite split_catSegs by (by apply okSeg_slashless).
  change ("" :: l ++ [k]) with (("" :: l) ++ [k]).
  by rewrite last_last.
Qed.

(** ** The segments that [createDirectoryPath] walks *)

Lemma split_all_slashless s : slashless (split "/" s).
Proof.
  unfold slashless. induction s as [|c s IH]; [by repeat constructor|].
  cbn [split]. destruct (Ascii.eqb c "/") eqn:Hc.
  - by constructor.
  - destruct (split "/" s) as [|h t] eqn:E; [by apply split_nonempty in E|].
    apply Forall_cons in IH as [Hh Ht]. constructor; [|done].
    cbn. by rewrite Hc, Hh.
Qed.

Lemma filterBoolean_ok l : slashless l -> Forall okSeg (filterBoolean l).
Proof.
  unfold filterBoolean, slashless. induction l as [|k l IH]; [by constructor|].
  intros [Hk Hl]%Forall_cons. cbn [List.filter].
  destruct (String.eqb_spec k ""); cbn [negb]; [by apply IH|].
  constructor; [done|by apply IH].
Qed.

Lemma filterBoolean_okSegs l : Forall okSeg l -> filterBoolean l = l.
Proof.
  unfold filterBoolean. induction l as [|k l IH]; [done|].
  intros [[Hk _] Hl]%Forall_cons. cbn [List.filter].
  destruct (String.eqb_spec k ""); [done|]. cbn [negb]. by rewrite IH.
Qed.

(** The segments of a path, as [createDirectoryPath] computes them. *)
Definition segmentsOf (p : string) : list string :=
  filterBoolean (split "/" (normalizePath p)).

Lemma segmentsOf_ok p : Forall okSeg (segmentsOf p).
Proof. apply filterBoolean_ok, split_all_slashless. Qed.

Lemma segmentsOf_catSegs l :
  Forall okSeg l -> l <> [] -> segmentsOf (catSegs l) = l.
Proof.
  intros Hl Hne. unfold segmentsOf.
  rewrite normalizePath_catSegs, split_catSegs
    by (done || by apply okSeg_slashless).
  unfold filterBoolean. cbn [List.filter String.eqb negb].
  by apply filterBoolean_okSegs.
Qed.

(** Every directory path of the walk is canonical, and has segments left
    after it. *)
Lemma directoryPrefixes_spec cur parts dirPath :
  dirPath ∈ directoryPrefixes cur parts ->
  exists pre rest,
    parts = pre ++ rest /\ pre <> [] /\ rest <> []
    /\ dirPath = cur +:+ catSegs pre.
Proof.
  revert cur. induction parts as [|k parts IH]; intros cur.
  - intros H. by apply elem_of_nil in H.
  - destruct parts as [|k' parts].
    + intros H. by apply elem_of_nil in H.
    + cbn [directoryPrefixes].
      intros [->|Hin]%elem_of_cons.
      * exists [k], (k' :: parts). repeat split; try done.
        cbn [catSegs]. by rewrite app_nil_r.
      * destruct (IH _ Hin) as (pre & rest & Hp & Hne & Hrest & ->).
        exists (k :: pre), rest. rewrite Hp. repeat split; try done.
        cbn [catSegs]. by rewrite !app_assoc.
Qed.

Lemma createDirectoryPath_spec p dirPath :
  dirPath ∈ createDirectoryPath p ->
  exists pre rest,
    segmentsOf p = pre ++ rest /\ pre <> [] /\ rest <> []
    /\ Forall okSeg pre /\ dirPath = catSegs pre.
Proof.
  unfold createDirectoryPath. fold (segmentsOf p).
  intros (pre & rest & Hp & Hne & Hrest & ->)%directoryPrefixes_spec.
  exists pre, rest. repeat split; try done.
  pose proof (segmentsOf_ok p) as Hok. rewrite Hp in Hok.
  by apply Forall_app in Hok as [? _].
Qed.

(** A directory path of the walk towards [p] is not [p]. *)
Lemma createDirectoryPath_not_self p :
  p ∉ createDirectoryPath p.
Proof.
  intros (pre & rest & Hp & Hne & Hrest & Hok & E)%createDirectoryPath_spec.
  rewrite E in Hp at 1. rewrite segmentsOf_catSegs in Hp by done.
  apply (f_equal length) in Hp. rewrite List.length_app in Hp.
  destruct rest; [done|]. cbn in Hp. lia.
Qed.

Lemma normalizePath_nonempty p : normalizePath p <> "".
Proof.
  unfold normalizePath.
  set (q := if startsWith p "/" then p else "/" +:+ p).
  assert (Hq : exists t, q = String "/" t).
  { unfold q, startsWith. destruct p as [|c p]; [by exists ""|].
    cbn [String.prefix]. destruct (ascii_dec "/" c) as [<-|].
    - destruct p; by eexists.
    - by eexists. }
  destruct Hq as [t ->].
  destruct (negb (String "/" t =? "/") && endsWith (String "/" t) "/")
    eqn:E; [|done].
  destruct t as [|c t]; [done|]. done.
Qed.

End Segments.
(** * Renaming a directory *)

Module RenameFacts.
Import JS PathUtils VFS StringFacts MapFacts Segments VFSFacts.

(** ** The invariant of the data model

    The index holds canonical paths; the node indexed at a path carries
    that path; the children of an indexed directory are indexed at its
    path joined with their names, which are segments; and every indexed
    node but the root is a child of an indexed directory. *)
Record WF (fs : VirtualFileSystem) : Prop := mkWF {
  wf_root : map_get "/" (files fs) = Some (root fs);
  wf_root_dir : type (deref fs (root fs)) = directory;
  wf_entry : forall p r,
    map_get p (files fs) = Some r ->
    r < length (store fs) /\ path (deref fs r) = p
    /\ exists l, Forall okSeg l /\ p = pathOf l;
  wf_dir : forall p r,
    map_get p (files fs) = Some r -> type (deref fs r) = directory ->
    exists cs,
      children (deref fs r) = Some cs /\ NoDup cs.*1
      /\ forall k c,
           map_get k cs = Some c ->
           okSeg k /\ name (deref fs c) = k
           /\ map_get (joinPath p k) (files fs) = Some c;
  wf_parent : forall p r,
    map_get p (files fs) = Some r -> p <> "/" ->
    exists q y cs,
      map_get q (files fs) = Some y /\ type (deref fs y) = directory
      /\ children (deref fs y) = Some cs
      /\ map_get (name (deref fs r)) cs = Some r
}.

Lemma deref_lookup fs r n : store fs !! r = Some n -> deref fs r = n.
Proof. unfold deref. by intros ->. Qed.

Lemma deref_lt fs r : r < length (store fs) -> store fs !! r = Some (deref fs r).
Proof.
  intros Hr. unfold deref.
  destruct (lookup_lt_is_Some_2 (store fs) r Hr) as [n ->]. done.
Qed.

(** ** Hooking a new node under a directory

    What [createDirectory] and [createFile] do once their checks have
    passed: the new object, its index entry, its entry among the children
    of the parent. *)
Definition withChild (n : FileNode) (k : string) (c : ref) : FileNode :=
  mkNode (type n) (name n) (path n) (content n)
    (Some (map_set k c (default [] (children n)))).

Definition attached (fs : VirtualFileSystem) (parent : ref) (p k : string)
  (node : FileNode) : VirtualFileSystem :=
  mkVFS
    (<[parent := withChild (deref fs parent) k (length (store fs))]>
       (store fs ++ [node]))
    (map_set p (length (store fs)) (files fs))
    (root fs).

Section Attach.
Variables (fs : VirtualFileSystem) (parent : ref) (pp k : string)
  (node : FileNode).
Hypothesis Hwf : WF fs.
Hypothesis Hparent : map_get pp (files fs) = Some parent.
Hypothesis Hdir : type (deref fs parent) = directory.
Hypothesis Hk : okSeg k.
Hypothesis Hfree : map_get (joinPath pp k) (files fs) = None.
Hypothesis Hname : name node = k.
Hypothesis Hpath : path node = joinPath pp k.
Hypothesis Hkids : type node = directory -> children node = Some [].

Let fs' := attached fs parent (joinPath pp k) k node.
Let new := length (store fs).

Lemma attach_parent_lt : parent < length (store fs).
Proof. by destruct (wf_entry _ Hwf _ _ Hparent). Qed.

Lemma attach_deref_new : deref fs' new = node.
Proof.
  pose proof attach_parent_lt. apply deref_lookup. cbn.
  rewrite list_lookup_insert_ne by (unfold new; lia).
  rewrite lookup_app_r by done. by rewrite Nat.sub_diag.
Qed.

Lemma attach_deref_parent :
  deref fs' parent = withChild (deref fs parent) k new.
Proof.
  pose proof attach_parent_lt. apply deref_lookup. cbn.
  apply list_lookup_insert_eq. rewrite List.length_app. cbn. lia.
Qed.

Lemma attach_deref_old r :
  r < length (store fs) -> r <> parent -> deref fs' r = deref fs r.
Proof.
  intros Hr Hne. apply deref_lookup. cbn.
  rewrite list_lookup_insert_ne by done.
  rewrite lookup_app_l by done. by apply deref_lt.
Qed.

(** The fields of an old node other than its children are as before. *)
Lemma attach_fields r :
  r < length (store fs) ->
  type (deref fs' r) = type (deref fs r)
  /\ name (deref fs' r) = name (deref fs r)
  /\ path (deref fs' r) = path (deref fs r)
  /\ content (deref fs' r) = content (deref fs r).
Proof.
  intros Hr. destruct (decide (r = parent)) as [->|Hne].
  - by rewrite attach_deref_parent.
  - by rewrite attach_deref_old.
Qed.

Lemma attach_parent_children :
  exists cs,
    children (deref fs parent) = Some cs /\ NoDup cs.*1
    /\ map_get k cs = None
    /\ children (deref fs' parent) = Some (map_set k new cs).
Proof.
  destruct (wf_dir _ Hwf _ _ Hparent Hdir) as (cs & Hcs & Hnd & Hall).
  exists cs. repeat split; try done.
  - destruct (map_get k cs) as [c|] eqn:E; [|done].
    destruct (Hall _ _ E) as (_ & _ & Hidx). congruence.
  - rewrite attach_deref_parent. unfold withChild. cbn. by rewrite Hcs.
Qed.

(** Old children stay children. *)
Lemma attach_children r cs k' c :
  r < length (store fs) ->
  children (deref fs r) = Some cs -> map_get k' cs = Some c ->
  exists cs', children (deref fs' r) = Some cs' /\ map_get k' cs' = Some c.
Proof.
  intros Hr Hcs Hc. destruct (decide (r = parent)) as [->|Hne].
  - destruct attach_parent_children as (cs0 & Hcs0 & _ & Hfresh & Hcs').
    assert (cs0 = cs) as -> by congruence.
    exists (map_set k new cs). split; [done|].
    rewrite map_get_set_ne; [done|]. intros ->. congruence.
  - exists cs. by rewrite attach_deref_old.
Qed.

Lemma attach_index p :
  map_get p (files fs')
  = if decide (joinPath pp k = p) then Some new else map_get p (files fs).
Proof. cbn. apply map_get_set. Qed.

Lemma attach_index_old p r :
  map_get p (files fs) = Some r -> map_get p (files fs') = Some r.
Proof.
  intros Hp. rewrite attach_index. rewrite decide_False; [done|].
  intros <-. congruence.
Qed.

Lemma attach_WF : WF fs'.
Proof.
  pose proof attach_parent_lt as Hplt.
  destruct (wf_entry _ Hwf _ _ Hparent) as (_ & Hppath & lp & Hlp & Epp).
  split.
  - apply attach_index_old, Hwf.
  - cbn [root fs' attached].
    change (type (deref fs' (root fs)) = directory).
    destruct (wf_entry _ Hwf _ _ (wf_root _ Hwf)) as (Hr & _).
    destruct (attach_fields _ Hr) as (-> & _). apply Hwf.
  - intros p r. rewrite attach_index.
    destruct (decide (joinPath pp k = p)) as [<-|Hne].
    + intros [= <-]. split; [cbn; rewrite length_insert, List.length_app; cbn; lia|].
      fold new. rewrite attach_deref_new. split; [done|].
      exists (lp ++ [k]). split.
      * apply Forall_app. split; [done|]. by apply Forall_singleton.
      * rewrite Epp. by apply joinPath_pathOf.
    + intros Hp. destruct (wf_entry _ Hwf _ _ Hp) as (Hr & Hrp & Hl).
      split; [cbn; rewrite length_insert, List.length_app; cbn; lia|].
      destruct (attach_fields _ Hr) as (_ & _ & -> & _). done.
  - intros p r. rewrite attach_index.
    destruct (decide (joinPath pp k = p)) as [<-|Hne].
    + intros [= <-]. fold new. rewrite attach_deref_new. intros Hty.
      exists []. split; [by apply Hkids|]. split; [constructor|]. done.
    + intros Hp. destruct (wf_entry _ Hwf _ _ Hp) as (Hr & Hrp & _).
      destruct (attach_fields _ Hr) as (-> & _). intros Hty.
      destruct (wf_dir _ Hwf _ _ Hp Hty) as (cs & Hcs & Hnd & Hall).
      destruct (decide (r = parent)) as [->|Hrne].
      * assert (p = pp) as -> by congruence.
        destruct attach_parent_children as (cs0 & Hcs0 & _ & Hfresh & Hcs').
        assert (cs0 = cs) as -> by congruence.
        exists (map_set k new cs). split; [done|].
        split; [by apply map_set_NoDup|].
        intros k' c. rewrite map_get_set.
        destruct (decide (k = k')) as [<-|Hkne].
        -- intros [= <-]. split; [done|]. fold new.
           rewrite attach_deref_new. split; [done|].
           rewrite attach_index. by rewrite decide_True.
        -- intros Hc. destruct (Hall _ _ Hc) as (Hok & Hnm & Hidx).
           destruct (wf_entry _ Hwf _ _ Hidx) as (Hclt & _).
           destruct (attach_fields _ Hclt) as (_ & -> & _).
           split; [done|]. split; [done|]. by apply attach_index_old.
      * exists cs. rewrite attach_deref_old by done. split; [done|].
        split; [done|]. intros k' c Hc.
        destruct (Hall _ _ Hc) as (Hok & Hnm & Hidx).
        destruct (wf_entry _ Hwf _ _ Hidx) as (Hclt & _).
        destruct (attach_fields _ Hclt) as (_ & -> & _).
        split; [done|]. split; [done|]. by apply attach_index_old.
  - intros p r. rewrite attach_index.
    destruct (decide (joinPath pp k = p)) as [<-|Hne].
    + intros [= <-] _. fold new. rewrite attach_deref_new, Hname.
      destruct attach_parent_children as (cs0 & Hcs0 & _ & Hfresh & Hcs').
      exists pp, parent, (map_set k new cs0). split; [by apply attach_index_old|].
      split; [by destruct (attach_fields _ Hplt) as (-> & _)|].
      split; [done|]. apply map_get_set_eq.
    + intros Hp Hroot.
      destruct (wf_entry _ Hwf _ _ Hp) as (Hr & Hrp & _).
      destruct (attach_fields _ Hr) as (_ & -> & _).
      destruct (wf_parent _ Hwf _ _ Hp Hroot) as (q & y & cs & Hq & Hty & Hcs & Hc).
      destruct (wf_entry _ Hwf _ _ Hq) as (Hy & _).
      destruct (attach_children _ _ _ _ Hy Hcs Hc) as (cs' & Hcs' & Hc').
      exists q, y, cs'. split; [by apply attach_index_old|].
      split; [by destruct (attach_fields _ Hy) as (-> & _)|]. done.
Qed.

End Attach.

(** ** One state grown out of another

    [grows created fs fs']: the index of [fs'] has the entries of [fs]
    and, beyond them, only paths of [created]; the old nodes keep their
    fields, and their children stay their children. *)
Record grows (created : list string) (fs fs' : VirtualFileSystem) : Prop :=
  mkGrows {
  grows_length : length (store fs) <= length (store fs');
  grows_index : forall p r,
    map_get p (files fs) = Some r -> map_get p (files fs') = Some r;
  grows_fresh : forall p,
    map_get p (files fs) = None -> p ∉ created ->
    map_get p (files fs') = None;
  grows_fields : forall r,
    r < length (store fs) ->
    type (deref fs' r) = type (deref fs r)
    /\ name (deref fs' r) = name (deref fs r)
    /\ path (deref fs' r) = path (deref fs r)
    /\ content (deref fs' r) = content (deref fs r);
  grows_children : forall r cs k c,
    r < length (store fs) ->
    children (deref fs r) = Some cs -> map_get k cs = Some c ->
    exists cs', children (deref fs' r) = Some cs' /\ map_get k cs' = Some c
}.

Lemma grows_refl created fs : grows created fs fs.
Proof. split; try done. intros r cs k c _ Hcs Hc. by exists cs. Qed.

Lemma grows_trans c1 c2 fs1 fs2 fs3 :
  grows c1 fs1 fs2 -> grows c2 fs2 fs3 -> grows (c1 ++ c2) fs1 fs3.
Proof.
  intros H12 H23. split.
  - pose proof (grows_length _ _ _ H12). pose proof (grows_length _ _ _ H23).
    lia.
  - intros p r Hp. by apply (grows_index _ _ _ H23), (grows_index _ _ _ H12).
  - intros p Hp Hnin. apply not_elem_of_app in Hnin as [Hn1 Hn2].
    apply (grows_fresh _ _ _ H23); [|done].
    by apply (grows_fresh _ _ _ H12).
  - intros r Hr.
    pose proof (grows_length _ _ _ H12).
    destruct (grows_fields _ _ _ H12 r Hr) as (<- & <- & <- & <-).
    apply (grows_fields _ _ _ H23). lia.
  - intros r cs k c Hr Hcs Hc.
    pose proof (grows_length _ _ _ H12).
    destruct (grows_children _ _ _ H12 _ _ _ _ Hr Hcs Hc) as (cs' & Hcs' & Hc').
    apply (grows_children _ _ _ H23 r cs' k c); [lia|done..].
Qed.

Lemma attached_grows fs parent pp k node :
  WF fs -> map_get pp (files fs) = Some parent ->
  type (deref fs parent) = directory -> okSeg k ->
  map_get (joinPath pp k) (files fs) = None ->
  name node = k -> path node = joinPath pp k ->
  (type node = directory -> children node = Some []) ->
  grows [joinPath pp k] fs (attached fs parent (joinPath pp k) k node).
Proof.
  intros Hwf Hparent Hdir Hk Hfree Hname Hpath Hkids. split.
  - cbn. rewrite length_insert, List.length_app. lia.
  - intros p r Hp. eapply attach_index_old; eauto.
  - intros p Hp Hnin. rewrite attach_index.
    rewrite decide_False; [done|]. intros <-. apply Hnin. left.
  - intros r Hr. eapply attach_fields; eauto.
  - intros r cs k' c Hr Hcs Hc. eapply attach_children; eauto.
Qed.

(** ** [createDirectory] on a canonical path *)

Lemma createDirectory_canonical fs fs' l v :
  WF fs -> Forall okSeg l -> l <> [] ->
  createDirectory (catSegs l) fs = Returns v fs' ->
  WF fs' /\ grows [catSegs l] fs fs'.
Proof.
  intros Hwf Hl Hne. unfold createDirectory. vfs_steps.
  unfold validatePath. destruct (pathViolation (catSegs l)); vfs_steps; [done|].
  rewrite normalizePath_catSegs by done.
  destruct (map_has (catSegs l) (files fs)) eqn:Hhas; vfs_steps.
  { intros [= _ <-]. split; [done|]. apply grows_refl. }
  apply map_has_false in Hhas.
  destruct (exists_last Hne) as (l0 & k & ->).
  apply Forall_app in Hl as [Hl0 [Hk _]%Forall_cons].
  rewrite getParentPath_snoc, getFileName_snoc by done.
  destruct (map_get (pathOf l0) (files fs)) as [parent|] eqn:Hparent;
    vfs_steps; [|intros [= _ <-]; split; [done|apply grows_refl]].
  destruct (decide (type (deref fs parent) = directory)) as [Hdir|];
    vfs_steps; [|intros [= _ <-]; split; [done|apply grows_refl]].
  destruct (wf_entry _ Hwf _ _ Hparent) as (Hplt & _).
  destruct (wf_dir _ Hwf _ _ Hparent Hdir) as (cs & Hcs & _).
  unfold childrenSet. vfs_steps.
  assert (Hread :
    deref (mkVFS (store fs ++ [mkNode directory k (catSegs (l0 ++ [k])) None
                                 (Some [])])
             (map_set (catSegs (l0 ++ [k])) (length (store fs)) (files fs))
             (root fs)) parent
    = deref fs parent).
  { apply deref_lookup. cbn. rewrite lookup_app_l by done. by apply deref_lt. }
  rewrite Hread, Hcs. vfs_steps.
  intros [= _ <-].
  assert (Ejoin : catSegs (l0 ++ [k]) = joinPath (pathOf l0) k).
  { rewrite joinPath_pathOf by done. by destruct l0. }
  assert (Hshape :
    mkVFS
      (<[parent := mkNode (type (deref fs parent)) (name (deref fs parent))
                     (path (deref fs parent)) (content (deref fs parent))
                     (Some (map_set k (length (store fs)) cs))]>
         (store fs ++ [mkNode directory k (catSegs (l0 ++ [k])) None (Some [])]))
      (map_set (catSegs (l0 ++ [k])) (length (store fs)) (files fs)) (root fs)
    = attached fs parent (joinPath (pathOf l0) k) k
        (mkNode directory k (joinPath (pathOf l0) k) None (Some []))).
  { unfold attached, withChild. rewrite Hcs, <- Ejoin. done. }
  rewrite Hshape. rewrite Ejoin in Hhas. split.
  - by apply (attach_WF fs parent (pathOf l0) k).
  - rewrite Ejoin. by apply attached_grows.
Qed.

(** The walk of [ensureParentDirectories], over canonical paths. *)
Lemma createMissing_canonical dirs fs fs' :
  WF fs ->
  (forall dirPath, dirPath ∈ dirs ->
     exists l, Forall okSeg l /\ l <> [] /\ dirPath = catSegs l) ->
  forEach dirs (fun dirPath =>
    present <- exists_ dirPath ;;
    if negb present then createDirectory dirPath ;;; ret tt else ret tt) fs
  = Returns tt fs' ->
  WF fs' /\ grows dirs fs fs'.
Proof.
  revert fs. induction dirs as [|dirPath dirs IH]; intros fs Hwf Hdirs.
  - vfs_steps. intros [= <-]. split; [done|apply grows_refl].
  - vfs_steps.
    destruct (Hdirs dirPath ltac:(left)) as (l & Hl & Hne & ->).
    assert (Hrest : forall dirPath, dirPath ∈ dirs ->
              exists l, Forall okSeg l /\ l <> [] /\ dirPath = catSegs l).
    { intros x Hx. apply Hdirs. by right. }
    destruct (negb (existsIn fs (catSegs l))); vfs_steps.
    + destruct (createDirectory (catSegs l) fs) as [v fs1|e fs1] eqn:Hcreate.
      * rewrite (bind_Returns _ _ _ _ _ Hcreate). vfs_steps.
        destruct (createDirectory_canonical _ _ _ _ Hwf Hl Hne Hcreate)
          as [Hwf1 Hg1].
        intros Hloop. destruct (IH fs1 Hwf1 Hrest Hloop) as [Hwf' Hg'].
        split; [done|]. by apply (grows_trans [catSegs l] dirs fs fs1 fs').
      * by rewrite (bind_Throws _ _ _ _ _ Hcreate).
    + intros Hloop. destruct (IH fs Hwf Hrest Hloop) as [Hwf' Hg'].
      split; [done|].
      apply (grows_trans [catSegs l] dirs fs fs fs'); [apply grows_refl|done].
Qed.

Lemma ensureParentDirectories_grows p fs fs' :
  WF fs -> ensureParentDirectories p fs = Returns tt fs' ->
  WF fs' /\ grows (createDirectoryPath p) fs fs'.
Proof.
  intros Hwf. unfold ensureParentDirectories.
  apply createMissing_canonical; [done|].
  intros dirPath (pre & rest & _ & Hne & _ & Hok & ->)%createDirectoryPath_spec.
  by exists pre.
Qed.

(** ** The empty file system, and [createFile] on a canonical path *)

Lemma WF_new : WF VFS.new.
Proof.
  assert (Hidx : forall p r, map_get p (files VFS.new) = Some r ->
            p = "/" /\ r = 0).
  { intros p r. cbn. case_decide; [|done]. by intros [= <-]. }
  split.
  - reflexivity.
  - reflexivity.
  - intros p r [-> ->]%Hidx. repeat split; [cbn; lia|].
    by exists [].
  - intros p r [-> ->]%Hidx _. exists [].
    split; [reflexivity|]. split; [apply NoDup_nil_2|].
    intros k c. by cbn.
  - by intros p r [-> ->]%Hidx.
Qed.

Lemma createFile_canonical fs fs' l c v :
  WF fs -> Forall okSeg l -> l <> [] ->
  createFile (catSegs l) c fs = Returns v fs' ->
  WF fs'.
Proof.
  intros Hwf Hl Hne. unfold createFile. vfs_steps.
  unfold validatePath, validateContent.
  destruct (pathViolation (catSegs l)); vfs_steps; [done|].
  destruct (contentViolation c); vfs_steps; [done|].
  rewrite normalizePath_catSegs by done.
  destruct (map_has (catSegs l) (files fs)) eqn:Hhas; vfs_steps.
  { by intros [= _ <-]. }
  apply map_has_false in Hhas.
  destruct (ensureParentDirectories (catSegs l) fs) as [[] fs1|e fs1] eqn:Hepd.
  2:{ by rewrite (bind_Throws _ _ _ _ _ Hepd). }
  rewrite (bind_Returns _ _ _ _ _ Hepd).
  destruct (ensureParentDirectories_grows _ _ _ Hwf Hepd) as [Hwf1 Hg].
  assert (Hfree : map_get (catSegs l) (files fs1) = None).
  { apply (grows_fresh _ _ _ Hg); [done|]. apply createDirectoryPath_not_self. }
  clear Hepd Hg Hhas Hwf. revert Hwf1 Hfree. generalize fs1. clear fs.
  intros fs Hwf Hhas. vfs_steps.
  destruct (exists_last Hne) as (l0 & k & ->).
  apply Forall_app in Hl as [Hl0 [Hk _]%Forall_cons].
  rewrite getParentPath_snoc, getFileName_snoc by done.
  destruct (map_get (pathOf l0) (files fs)) as [parent|] eqn:Hparent;
    vfs_steps; [|by intros [= _ <-]].
  destruct (decide (type (deref fs parent) = directory)) as [Hdir|];
    vfs_steps; [|by intros [= _ <-]].
  destruct (wf_entry _ Hwf _ _ Hparent) as (Hplt & _).
  destruct (wf_dir _ Hwf _ _ Hparent Hdir) as (cs & Hcs & _).
  unfold childrenSet. vfs_steps.
  assert (Hread :
    deref (mkVFS (store fs ++ [mkNode file k (catSegs (l0 ++ [k])) (Some c)
                                 None])
             (map_set (catSegs (l0 ++ [k])) (length (store fs)) (files fs))
             (root fs)) parent
    = deref fs parent).
  { apply deref_lookup. cbn. rewrite lookup_app_l by done. by apply deref_lt. }
  rewrite Hread, Hcs. vfs_steps.
  intros [= _ <-].
  assert (Ejoin : catSegs (l0 ++ [k]) = joinPath (pathOf l0) k).
  { rewrite joinPath_pathOf by done. by destruct l0. }
  assert (Hshape :
    mkVFS
      (<[parent := mkNode (type (deref fs parent)) (name (deref fs parent))
                     (path (deref fs parent)) (content (deref fs parent))
                     (Some (map_set k (length (store fs)) cs))]>
         (store fs ++ [mkNode file k (catSegs (l0 ++ [k])) (Some c) None]))
      (map_set (catSegs (l0 ++ [k])) (length (store fs)) (files fs)) (root fs)
    = attached fs parent (joinPath (pathOf l0) k) k
        (mkNode file k (joinPath (pathOf l0) k) (Some c) None)).
  { unfold attached, withChild. rewrite Hcs, <- Ejoin. done. }
  rewrite Hshape. rewrite Ejoin in Hhas.
  by apply (attach_WF fs parent (pathOf l0) k).
Qed.

(** ** Descendants

    [desc fs y c r]: from the node [y], following the child entries named
    by [r] one after the other leads to the node [c]. *)
Inductive desc (fs : VirtualFileSystem) : ref -> ref -> list string -> Prop :=
  | desc_nil y : desc fs y y []
  | desc_cons y cs k c c' r :
      type (deref fs y) = directory ->
      children (deref fs y) = Some cs ->
      map_get k cs = Some c ->
      desc fs c c' r ->
      desc fs y c' (k :: r).

Lemma desc_nil_inv fs y c : desc fs y c [] -> c = y.
Proof. by inversion 1. Qed.

Lemma desc_cons_inv fs y c k r :
  desc fs y c (k :: r) ->
  exists cs c0, type (deref fs y) = directory
    /\ children (deref fs y) = Some cs
    /\ map_get k cs = Some c0 /\ desc fs c0 c r.
Proof. inversion 1; subst. eauto 10. Qed.

Lemma desc_child fs y cs k c :
  type (deref fs y) = directory -> children (deref fs y) = Some cs ->
  map_get k cs = Some c -> desc fs y c [k].
Proof. intros. eapply desc_cons; eauto. constructor. Qed.

Lemma desc_app fs y c c' r r' :
  desc fs y c r -> desc fs c c' r' -> desc fs y c' (r ++ r').
Proof.
  induction 1 as [|y cs k c0 c r Hty Hcs Hk Hd IH]; intros Hc; [done|].
  cbn [app]. eapply desc_cons; eauto.
Qed.

Lemma desc_app_inv fs y c' r r' :
  desc fs y c' (r ++ r') -> exists c, desc fs y c r /\ desc fs c c' r'.
Proof.
  revert y. induction r as [|k r IH]; intros y Hd.
  - exists y. split; [constructor|done].
  - inversion Hd as [|y0 cs k0 c0 c1 r0 Hty Hcs Hk Hrest]; subst.
    destruct (IH _ Hrest) as (c & Hc & Hc').
    exists c. split; [|done]. eapply desc_cons; eauto.
Qed.

Section Tree.
Variable fs : VirtualFileSystem.
Hypothesis Hwf : WF fs.

(** A descendant is indexed at the path of its ancestor extended by the
    names that lead to it. *)
Lemma desc_index y c r ly :
  Forall okSeg ly -> map_get (pathOf ly) (files fs) = Some y ->
  desc fs y c r ->
  Forall okSeg r /\ map_get (pathOf (ly ++ r)) (files fs) = Some c.
Proof.
  intros Hly Hy Hd. revert ly Hly Hy.
  induction Hd as [|y cs k c0 c r Hty Hcs Hk Hd IH]; intros ly Hly Hy.
  - rewrite List.app_nil_r. split; [constructor|done].
  - destruct (wf_dir _ Hwf _ _ Hy Hty) as (cs' & Hcs' & _ & Hall).
    assert (cs' = cs) as -> by congruence.
    destruct (Hall _ _ Hk) as (Hok & _ & Hidx).
    rewrite joinPath_pathOf in Hidx by done.
    destruct (IH (ly ++ [k])) as [Hr Hc]; [|done|].
    { apply Forall_app. split; [done|]. by apply Forall_singleton. }
    rewrite <- List.app_assoc in Hc. split; [by constructor|done].
Qed.

Lemma desc_lt y c r ly :
  Forall okSeg ly -> map_get (pathOf ly) (files fs) = Some y ->
  desc fs y c r -> c < length (store fs).
Proof.
  intros Hly Hy Hd. destruct (desc_index _ _ _ _ Hly Hy Hd) as [_ Hc].
  by destruct (wf_entry _ Hwf _ _ Hc).
Qed.

Lemma pathOf_inj l1 l2 :
  Forall okSeg l1 -> Forall okSeg l2 -> pathOf l1 = pathOf l2 -> l1 = l2.
Proof.
  intros H1 H2. destruct l1 as [|k1 l1], l2 as [|k2 l2]; cbn [pathOf];
    try done.
  - intros E. symmetry in E. by apply catSegs_not_root in E.
  - intros E. by apply catSegs_not_root in E.
  - by apply catSegs_inj.
Qed.

(** No sharing: a node has one chain of names from an ancestor, and a
    chain leads to one node. *)
Lemma desc_chain_unique y c r r' ly :
  Forall okSeg ly -> map_get (pathOf ly) (files fs) = Some y ->
  desc fs y c r -> desc fs y c r' -> r = r'.
Proof.
  intros Hly Hy Hd Hd'.
  destruct (desc_index _ _ _ _ Hly Hy Hd) as [Hr Hc].
  destruct (desc_index _ _ _ _ Hly Hy Hd') as [Hr' Hc'].
  destruct (wf_entry _ Hwf _ _ Hc) as (_ & Hp & _).
  destruct (wf_entry _ Hwf _ _ Hc') as (_ & Hp' & _).
  assert (E : pathOf (ly ++ r) = pathOf (ly ++ r')) by congruence.
  apply pathOf_inj in E; [by apply app_inv_head in E|..];
    apply Forall_app; by split.
Qed.

Lemma desc_node_unique y c c' r ly :
  Forall okSeg ly -> map_get (pathOf ly) (files fs) = Some y ->
  desc fs y c r -> desc fs y c' r -> c = c'.
Proof.
  intros Hly Hy Hd Hd'.
  destruct (desc_index _ _ _ _ Hly Hy Hd) as [_ Hc].
  destruct (desc_index _ _ _ _ Hly Hy Hd') as [_ Hc']. congruence.
Qed.

(** The node indexed one segment below a path is a child of the
    directory indexed at that path. *)
Lemma index_parent l k c :
  Forall okSeg l -> okSeg k ->
  map_get (pathOf (l ++ [k])) (files fs) = Some c ->
  exists y cs, map_get (pathOf l) (files fs) = Some y
    /\ type (deref fs y) = directory
    /\ children (deref fs y) = Some cs /\ map_get k cs = Some c.
Proof.
  intros Hl Hk Hc.
  assert (Hlk : Forall okSeg (l ++ [k])).
  { apply Forall_app. split; [done|]. by apply Forall_singleton. }
  destruct (wf_parent _ Hwf _ _ Hc) as (q & y & cs & Hq & Hty & Hcs & Hin).
  { intros E. change "/" with (pathOf []) in E.
    apply pathOf_inj in E; [|done|constructor]. by destruct l. }
  destruct (wf_dir _ Hwf _ _ Hq Hty) as (cs' & Hcs' & _ & Hall).
  assert (cs' = cs) as -> by congruence.
  destruct (Hall _ _ Hin) as (Hokn & _ & Hidx).
  destruct (wf_entry _ Hwf _ _ Hq) as (_ & _ & lq & Hlq & ->).
  rewrite joinPath_pathOf in Hidx by done.
  destruct (wf_entry _ Hwf _ _ Hc) as (_ & Hp1 & _).
  destruct (wf_entry _ Hwf _ _ Hidx) as (_ & Hp2 & _).
  assert (E : pathOf (lq ++ [name (deref fs c)]) = pathOf (l ++ [k]))
    by congruence.
  apply pathOf_inj in E; [|apply Forall_app; split;
                             [done|by apply Forall_singleton]|done].
  apply app_inj_tail in E as [-> Ek]. rewrite Ek in Hin.
  by exists y, cs.
Qed.

(** Every path on the way to an indexed path is indexed. *)
Lemma index_prefix l t c :
  Forall okSeg (l ++ t) ->
  map_get (pathOf (l ++ t)) (files fs) = Some c ->
  exists y, map_get (pathOf l) (files fs) = Some y.
Proof.
  revert c. induction t as [|k t IH] using rev_ind; intros c Hok Hc.
  - rewrite List.app_nil_r in Hc. by exists c.
  - rewrite List.app_assoc in Hok, Hc.
    apply Forall_app in Hok as [Hok [Hk _]%Forall_cons].
    destruct (index_parent _ _ _ Hok Hk Hc) as (y & _ & Hy & _).
    by apply (IH y).
Qed.

(** The nodes indexed below the path of a node are its descendants. *)
Lemma index_desc y ly r c :
  Forall okSeg ly -> map_get (pathOf ly) (files fs) = Some y ->
  Forall okSeg r ->
  map_get (pathOf (ly ++ r)) (files fs) = Some c ->
  desc fs y c r.
Proof.
  intros Hly Hy. revert c.
  induction r as [|k r IH] using rev_ind; intros c Hr Hc.
  - rewrite List.app_nil_r in Hc. assert (c = y) as -> by congruence.
    constructor.
  - apply Forall_app in Hr as [Hr [Hk _]%Forall_cons].
    rewrite List.app_assoc in Hc.
    destruct (index_parent (ly ++ r) k c) as (z & cs & Hz & Hty & Hcs & Hin);
      [by apply Forall_app|done..|].
    eapply desc_app; [by apply IH|]. by eapply desc_child.
Qed.

End Tree.

(** Descendants stay descendants when the state grows. *)
Lemma desc_grows created fs fs' y c r ly :
  WF fs -> grows created fs fs' ->
  Forall okSeg ly -> map_get (pathOf ly) (files fs) = Some y ->
  desc fs y c r -> desc fs' y c r.
Proof.
  intros Hwf Hg Hly Hy Hd. revert ly Hly Hy.
  induction Hd as [|y cs k c0 c r Hty Hcs Hk Hd IH]; intros ly Hly Hy.
  - constructor.
  - destruct (wf_entry _ Hwf _ _ Hy) as (Hylt & _).
    destruct (grows_children _ _ _ Hg _ _ _ _ Hylt Hcs Hk) as (cs' & Hcs' & Hk').
    destruct (grows_fields _ _ _ Hg _ Hylt) as (Hty' & _).
    eapply desc_cons; [congruence|done..|].
    destruct (wf_dir _ Hwf _ _ Hy Hty) as (cs0 & Hcs0 & _ & Hall).
    assert (cs0 = cs) as -> by congruence.
    destruct (Hall _ _ Hk) as (Hok & _ & Hidx).
    rewrite joinPath_pathOf in Hidx by done.
    apply (IH (ly ++ [k])); [|done].
    apply Forall_app. split; [done|]. by apply Forall_singleton.
Qed.

End RenameFacts.
(** * The walk that rewrites the paths below a renamed directory *)

Module Propagation.
Import JS PathUtils VFS StringFacts MapFacts Segments VFSFacts RenameFacts.

(** [child.path = p], the other fields kept. *)
Definition setPath (n : FileNode) (p : string) : FileNode :=
  mkNode (type n) (name n) p (content n) (children n).

(** The state after one child is given its new path: the node is
    rewritten, its old path leaves the index, its new path enters it. *)
Definition moved (s : VirtualFileSystem) (c : ref) (new : string)
  : VirtualFileSystem :=
  mkVFS (<[c := setPath (deref s c) new]> (store s))
        (map_set new c (map_delete (path (deref s c)) (files s)))
        (root s).

(** The body of the loop of [updateChildrenPaths]. *)
Definition visit (stack : nat) (node child : ref) : M unit :=
  c <- read child ;;
  let oldChildPath := path c in
  n <- read node ;;
  let newChildPath := path n +:+ "/" +:+ name c in
  write child (mkNode (type c) (name c) newChildPath (content c)
                 (children c)) ;;;
  filesDelete oldChildPath ;;;
  filesSet newChildPath child ;;;
  if decide (type c = directory)
  then updateChildrenPaths stack child
  else ret tt.

Lemma updateChildrenPaths_S stack node s :
  updateChildrenPaths (S stack) node s
  = match type (deref s node), children (deref s node) with
    | directory, Some cs =>
        forEach cs (fun '(_, child) => visit stack node child) s
    | _, _ => Returns tt s
    end.
Proof.
  cbn [updateChildrenPaths]. rewrite bind_read.
  destruct (type (deref s node)), (children (deref s node)); reflexivity.
Qed.

Lemma visit_eq stack node child s :
  visit stack node child s
  = (if decide (type (deref s child) = directory)
     then updateChildrenPaths stack child
     else ret tt)
      (moved s child (path (deref s node) +:+ "/" +:+ name (deref s child))).
Proof. reflexivity. Qed.

Lemma deref_moved_ne s c new i : i <> c -> deref (moved s c new) i = deref s i.
Proof.
  intros Hne. unfold moved, deref. cbn [store].
  by rewrite list_lookup_insert_ne.
Qed.

Lemma deref_moved_eq s c new :
  c < length (store s) ->
  deref (moved s c new) c = setPath (deref s c) new.
Proof.
  intros Hlt. unfold moved. rewrite deref_mkVFS.
  by rewrite list_lookup_insert_eq.
Qed.

(** ** Soundness of the walk

    [W] is the state before the moved node is touched and satisfies the
    invariant of the data model; [d] is the moved directory, indexed in
    [W] at the path [O] with segments [lO]; [N] is its new path; [s2] is
    the state in which the walk starts. *)
Section Walk.
Variables (W s2 : VirtualFileSystem) (d : ref) (lO : list string)
  (N : string).
Hypothesis HW : WF W.
Hypothesis HlO : Forall okSeg lO.
Hypothesis HlO_ne : lO <> [].
Hypothesis Hd : map_get (catSegs lO) (files W) = Some d.
Hypothesis Hfresh : forall r r',
  Forall okSeg r -> Forall okSeg r' ->
  N +:+ catSegs r <> catSegs lO +:+ catSegs r'.
Hypothesis Hlen : length (store s2) = length (store W).
Hypothesis Htop_type : type (deref s2 d) = type (deref W d).
Hypothesis Htop_children : children (deref s2 d) = children (deref W d).
Hypothesis Htop_path : path (deref s2 d) = N.
Hypothesis Hbelow : forall c r,
  desc W d c r -> r <> [] -> deref s2 c = deref W c.

Let O := catSegs lO.

Lemma top_indexed : map_get (pathOf lO) (files W) = Some d.
Proof. by destruct lO. Qed.

Lemma pathOf_below r : pathOf (lO ++ r) = O +:+ catSegs r.
Proof.
  unfold pathOf, O. rewrite <- catSegs_app.
  destruct lO; [done|reflexivity].
Qed.

(** What the invariant of [W] says of a node below [d]. *)
Lemma below_facts c r :
  desc W d c r ->
  Forall okSeg r
  /\ map_get (O +:+ catSegs r) (files W) = Some c
  /\ path (deref W c) = O +:+ catSegs r
  /\ c < length (store W).
Proof.
  intros Hc. destruct (desc_index W HW _ _ _ _ HlO top_indexed Hc) as [Hr Hidx].
  rewrite pathOf_below in Hidx.
  destruct (wf_entry _ HW _ _ Hidx) as (Hlt & Hp & _). done.
Qed.

Lemma below_chain c r r' : desc W d c r -> desc W d c r' -> r = r'.
Proof.
  intros. eapply (desc_chain_unique W HW); eauto using top_indexed.
Qed.

Lemma below_node c c' r : desc W d c r -> desc W d c' r -> c = c'.
Proof.
  intros. eapply (desc_node_unique W HW); eauto using top_indexed.
Qed.

(** The invariant of the walk, for the set [P] of the chains of names
    whose nodes are rewritten already. *)
Record Inv (P : list string -> Prop) (s : VirtualFileSystem) : Prop :=
  mkInv {
  inv_len : length (store s) = length (store W);
  inv_top : deref s d = deref s2 d;
  inv_done : forall c r, desc W d c r -> r <> [] -> P r ->
    deref s c = setPath (deref W c) (N +:+ catSegs r);
  inv_todo : forall c r, desc W d c r -> r <> [] -> ~ P r ->
    deref s c = deref W c;
  inv_new : forall c r, desc W d c r -> r <> [] -> P r ->
    map_get (N +:+ catSegs r) (files s) = Some c;
  inv_old : forall c r, desc W d c r -> r <> [] -> P r ->
    map_get (O +:+ catSegs r) (files s) = None;
  inv_rest : forall q,
    (forall c r, desc W d c r -> r <> [] -> P r ->
       q <> N +:+ catSegs r /\ q <> O +:+ catSegs r) ->
    map_get q (files s) = map_get q (files s2)
}.

Lemma Inv_start : Inv (fun _ => False) s2.
Proof. split; try done. intros c r Hc Hr _. by apply Hbelow with r. Qed.

(** Only the chains that exist below [d] matter. *)
Lemma Inv_ext P P' s :
  (forall c r, desc W d c r -> r <> [] -> (P r <-> P' r)) ->
  Inv P s -> Inv P' s.
Proof.
  intros Heq [H1 H2 H3 H4 H5 H6 H7]. split; try done.
  - intros c r Hc Hr HP. apply H3; [done..|]. by apply (Heq c r).
  - intros c r Hc Hr HP. apply (H4 c r); [done..|]. intros HP'. apply HP.
    by apply (Heq c r).
  - intros c r Hc Hr HP. apply H5; [done..|]. by apply (Heq c r).
  - intros c r Hc Hr HP. apply (H6 c r); [done..|]. by apply (Heq c r).
  - intros q Hq. apply H7. intros c r Hc Hr HP. apply (Hq c r); [done..|].
    by apply (Heq c r).
Qed.

(** One node more is rewritten. *)
Lemma Inv_moved P s c r :
  Inv P s -> desc W d c r -> r <> [] -> ~ P r ->
  Inv (fun q => P q \/ q = r) (moved s c (N +:+ catSegs r)).
Proof.
  intros [H1 H2 H3 H4 H5 H6 H7] Hc Hr HP.
  destruct (below_facts _ _ Hc) as (Hok & Hidx & Hpath & Hlt).
  assert (Hsc : deref s c = deref W c) by by apply H4 with r.
  assert (Hcd : c <> d).
  { intros ->. apply Hr. symmetry. apply (below_chain d); [constructor|done]. }
  assert (Hother : forall c' r', desc W d c' r' -> r' <> r -> c' <> c).
  { intros c' r' Hc' Hne ->. apply Hne. by apply (below_chain c). }
  set (s' := moved s c (N +:+ catSegs r)).
  assert (Hne : forall i, i <> c -> deref s' i = deref s i).
  { intros i Hi. by apply deref_moved_ne. }
  assert (Heq : deref s' c = setPath (deref W c) (N +:+ catSegs r)).
  { unfold s'. rewrite deref_moved_eq by lia. by rewrite Hsc. }
  assert (Hfiles : files s' = map_set (N +:+ catSegs r) c
                     (map_delete (O +:+ catSegs r) (files s))).
  { unfold s', moved. cbn [files]. by rewrite Hsc, Hpath. }
  split.
  - unfold s', moved. cbn [store]. by rewrite length_insert.
  - rewrite <- H2. by apply Hne.
  - intros c' r' Hc' Hr' [HP'| ->].
    + rewrite <- (H3 c' r') by done.
      apply Hne, (Hother c' r'); [done|]. by intros ->.
    + by rewrite (below_node c' c r).
  - intros c' r' Hc' Hr' HP'.
    rewrite <- (H4 c' r') by (done || tauto).
    apply Hne, (Hother c' r'); [done|]. intros ->. tauto.
  - intros c' r' Hc' Hr' [HP'| ->]; rewrite Hfiles.
    + destruct (below_facts _ _ Hc') as (Hok' & _).
      rewrite map_get_set_ne.
      2:{ intros E. apply (inj (String.append N)) in E.
          apply catSegs_inj in E; [|done..]. by rewrite <- E in HP'. }
      rewrite map_get_delete_ne; [by apply H5|].
      intros E. by apply (Hfresh r' r).
    + rewrite (below_node c' c r) by done. apply map_get_set_eq.
  - intros c' r' Hc' Hr' HP'. rewrite Hfiles.
    destruct (below_facts _ _ Hc') as (Hok' & _).
    rewrite map_get_set_ne by (by apply Hfresh).
    destruct HP' as [HP'| ->]; [|apply map_get_delete_eq].
    rewrite map_get_delete. case_decide; [done|]. by apply H6 with c'.
  - intros q Hq. rewrite Hfiles.
    destruct (Hq c r Hc Hr) as [Hq1 Hq2]; [by right|].
    rewrite map_get_set_ne, map_get_delete_ne by done.
    apply H7. intros c' r' Hc' Hr' HP'. apply (Hq c' r'); [done..|by left].
Qed.

(** The chains that pass, below the chain [ry], through a child named in
    [ks]. *)
Definition through (ry ks q : list string) : Prop :=
  exists k r, k ∈ ks /\ q = ry ++ k :: r.

(** The walk from a node rewrites every node strictly below it. *)
Definition walked (stack : nat) : Prop :=
  forall y ry P s s',
    desc W d y ry -> (ry <> [] -> P ry) ->
    (forall r, r <> [] -> ~ P (ry ++ r)) ->
    Inv P s -> updateChildrenPaths stack y s = Returns tt s' ->
    Inv (fun q => P q \/ exists r, r <> [] /\ q = ry ++ r) s'.

(** The node the walk stands on has its new path already. *)
Lemma walk_node P s y ry :
  Inv P s -> desc W d y ry -> (ry <> [] -> P ry) ->
  type (deref s y) = type (deref W y)
  /\ children (deref s y) = children (deref W y)
  /\ path (deref s y) = N +:+ catSegs ry.
Proof.
  intros HInv Hy HP. destruct ry as [|k ry].
  - apply desc_nil_inv in Hy as ->. rewrite (inv_top _ _ HInv).
    cbn [catSegs]. by rewrite app_nil_r.
  - by rewrite (inv_done _ _ HInv y (k :: ry)) by (done || by apply HP).
Qed.

(** Below a node that has no children there is nothing. *)
Lemma below_leaf y ry c r :
  desc W d y ry -> desc W d c (ry ++ r) -> r <> [] ->
  exists cs k, type (deref W y) = directory
    /\ children (deref W y) = Some cs /\ k ∈ cs.*1
    /\ exists r', r = k :: r'.
Proof.
  intros Hy Hc Hr. apply desc_app_inv in Hc as (y' & Hy' & Hc).
  assert (y' = y) as -> by by apply (below_node y' y ry).
  destruct r as [|k r]; [done|].
  apply desc_cons_inv in Hc as (cs & c0 & Hty & Hcs & Hk & Hrest).
  exists cs, k. repeat split; [done..| |by eexists].
  apply map_get_Some_In in Hk. apply list_elem_of_fmap. by exists (k, c0).
Qed.

Lemma walk_children stack y ry P cs :
  walked stack ->
  desc W d y ry -> (ry <> [] -> P ry) ->
  (forall r, r <> [] -> ~ P (ry ++ r)) ->
  type (deref W y) = directory -> children (deref W y) = Some cs ->
  forall cs2 cs1 s s', cs = cs1 ++ cs2 ->
    Inv (fun q => P q \/ through ry cs1.*1 q) s ->
    forEach cs2 (fun '(_, child) => visit stack y child) s = Returns tt s' ->
    Inv (fun q => P q \/ through ry cs.*1 q) s'.
Proof.
  intros IH Hy HPy Hfree Hty Hcs.
  destruct (below_facts _ _ Hy) as (Hoky & Hidxy & _ & _).
  destruct (wf_dir _ HW _ _ Hidxy Hty) as (cs0 & Hcs0 & Hnd & Hall).
  assert (cs0 = cs) as -> by congruence.
  induction cs2 as [|[k c] cs2 IH2]; intros cs1 s s' Hsplit HInv Hrun.
  { rewrite forEach_nil in Hrun. injection Hrun as <-.
    rewrite List.app_nil_r in Hsplit. by rewrite Hsplit. }
  rewrite forEach_cons in Hrun. cbv beta iota in Hrun.
  destruct (visit stack y c s) as [[] s1|e s1] eqn:Hv.
  2:{ by rewrite (bind_Throws _ _ _ _ _ Hv) in Hrun. }
  rewrite (bind_Returns _ _ _ _ _ Hv) in Hrun.
  assert (Hin : (k, c) ∈ cs).
  { rewrite Hsplit. apply elem_of_app. right. left. }
  assert (Hk : map_get k cs = Some c) by by apply map_get_In_NoDup.
  assert (Hk1 : k ∉ cs1.*1).
  { rewrite Hsplit, fmap_app in Hnd. apply NoDup_app in Hnd as (_ & Hnd & _).
    intros Hk1. apply (Hnd k Hk1). cbn. left. }
  destruct (Hall _ _ Hk) as (Hokk & Hname & _).
  assert (Hc : desc W d c (ry ++ [k])).
  { eapply desc_app; [exact Hy|]. by eapply desc_child. }
  assert (Hrc : ry ++ [k] <> []) by by destruct ry.
  assert (HnotP : ~ (P (ry ++ [k]) \/ through ry cs1.*1 (ry ++ [k]))).
  { intros [HP|(k' & r & Hk' & E)]; [by apply (Hfree [k])|].
    apply app_inv_head in E. injection E as <- _. done. }
  destruct (walk_node _ _ _ _ HInv Hy) as (_ & _ & Hpy); [by left; auto|].
  assert (Hsc : deref s c = deref W c).
  { by apply (inv_todo _ _ HInv c (ry ++ [k])). }
  rewrite visit_eq, Hsc, Hpy, Hname in Hv.
  replace ((N +:+ catSegs ry) +:+ "/" +:+ k) with (N +:+ catSegs (ry ++ [k]))
    in Hv by (by rewrite catSegs_snoc, app_assoc).
  pose proof (Inv_moved _ _ _ _ HInv Hc Hrc HnotP) as HInv1.
  cbv beta in HInv1.
  apply (IH2 (cs1 ++ [(k, c)]) s1 s'); [by rewrite <- List.app_assoc| |done].
  destruct (decide (type (deref W c) = directory)) as [Hdir|Hfile].
  - apply (IH c (ry ++ [k])
             (fun q => (P q \/ through ry cs1.*1 q) \/ q = ry ++ [k]))
      in Hv; [|done|by right| |done].
    + revert Hv. apply Inv_ext. intros c' q Hc' Hq. rewrite fmap_app.
      split.
      * intros [[[HP|(k' & r & Hk' & ->)]| ->]|(r & Hr & ->)].
        -- by left.
        -- right. exists k', r. split; [|done]. apply elem_of_app. by left.
        -- right. exists k, []. split; [|done]. apply elem_of_app. right.
           cbn. left.
        -- right. exists k, r. rewrite <- List.app_assoc. split; [|done].
           apply elem_of_app. right. cbn. left.
      * intros [HP|(k' & r & Hk' & ->)]; [by do 3 left|].
        apply elem_of_app in Hk' as [Hk'|Hk'].
        { left. left. right. by exists k', r. }
        cbn in Hk'. apply list_elem_of_singleton in Hk' as ->.
        destruct r as [|k2 r]; [by left; right|].
        right. exists (k2 :: r). by rewrite <- List.app_assoc.
    + intros r Hr [[HP|(k' & r' & Hk' & E)]|E].
      * apply (Hfree (k :: r)); [done|]. by rewrite <- List.app_assoc in HP.
      * rewrite <- List.app_assoc in E. apply app_inv_head in E.
        injection E as <- _. done.
      * rewrite <- (List.app_nil_r (ry ++ [k])) in E at 2.
        by apply app_inv_head in E.
  - cbn [ret] in Hv. injection Hv as <-.
    revert HInv1. apply Inv_ext. intros c' q Hc' Hq. rewrite fmap_app.
    split.
    + intros [[HP|(k' & r & Hk' & ->)]| ->].
      * by left.
      * right. exists k', r. split; [|done]. apply elem_of_app. by left.
      * right. exists k, []. split; [|done]. apply elem_of_app. right.
        cbn. left.
    + intros [HP|(k' & r & Hk' & ->)]; [by do 2 left|].
      apply elem_of_app in Hk' as [Hk'|Hk'].
      { left. right. by exists k', r. }
      cbn in Hk'. apply list_elem_of_singleton in Hk' as ->.
      destruct r as [|k2 r]; [by right|]. exfalso.
      change (ry ++ k :: k2 :: r) with (ry ++ [k] ++ k2 :: r) in Hc'.
      rewrite List.app_assoc in Hc'.
      destruct (below_leaf _ _ _ _ Hc Hc') as (? & ? & Hty' & _); done.
Qed.

Lemma walk_sound stack : walked stack.
Proof.
  induction stack as [|stack IH]; intros y ry P s s' Hy HPy Hfree HInv Hrun.
  { done. }
  rewrite updateChildrenPaths_S in Hrun.
  destruct (walk_node _ _ _ _ HInv Hy HPy) as (Hty & Hcs & _).
  rewrite Hty, Hcs in Hrun.
  destruct (type (deref W y)) eqn:Ety;
    [|destruct (children (deref W y)) as [cs|] eqn:Ecs].
  - injection Hrun as <-. revert HInv. apply Inv_ext.
    intros c q Hc Hq. split; [by left|]. intros [HP|(r & Hr & ->)]; [done|].
    destruct (below_leaf _ _ _ _ Hy Hc Hr) as (? & ? & ? & _). congruence.
  - eapply (walk_children stack y ry P cs IH Hy HPy Hfree Ety Ecs cs [])
      in Hrun; [|done|].
    + revert Hrun. apply Inv_ext. intros c q Hc Hq. split.
      * intros [HP|(k & r & Hk & ->)]; [by left|]. right. by exists (k :: r).
      * intros [HP|(r & Hr & ->)]; [by left|]. right.
        destruct (below_leaf _ _ _ _ Hy Hc Hr)
          as (cs' & k & _ & Hcs' & Hk & r' & ->).
        exists k, r'. split; [|done]. congruence.
    + revert HInv. apply Inv_ext. intros c q Hc Hq. split; [by left|].
      intros [HP|(k & r & Hk & _)]; [done|]. by apply elem_of_nil in Hk.
  - injection Hrun as <-. revert HInv. apply Inv_ext.
    intros c q Hc Hq. split; [by left|]. intros [HP|(r & Hr & ->)]; [done|].
    destruct (below_leaf _ _ _ _ Hy Hc Hr) as (? & ? & ? & ? & _). congruence.
Qed.

(** The whole walk, from the moved directory. *)
Lemma walk_from_top stack s' :
  updateChildrenPaths stack d s2 = Returns tt s' ->
  Inv (fun q => q <> []) s'.
Proof.
  intros Hrun.
  pose proof (walk_sound stack d [] (fun _ => False) s2 s' (desc_nil W d)
                (fun H => H eq_refl) (fun r _ H => H) Inv_start Hrun) as HInv.
  revert HInv. apply Inv_ext. intros c q Hc Hq. split; [done|].
  intros _. right. by exists q.
Qed.

End Walk.

(** ** The steps of [rename] before the walk *)

(** [rename] once its guards are passed: the moved node leaves its old
    parent, takes its new name and path, enters its new parent and the
    index, and the walk rewrites what is below it. *)
Definition relink (stack : nat) (O N : string) (d op np : ref) : M bool :=
  src <- read d ;;
  childrenDelete op (name src) ;;;
  let newName := getFileName N in
  src <- read d ;;
  write d (mkNode (type src) newName N (content src) (children src)) ;;;
  childrenSet np newName d ;;;
  filesDelete O ;;;
  filesSet N d ;;;
  src <- read d ;;
  match type src, children src with
  | directory, Some _ => updateChildrenPaths stack d
  | _, _ => ret tt
  end ;;;
  ret true.

Lemma validatePath_state p fs u fs' :
  validatePath p fs = Returns u fs' -> fs' = fs.
Proof.
  unfold validatePath. destruct (pathViolation p); [done|].
  by intros [= _ <-].
Qed.

Lemma rename_inv stack oldPath newPath fs fs' :
  rename stack oldPath newPath fs = Returns true fs' ->
  let O := normalizePath oldPath in
  let N := normalizePath newPath in
  exists d op np W,
    pathViolation oldPath = None
    /\ O <> "/" /\ N <> "/"
    /\ map_get O (files fs) = Some d
    /\ map_get N (files fs) = None
    /\ map_get (getParentPath O) (files fs) = Some op
    /\ type (deref fs op) = directory
    /\ ensureParentDirectories N fs = Returns tt W
    /\ map_get (getParentPath N) (files W) = Some np
    /\ type (deref W np) = directory
    /\ relink stack O N d op np W = Returns true fs'.
Proof.
  intros Hrun O N. unfold rename in Hrun.
  assert (Hvalid : pathViolation oldPath = None).
  { unfold validatePath in Hrun. by destruct (pathViolation oldPath). }
  destruct (validatePath oldPath fs) as [[] s0|e s0] eqn:Hv1.
  2:{ by rewrite (bind_Throws _ _ _ _ _ Hv1) in Hrun. }
  rewrite (bind_Returns _ _ _ _ _ Hv1) in Hrun.
  apply validatePath_state in Hv1 as ->.
  destruct (validatePath newPath fs) as [[] s0|e s0] eqn:Hv2.
  2:{ by rewrite (bind_Throws _ _ _ _ _ Hv2) in Hrun. }
  rewrite (bind_Returns _ _ _ _ _ Hv2) in Hrun.
  apply validatePath_state in Hv2 as ->.
  fold O N in Hrun.
  destruct (String.eqb_spec O "/") as [|HO]; [done|].
  destruct (String.eqb_spec N "/") as [|HN]; [done|].
  cbn [orb] in Hrun. rewrite bind_filesGet, bind_get in Hrun.
  destruct (map_get O (files fs)) as [d|] eqn:Hd; [|done].
  destruct (map_has N (files fs)) eqn:HNfs; [done|].
  apply map_has_false in HNfs.
  rewrite bind_getParentNode in Hrun.
  destruct (map_get (getParentPath O) (files fs)) as [op|] eqn:Hop; [|done].
  rewrite bind_read in Hrun.
  destruct (decide (type (deref fs op) = directory)) as [Hopd|]; [|done].
  destruct (ensureParentDirectories N fs) as [[] W|e W] eqn:Hepd.
  2:{ by rewrite (bind_Throws _ _ _ _ _ Hepd) in Hrun. }
  rewrite (bind_Returns _ _ _ _ _ Hepd) in Hrun.
  rewrite bind_getParentNode in Hrun.
  destruct (map_get (getParentPath N) (files W)) as [np|] eqn:Hnp; [|done].
  rewrite bind_read in Hrun.
  destruct (decide (type (deref W np) = directory)) as [Hnpd|]; [|done].
  exists d, op, np, W. repeat split; done.
Qed.

(** A write at one reference, as a function of the state. *)
Definition upd (s : VirtualFileSystem) (i : ref) (n : FileNode)
  : VirtualFileSystem :=
  mkVFS (<[i := n]> (store s)) (files s) (root s).

Lemma deref_upd_eq s i n : i < length (store s) -> deref (upd s i n) i = n.
Proof. intros Hlt. unfold upd. by rewrite deref_mkVFS, list_lookup_insert_eq. Qed.

Lemma deref_upd_ne s i n j : j <> i -> deref (upd s i n) j = deref s j.
Proof.
  intros Hne. unfold upd, deref. cbn [store].
  by rewrite list_lookup_insert_ne.
Qed.

Lemma length_upd s i n : length (store (upd s i n)) = length (store s).
Proof. unfold upd. cbn [store]. apply length_insert. Qed.

(** A write that keeps a field of the node keeps it in the state. *)
Lemma upd_field {A} (f : FileNode -> A) s i n :
  f n = f (deref s i) -> forall j, f (deref (upd s i n) j) = f (deref s j).
Proof.
  intros Hf j. destruct (decide (j = i)) as [->|Hne].
  - destruct (decide (i < length (store s))) as [Hlt|Hge].
    + by rewrite deref_upd_eq.
    + unfold upd, deref. cbn [store]. by rewrite list_insert_ge by lia.
  - by rewrite deref_upd_ne.
Qed.

(** The state in which the walk starts, told from the state [W] before
    the moved node is touched. *)
Record relinked (W s2 : VirtualFileSystem) (O N newName : string)
    (d op np : ref) : Prop := mkRelinked {
  rl_len : length (store s2) = length (store W);
  rl_files : files s2 = map_set N d (map_delete O (files W));
  rl_type : forall i, type (deref s2 i) = type (deref W i);
  rl_content : forall i, content (deref s2 i) = content (deref W i);
  rl_children : forall i, i <> op -> i <> np ->
    children (deref s2 i) = children (deref W i);
  rl_other : forall i, i <> op -> i <> np -> i <> d ->
    deref s2 i = deref W i;
  rl_path : path (deref s2 d) = N;
  rl_name : name (deref s2 d) = newName;
  rl_link : exists cs,
    children (deref s2 np) = Some cs /\ map_get newName cs = Some d
}.

Lemma relink_inv stack O N d op np W fs' :
  d < length (store W) -> np < length (store W) ->
  relink stack O N d op np W = Returns true fs' ->
  exists s2,
    relinked W s2 O N (getFileName N) d op np
    /\ match type (deref s2 d), children (deref s2 d) with
       | directory, Some _ => updateChildrenPaths stack d s2 = Returns tt fs'
       | _, _ => fs' = s2
       end.
Proof.
  intros Hdlt Hnplt. unfold relink, childrenDelete, childrenSet.
  rewrite bind_read, bind_bind, bind_read.
  destruct (children (deref W op)) as [cso|] eqn:Hcso;
    [|by rewrite bind_throw].
  rewrite bind_write. fold (upd W op (mkNode (type (deref W op))
    (name (deref W op)) (path (deref W op)) (content (deref W op))
    (Some (map_delete (name (deref W d)) cso)))).
  set (sa := upd W op _).
  rewrite bind_read, bind_write.
  fold (upd sa d (mkNode (type (deref sa d)) (getFileName N) N
    (content (deref sa d)) (children (deref sa d)))).
  set (sb := upd sa d _).
  rewrite bind_bind, bind_read.
  destruct (children (deref sb np)) as [csn|] eqn:Hcsn;
    [|by rewrite bind_throw].
  rewrite bind_write. fold (upd sb np (mkNode (type (deref sb np))
    (name (deref sb np)) (path (deref sb np)) (content (deref sb np))
    (Some (map_set (getFileName N) d csn)))).
  set (sc := upd sb np _).
  rewrite bind_filesDelete, bind_filesSet. cbn [store files root].
  set (s2 := mkVFS (store sc) _ _).
  rewrite bind_read. intros Hrun. exists s2.
  assert (Hderef : forall i, deref s2 i = deref sc i) by done.
  assert (Hla : length (store sa) = length (store W)) by apply length_upd.
  assert (Hlb : length (store sb) = length (store W)).
  { unfold sb. by rewrite length_upd. }
  split.
  - split.
    + unfold s2. cbn [store]. unfold sc. by rewrite length_upd.
    + done.
    + intros i. rewrite Hderef. unfold sc, sb, sa.
      by rewrite !(upd_field type).
    + intros i. rewrite Hderef. unfold sc, sb, sa.
      by rewrite !(upd_field content).
    + intros i Hop Hnp. rewrite Hderef. unfold sc.
      rewrite deref_upd_ne by done. unfold sb.
      rewrite (upd_field children) by done. unfold sa.
      by rewrite deref_upd_ne.
    + intros i Hop Hnp Hd. rewrite Hderef. unfold sc, sb, sa.
      by rewrite !deref_upd_ne.
    + rewrite Hderef. unfold sc.
      rewrite (upd_field path) by done. unfold sb.
      rewrite deref_upd_eq by lia. done.
    + rewrite Hderef. unfold sc.
      rewrite (upd_field name) by done. unfold sb.
      rewrite deref_upd_eq by lia. done.
    + exists (map_set (getFileName N) d csn). rewrite Hderef. unfold sc.
      rewrite deref_upd_eq by lia. split; [done|]. apply map_get_set_eq.
  - destruct (type (deref s2 d)); [by injection Hrun|].
    destruct (children (deref s2 d)); [|by injection Hrun].
    destruct (updateChildrenPaths stack d s2) as [[] s3|e s3] eqn:Hu.
    + rewrite (bind_Returns _ _ _ _ _ Hu) in Hrun. by injection Hrun as ->.
    + by rewrite (bind_Throws _ _ _ _ _ Hu) in Hrun.
Qed.

(** ** A destination inside the moved directory

    The walk changes paths and the index only; the kinds and the child
    entries of the nodes stay. *)
Definition sameShape (s s' : VirtualFileSystem) : Prop :=
  forall i, type (deref s' i) = type (deref s i)
            /\ children (deref s' i) = children (deref s i).

Lemma sameShape_refl s : sameShape s s.
Proof. by intros i. Qed.

Lemma sameShape_trans s1 s2 s3 :
  sameShape s1 s2 -> sameShape s2 s3 -> sameShape s1 s3.
Proof.
  intros H12 H23 i. destruct (H12 i) as [? ?], (H23 i) as [? ?].
  split; congruence.
Qed.

Lemma moved_shape s c new : sameShape s (moved s c new).
Proof.
  intros i. change (moved s c new) with
    (mkVFS (store (upd s c (setPath (deref s c) new)))
       (map_set new c (map_delete (path (deref s c)) (files s))) (root s)).
  change (deref (mkVFS (store (upd s c (setPath (deref s c) new)))
            (map_set new c (map_delete (path (deref s c)) (files s)))
            (root s)) i)
    with (deref (upd s c (setPath (deref s c) new)) i).
  split; [by apply (upd_field type)|by apply (upd_field children)].
Qed.

Lemma desc_shape s s' y c r : sameShape s s' -> desc s y c r -> desc s' y c r.
Proof.
  intros Hs. induction 1 as [|y cs k c0 c r Hty Hcs Hk Hd IH]; [constructor|].
  destruct (Hs y) as [Hty' Hcs']. eapply desc_cons; [congruence| |done..].
  congruence.
Qed.

Lemma updateChildrenPaths_shape stack y s s' :
  updateChildrenPaths stack y s = Returns tt s' -> sameShape s s'.
Proof.
  revert y s s'. induction stack as [|stack IH]; intros y s s'; [done|].
  rewrite updateChildrenPaths_S.
  destruct (type (deref s y)); [by intros [= <-]|].
  destruct (children (deref s y)) as [cs|]; [|by intros [= <-]].
  revert s. induction cs as [|[k c] cs IHcs]; intros s.
  { rewrite forEach_nil. by intros [= <-]. }
  rewrite forEach_cons. cbv beta iota.
  destruct (visit stack y c s) as [[] s1|e s1] eqn:Hv.
  2:{ by rewrite (bind_Throws _ _ _ _ _ Hv). }
  rewrite (bind_Returns _ _ _ _ _ Hv). intros Hrest.
  apply sameShape_trans with s1; [|by apply IHcs].
  rewrite visit_eq in Hv.
  eapply sameShape_trans; [apply moved_shape|].
  destruct (decide (type (deref s c) = directory)).
  - by apply IH in Hv.
  - injection Hv as <-. apply sameShape_refl.
Qed.

(** A node from which a node that is below itself is reached. *)
Definition cyc (s : VirtualFileSystem) (y : ref) : Prop :=
  exists z r r', desc s y z r /\ desc s z z r' /\ r' <> [].

Lemma cyc_shape s s' y : sameShape s s' -> cyc s y -> cyc s' y.
Proof.
  intros Hs (z & r & r' & Hyz & Hzz & Hr').
  exists z, r, r'. eauto using desc_shape.
Qed.

Lemma cyc_step s y :
  cyc s y ->
  exists cs k c, type (deref s y) = directory
    /\ children (deref s y) = Some cs /\ map_get k cs = Some c /\ cyc s c.
Proof.
  intros (z & r & r' & Hyz & Hzz & Hr'). destruct r as [|k r].
  - apply desc_nil_inv in Hyz as ->. destruct r' as [|k r']; [done|].
    apply desc_cons_inv in Hzz as (cs & c0 & Hty & Hcs & Hk & Hrest).
    exists cs, k, c0. repeat split; [done..|].
    exists c0, [], (r' ++ [k]). repeat split; [constructor| |by destruct r'].
    eapply desc_app; [exact Hrest|]. by eapply desc_child.
  - apply desc_cons_inv in Hyz as (cs & c0 & Hty & Hcs & Hk & Hrest).
    exists cs, k, c0. repeat split; [done..|]. by exists z, r, r'.
Qed.

(** The walk does not return from such a node, whatever stack it is
    granted. *)
Lemma updateChildrenPaths_cyclic stack y s s' :
  cyc s y -> updateChildrenPaths stack y s <> Returns tt s'.
Proof.
  revert y s s'. induction stack as [|stack IH]; intros y s s' Hcyc; [done|].
  rewrite updateChildrenPaths_S.
  destruct (cyc_step _ _ Hcyc) as (cs & k & c & -> & -> & Hk & Hc).
  apply map_get_Some_In in Hk. clear Hcyc.
  revert s Hc. induction cs as [|[k' c'] cs IHcs]; intros s Hc.
  { by apply elem_of_nil in Hk. }
  rewrite forEach_cons. cbv beta iota.
  destruct (visit stack y c' s) as [[] s1|e s1] eqn:Hv.
  2:{ by rewrite (bind_Throws _ _ _ _ _ Hv). }
  rewrite (bind_Returns _ _ _ _ _ Hv).
  apply elem_of_cons in Hk as [[= <- <-]|Hk].
  - exfalso. rewrite visit_eq in Hv.
    destruct (cyc_step _ _ Hc) as (? & ? & ? & Hty & _).
    rewrite decide_True in Hv by done.
    apply IH in Hv; [done|]. eapply cyc_shape; [apply moved_shape|done].
  - apply IHcs; [done|]. eapply cyc_shape; [|exact Hc].
    rewrite visit_eq in Hv.
    eapply sameShape_trans; [apply moved_shape|].
    destruct (decide (type (deref s c') = directory)).
    + by apply updateChildrenPaths_shape in Hv.
    + injection Hv as <-. apply sameShape_refl.
Qed.

(** The descendants of a node are kept by a change that keeps the kinds
    of the nodes and the child entries of the nodes on the way. *)
Lemma desc_transfer W s2 y c r :
  (forall i, type (deref s2 i) = type (deref W i)) ->
  desc W y c r ->
  (forall y' r1 r2, r = r1 ++ r2 -> r2 <> [] -> desc W y y' r1 ->
     children (deref s2 y') = children (deref W y')) ->
  desc s2 y c r.
Proof.
  intros Hty. induction 1 as [|y cs k c0 c r Hy Hcs Hk Hd IH]; intros Hway.
  { constructor. }
  eapply desc_cons; [by rewrite Hty| |exact Hk|].
  - rewrite (Hway y [] (k :: r)); [done..|constructor].
  - apply IH. intros y' r1 r2 -> Hr2 Hy'.
    apply (Hway y' (k :: r1) r2); [done..|]. by eapply desc_cons.
Qed.

(** ** The renamed directory

    [W] is the state after the directories towards the destination are
    created; the moved node [d] is indexed in it at [O], its old parent
    [op] one segment above, and the new parent [np] at the path with the
    segments [lnp]; [s2] is the state in which the walk starts. *)
Section Moved.
Variables (W s2 : VirtualFileSystem) (d op np : ref)
  (lO' : list string) (k0 : string) (lnp : list string)
  (N newName : string).
Let lO := lO' ++ [k0].
Let O := catSegs lO.
Hypothesis HW : WF W.
Hypothesis HlO' : Forall okSeg lO'.
Hypothesis Hk0 : okSeg k0.
Hypothesis Hd : map_get O (files W) = Some d.
Hypothesis Hop : map_get (pathOf lO') (files W) = Some op.
Hypothesis Hlnp : Forall okSeg lnp.
Hypothesis Hnp : map_get (pathOf lnp) (files W) = Some np.
Hypothesis Hnpd : type (deref W np) = directory.
Hypothesis HNW : map_get N (files W) = None.
Hypothesis HNne : N <> "".
Hypothesis Hpar : forall l k,
  Forall okSeg l -> okSeg k -> N = catSegs (l ++ [k]) -> lnp = l.
Hypothesis Hrl : relinked W s2 O N newName d op np.

Lemma moved_lO : Forall okSeg lO.
Proof using HlO' Hk0.
  apply Forall_app. split; [done|]. by apply Forall_singleton.
Qed.

Lemma moved_lO_ne : lO <> [].
Proof using Type.
  unfold lO. intros E. apply (f_equal length) in E.
  rewrite List.length_app in E. cbn in E. lia.
Qed.

Lemma moved_Hd : map_get (pathOf lO) (files W) = Some d.
Proof using Hd. by rewrite pathOf_catSegs by apply moved_lO_ne. Qed.

(** The old parent is not below the moved node. *)
Lemma below_not_parent c r : desc W d c r -> c <> op.
Proof using HW HlO' Hk0 Hd Hop.
  intros Hc ->.
  destruct (desc_index W HW _ _ _ _ moved_lO moved_Hd Hc) as [Hr Hidx].
  destruct (wf_entry _ HW _ _ Hidx) as (_ & Hp1 & _).
  destruct (wf_entry _ HW _ _ Hop) as (_ & Hp2 & _).
  assert (E : pathOf (lO ++ r) = pathOf lO') by congruence.
  apply pathOf_inj in E; [|apply Forall_app; split; [apply moved_lO|done]
                           |done].
  apply (f_equal length) in E. unfold lO in E.
  rewrite !List.length_app in E. cbn in E. lia.
Qed.

(** A new parent at or below the moved node closes a cycle. *)
Lemma inside_cyc r : desc W d np r -> cyc s2 d.
Proof using HW HlO' Hk0 Hd Hop Hnpd Hrl.
  intros Hin. exists d, [], (r ++ [newName]).
  split; [constructor|]. split; [|by destruct r].
  eapply desc_app.
  - apply (desc_transfer W); [apply (rl_type _ _ _ _ _ _ _ _ Hrl)|done|].
    intros y' r1 r2 -> Hr2 Hy'.
    apply (rl_children _ _ _ _ _ _ _ _ Hrl).
    + by apply below_not_parent with r1.
    + intros ->. apply Hr2.
      assert (E : r1 ++ r2 = r1).
      { apply (desc_chain_unique W HW d np _ _ lO);
          [apply moved_lO|apply moved_Hd|done..]. }
      rewrite <- (List.app_nil_r r1) in E at 2.
      by apply app_inv_head in E.
  - destruct (rl_link _ _ _ _ _ _ _ _ Hrl) as (cs & Hcs & Hk).
    eapply desc_child; [|done..].
    by rewrite (rl_type _ _ _ _ _ _ _ _ Hrl).
Qed.

(** Whether the new parent is at or below the moved node is told by
    the segments of its path. *)
Lemma inside_or_outside :
  (exists r, desc W d np r) \/ (forall r, ~ desc W d np r).
Proof using HW HlO' Hk0 Hd Hlnp Hnp.
  destruct (decide (lnp = lO ++ drop (length lO) lnp)) as [E|Hne].
  - left. exists (drop (length lO) lnp).
    apply (index_desc W HW d lO); [apply moved_lO|apply moved_Hd| |].
    + rewrite E in Hlnp. by apply Forall_app in Hlnp as [_ ?].
    + by rewrite <- E.
  - right. intros r Hr. apply Hne.
    destruct (desc_index W HW _ _ _ _ moved_lO moved_Hd Hr) as [Hok Hidx].
    destruct (wf_entry _ HW _ _ Hidx) as (_ & Hp1 & _).
    destruct (wf_entry _ HW _ _ Hnp) as (_ & Hp2 & _).
    assert (E : pathOf lnp = pathOf (lO ++ r)) by congruence.
    apply pathOf_inj in E; [|done|apply Forall_app; split;
                                    [apply moved_lO|done]].
    rewrite E. by rewrite drop_app_length.
Qed.

(** With the new parent elsewhere, no new path is an old path. *)
Lemma outside_fresh :
  (forall r, ~ desc W d np r) ->
  forall r r', Forall okSeg r -> Forall okSeg r' ->
    N +:+ catSegs r <> O +:+ catSegs r'.
Proof using HW HlO' Hk0 Hd Hlnp Hnp HNW HNne Hpar.
  intros Hout r r' Hr Hr' E. unfold O in E. rewrite <- catSegs_app in E.
  assert (Hall : Forall okSeg (lO ++ r')).
  { apply Forall_app. split; [apply moved_lO|done]. }
  destruct (catSegs_cancel _ _ _ Hr Hall E) as (l0 & EN & El).
  assert (Hl0 : Forall okSeg l0).
  { rewrite El in Hall. by apply Forall_app in Hall as [? _]. }
  assert (Hl0ne : l0 <> []) by (intros ->; by apply HNne).
  assert (Hindexed : forall l, lO = l0 ++ l -> False).
  { intros l El'.
    destruct (index_prefix W HW l0 l d) as (y & Hy).
    - rewrite <- El'. apply moved_lO.
    - rewrite <- El'. apply moved_Hd.
    - rewrite pathOf_catSegs, <- EN in Hy by done. congruence. }
  apply List.app_eq_app in El as (l & [[El _]|[El _]]).
  { by apply (Hindexed l). }
  destruct l as [|k l] using rev_ind.
  { apply (Hindexed []). rewrite El. by rewrite !List.app_nil_r. }
  clear IHl. rewrite List.app_assoc in El. rewrite El in Hl0, EN.
  apply Forall_app in Hl0 as [Hl0 [Hk _]%Forall_cons].
  pose proof (Hpar _ _ Hl0 Hk EN) as ->.
  apply (Hout l). apply (index_desc W HW d lO);
    [apply moved_lO|apply moved_Hd|by apply Forall_app in Hl0 as [_ ?]|done].
Qed.

(** The walk ends only with the new parent elsewhere, and then every
    node below the moved one is rewritten. *)
Lemma moved_Inv stack fs' :
  match type (deref s2 d), children (deref s2 d) with
  | directory, Some _ => updateChildrenPaths stack d s2 = Returns tt fs'
  | _, _ => fs' = s2
  end ->
  (forall r r', Forall okSeg r -> Forall okSeg r' ->
     N +:+ catSegs r <> O +:+ catSegs r')
  /\ Inv W s2 d lO N (fun q => q <> []) fs'.
Proof using HW HlO' Hk0 Hd Hop Hlnp Hnp Hnpd HNW HNne Hpar Hrl.
  intros Hcont.
  destruct inside_or_outside as [[r Hin]|Hout].
  { exfalso. apply inside_cyc in Hin.
    destruct (cyc_step _ _ Hin) as (cs & k & c & Hty & Hcs & _).
    rewrite Hty, Hcs in Hcont.
    by apply (updateChildrenPaths_cyclic stack d s2 fs'). }
  pose proof (outside_fresh Hout) as Hfresh. split; [done|].
  assert (Hdop : d <> op) by (apply below_not_parent with []; constructor).
  assert (Hdnp : d <> np) by (intros ->; apply (Hout []); constructor).
  assert (Htt : type (deref s2 d) = type (deref W d))
    by apply (rl_type _ _ _ _ _ _ _ _ Hrl).
  assert (Htc : children (deref s2 d) = children (deref W d))
    by by apply (rl_children _ _ _ _ _ _ _ _ Hrl).
  assert (Hbelow : forall c r,
            desc W d c r -> r <> [] -> deref s2 c = deref W c).
  { intros c r Hc Hr. apply (rl_other _ _ _ _ _ _ _ _ Hrl).
    - by apply below_not_parent with r.
    - intros ->. by apply (Hout r).
    - intros ->. apply Hr. symmetry.
      apply (desc_chain_unique W HW d d _ _ lO);
        [apply moved_lO|apply moved_Hd|constructor|done]. }
  assert (Hstart : Inv W s2 d lO N (fun _ => False) s2).
  { apply Inv_start; [apply (rl_len _ _ _ _ _ _ _ _ Hrl)|done]. }
  assert (Hleaf : (forall cs, children (deref s2 d) = Some cs ->
                     type (deref s2 d) <> directory) ->
            Inv W s2 d lO N (fun q => q <> []) s2).
  { intros Hno. revert Hstart. apply Inv_ext. intros c r Hc Hr.
    split; [done|]. intros _. destruct r as [|k r]; [done|].
    apply desc_cons_inv in Hc as (cs & _ & Hty & Hcs & _).
    apply (Hno cs); congruence. }
  destruct (type (deref s2 d)) eqn:Ety.
  { rewrite Hcont. by apply Hleaf. }
  destruct (children (deref s2 d)) as [cs|] eqn:Ecs.
  2:{ rewrite Hcont. by apply Hleaf. }
  apply (walk_from_top W s2 d lO N HW moved_lO moved_lO_ne Hd Hfresh
           (rl_len _ _ _ _ _ _ _ _ Hrl)) with stack; try done.
  - congruence.
  - congruence.
  - apply (rl_path _ _ _ _ _ _ _ _ Hrl).
Qed.

End Moved.

(** ** What the index holds when the walk is over *)
Section Outcome.
Variables (W s2 fs' : VirtualFileSystem) (d : ref) (lO : list string)
  (N : string).
Let O := catSegs lO.
Hypothesis HW : WF W.
Hypothesis HlO : Forall okSeg lO.
Hypothesis HlO_ne : lO <> [].
Hypothesis Hd : map_get O (files W) = Some d.
Hypothesis Hfresh : forall r r',
  Forall okSeg r -> Forall okSeg r' ->
  N +:+ catSegs r <> O +:+ catSegs r'.
Hypothesis Hfiles : files s2 = map_set N d (map_delete O (files W)).
Hypothesis HI : Inv W s2 d lO N (fun q => q <> []) fs'.

Lemma outcome_pathOf r : pathOf (lO ++ r) = O +:+ catSegs r.
Proof using HlO_ne.
  rewrite pathOf_catSegs, catSegs_app; [done|].
  intros [E _]%app_eq_nil. done.
Qed.

Lemma outcome_Hd : map_get (pathOf lO) (files W) = Some d.
Proof using Hd HlO_ne. by rewrite pathOf_catSegs. Qed.

Lemma outcome_below c r :
  desc W d c r ->
  Forall okSeg r /\ map_get (O +:+ catSegs r) (files W) = Some c.
Proof using HW HlO HlO_ne Hd.
  intros Hc. rewrite <- outcome_pathOf.
  apply (desc_index W HW d c r lO HlO outcome_Hd Hc).
Qed.

Lemma outcome_N_fresh : forall r, Forall okSeg r -> N <> O +:+ catSegs r.
Proof using Hfresh.
  intros r Hr E. apply (Hfresh [] r); [constructor|done|].
  cbn [catSegs]. by rewrite app_nil_r.
Qed.

Lemma outcome_O_fresh : forall r, Forall okSeg r -> O <> N +:+ catSegs r.
Proof using Hfresh.
  intros r Hr E. apply (Hfresh r []); [done|constructor|].
  cbn [catSegs]. by rewrite app_nil_r.
Qed.

(** The moved node is indexed at its new path. *)
Lemma outcome_new : map_get N (files fs') = Some d.
Proof using HW HlO HlO_ne Hd Hfresh Hfiles HI.
  rewrite (inv_rest _ _ _ _ _ _ _ HI).
  - rewrite Hfiles. apply map_get_set_eq.
  - intros c r Hc Hr _. destruct (outcome_below _ _ Hc) as [Hok _]. split.
    + intros E. rewrite <- (app_nil_r N) in E at 1.
      apply (inj (String.append N)) in E. symmetry in E.
      by apply catSegs_nonempty in E.
    + by apply outcome_N_fresh.
Qed.

(** No path at or below the old path is indexed. *)
Lemma outcome_old r :
  Forall okSeg r -> map_get (O +:+ catSegs r) (files fs') = None.
Proof using HW HlO HlO_ne Hd Hfresh Hfiles HI.
  intros Hr.
  destruct (decide (r = [])) as [->|Hne];
    [|destruct (map_get (O +:+ catSegs r) (files W)) as [c|] eqn:Hc].
  - cbn [catSegs]. rewrite app_nil_r.
    rewrite (inv_rest _ _ _ _ _ _ _ HI).
    + rewrite Hfiles, map_get_set_ne, map_get_delete_eq; [done|].
      intros E. apply (outcome_N_fresh []); [constructor|].
      cbn [catSegs]. by rewrite app_nil_r.
    + intros c r Hc Hr' _. destruct (outcome_below _ _ Hc) as [Hok _]. split.
      * by apply outcome_O_fresh.
      * intros E. rewrite <- (app_nil_r O) in E at 1.
        apply (inj (String.append O)) in E. symmetry in E.
        by apply catSegs_nonempty in E.
  - apply (inv_old _ _ _ _ _ _ _ HI c r); [|done..].
    apply (index_desc W HW d lO); [done|apply outcome_Hd|done|].
    by rewrite outcome_pathOf.
  - rewrite (inv_rest _ _ _ _ _ _ _ HI).
    + rewrite Hfiles, map_get_set_ne by by apply outcome_N_fresh.
      rewrite map_get_delete. by case_decide.
    + intros c r' Hc' Hr' _. destruct (outcome_below _ _ Hc') as [Hok Hidx].
      split; [intros E; by apply (Hfresh r' r)|]. intros E. fold O in E.
      congruence.
Qed.

End Outcome.

(** ** Rename propagation *)

(** The file system of the example: [/dir/x.txt] created in the empty
    file system. *)
Definition dirWithFile : VirtualFileSystem :=
  after (createFile "/dir/x.txt" "hi" VFS.new).

Lemma dirWithFile_WF : WF dirWithFile.
Proof.
  apply (createFile_canonical VFS.new dirWithFile ["dir"; "x.txt"] "hi"
           (Some 2)).
  - apply WF_new.
  - repeat constructor; done.
  - done.
  - reflexivity.
Qed.

(** X28.  In a file system that satisfies the invariant of the data model
    (the index and the tree agree, [WF]), a rename that returns [true]
    leaves the moved node [d] indexed at the new path and nothing indexed
    at the old path; every descendant of [d], reached from it by the
    names [r], was indexed at the old path followed by [r], carries the
    new path followed by [r] afterwards and is indexed there, with its
    kind, name and content kept; no path at or below the old path stays in
    the index (and every node that was indexed below the old path is such
    a descendant).  In particular, after a successful
    [rename("/dir", "/dir2")] of a directory that held [/dir/x.txt],
    [exists("/dir2/x.txt")] is [true] and [exists("/dir")] is [false]. *)
Theorem rename_propagates (stack : nat) (oldPath newPath : string)
    (fs fs' : VirtualFileSystem) :
  WF fs ->
  rename stack oldPath newPath fs = Returns true fs' ->
  let O := normalizePath oldPath in
  let N := normalizePath newPath in
  exists d,
    map_get O (files fs) = Some d
    /\ map_get N (files fs') = Some d
    /\ path (deref fs' d) = N
    /\ existsIn fs' oldPath = false
    /\ (forall c r, desc fs d c r -> r <> [] ->
          map_get (O +:+ catSegs r) (files fs) = Some c
          /\ path (deref fs c) = O +:+ catSegs r
          /\ path (deref fs' c) = N +:+ catSegs r
          /\ map_get (N +:+ catSegs r) (files fs') = Some c
          /\ type (deref fs' c) = type (deref fs c)
          /\ name (deref fs' c) = name (deref fs c)
          /\ content (deref fs' c) = content (deref fs c))
    /\ (forall r, Forall okSeg r ->
          map_get (O +:+ catSegs r) (files fs') = None)
    /\ (forall r c, Forall okSeg r ->
          map_get (O +:+ catSegs r) (files fs) = Some c -> desc fs d c r)
    /\ (oldPath = "/dir" -> newPath = "/dir2" ->
        existsIn fs "/dir/x.txt" = true ->
        existsIn fs' "/dir2/x.txt" = true /\ existsIn fs' "/dir" = false).
Proof.
  intros Hwf Hrun O N.
  destruct (rename_inv _ _ _ _ _ Hrun)
    as (d & op & np & W & Hvalid & HO & HN & Hd & HNfs & Hop & Hopd & Hepd
        & Hnp & Hnpd & Hrel).
  fold O N in HO, HN, Hd, HNfs, Hop, Hepd, Hnp, Hrel.
  destruct (wf_entry _ Hwf _ _ Hd) as (Hdlt & Hdpath & lO & HlO & EO).
  destruct (exists_last (l := lO)) as (lO' & k0 & ElO).
  { intros ->. by apply HO. }
  assert (HlO_ne : lO <> []) by (rewrite ElO; by destruct lO').
  rewrite pathOf_catSegs in EO by done.
  assert (HlO' : Forall okSeg lO' /\ okSeg k0).
  { rewrite ElO in HlO. by apply Forall_app in HlO as [? [? _]%Forall_cons]. }
  destruct HlO' as [HlO' Hk0].
  destruct (ensureParentDirectories_grows _ _ _ Hwf Hepd) as [HW Hg].
  assert (HdW : map_get (catSegs lO) (files W) = Some d).
  { rewrite <- EO. by apply (grows_index _ _ _ Hg). }
  assert (HopW : map_get (pathOf lO') (files W) = Some op).
  { apply (grows_index _ _ _ Hg).
    rewrite EO, ElO, getParentPath_snoc in Hop by done. done. }
  assert (HNW : map_get N (files W) = None).
  { apply (grows_fresh _ _ _ Hg); [done|]. apply createDirectoryPath_not_self. }
  destruct (wf_entry _ HW _ _ Hnp) as (Hnplt & _ & lnp & Hlnp & Enp).
  assert (Hpar : forall l k,
            Forall okSeg l -> okSeg k -> N = catSegs (l ++ [k]) -> lnp = l).
  { intros l k Hl Hk E. rewrite E, getParentPath_snoc in Enp by done.
    symmetry. by apply pathOf_inj. }
  rewrite Enp in Hnp.
  destruct (wf_entry _ HW _ _ HdW) as (HdltW & _).
  destruct (relink_inv _ _ _ _ _ _ _ _ HdltW Hnplt Hrel) as (s2 & Hrl & Hcont).
  rewrite EO, ElO in Hrl. rewrite ElO in HdW.
  destruct (moved_Inv W s2 d op np lO' k0 lnp N (getFileName N) HW HlO' Hk0
              HdW HopW Hlnp Hnp Hnpd HNW (normalizePath_nonempty newPath)
              Hpar Hrl stack fs' Hcont) as [Hfresh HI].
  rewrite <- ElO in Hrl, HdW, Hfresh, HI.
  pose proof (rl_files _ _ _ _ _ _ _ _ Hrl) as Hfiles.
  pose proof (outcome_old W s2 fs' d lO N HW HlO HlO_ne HdW Hfresh Hfiles HI)
    as Hold.
  pose proof (outcome_new W s2 fs' d lO N HW HlO HlO_ne HdW Hfresh Hfiles HI)
    as Hnew.
  rewrite <- EO in Hold.
  assert (Hgone : map_get O (files fs') = None).
  { rewrite <- (app_nil_r O). apply (Hold []). constructor. }
  assert (Hdfs : map_get (pathOf lO) (files fs) = Some d).
  { by rewrite pathOf_catSegs, <- EO. }
  assert (Hpo : forall r, pathOf (lO ++ r) = O +:+ catSegs r).
  { intros r. rewrite EO. by apply outcome_pathOf. }
  assert (Hcomplete : forall r c, Forall okSeg r ->
            map_get (O +:+ catSegs r) (files fs) = Some c -> desc fs d c r).
  { intros r c Hr Hc. apply (index_desc fs Hwf d lO); [done..|].
    by rewrite Hpo. }
  assert (Hbelow : forall c r, desc fs d c r -> r <> [] ->
            map_get (O +:+ catSegs r) (files fs) = Some c
            /\ path (deref fs c) = O +:+ catSegs r
            /\ path (deref fs' c) = N +:+ catSegs r
            /\ map_get (N +:+ catSegs r) (files fs') = Some c
            /\ type (deref fs' c) = type (deref fs c)
            /\ name (deref fs' c) = name (deref fs c)
            /\ content (deref fs' c) = content (deref fs c)).
  { intros c r Hc Hr.
    destruct (desc_index fs Hwf _ _ _ _ HlO Hdfs Hc) as [Hok Hidx].
    rewrite Hpo in Hidx.
    destruct (wf_entry _ Hwf _ _ Hidx) as (Hclt & Hcpath & _).
    pose proof (desc_grows _ _ _ _ _ _ _ Hwf Hg HlO Hdfs Hc) as HcW.
    destruct (grows_fields _ _ _ Hg c Hclt) as (Gt & Gn & Gp & Gc).
    rewrite <- Gt, <- Gn, <- Gc.
    rewrite (inv_done _ _ _ _ _ _ _ HI c r HcW Hr Hr).
    rewrite (inv_new _ _ _ _ _ _ _ HI c r HcW Hr Hr). done. }
  assert (Hexists : existsIn fs' oldPath = false).
  { unfold existsIn. destruct (negb (isValidPath oldPath)); [done|].
    by apply map_has_false. }
  exists d. split; [done|]. split; [done|]. split.
  { rewrite (inv_top _ _ _ _ _ _ _ HI). apply (rl_path _ _ _ _ _ _ _ _ Hrl). }
  split; [done|]. split; [exact Hbelow|]. split; [exact Hold|].
  split; [exact Hcomplete|].
  - intros Eold Enew Hx.
    assert (Hc : is_Some (map_get "/dir/x.txt" (files fs))).
    { apply map_has_get. exact Hx. }
    destruct Hc as [c Hc].
    assert (EO' : O = "/dir") by (unfold O; by rewrite Eold).
    assert (EN' : N = "/dir2") by (unfold N; by rewrite Enew).
    destruct (Hbelow c ["x.txt"]) as (_ & _ & _ & Hidx & _); [|done|].
    { apply Hcomplete; [repeat constructor; done|]. by rewrite EO'. }
    rewrite EN' in Hidx. split; [|by rewrite <- Eold].
    change (map_has "/dir2/x.txt" (files fs') = true).
    apply map_has_get. by exists c.
Qed.

(** The example of the specification: [/dir/x.txt] is created in the empty
    file system and [/dir] is renamed to [/dir2]. *)
Lemma rename_propagates_witness :
  let fs := dirWithFile in
  let fs' := after (rename 3 "/dir" "/dir2" fs) in
  WF fs
  /\ rename 3 "/dir" "/dir2" fs = Returns true fs'
  /\ existsIn fs "/dir/x.txt" = true
  /\ existsIn fs' "/dir2/x.txt" = true
  /\ existsIn fs' "/dir" = false.
Proof.
  intros fs fs'.
  assert (Hrun : rename 3 "/dir" "/dir2" fs = Returns true fs')
    by reflexivity.
  destruct (rename_propagates 3 "/dir" "/dir2" fs fs' dirWithFile_WF Hrun)
    as (d & _ & _ & _ & _ & _ & _ & _ & Hexample).
  split; [exact dirWithFile_WF|]. split; [exact Hrun|].
  split; [reflexivity|]. apply Hexample; reflexivity.
Defined.

End Propagation.
(** * A file that a rename of its directory leaves behind *)

Module Orphans.
Import JS PathUtils VFS StringFacts MapFacts Segments VFSFacts RenameFacts
  Propagation.

(** C6, at the input that refutes it.  Three calls on a new file system,
    each returning normally, leave the directory [/dir] and the file
    [/dir/x.txt], which [exists] and [readFile] find.  The first call
    stores a file under [/dir/x.txt/], [normalizePath] dropping one of the
    two trailing slashes only; the second stores the file [/dir/x.txt],
    which takes the place of the first among the children of [/dir]; the
    third deletes the first and with it the child entry [x.txt], so that
    [/dir] has no child entry left while [/dir/x.txt] is indexed.  Then
    [rename("/dir", "/dir2")] returns [true]; the walk finds no child to
    rewrite; [/dir/x.txt] stays indexed under its old path and keeps it,
    [exists("/dir2/x.txt")] is [false] and [exists("/dir/x.txt")] is
    [true].  The state before the rename does not satisfy the invariant
    of the data model. *)
Theorem rename_leaves_descendant_behind (stack : nat) :
  let fs1 := andThen VFS.new (createFile "/dir/x.txt//" "a") in
  let fs2 := andThen fs1 (createFile "/dir/x.txt" "b") in
  let fs3 := andThen fs2 (deleteFile (S stack) "/dir/x.txt//") in
  let fs4 := andThen fs3 (rename (S stack) "/dir" "/dir2") in
  createFile "/dir/x.txt//" "a" VFS.new = Returns (Some 2) fs1
  /\ createFile "/dir/x.txt" "b" fs1 = Returns (Some 3) fs2
  /\ deleteFile (S stack) "/dir/x.txt//" fs2 = Returns true fs3
  /\ observe fs3
     = [("/", directory, ""); ("/dir", directory, "");
        ("/dir/x.txt", file, "b")]
  /\ existsIn fs3 "/dir/x.txt" = true
  /\ readFile "/dir/x.txt" fs3 = Returns (Some "b") fs3
  /\ ~ WF fs3
  /\ rename (S stack) "/dir" "/dir2" fs3 = Returns true fs4
  /\ observe fs4
     = [("/", directory, ""); ("/dir/x.txt", file, "b");
        ("/dir2", directory, "")]
  /\ path (deref fs4 3) = "/dir/x.txt"
  /\ existsIn fs4 "/dir2/x.txt" = false
  /\ existsIn fs4 "/dir/x.txt" = true
  /\ existsIn fs4 "/dir" = false.
Proof.
  intros fs1 fs2 fs3 fs4.
  assert (Hno : ~ WF fs3).
  { intros H.
    destruct (wf_parent _ H "/dir/x.txt" 3 eq_refl ltac:(done))
      as (q & y & cs & Hq & Hty & Hcs & Hget).
    apply map_get_Some_In in Hq.
    assert (Hf : files fs3 = [("/", 0); ("/dir", 1); ("/dir/x.txt", 3)])
      by (vm_compute; reflexivity).
    rewrite Hf in Hq.
    repeat (apply elem_of_cons in Hq as [[= -> ->]|Hq];
            [vm_compute in Hty, Hcs; try discriminate;
             injection Hcs as <-; vm_compute in Hget; discriminate|]).
    by apply elem_of_nil in Hq. }
  split; [vm_compute; reflexivity|]. split; [vm_compute; reflexivity|].
  split; [vm_compute; reflexivity|]. split; [vm_compute; reflexivity|].
  split; [vm_compute; reflexivity|]. split; [vm_compute; reflexivity|].
  split; [exact Hno|]. vm_compute. repeat split.
Qed.

End Orphans.
(** * The path utilities, on every input *)

Module PathShape.
Import JS PathUtils StringFacts Segments.

Lemma slash_app s : "/" +:+ s = String "/" s.
Proof. reflexivity. Qed.

(** What is left of a run of pieces between slashes once the runs of
    slashes are collapsed: the non-empty pieces, joined, and one slash at
    the end when the last piece is empty. *)
Lemma collapseFrom_join xs :
  slashless xs ->
  exists l, Forall okSeg l
    /\ (collapseFrom true (join "/" xs) = join "/" l
        \/ (l <> [] /\ collapseFrom true (join "/" xs) = join "/" l +:+ "/")).
Proof.
  induction xs as [|x xs IH]; intros Hxs.
  { exists []. split; [constructor|by left]. }
  apply Forall_cons in Hxs as [Hx Hxs]. destruct xs as [|y xs].
  { cbn [join]. rewrite collapseFrom_slashless by done.
    destruct (decide (x = "")) as [->|Hne].
    - exists []. split; [constructor|by left].
    - exists [x]. split; [by repeat constructor|by left]. }
  rewrite join_cons by done.
  destruct (IH Hxs) as (l & Hl & Hform).
  destruct (decide (x = "")) as [->|Hne].
  { rewrite app_nil_l, slash_app. cbn [collapseFrom Ascii.eqb Bool.eqb].
    by exists l. }
  rewrite collapseFrom_app_slashless by done.
  rewrite slash_app. cbn [collapseFrom Ascii.eqb Bool.eqb].
  rewrite <- slash_app.
  assert (Hxl : Forall okSeg (x :: l)) by by constructor.
  destruct Hform as [->|[Hlne ->]].
  - destruct l as [|k l].
    + exists [x]. split; [by repeat constructor|]. right. by split.
    + exists (x :: k :: l). split; [done|]. left. symmetry.
      by apply join_cons.
  - exists (x :: l). split; [done|]. right. split; [done|].
    rewrite (join_cons x l) by done. by rewrite !app_assoc.
Qed.

Lemma dropLast_snoc s c : dropLast (s +:+ String c "") = s.
Proof.
  induction s as [|d s IH]; [done|]. rewrite app_cons. cbn [dropLast].
  rewrite IH. destruct s; reflexivity.
Qed.

Lemma dropLast_head c s :
  s <> "" -> exists t, dropLast (String c s) = String c t.
Proof. destruct s; [done|]. intros _. by eexists. Qed.

(** The text that [normalizePath] hands to the collapse starts with a
    slash. *)
Lemma normalizePath_collapse p :
  exists t, normalizePath p = String "/" (collapseFrom true t).
Proof.
  unfold normalizePath.
  set (q := if startsWith p "/" then p else "/" +:+ p).
  assert (Hq : exists t, q = String "/" t).
  { unfold q, startsWith. destruct p as [|c p]; [by exists ""|].
    cbn [String.prefix]. destruct (ascii_dec "/" c) as [<-|].
    - destruct p; by eexists.
    - by eexists. }
  destruct Hq as [t ->].
  destruct (negb (String "/" t =? "/") && endsWith (String "/" t) "/")
    eqn:E.
  - destruct t as [|c t]; [done|].
    destruct (dropLast_head "/" (String c t)) as [t' ->]; [done|].
    by exists t'.
  - by exists t.
Qed.

(** The shape of a normalized path. *)
Lemma normalizePath_form p :
  exists l, Forall okSeg l
    /\ (normalizePath p = pathOf l
        \/ (l <> [] /\ normalizePath p = catSegs l +:+ "/")).
Proof.
  destruct (normalizePath_collapse p) as [t ->].
  rewrite <- (join_split t).
  destruct (collapseFrom_join (split "/" t) (split_all_slashless t))
    as (l & Hl & Hform).
  exists l. split; [done|]. rewrite <- slash_app.
  destruct Hform as [->|[Hne ->]].
  - left. destruct l as [|k l]; [done|].
    by rewrite pathOf_catSegs, catSegs_join.
  - right. split; [done|]. by rewrite catSegs_join, app_assoc.
Qed.

Lemma normalizePath_trailing l :
  Forall okSeg l -> l <> [] ->
  normalizePath (catSegs l +:+ "/") = catSegs l.
Proof.
  intros Hl Hne. unfold normalizePath.
  assert (startsWith (catSegs l +:+ "/") "/" = true) as ->.
  { destruct l as [|k l]; [done|]. rewrite catSegs_cons_eq, app_cons.
    unfold startsWith. cbn. by destruct ((k +:+ catSegs l) +:+ "/"). }
  assert (negb (catSegs l +:+ "/" =? "/") = true) as ->.
  { destruct (String.eqb_spec (catSegs l +:+ "/") "/") as [E|]; [|done].
    apply (f_equal String.length) in E. rewrite length_app in E.
    destruct l as [|k l]; [done|]. rewrite catSegs_cons_eq in E. cbn in E.
    lia. }
  assert (endsWith (catSegs l +:+ "/") "/" = true) as ->.
  { generalize (catSegs l). intros s. induction s as [|c s IH]; [done|].
    rewrite app_cons. cbn [endsWith]. rewrite IH. apply orb_true_r. }
  cbn [andb]. rewrite dropLast_snoc. by apply collapseSlashes_catSegs.
Qed.

(** X1.  Whatever the input, [normalizePath] returns the root or a path
    of non-empty, slash-free segments, each behind one slash, followed by
    at most one more slash: it starts with a slash and holds no two
    slashes in a row.  The trailing slash is what a second call removes. *)
Theorem normalizePath_shape (p : string) :
  startsWith (normalizePath p) "/" = true
  /\ ~ occursIn "//" (normalizePath p)
  /\ exists l, Forall okSeg l
       /\ (normalizePath p = pathOf l
           \/ (l <> [] /\ normalizePath p = catSegs l +:+ "/"
               /\ normalizePath (normalizePath p) = catSegs l)).
Proof.
  destruct (normalizePath_form p) as (l & Hl & Hform).
  split; [|split].
  - destruct (normalizePath_collapse p) as [t ->]. unfold startsWith.
    cbn. by destruct (collapseFrom true t).
  - intros (a & b & E).
    assert (Hsplit : split "/" (normalizePath p)
                     = split "/" a ++ "" :: split "/" b).
    { rewrite E. change "//" with ("/" +:+ "" +:+ "/" +:+ "").
      rewrite !app_assoc, app_nil_l.
      change (a +:+ "/" +:+ "/" +:+ b) with (a +:+ "/" +:+ ("" +:+ "/" +:+ b)).
      by rewrite !split_app_slash. }
    assert (Hmid : forall xs ys : list string,
              xs <> [] -> ys <> [] ->
              xs ++ "" :: ys = "" :: l \/ xs ++ "" :: ys = ("" :: l) ++ [""] ->
              False).
    { intros xs ys Hxs Hys Hcase.
      assert (Hin : "" ∈ l).
      { destruct xs as [|x xs]; [done|]. destruct Hcase as [Hc|Hc].
        - injection Hc as _ <-. apply elem_of_app. right. left.
        - injection Hc as _ Hc.
          destruct ys as [|y ys] using rev_ind; [done|]. clear IHys.
          change (xs ++ "" :: ys ++ [y]) with (xs ++ ("" :: ys) ++ [y]) in Hc.
          rewrite List.app_assoc in Hc.
          apply app_inj_tail in Hc as [<- _]. apply elem_of_app. right. left. }
      rewrite Forall_forall in Hl. by destruct (Hl _ Hin) as [? _]. }
    apply (Hmid (split "/" a) (split "/" b)); [apply split_nonempty..|].
    rewrite <- Hsplit. clear Hsplit E Hmid.
    destruct Hform as [->|[Hne ->]].
    + destruct l as [|k l]; [by right|]. left.
      rewrite pathOf_catSegs by done.
      apply split_catSegs. by apply okSeg_slashless.
    + right. rewrite <- (app_nil_r "/") at 1.
      rewrite split_app_slash, split_catSegs by by apply okSeg_slashless.
      done.
  - exists l. split; [done|]. destruct Hform as [E|[Hne E]]; [by left|].
    right. split; [done|]. split; [done|]. rewrite E.
    by apply normalizePath_trailing.
Qed.

(** X2.  Normalizing twice always reaches a fixed point, and the first
    result is one already exactly when it is the root or does not end in
    a slash. *)
Theorem normalizePath_settles (p : string) :
  normalizePath (normalizePath (normalizePath p))
  = normalizePath (normalizePath p)
  /\ (normalizePath (normalizePath p) = normalizePath p
      <-> normalizePath p = "/" \/ endsWith (normalizePath p) "/" = false).
Proof.
  destruct (normalizePath_form p) as (l & Hl & [->|[Hne ->]]).
  - rewrite !normalizePath_pathOf by done. split; [done|].
    split; [|done]. intros _. destruct l as [|k l]; [by left|right].
    rewrite pathOf_catSegs by done. by apply endsWith_catSegs.
  - rewrite normalizePath_trailing by done.
    rewrite normalizePath_catSegs by done. split; [done|].
    assert (Hends : endsWith (catSegs l +:+ "/") "/" = true).
    { generalize (catSegs l). intros s. induction s as [|c s IH]; [done|].
      rewrite app_cons. cbn [endsWith]. rewrite IH. apply orb_true_r. }
    assert (Hlen : String.length (catSegs l +:+ "/")
                   = S (String.length (catSegs l))).
    { rewrite length_app. cbn. lia. }
    split.
    + intros E. rewrite <- E in Hlen. lia.
    + intros [E|E]; [|congruence]. rewrite E in Hlen.
      destruct l as [|k l]; [done|]. rewrite catSegs_cons_eq in Hlen.
      cbn in Hlen. lia.
Qed.

Lemma getParentPath_normalized p q :
  normalizePath q = normalizePath p ->
  getParentPath q = getParentPath p /\ getFileName q = getFileName p.
Proof. unfold getParentPath, getFileName. by intros ->. Qed.

(** X3.  The parent path and the file name of a path make up its
    normalized form again (the parent's slash not repeated under the
    root), and the parent path is itself a fixed point of
    [normalizePath]. *)
Theorem parent_and_name_recompose (p : string) :
  normalizePath p <> "/" ->
  joinPath (getParentPath p) (getFileName p) = normalizePath p
  /\ normalizePath (getParentPath p) = getParentPath p.
Proof.
  intros Hroot.
  destruct (normalizePath_form p) as (l & Hl & [E|[Hne E]]).
  - destruct l as [|k l] using rev_ind; [done|]. clear IHl.
    apply Forall_app in Hl as [Hl [Hk _]%Forall_cons].
    rewrite pathOf_catSegs in E by by destruct l.
    destruct (getParentPath_normalized p (catSegs (l ++ [k]))) as [<- <-].
    { rewrite E. apply normalizePath_catSegs; [|by destruct l].
      apply Forall_app. split; [done|]. by apply Forall_singleton. }
    rewrite getParentPath_snoc, getFileName_snoc by done.
    rewrite joinPath_pathOf, normalizePath_pathOf by done.
    rewrite E. split; [|done]. apply pathOf_catSegs. by destruct l.
  - unfold getParentPath, getFileName, joinPath. rewrite E.
    destruct (String.eqb_spec (catSegs l +:+ "/") "/") as [E1|_].
    { by rewrite <- E in E1. }
    assert (Hs : split "/" (catSegs l +:+ "/") = ("" :: l) ++ [""]).
    { rewrite <- (app_nil_r "/") at 1.
      by rewrite split_app_slash, split_catSegs by by apply okSeg_slashless. }
    rewrite Hs, removelast_last, last_last. cbn [length].
    destruct l as [|k l]; [done|]. cbn [length Nat.eqb].
    rewrite join_empty_cons by done.
    destruct (String.eqb_spec (catSegs (k :: l)) "/") as [E2|_].
    { by apply catSegs_not_root in E2. }
    rewrite app_nil_r. split; [done|]. by apply normalizePath_catSegs.
Qed.

Lemma parent_and_name_recompose_witness :
  normalizePath "a//b/" <> "/"
  /\ joinPath (getParentPath "a//b/") (getFileName "a//b/") = "/a/b".
Proof.
  split; [done|].
  exact (proj1 (parent_and_name_recompose "a//b/" ltac:(done))).
Defined.

Lemma directoryPrefixes_seq cur parts :
  directoryPrefixes cur parts
  = List.map (fun n => cur +:+ catSegs (take n parts))
      (seq 1 (length parts - 1)).
Proof.
  revert cur. induction parts as [|x parts IH]; intros cur; [done|].
  destruct parts as [|y parts]; [done|].
  change (directoryPrefixes cur (x :: y :: parts))
    with ((cur +:+ "/" +:+ x)
          :: directoryPrefixes (cur +:+ "/" +:+ x) (y :: parts)).
  rewrite IH. cbn [length Nat.sub]. rewrite Nat.sub_0_r.
  change (seq 1 (S (length parts))) with (1 :: seq 2 (length parts)).
  replace (seq 2 (length parts)) with (List.map S (seq 1 (length parts)))
    by apply seq_shift.
  cbn [List.map]. rewrite List.map_map. f_equal.
  - cbn [take catSegs]. by rewrite app_nil_r.
  - apply List.map_ext. intros n. cbn [take catSegs].
    by rewrite !app_assoc.
Qed.

(** X4.  [createDirectoryPath] returns the proper ancestors of a path
    below the root, the nearest to the root first: the first segment, the
    first two, and so on up to all but the last. *)
Theorem createDirectoryPath_ancestors (p : string) :
  createDirectoryPath p
  = List.map (fun n => catSegs (take n (segmentsOf p)))
      (seq 1 (length (segmentsOf p) - 1)).
Proof.
  unfold createDirectoryPath. fold (segmentsOf p).
  rewrite directoryPrefixes_seq. apply List.map_ext. intros n.
  apply app_nil_l.
Qed.

Lemma segments_pathOf l :
  Forall okSeg l -> filterBoolean (split "/" (pathOf l)) = l.
Proof.
  intros Hl. destruct l as [|k l]; [done|].
  rewrite pathOf_catSegs, split_catSegs by (done || by apply okSeg_slashless).
  change (filterBoolean ("" :: k :: l)) with (filterBoolean (k :: l)).
  by apply filterBoolean_okSegs.
Qed.

Lemma slash_join l : "/" +:+ join "/" l = pathOf l.
Proof.
  destruct l as [|k l]; [done|]. rewrite pathOf_catSegs by done.
  symmetry. by apply catSegs_join.
Qed.

(** X5.  [resolveRelativePath] on a directory given by its segments: a
    specifier [./k] names the entry [k] of the directory, [../k] the
    entry [k] of its parent, [..] the parent itself, and [..] at the root
    stays at the root. *)
Theorem resolveRelativePath_steps (l : list string) (j k : string) :
  Forall okSeg l -> okSeg j -> okSeg k -> k <> "." -> k <> ".." ->
  resolveRelativePath (pathOf l) ("./" +:+ k) = pathOf (l ++ [k])
  /\ resolveRelativePath (pathOf (l ++ [j])) ("../" +:+ k) = pathOf (l ++ [k])
  /\ resolveRelativePath (pathOf (l ++ [j])) ".." = pathOf l
  /\ resolveRelativePath "/" ("../" +:+ k) = "/" +:+ k.
Proof.
  intros Hl Hj Hk Hdot Hdots.
  assert (Hlj : Forall okSeg (l ++ [j])).
  { apply Forall_app. split; [done|]. by apply Forall_singleton. }
  assert (Hkd : (k =? "..") = false) by by apply String.eqb_neq.
  assert (Hkdd : (k =? ".") = false) by by apply String.eqb_neq.
  assert (Hsk : split "/" k = [k]) by (apply split_slashless; apply Hk).
  unfold resolveRelativePath.
  rewrite !segments_pathOf by done.
  change "../" with (".." +:+ "/"). change "./" with ("." +:+ "/").
  rewrite !app_assoc, !split_app_slash, Hsk.
  change (filterBoolean (split "/" "/")) with (@nil string).
  cbn [split Ascii.eqb Bool.eqb app applySegments String.eqb].
  rewrite Hkd, Hkdd, removelast_last. cbn [applySegments removelast app].
  rewrite !slash_join. repeat split; try done.
  cbn [pathOf catSegs]. by rewrite app_nil_r.
Qed.

Lemma resolveRelativePath_steps_witness :
  resolveRelativePath "/src" "./Button" = "/src/Button"
  /\ resolveRelativePath "/src/components" "../Button" = "/src/Button"
  /\ resolveRelativePath "/src/components" ".." = "/src"
  /\ resolveRelativePath "/" "../Button" = "/Button".
Proof.
  exact (resolveRelativePath_steps ["src"] "components" "Button"
           ltac:(repeat constructor; done) ltac:(done) ltac:(done)
           ltac:(done) ltac:(done)).
Defined.

End PathShape.
(** * The file system: what a call leaves for the next one *)

Module VFSOps.
Import JS PathUtils VFS StringFacts MapFacts Segments VFSFacts RenameFacts.

Lemma validatePath_inv p fs u fs' :
  validatePath p fs = Returns u fs' -> pathViolation p = None /\ fs' = fs.
Proof.
  unfold validatePath. destruct (pathViolation p); [done|].
  by intros [= _ <-].
Qed.

Lemma validateContent_inv c fs u fs' :
  validateContent c fs = Returns u fs' ->
  contentViolation c = None /\ fs' = fs.
Proof.
  unfold validateContent. destruct (contentViolation c); [done|].
  by intros [= _ <-].
Qed.

(** A node of kind directory is an allocated one: the reading of a
    reference that is not allocated has the kind [file]. *)
Lemma directory_allocated fs r :
  type (deref fs r) = directory -> r < length (store fs).
Proof.
  intros Hty. destruct (decide (r < length (store fs))) as [|Hge]; [done|].
  unfold deref in Hty. rewrite lookup_ge_None_2 in Hty by lia. done.
Qed.

(** The state after a successful [createFile]. *)
Lemma createFile_inv p c fs f fs' :
  createFile p c fs = Returns (Some f) fs' ->
  exists fs1 parent cs,
    pathViolation p = None /\ contentViolation c = None
    /\ map_get (normalizePath p) (files fs) = None
    /\ ensureParentDirectories (normalizePath p) fs = Returns tt fs1
    /\ map_get (getParentPath (normalizePath p)) (files fs1) = Some parent
    /\ type (deref fs1 parent) = directory
    /\ children (deref fs1 parent) = Some cs
    /\ f = length (store fs1)
    /\ fs' = mkVFS
         (<[parent := mkNode (type (deref fs1 parent))
                        (name (deref fs1 parent)) (path (deref fs1 parent))
                        (content (deref fs1 parent))
                        (Some (map_set (getFileName (normalizePath p)) f cs))]>
            (store fs1
             ++ [mkNode file (getFileName (normalizePath p))
                   (normalizePath p) (Some c) None]))
         (map_set (normalizePath p) f (files fs1)) (root fs1).
Proof.
  unfold createFile. intros Hrun.
  destruct (validatePath p fs) as [[] s0|e s0] eqn:Hv1.
  2:{ by rewrite (bind_Throws _ _ _ _ _ Hv1) in Hrun. }
  rewrite (bind_Returns _ _ _ _ _ Hv1) in Hrun.
  apply validatePath_inv in Hv1 as [Hp ->].
  destruct (validateContent c fs) as [[] s0|e s0] eqn:Hv2.
  2:{ by rewrite (bind_Throws _ _ _ _ _ Hv2) in Hrun. }
  rewrite (bind_Returns _ _ _ _ _ Hv2) in Hrun.
  apply validateContent_inv in Hv2 as [Hc ->].
  rewrite bind_get in Hrun.
  destruct (map_has (normalizePath p) (files fs)) eqn:Hhas; [done|].
  apply map_has_false in Hhas.
  destruct (ensureParentDirectories (normalizePath p) fs)
    as [[] fs1|e fs1] eqn:Hepd.
  2:{ by rewrite (bind_Throws _ _ _ _ _ Hepd) in Hrun. }
  rewrite (bind_Returns _ _ _ _ _ Hepd) in Hrun.
  rewrite bind_getParentNode in Hrun.
  destruct (map_get (getParentPath (normalizePath p)) (files fs1))
    as [parent|] eqn:Hparent; [|done].
  rewrite bind_read in Hrun.
  destruct (decide (type (deref fs1 parent) = directory)) as [Hdir|]; [|done].
  pose proof (directory_allocated _ _ Hdir) as Hlt.
  rewrite bind_alloc, bind_filesSet in Hrun. cbn [store files root] in Hrun.
  unfold childrenSet in Hrun. rewrite bind_bind, bind_read in Hrun.
  assert (Hread : forall st fl rt,
            deref (mkVFS (store fs1 ++ st) fl rt) parent = deref fs1 parent).
  { intros st fl rt. apply deref_lookup. cbn [store].
    rewrite lookup_app_l by done. by apply deref_lt. }
  rewrite Hread in Hrun.
  destruct (children (deref fs1 parent)) as [cs|] eqn:Hcs;
    [|by rewrite bind_throw in Hrun].
  rewrite bind_write in Hrun. cbn [store files root] in Hrun.
  rewrite ret_eq in Hrun. injection Hrun as <- <-.
  by exists fs1, parent, cs.
Qed.

(** X6.  Create/read round trip: after [createFile(p, c)] has returned a
    node, [readFile(p)] returns [c], [exists(p)] is [true], and a second
    [createFile(p, c2)] returns [null] and changes nothing. *)
Theorem createFile_then_readFile (p c c2 : string) (fs fs' : VirtualFileSystem)
    (f : ref) :
  createFile p c fs = Returns (Some f) fs' ->
  contentViolation c2 = None ->
  readFile p fs' = Returns (Some c) fs'
  /\ existsIn fs' p = true
  /\ createFile p c2 fs' = Returns None fs'.
Proof.
  intros Hrun Hc2.
  destruct (createFile_inv _ _ _ _ _ Hrun)
    as (fs1 & parent & cs & Hp & Hc & Hfree & Hepd & Hparent & Hdir & Hcs
        & -> & ->).
  pose proof (directory_allocated _ _ Hdir) as Hlt.
  set (fs' := mkVFS _ _ _).
  assert (Hidx : map_get (normalizePath p) (files fs')
                 = Some (length (store fs1))) by apply map_get_set_eq.
  assert (Hnode : deref fs' (length (store fs1))
                  = mkNode file (getFileName (normalizePath p))
                      (normalizePath p) (Some c) None).
  { apply deref_lookup. unfold fs'. cbn [store].
    rewrite list_lookup_insert_ne by lia.
    rewrite lookup_app_r by lia. by rewrite Nat.sub_diag. }
  assert (Hvalid : negb (isValidPath p) = false).
  { unfold pathViolation in Hp. by destruct (negb (isValidPath p)). }
  split; [|split].
  - unfold readFile, validatePath. rewrite Hp.
    rewrite bind_ret, bind_filesGet, Hidx, bind_read, Hnode. done.
  - unfold existsIn. rewrite Hvalid. unfold map_has. by rewrite Hidx.
  - unfold createFile, validatePath, validateContent. rewrite Hp, Hc2.
    rewrite !bind_ret, bind_get. unfold map_has. by rewrite Hidx.
Qed.

Lemma createFile_then_readFile_witness :
  let fs' := after (createFile "/dir/x.txt" "hi" VFS.new) in
  createFile "/dir/x.txt" "hi" VFS.new = Returns (Some 2) fs'
  /\ readFile "/dir/x.txt" fs' = Returns (Some "hi") fs'
  /\ createFile "/dir/x.txt" "other" fs' = Returns None fs'.
Proof.
  intros fs'.
  assert (Hrun : createFile "/dir/x.txt" "hi" VFS.new = Returns (Some 2) fs')
    by reflexivity.
  destruct (createFile_then_readFile "/dir/x.txt" "hi" "other" VFS.new fs' 2
              Hrun eq_refl) as (Hread & _ & Hagain).
  done.
Defined.

(** Every indexed reference is allocated: the index holds objects, and
    an object is in the store. *)
Definition allocated (fs : VirtualFileSystem) : Prop :=
  forall p r, map_get p (files fs) = Some r -> r < length (store fs).

Lemma allocated_new : allocated VFS.new.
Proof.
  intros p r. cbn. case_decide; [|done]. intros [= <-]. lia.
Qed.

Lemma WF_allocated fs : WF fs -> allocated fs.
Proof. intros Hwf p r Hp. by destruct (wf_entry _ Hwf _ _ Hp). Qed.

(** X7.  [updateFile] and [readFile] agree: the update succeeds exactly
    where [readFile] finds a file, after it [readFile] returns the new
    content, and a failed update changes nothing.  The index is never
    touched. *)
Theorem updateFile_then_readFile (p c : string) (fs fs' : VirtualFileSystem)
    (b : bool) :
  allocated fs ->
  updateFile p c fs = Returns b fs' ->
  files fs' = files fs
  /\ (b = true ->
      readFile p fs' = Returns (Some c) fs'
      /\ exists old, readFile p fs = Returns (Some old) fs)
  /\ (b = false -> fs' = fs /\ readFile p fs = Returns None fs).
Proof.
  intros Halloc. unfold updateFile, readFile. intros Hrun.
  destruct (validatePath p fs) as [[] s0|e s0] eqn:Hv1.
  2:{ by rewrite (bind_Throws _ _ _ _ _ Hv1) in Hrun. }
  rewrite (bind_Returns _ _ _ _ _ Hv1) in Hrun.
  apply validatePath_inv in Hv1 as [Hp ->].
  destruct (validateContent c fs) as [[] s0|e s0] eqn:Hv2.
  2:{ by rewrite (bind_Throws _ _ _ _ _ Hv2) in Hrun. }
  rewrite (bind_Returns _ _ _ _ _ Hv2) in Hrun.
  apply validateContent_inv in Hv2 as [Hc ->].
  unfold validatePath. rewrite Hp, !bind_ret, !bind_filesGet.
  rewrite bind_filesGet in Hrun.
  destruct (map_get (normalizePath p) (files fs)) as [f|] eqn:Hf.
  2:{ injection Hrun as <- <-. by repeat split. }
  rewrite bind_read in Hrun. rewrite bind_read.
  destruct (decide (type (deref fs f) = file)) as [Hfile|Hdir].
  2:{ injection Hrun as <- <-. by repeat split. }
  rewrite bind_write in Hrun. injection Hrun as <- <-.
  cbn [files]. rewrite Hf. split; [done|]. split; [|done]. intros _.
  split; [|by eexists].
  rewrite bind_read, deref_mkVFS, list_lookup_insert_eq by by apply Halloc in Hf.
  cbn [type content]. by rewrite decide_True.
Qed.

Lemma updateFile_then_readFile_witness :
  let fs := after (createFile "/a.txt" "one" VFS.new) in
  let fs' := after (updateFile "/a.txt" "two" fs) in
  allocated fs
  /\ updateFile "/a.txt" "two" fs = Returns true fs'
  /\ readFile "/a.txt" fs' = Returns (Some "two") fs'.
Proof.
  intros fs fs'.
  assert (Halloc : allocated fs).
  { intros p r.
    change (files fs) with ([("/", 0); ("/a.txt", 1)] : list (string * ref)).
    change (length (store fs)) with 2. cbn [map_get].
    repeat case_decide; intros [= <-]; lia. }
  assert (Hrun : updateFile "/a.txt" "two" fs = Returns true fs')
    by reflexivity.
  destruct (updateFile_then_readFile "/a.txt" "two" fs fs' true Halloc Hrun)
    as (_ & Hok & _).
  split; [done|]. split; [done|]. by apply Hok.
Defined.



(** X9.  [reset] leaves, whatever the state was, a file system that
    holds the root and nothing else: what can be observed of it is what
    can be observed of a new one, and it satisfies the invariant of the
    data model. *)
Theorem reset_is_new (fs : VirtualFileSystem) :
  exists fs', reset fs = Returns tt fs'
    /\ observe fs' = observe VFS.new
    /\ getAllFiles fs' = []
    /\ (forall p, existsIn fs' p = true -> normalizePath p = "/")
    /\ WF fs'.
Proof.
  unfold reset. rewrite bind_get, bind_put, bind_alloc, bind_get, bind_put.
  cbn [store files root]. unfold filesSet. cbn [store files root map_set].
  eexists. split; [reflexivity|].
  set (r := length (store fs)).
  assert (Hnode : forall fl, deref (mkVFS (store fs ++ [rootNode]) fl r) r
                             = rootNode).
  { intros fl. apply deref_lookup. cbn [store].
    rewrite lookup_app_r by (unfold r; lia). by rewrite Nat.sub_diag. }
  assert (Hidx : forall p x,
            map_get p [("/", r)] = Some x -> p = "/" /\ x = r).
  { intros p x. cbn. case_decide; [|done]. by intros [= <-]. }
  split; [|split; [|split]].
  - unfold observe. cbn [files List.map]. by rewrite Hnode.
  - unfold getAllFiles. cbn [files collectFiles]. by rewrite Hnode.
  - intros p. unfold existsIn. destruct (negb (isValidPath p)); [done|].
    unfold map_has. cbn [files].
    destruct (map_get (normalizePath p) [("/", r)]) eqn:E; [|done].
    by apply Hidx in E as [? _].
  - split; cbn [files root store].
    + cbn. by rewrite decide_True.
    + by rewrite Hnode.
    + intros p x [-> ->]%Hidx. rewrite Hnode. split; [|split; [done|]].
      * rewrite List.length_app. cbn. unfold r. lia.
      * by exists [].
    + intros p x [-> ->]%Hidx _. rewrite Hnode. exists [].
      split; [done|]. split; [apply NoDup_nil_2|]. intros k c. by cbn.
    + by intros p x [-> ->]%Hidx.
Qed.

(** ** The snapshots: [getAllFiles] and [serialize] *)

Lemma collectFiles_get fs entries acc q :
  NoDup entries.*1 ->
  map_get q (collectFiles fs entries acc)
  = match map_get q entries with
    | Some r =>
        if decide (type (deref fs r) = file)
        then Some (orEmpty (content (deref fs r)))
        else map_get q acc
    | None => map_get q acc
    end.
Proof.
  revert acc. induction entries as [|[p0 r0] entries IH]; intros acc Hnd.
  { done. }
  cbn [fmap list_fmap fst] in Hnd. apply NoDup_cons in Hnd as [Hp0 Hnd].
  cbn [collectFiles map_get]. rewrite IH by done.
  destruct (decide (q = p0)) as [->|Hne].
  - assert (map_get p0 entries = None) as ->.
    { destruct (map_get p0 entries) eqn:E; [|done].
      apply map_get_Some_In in E. exfalso. apply Hp0.
      apply list_elem_of_fmap. by eexists (_, _). }
    destruct (decide (type (deref fs r0) = file)); [|done].
    apply map_get_set_eq.
  - destruct (map_get q entries) as [r|].
    + destruct (decide (type (deref fs r) = file)); [done|].
      destruct (decide (type (deref fs r0) = file)); [|done].
      by rewrite map_get_set_ne.
    + destruct (decide (type (deref fs r0) = file)); [|done].
      by rewrite map_get_set_ne.
Qed.

(** X10.  [getAllFiles] is the table of [readFile]: for every valid path,
    [readFile] returns what the snapshot holds under the normalized path,
    and [null] where it holds nothing; directories are not in it. *)
Theorem getAllFiles_is_readFile (p : string) (fs : VirtualFileSystem) :
  NoDup (files fs).*1 ->
  pathViolation p = None ->
  readFile p fs = Returns (map_get (normalizePath p) (getAllFiles fs)) fs.
Proof.
  intros Hnd Hp. unfold readFile, validatePath, getAllFiles.
  rewrite Hp, bind_ret, bind_filesGet, collectFiles_get by done.
  destruct (map_get (normalizePath p) (files fs)) as [f|]; [|done].
  rewrite bind_read. by destruct (decide (type (deref fs f) = file)).
Qed.

Lemma getAllFiles_is_readFile_witness :
  let fs := after (createFile "/dir/x.txt" "hi" VFS.new) in
  NoDup (files fs).*1
  /\ getAllFiles fs = [("/dir/x.txt", "hi")]
  /\ readFile "/dir//x.txt" fs = Returns (Some "hi") fs
  /\ readFile "/dir" fs = Returns None fs.
Proof.
  intros fs.
  assert (Hnd : NoDup (files fs).*1).
  { apply (bool_decide_unpack _). vm_compute. exact I. }
  split; [done|]. split; [reflexivity|]. split.
  - exact (getAllFiles_is_readFile "/dir//x.txt" fs Hnd eq_refl).
  - exact (getAllFiles_is_readFile "/dir" fs Hnd eq_refl).
Defined.

(** The descriptor [serialize] stores for a node. *)
Definition descriptor (n : FileNode) : FileNode :=
  if decide (type n = directory)
  then mkNode (type n) (name n) (path n) None None
  else mkNode (type n) (name n) (path n) (content n) None.

Lemma serializeEntries_get fs entries acc q :
  NoDup entries.*1 ->
  map_get q (serializeEntries fs entries acc)
  = match map_get q entries with
    | Some r => Some (descriptor (deref fs r))
    | None => map_get q acc
    end.
Proof.
  revert acc. induction entries as [|[p0 r0] entries IH]; intros acc Hnd.
  { done. }
  cbn [fmap list_fmap fst] in Hnd. apply NoDup_cons in Hnd as [Hp0 Hnd].
  cbn [serializeEntries map_get]. rewrite IH by done.
  destruct (decide (q = p0)) as [->|Hne].
  - assert (map_get p0 entries = None) as ->.
    { destruct (map_get p0 entries) eqn:E; [|done].
      apply map_get_Some_In in E. exfalso. apply Hp0.
      apply list_elem_of_fmap. by eexists (_, _). }
    apply map_get_set_eq.
  - destruct (map_get q entries); [done|]. by rewrite map_get_set_ne.
Qed.

(** X11.  [serialize] holds one descriptor for every indexed path and
    for no other: the descriptor carries the kind, the name and the path
    of the node, the content of a file, and never children or the content
    of a directory. *)
Theorem serialize_descriptors (q : string) (fs : VirtualFileSystem) :
  NoDup (files fs).*1 ->
  map_get q (serialize fs)
  = option_map (fun r => descriptor (deref fs r)) (map_get q (files fs))
  /\ (forall n, map_get q (serialize fs) = Some n ->
        children n = None
        /\ (type n = directory -> content n = None)).
Proof.
  intros Hnd. unfold serialize. rewrite serializeEntries_get by done.
  destruct (map_get q (files fs)) as [r|]; cbn [option_map map_get];
    split; try done.
  intros n [= <-]. unfold descriptor.
  destruct (decide (type (deref fs r) = directory)); by split.
Qed.

Lemma serialize_descriptors_witness :
  let fs := after (createFile "/dir/x.txt" "hi" VFS.new) in
  NoDup (files fs).*1
  /\ map_get "/dir" (serialize fs)
     = Some (mkNode directory "dir" "/dir" None None)
  /\ map_get "/dir/x.txt" (serialize fs)
     = Some (mkNode file "x.txt" "/dir/x.txt" (Some "hi") None)
  /\ map_get "/nowhere" (serialize fs) = None.
Proof.
  intros fs.
  assert (Hnd : NoDup (files fs).*1).
  { apply (bool_decide_unpack _). vm_compute. exact I. }
  split; [done|].
  split; [exact (proj1 (serialize_descriptors "/dir" fs Hnd))|].
  split; [exact (proj1 (serialize_descriptors "/dir/x.txt" fs Hnd))|].
  exact (proj1 (serialize_descriptors "/nowhere" fs Hnd)).
Defined.

End VFSOps.
(** * Deleting a directory *)

Module Deletion.
Import JS PathUtils VFS StringFacts MapFacts Segments VFSFacts RenameFacts
  Propagation VFSOps.

(** The body of the loop of [deleteRecursively]. *)
Definition forget (stack : nat) (child : ref) : M unit :=
  deleteRecursively stack child ;;;
  c <- read child ;;
  filesDelete (path c).

Lemma deleteRecursively_S stack node s :
  deleteRecursively (S stack) node s
  = match type (deref s node), children (deref s node) with
    | directory, Some cs =>
        forEach cs (fun '(_, child) => forget stack child) s
    | _, _ => Returns tt s
    end.
Proof.
  cbn [deleteRecursively]. rewrite bind_read.
  destruct (type (deref s node)), (children (deref s node)); reflexivity.
Qed.

(** ** The walk of [deleteRecursively]

    [W] is the state in which the walk starts and satisfies the invariant
    of the data model; [d] is the node to delete, indexed at the path [O]
    with segments [lO]. *)
Section Walk.
Variables (W : VirtualFileSystem) (d : ref) (lO : list string).
Hypothesis HW : WF W.
Hypothesis HlO : Forall okSeg lO.
Hypothesis HlO_ne : lO <> [].
Hypothesis Hd : map_get (catSegs lO) (files W) = Some d.

Let O := catSegs lO.

Lemma top_index : map_get (pathOf lO) (files W) = Some d.
Proof using Hd HlO_ne. by rewrite pathOf_catSegs. Qed.

Lemma below_pathOf r : pathOf (lO ++ r) = O +:+ catSegs r.
Proof using HlO_ne.
  rewrite pathOf_catSegs, catSegs_app; [done|].
  intros [E _]%app_eq_nil. done.
Qed.

Lemma below_index c r :
  desc W d c r ->
  Forall okSeg r
  /\ map_get (O +:+ catSegs r) (files W) = Some c
  /\ path (deref W c) = O +:+ catSegs r.
Proof using HW HlO HlO_ne Hd.
  intros Hc.
  destruct (desc_index W HW d c r lO HlO top_index Hc) as [Hr Hidx].
  rewrite below_pathOf in Hidx.
  by destruct (wf_entry _ HW _ _ Hidx) as (_ & Hp & _).
Qed.

Lemma below_children y ry c r :
  desc W d y ry -> desc W d c (ry ++ r) -> r <> [] ->
  exists cs k r', type (deref W y) = directory
    /\ children (deref W y) = Some cs /\ k ∈ cs.*1 /\ r = k :: r'.
Proof using HW HlO HlO_ne Hd.
  intros Hy Hc Hr. apply desc_app_inv in Hc as (y' & Hy' & Hc).
  assert (y' = y) as ->
    by apply (desc_node_unique W HW d y' y ry lO HlO top_index Hy' Hy).
  destruct r as [|k r]; [done|].
  apply desc_cons_inv in Hc as (cs & c0 & Hty & Hcs & Hk & Hrest).
  exists cs, k, r. repeat split; [done..|].
  apply map_get_Some_In in Hk. apply list_elem_of_fmap. by exists (k, c0).
Qed.

(** The invariant of the walk, for the set [P] of the chains of names
    whose nodes have left the index. *)
Record Del (P : list string -> Prop) (s : VirtualFileSystem) : Prop :=
  mkDel {
  del_store : store s = store W;
  del_root : root s = root W;
  del_gone : forall c r, desc W d c r -> r <> [] -> P r ->
    map_get (O +:+ catSegs r) (files s) = None;
  del_kept : forall q,
    (forall c r, desc W d c r -> r <> [] -> P r -> q <> O +:+ catSegs r) ->
    map_get q (files s) = map_get q (files W);
  del_sub : forall q r,
    map_get q (files s) = Some r -> map_get q (files W) = Some r
}.

Lemma Del_start : Del (fun _ => False) W.
Proof using Type. by split. Qed.

Lemma Del_ext P P' s :
  (forall c r, desc W d c r -> r <> [] -> (P r <-> P' r)) ->
  Del P s -> Del P' s.
Proof using Type.
  intros Heq [H1 H2 H3 H4 H5]. split; try done.
  - intros c r Hc Hr HP. apply (H3 c r); [done..|]. by apply (Heq c r).
  - intros q Hq. apply H4. intros c r Hc Hr HP. apply (Hq c r); [done..|].
    by apply (Heq c r).
Qed.

Lemma Del_deref P s i : Del P s -> deref s i = deref W i.
Proof using Type. intros HD. unfold deref. by rewrite (del_store _ _ HD). Qed.

(** One path more leaves the index. *)
Lemma Del_forget P s c r :
  Del P s -> desc W d c r -> r <> [] ->
  Del (fun q => P q \/ q = r)
    (mkVFS (store s) (map_delete (O +:+ catSegs r) (files s)) (root s)).
Proof using HW HlO HlO_ne Hd.
  intros [H1 H2 H3 H4 H5] Hc Hr. split; cbn [store files root]; try done.
  - intros c' r' Hc' Hr' [HP| ->]; [|apply map_get_delete_eq].
    rewrite map_get_delete. case_decide; [done|]. by apply (H3 c').
  - intros q Hq. rewrite map_get_delete_ne.
    + apply H4. intros c' r' Hc' Hr' HP. apply (Hq c' r'); [done..|by left].
    + intros E. apply (Hq c r); [done..|by right|done].
  - intros q x. rewrite map_get_delete. case_decide; [done|]. apply H5.
Qed.

Definition deleted (stack : nat) : Prop :=
  forall y ry P s s',
    desc W d y ry -> Del P s ->
    deleteRecursively stack y s = Returns tt s' ->
    Del (fun q => P q \/ exists r, r <> [] /\ q = ry ++ r) s'.

Lemma deleted_children stack y ry P cs :
  deleted stack ->
  desc W d y ry ->
  type (deref W y) = directory -> children (deref W y) = Some cs ->
  forall cs2 cs1 s s', cs = cs1 ++ cs2 ->
    Del (fun q => P q \/ through ry cs1.*1 q) s ->
    forEach cs2 (fun '(_, child) => forget stack child) s = Returns tt s' ->
    Del (fun q => P q \/ through ry cs.*1 q) s'.
Proof using HW HlO HlO_ne Hd.
  intros IH Hy Hty Hcs.
  destruct (below_index _ _ Hy) as (Hoky & Hidxy & _).
  destruct (wf_dir _ HW _ _ Hidxy Hty) as (cs0 & Hcs0 & Hnd & Hall).
  assert (cs0 = cs) as -> by congruence.
  induction cs2 as [|[k c] cs2 IH2]; intros cs1 s s' Hsplit HD Hrun.
  { rewrite forEach_nil in Hrun. injection Hrun as <-.
    rewrite List.app_nil_r in Hsplit. by rewrite Hsplit. }
  rewrite forEach_cons in Hrun. cbv beta iota in Hrun.
  destruct (forget stack c s) as [[] s1|e s1] eqn:Hv.
  2:{ by rewrite (bind_Throws _ _ _ _ _ Hv) in Hrun. }
  rewrite (bind_Returns _ _ _ _ _ Hv) in Hrun.
  assert (Hin : (k, c) ∈ cs).
  { rewrite Hsplit. apply elem_of_app. right. left. }
  assert (Hk : map_get k cs = Some c) by by apply map_get_In_NoDup.
  assert (Hc : desc W d c (ry ++ [k])).
  { eapply desc_app; [exact Hy|]. by eapply desc_child. }
  assert (Hrc : ry ++ [k] <> []) by by destruct ry.
  apply (IH2 (cs1 ++ [(k, c)]) s1 s'); [by rewrite <- List.app_assoc| |done].
  unfold forget in Hv.
  destruct (deleteRecursively stack c s) as [[] s0|e s0] eqn:Hrec.
  2:{ by rewrite (bind_Throws _ _ _ _ _ Hrec) in Hv. }
  rewrite (bind_Returns _ _ _ _ _ Hrec) in Hv.
  apply (IH c (ry ++ [k]) _ s s0 Hc HD) in Hrec.
  rewrite bind_read, (Del_deref _ _ c Hrec) in Hv.
  destruct (below_index _ _ Hc) as (_ & _ & Hpath). rewrite Hpath in Hv.
  injection Hv as <-.
  pose proof (Del_forget _ _ _ _ Hrec Hc Hrc) as HD1. cbv beta in HD1.
  revert HD1. apply Del_ext. intros c' q Hc' Hq. rewrite fmap_app. split.
  - intros [[[HP|(k' & r & Hk' & ->)]|(r & Hr & ->)]| ->].
    + by left.
    + right. exists k', r. split; [|done]. apply elem_of_app. by left.
    + right. exists k, r. rewrite <- List.app_assoc. split; [|done].
      apply elem_of_app. right. cbn. left.
    + right. exists k, []. split; [|done]. apply elem_of_app. right.
      cbn. left.
  - intros [HP|(k' & r & Hk' & ->)]; [by do 3 left|].
    apply elem_of_app in Hk' as [Hk'|Hk'].
    { left. left. right. by exists k', r. }
    cbn in Hk'. apply list_elem_of_singleton in Hk' as ->.
    destruct r as [|k2 r]; [by right|].
    left. right. exists (k2 :: r). by rewrite <- List.app_assoc.
Qed.

Lemma deleted_all stack : deleted stack.
Proof using HW HlO HlO_ne Hd.
  induction stack as [|stack IH]; intros y ry P s s' Hy HD Hrun; [done|].
  rewrite deleteRecursively_S, !(Del_deref _ _ y HD) in Hrun.
  destruct (type (deref W y)) eqn:Ety;
    [|destruct (children (deref W y)) as [cs|] eqn:Ecs].
  - injection Hrun as <-. revert HD. apply Del_ext.
    intros c q Hc Hq. split; [by left|]. intros [HP|(r & Hr & ->)]; [done|].
    destruct (below_children _ _ _ _ Hy Hc Hr) as (? & ? & ? & ? & _).
    congruence.
  - eapply (deleted_children stack y ry P cs IH Hy Ety Ecs cs [])
      in Hrun; [|done|].
    + revert Hrun. apply Del_ext. intros c q Hc Hq. split.
      * intros [HP|(k & r & Hk & ->)]; [by left|]. right. by exists (k :: r).
      * intros [HP|(r & Hr & ->)]; [by left|]. right.
        destruct (below_children _ _ _ _ Hy Hc Hr)
          as (cs' & k & r' & _ & Hcs' & Hk & ->).
        exists k, r'. split; [|done]. congruence.
    + revert HD. apply Del_ext. intros c q Hc Hq. split; [by left|].
      intros [HP|(k & r & Hk & _)]; [done|]. by apply elem_of_nil in Hk.
  - injection Hrun as <-. revert HD. apply Del_ext.
    intros c q Hc Hq. split; [by left|]. intros [HP|(r & Hr & ->)]; [done|].
    destruct (below_children _ _ _ _ Hy Hc Hr) as (? & ? & ? & ? & ? & _).
    congruence.
Qed.

(** The whole walk, from the node to delete. *)
Lemma deleted_from_top stack s' :
  deleteRecursively stack d W = Returns tt s' ->
  Del (fun q => q <> []) s'.
Proof using HW HlO HlO_ne Hd.
  intros Hrun.
  pose proof (deleted_all stack d [] (fun _ => False) W s' (desc_nil W d)
                Del_start Hrun) as HD.
  revert HD. apply Del_ext. intros c q Hc Hq. split; [done|].
  intros _. right. by exists q.
Qed.

End Walk.

(** ** [deleteFile] *)

Lemma deleteFile_inv stack p fs fs' :
  deleteFile stack p fs = Returns true fs' ->
  exists d op s1 cs,
    pathViolation p = None
    /\ normalizePath p <> "/"
    /\ map_get (normalizePath p) (files fs) = Some d
    /\ map_get (getParentPath (normalizePath p)) (files fs) = Some op
    /\ type (deref fs op) = directory
    /\ deleteRecursively stack d fs = Returns tt s1
    /\ children (deref s1 op) = Some cs
    /\ fs' = mkVFS
         (<[op := mkNode (type (deref s1 op)) (name (deref s1 op))
                    (path (deref s1 op)) (content (deref s1 op))
                    (Some (map_delete (name (deref s1 d)) cs))]> (store s1))
         (map_delete (normalizePath p) (files s1)) (root s1).
Proof.
  unfold deleteFile. intros Hrun.
  destruct (validatePath p fs) as [[] s0|e s0] eqn:Hv1.
  2:{ by rewrite (bind_Throws _ _ _ _ _ Hv1) in Hrun. }
  rewrite (bind_Returns _ _ _ _ _ Hv1) in Hrun.
  apply validatePath_inv in Hv1 as [Hp ->].
  rewrite bind_filesGet in Hrun.
  destruct (map_get (normalizePath p) (files fs)) as [d|] eqn:Hd; [|done].
  destruct (String.eqb_spec (normalizePath p) "/") as [|HO]; [done|].
  rewrite bind_getParentNode in Hrun.
  destruct (map_get (getParentPath (normalizePath p)) (files fs))
    as [op|] eqn:Hop; [|done].
  rewrite bind_read in Hrun.
  destruct (decide (type (deref fs op) = directory)) as [Hopd|]; [|done].
  destruct (deleteRecursively stack d fs) as [[] s1|e s1] eqn:Hrec.
  2:{ by rewrite (bind_Throws _ _ _ _ _ Hrec) in Hrun. }
  rewrite (bind_Returns _ _ _ _ _ Hrec) in Hrun.
  rewrite bind_read in Hrun. unfold childrenDelete in Hrun.
  rewrite bind_bind, bind_read in Hrun.
  destruct (children (deref s1 op)) as [cs|] eqn:Hcs;
    [|by rewrite bind_throw in Hrun].
  rewrite bind_write, bind_filesDelete in Hrun. cbn [store files root] in Hrun.
  injection Hrun as <-. by exists d, op, s1, cs.
Qed.

(** X12.  In a file system that satisfies the invariant of the data
    model, a [deleteFile] that returns [true] removes from the index the
    path it is given and every path below it, and no other path; it
    changes the kind, the name, the path and the content of no node, and
    the children of no node but the parent; and the invariant holds
    afterwards. *)
Theorem deleteFile_removes_subtree (stack : nat) (p : string)
    (fs fs' : VirtualFileSystem) :
  WF fs ->
  deleteFile stack p fs = Returns true fs' ->
  let O := normalizePath p in
  existsIn fs' p = false
  /\ (forall r, Forall okSeg r -> map_get (O +:+ catSegs r) (files fs') = None)
  /\ (forall q, (forall r, Forall okSeg r -> q <> O +:+ catSegs r) ->
        map_get q (files fs') = map_get q (files fs))
  /\ (forall i, type (deref fs' i) = type (deref fs i)
                /\ name (deref fs' i) = name (deref fs i)
                /\ path (deref fs' i) = path (deref fs i)
                /\ content (deref fs' i) = content (deref fs i))
  /\ (forall i, map_get (getParentPath O) (files fs) <> Some i ->
        children (deref fs' i) = children (deref fs i))
  /\ WF fs'.
Proof.
  intros Hwf Hrun O.
  destruct (deleteFile_inv _ _ _ _ Hrun)
    as (d & op & s1 & cs & Hp & HO & Hd & Hop & Hopd & Hrec & Hcs & Hfs').
  fold O in HO, Hd, Hop, Hfs'.
  destruct (wf_entry _ Hwf _ _ Hd) as (Hdlt & Hdpath & lO & HlO & EO).
  destruct (exists_last (l := lO)) as (lO' & k0 & ElO).
  { intros ->. by apply HO. }
  assert (HlO_ne : lO <> []) by (rewrite ElO; by destruct lO').
  rewrite pathOf_catSegs in EO by done.
  assert (HlO' : Forall okSeg lO' /\ okSeg k0).
  { rewrite ElO in HlO. by apply Forall_app in HlO as [? [? _]%Forall_cons]. }
  destruct HlO' as [HlO' Hk0].
  assert (Hd' : map_get (catSegs lO) (files fs) = Some d) by by rewrite <- EO.
  assert (Hop' : map_get (pathOf lO') (files fs) = Some op).
  { rewrite EO, ElO, getParentPath_snoc in Hop by done. done. }
  pose proof (deleted_from_top fs d lO Hwf HlO HlO_ne Hd' stack s1 Hrec) as HD.
  assert (Hderef1 : forall i, deref s1 i = deref fs i).
  { intros i. exact (Del_deref _ _ _ _ _ i HD). }
  rewrite !Hderef1 in Hfs'. rewrite Hderef1 in Hcs.
  rewrite (del_store _ _ _ _ _ HD), (del_root _ _ _ _ _ HD) in Hfs'.
  assert (Hpo : forall r, pathOf (lO ++ r) = O +:+ catSegs r).
  { intros r. rewrite EO. by apply below_pathOf. }
  assert (Hdfs : map_get (pathOf lO) (files fs) = Some d)
    by by rewrite pathOf_catSegs.
  (* the moved node is the child of its parent under its name *)
  assert (Hname : name (deref fs d) = k0 /\ map_get k0 cs = Some d).
  { destruct (index_parent fs Hwf lO' k0 d HlO' Hk0)
      as (y & cs' & Hy & Hty & Hcs' & Hin).
    { by rewrite <- ElO. }
    assert (y = op) as -> by congruence.
    assert (cs' = cs) as -> by congruence.
    destruct (wf_dir _ Hwf _ _ Hop' Hopd) as (cs0 & Hcs0 & _ & Hall).
    assert (cs0 = cs) as -> by congruence.
    by destruct (Hall _ _ Hin) as (_ & ? & _). }
  destruct Hname as [Hname Hk0d]. rewrite Hname in Hfs'.
  (* the index afterwards *)
  assert (Hgone : forall r, Forall okSeg r ->
            map_get (O +:+ catSegs r) (files fs') = None).
  { intros r Hr. rewrite Hfs'. cbn [files]. rewrite map_get_delete.
    case_decide; [done|].
    destruct (map_get (O +:+ catSegs r) (files s1)) as [c|] eqn:E; [|done].
    exfalso. pose proof (del_sub _ _ _ _ _ HD _ _ E) as Ec.
    assert (Hdesc : desc fs d c r).
    { apply (index_desc fs Hwf d lO); [done..|]. by rewrite Hpo. }
    assert (Hr0 : r <> []).
    { intros ->. cbn [catSegs] in *. by rewrite app_nil_r in *. }
    rewrite EO in E.
    by rewrite (del_gone _ _ _ _ _ HD c r Hdesc Hr0 Hr0) in E. }
  assert (Hgone0 : map_get O (files fs') = None).
  { rewrite <- (app_nil_r O). apply (Hgone []). constructor. }
  assert (Hkept : forall q, (forall r, Forall okSeg r -> q <> O +:+ catSegs r) ->
            map_get q (files fs') = map_get q (files fs)).
  { intros q Hq. rewrite Hfs'. cbn [files]. rewrite map_get_delete_ne.
    - apply (del_kept _ _ _ _ _ HD). intros c r Hc Hr _.
      destruct (below_index fs d lO Hwf HlO HlO_ne Hd' _ _ Hc) as (Hok & _).
      rewrite <- EO. by apply Hq.
    - intros E. apply (Hq []); [constructor|]. cbn [catSegs].
      by rewrite app_nil_r. }
  assert (Hsub : forall q r, map_get q (files fs') = Some r ->
            map_get q (files fs) = Some r).
  { intros q r. rewrite Hfs'. cbn [files]. rewrite map_get_delete.
    case_decide; [done|]. apply (del_sub _ _ _ _ _ HD). }
  (* the nodes afterwards *)
  assert (Hupd : fs' = mkVFS (store (upd fs op
                    (mkNode (type (deref fs op)) (name (deref fs op))
                       (path (deref fs op)) (content (deref fs op))
                       (Some (map_delete k0 cs)))))
                   (files fs') (root fs)).
  { rewrite Hfs'. reflexivity. }
  assert (Hderef : forall i, deref fs' i
            = deref (upd fs op
                       (mkNode (type (deref fs op)) (name (deref fs op))
                          (path (deref fs op)) (content (deref fs op))
                          (Some (map_delete k0 cs)))) i).
  { intros i. rewrite Hupd. reflexivity. }
  assert (Hfields : forall i, type (deref fs' i) = type (deref fs i)
            /\ name (deref fs' i) = name (deref fs i)
            /\ path (deref fs' i) = path (deref fs i)
            /\ content (deref fs' i) = content (deref fs i)).
  { intros i. rewrite Hderef.
    by rewrite (upd_field type), (upd_field name), (upd_field path),
      (upd_field content). }
  assert (Hchildren : forall i, i <> op ->
            children (deref fs' i) = children (deref fs i)).
  { intros i Hi. rewrite Hderef. by rewrite deref_upd_ne. }
  destruct (wf_entry _ Hwf _ _ Hop') as (Hoplt & _).
  assert (Hopch : children (deref fs' op) = Some (map_delete k0 cs)).
  { rewrite Hderef. by rewrite deref_upd_eq. }
  assert (Hlen : length (store fs') = length (store fs)).
  { rewrite Hupd. cbn [store]. apply length_upd. }
  assert (Hroot : root fs' = root fs) by by rewrite Hupd.
  assert (Hnotbelow : forall q l r, map_get q (files fs') = Some r ->
            Forall okSeg l -> q = pathOf (lO ++ l) -> False).
  { intros q l r Hq Hl ->. rewrite Hpo, Hgone in Hq; done. }
  split; [|split; [done|split; [done|split; [done|split]]]].
  - unfold existsIn. destruct (negb (isValidPath p)); [done|].
    by apply map_has_false.
  - intros i Hi. apply Hchildren. intros ->. by apply Hi.
  - split.
    + rewrite Hroot, Hkept; [apply (wf_root _ Hwf)|].
      intros r Hr E. rewrite <- Hpo in E. change "/" with (pathOf []) in E.
      apply pathOf_inj in E; [|constructor|by apply Forall_app].
      symmetry in E. by apply app_eq_nil in E as [? _].
    + rewrite Hroot. destruct (Hfields (root fs)) as (-> & _).
      apply (wf_root_dir _ Hwf).
    + intros q r Hq. apply Hsub in Hq.
      destruct (wf_entry _ Hwf _ _ Hq) as (Hlt & Hpath & Hcanon).
      destruct (Hfields r) as (_ & _ & -> & _). rewrite Hlen. done.
    + intros q r Hq Hty. pose proof (Hsub _ _ Hq) as Hq0.
      destruct (Hfields r) as (Ety & _). rewrite Ety in Hty.
      destruct (wf_dir _ Hwf _ _ Hq0 Hty) as (csr & Hcsr & Hnd & Hall).
      destruct (wf_entry _ Hwf _ _ Hq0) as (_ & _ & lq & Hlq & ->).
      assert (Hchild : forall k c, map_get k csr = Some c ->
                (r = op -> k <> k0) ->
                okSeg k /\ name (deref fs' c) = k
                /\ map_get (joinPath (pathOf lq) k) (files fs') = Some c).
      { intros k c Hkc Hkk0. destruct (Hall _ _ Hkc) as (Hokk & Hnm & Hidx).
        destruct (Hfields c) as (_ & -> & _). split; [done|]. split; [done|].
        rewrite Hkept; [done|]. intros r' Hr' E.
        rewrite joinPath_pathOf, <- Hpo in E by done.
        apply pathOf_inj in E;
          [|apply Forall_app; split; [done|by apply Forall_singleton]
           |by apply Forall_app].
        destruct r' as [|k' r'] using rev_ind.
        - rewrite List.app_nil_r, ElO in E.
          apply app_inj_tail in E as [-> ->].
          apply Hkk0; [|done]. congruence.
        - clear IHr'. rewrite List.app_assoc in E.
          apply app_inj_tail in E as [-> _].
          apply Forall_app in Hr' as [Hr' _].
          by apply (Hnotbelow _ r' r Hq Hr'). }
      destruct (decide (r = op)) as [->|Hne].
      * exists (map_delete k0 cs). split; [done|].
        assert (csr = cs) as -> by congruence.
        split; [by apply map_delete_NoDup|].
        intros k c. rewrite map_get_delete. case_decide as Hk; [done|].
        intros Hkc. apply Hchild; [done|]. by intros _ ->.
      * exists csr. rewrite Hchildren by done. split; [done|].
        split; [done|]. intros k c Hkc. by apply Hchild.
    + intros q r Hq Hqroot. pose proof (Hsub _ _ Hq) as Hq0.
      destruct (wf_parent _ Hwf _ _ Hq0 Hqroot)
        as (q1 & y & csy & Hq1 & Hty & Hcsy & Hin).
      destruct (wf_dir _ Hwf _ _ Hq1 Hty) as (cs1 & Hcs1 & _ & Hall).
      assert (cs1 = csy) as -> by congruence.
      destruct (Hall _ _ Hin) as (Hokn & _ & Hidx).
      destruct (wf_entry _ Hwf _ _ Hq1) as (_ & _ & lq1 & Hlq1 & ->).
      assert (Eq : q = joinPath (pathOf lq1) (name (deref fs r))).
      { destruct (wf_entry _ Hwf _ _ Hq0) as (_ & <- & _).
        by destruct (wf_entry _ Hwf _ _ Hidx) as (_ & -> & _). }
      rewrite joinPath_pathOf in Eq by done.
      destruct (Hfields r) as (_ & Enm & _). rewrite Enm.
      exists (pathOf lq1), y.
      assert (Hq1' : map_get (pathOf lq1) (files fs') = Some y).
      { rewrite Hkept; [done|]. intros r' Hr' E. rewrite <- Hpo in E.
        apply pathOf_inj in E; [|done|by apply Forall_app].
        apply (Hnotbelow q (r' ++ [name (deref fs r)]) r Hq).
        - apply Forall_app. split; [done|]. by apply Forall_singleton.
        - by rewrite Eq, E, List.app_assoc. }
      destruct (Hfields y) as (Ety & _).
      destruct (decide (y = op)) as [->|Hne].
      * exists (map_delete k0 cs). split; [done|]. split; [congruence|].
        split; [done|]. assert (csy = cs) as -> by congruence.
        rewrite map_get_delete. case_decide as Hk; [|done]. exfalso.
        rewrite <- Hk in Hin. assert (r = d) as -> by congruence.
        destruct (wf_entry _ Hwf _ _ Hq0) as (_ & Hpq & _).
        assert (q = O) as -> by congruence. congruence.
      * exists csy. split; [done|]. split; [congruence|].
        split; [|done]. by rewrite Hchildren.
Qed.

(** The example of the specification: [/a/b.txt] is created in the empty
    file system and [/a] is deleted. *)
Lemma deleteFile_removes_subtree_witness :
  let fs := after (createFile "/a/b.txt" "b" VFS.new) in
  let fs' := after (deleteFile 3 "/a" fs) in
  WF fs
  /\ deleteFile 3 "/a" fs = Returns true fs'
  /\ existsIn fs' "/a" = false
  /\ existsIn fs' "/a/b.txt" = false
  /\ getAllFiles fs' = [].
Proof.
  intros fs fs'.
  assert (Hwf : WF fs).
  { apply (createFile_canonical VFS.new fs ["a"; "b.txt"] "b" (Some 2));
      [apply WF_new|repeat constructor; done|done|reflexivity]. }
  assert (Hrun : deleteFile 3 "/a" fs = Returns true fs') by reflexivity.
  destruct (deleteFile_removes_subtree 3 "/a" fs fs' Hwf Hrun)
    as (Hex & Hgone & _).
  split; [done|]. split; [done|]. split; [done|]. split; [|reflexivity].
  unfold existsIn. apply map_has_false.
  apply (Hgone ["b.txt"]). repeat constructor; done.
Defined.

End Deletion.
(** * The calls that keep the invariant of the data model *)

Module Invariant.
Import JS PathUtils VFS StringFacts MapFacts Segments VFSFacts RenameFacts
  Propagation PathShape VFSOps.

(** A normalized path without a trailing slash is canonical. *)
Lemma canonical_normalized p :
  normalizePath p = "/" \/ endsWith (normalizePath p) "/" = false ->
  exists l, Forall okSeg l /\ normalizePath p = pathOf l.
Proof.
  intros Hcase.
  destruct (normalizePath_form p) as (l & Hl & [E|[Hne E]]); [by exists l|].
  exfalso. rewrite E in Hcase. destruct Hcase as [Hroot|Hends].
  - apply (f_equal String.length) in Hroot. rewrite length_app in Hroot.
    destruct l as [|k l]; [done|]. rewrite catSegs_cons_eq in Hroot.
    cbn in Hroot. lia.
  - assert (endsWith (catSegs l +:+ "/") "/" = true); [|congruence].
    generalize (catSegs l). intros s. induction s as [|c s IH]; [done|].
    rewrite app_cons. cbn [endsWith]. rewrite IH. apply orb_true_r.
Qed.

(** A write that keeps the kind, the name, the path and the children of
    a node keeps the invariant. *)
Lemma WF_upd fs i n :
  WF fs ->
  type n = type (deref fs i) -> name n = name (deref fs i) ->
  path n = path (deref fs i) -> children n = children (deref fs i) ->
  WF (upd fs i n).
Proof.
  intros Hwf Hty Hnm Hpa Hch.
  pose proof (upd_field type fs i n Hty) as Ft.
  pose proof (upd_field name fs i n Hnm) as Fn.
  pose proof (upd_field path fs i n Hpa) as Fp.
  pose proof (upd_field children fs i n Hch) as Fc.
  split; cbn [files root].
  - apply (wf_root _ Hwf).
  - rewrite Ft. apply (wf_root_dir _ Hwf).
  - intros p r Hp. rewrite Fp, length_upd. by apply (wf_entry _ Hwf).
  - intros p r Hp. rewrite Ft, Fc. intros Hdir.
    destruct (wf_dir _ Hwf _ _ Hp Hdir) as (cs & Hcs & Hnd & Hall).
    exists cs. split; [done|]. split; [done|]. intros k c Hk.
    rewrite Fn. by apply Hall.
  - intros p r Hp Hroot.
    destruct (wf_parent _ Hwf _ _ Hp Hroot) as (q & y & cs & H1 & H2 & H3 & H4).
    exists q, y, cs. by rewrite Ft, Fc, Fn.
Qed.

Lemma createDirectory_keeps fs fs' p l v :
  WF fs -> Forall okSeg l -> normalizePath p = pathOf l ->
  createDirectory p fs = Returns v fs' -> WF fs'.
Proof.
  intros Hwf Hl Hnorm. unfold createDirectory. vfs_steps.
  unfold validatePath. destruct (pathViolation p); vfs_steps; [done|].
  rewrite Hnorm.
  destruct (map_has (pathOf l) (files fs)) eqn:Hhas; vfs_steps.
  { by intros [= _ <-]. }
  apply map_has_false in Hhas.
  destruct l as [|k0 l0] using rev_ind.
  { pose proof (wf_root _ Hwf) as Hr. cbn [pathOf] in Hhas. congruence. }
  clear IHl0. rename l0 into l0', k0 into k.
  rewrite pathOf_catSegs in * by by destruct l0'.
  apply Forall_app in Hl as [Hl0 [Hk _]%Forall_cons].
  rewrite getParentPath_snoc, getFileName_snoc by done.
  destruct (map_get (pathOf l0') (files fs)) as [parent|] eqn:Hparent;
    vfs_steps; [|by intros [= _ <-]].
  destruct (decide (type (deref fs parent) = directory)) as [Hdir|];
    vfs_steps; [|by intros [= _ <-]].
  destruct (wf_entry _ Hwf _ _ Hparent) as (Hplt & _).
  destruct (wf_dir _ Hwf _ _ Hparent Hdir) as (cs & Hcs & _).
  unfold childrenSet. vfs_steps.
  assert (Hread : forall nd fl,
    deref (mkVFS (store fs ++ [nd]) fl (root fs)) parent = deref fs parent).
  { intros nd fl. apply deref_lookup. cbn. rewrite lookup_app_l by done.
    by apply deref_lt. }
  rewrite Hread, Hcs. vfs_steps.
  intros [= _ <-].
  assert (Ejoin : catSegs (l0' ++ [k]) = joinPath (pathOf l0') k).
  { rewrite joinPath_pathOf by done. by destruct l0'. }
  rewrite Ejoin in Hhas |- *.
  pose proof (attach_WF fs parent (pathOf l0') k
                (mkNode directory k (joinPath (pathOf l0') k) None (Some []))
                Hwf Hparent Hdir Hk Hhas eq_refl eq_refl (fun _ => eq_refl))
    as Hres.
  unfold attached, withChild in Hres. rewrite Hcs in Hres. exact Hres.
Qed.

Lemma createFile_keeps fs fs' p c l v :
  WF fs -> Forall okSeg l -> normalizePath p = pathOf l ->
  createFile p c fs = Returns v fs' -> WF fs'.
Proof.
  intros Hwf Hl Hnorm. unfold createFile. vfs_steps.
  unfold validatePath, validateContent.
  destruct (pathViolation p); vfs_steps; [done|].
  destruct (contentViolation c); vfs_steps; [done|].
  rewrite Hnorm.
  destruct (map_has (pathOf l) (files fs)) eqn:Hhas; vfs_steps.
  { by intros [= _ <-]. }
  apply map_has_false in Hhas.
  destruct (ensureParentDirectories (pathOf l) fs) as [[] fs1|e fs1] eqn:Hepd.
  2:{ by rewrite (bind_Throws _ _ _ _ _ Hepd). }
  rewrite (bind_Returns _ _ _ _ _ Hepd).
  destruct (ensureParentDirectories_grows _ _ _ Hwf Hepd) as [Hwf1 Hg].
  assert (Hfree : map_get (pathOf l) (files fs1) = None).
  { apply (grows_fresh _ _ _ Hg); [done|]. apply createDirectoryPath_not_self. }
  clear Hepd Hg Hhas Hwf. revert Hwf1 Hfree. generalize fs1. clear fs.
  intros fs Hwf Hhas. vfs_steps.
  destruct l as [|k0 l0] using rev_ind.
  { pose proof (wf_root _ Hwf) as Hr. cbn [pathOf] in Hhas. congruence. }
  clear IHl0. rename l0 into l0', k0 into k.
  rewrite pathOf_catSegs in * by by destruct l0'.
  apply Forall_app in Hl as [Hl0 [Hk _]%Forall_cons].
  rewrite getParentPath_snoc, getFileName_snoc by done.
  destruct (map_get (pathOf l0') (files fs)) as [parent|] eqn:Hparent;
    vfs_steps; [|by intros [= _ <-]].
  destruct (decide (type (deref fs parent) = directory)) as [Hdir|];
    vfs_steps; [|by intros [= _ <-]].
  destruct (wf_entry _ Hwf _ _ Hparent) as (Hplt & _).
  destruct (wf_dir _ Hwf _ _ Hparent Hdir) as (cs & Hcs & _).
  unfold childrenSet. vfs_steps.
  assert (Hread : forall nd fl,
    deref (mkVFS (store fs ++ [nd]) fl (root fs)) parent = deref fs parent).
  { intros nd fl. apply deref_lookup. cbn. rewrite lookup_app_l by done.
    by apply deref_lt. }
  rewrite Hread, Hcs. vfs_steps.
  intros [= _ <-].
  assert (Ejoin : catSegs (l0' ++ [k]) = joinPath (pathOf l0') k).
  { rewrite joinPath_pathOf by done. by destruct l0'. }
  rewrite Ejoin in Hhas |- *.
  assert (Hkids : type (mkNode file k (joinPath (pathOf l0') k) (Some c) None)
                   = directory ->
                   children (mkNode file k (joinPath (pathOf l0') k) (Some c)
                               None) = Some []) by done.
  pose proof (attach_WF fs parent (pathOf l0') k
                (mkNode file k (joinPath (pathOf l0') k) (Some c) None)
                Hwf Hparent Hdir Hk Hhas eq_refl eq_refl Hkids)
    as Hres.
  unfold attached, withChild in Hres. rewrite Hcs in Hres. exact Hres.
Qed.

Lemma updateFile_keeps fs fs' p c b :
  WF fs -> updateFile p c fs = Returns b fs' -> WF fs'.
Proof.
  intros Hwf. unfold updateFile. vfs_steps.
  unfold validatePath, validateContent.
  destruct (pathViolation p); vfs_steps; [done|].
  destruct (contentViolation c); vfs_steps; [done|].
  destruct (map_get (normalizePath p) (files fs)) as [f|]; vfs_steps;
    [|by intros [= _ <-]].
  destruct (decide (type (deref fs f) = file)); vfs_steps;
    [|by intros [= _ <-]].
  intros [= _ <-].
  by apply (WF_upd fs f
              (mkNode (type (deref fs f)) (name (deref fs f))
                 (path (deref fs f)) (Some c) (children (deref fs f)))).
Qed.

(** X13.  In a file system that satisfies the invariant of the data
    model, [createFile], [createDirectory] and [updateFile] keep it,
    whatever they return, when the path they are given normalizes without
    a trailing slash (for [updateFile], on every path). *)
Theorem calls_keep_invariant (p c : string) (fs : VirtualFileSystem) :
  WF fs ->
  (normalizePath p = "/" \/ endsWith (normalizePath p) "/" = false ->
   (forall v fs', createFile p c fs = Returns v fs' -> WF fs')
   /\ (forall v fs', createDirectory p fs = Returns v fs' -> WF fs'))
  /\ (forall b fs', updateFile p c fs = Returns b fs' -> WF fs').
Proof.
  intros Hwf. split.
  - intros (l & Hl & Hnorm)%canonical_normalized. split.
    + intros v fs'. by apply createFile_keeps with l.
    + intros v fs'. by apply createDirectory_keeps with l.
  - intros b fs'. by apply updateFile_keeps.
Qed.

Lemma calls_keep_invariant_witness :
  WF VFS.new
  /\ WF (after (createFile "src//App.jsx" "x" VFS.new))
  /\ WF (after (createDirectory "/src" VFS.new)).
Proof.
  pose proof (calls_keep_invariant "src//App.jsx" "x" VFS.new WF_new)
    as [Hcreate _].
  pose proof (calls_keep_invariant "/src" "x" VFS.new WF_new)
    as [Hdir _].
  split; [apply WF_new|]. split.
  - by apply (proj1 (Hcreate ltac:(by right)) (Some 2)).
  - by apply (proj2 (Hdir ltac:(by right)) (Some 1)).
Defined.

End Invariant.
(** * [createFile] creates the missing ancestors *)

Module Vivify.
Import JS PathUtils VFS StringFacts MapFacts Segments VFSFacts RenameFacts
  Propagation PathShape VFSOps Invariant.

(** ** The checks of [validatePath] on the ancestors of a path *)

Lemma includesChar_collapseFrom c b s :
  c <> "/"%char -> includesChar c (collapseFrom b s) = includesChar c s.
Proof.
  intros Hc. revert b. induction s as [|x s IH]; intros b; [done|].
  cbn [collapseFrom includesChar].
  destruct (Ascii.eqb_spec x "/") as [->|Hx].
  - assert (Ascii.eqb "/" c = false) as -> by by apply Ascii.eqb_neq.
    cbn [orb]. destruct b; [apply IH|].
    cbn [includesChar].
    assert (Ascii.eqb "/" c = false) as -> by by apply Ascii.eqb_neq.
    apply IH.
  - cbn [includesChar]. by rewrite IH.
Qed.

Lemma includesChar_dropLast c s :
  includesChar c s = false -> includesChar c (dropLast s) = false.
Proof.
  induction s as [|x s IH]; [done|]. cbn [includesChar dropLast].
  intros [Hx Hs]%orb_false_elim. destruct s as [|y s]; [done|].
  cbn [includesChar]. rewrite Hx. by apply IH.
Qed.

Lemma length_collapseFrom b s :
  String.length (collapseFrom b s) <= String.length s.
Proof.
  revert b. induction s as [|x s IH]; intros b; [done|].
  cbn [collapseFrom]. destruct (Ascii.eqb x "/"); [destruct b|];
    cbn [String.length].
  - pose proof (IH true). lia.
  - pose proof (IH true). lia.
  - pose proof (IH false). lia.
Qed.

Lemma length_dropLast s : String.length (dropLast s) <= String.length s.
Proof.
  induction s as [|x s IH]; [done|]. cbn [dropLast].
  destruct s; cbn [String.length] in *; lia.
Qed.

(** A path that passes [validatePath] normalizes to a text without NUL
    that is at most one character longer. *)
Lemma normalizePath_valid p :
  pathViolation p = None ->
  includesChar "000" (normalizePath p) = false
  /\ String.length (normalizePath p) <= S MAX_PATH_LENGTH.
Proof.
  unfold pathViolation, isValidPath. intros Hp.
  destruct (0 <? String.length p)%nat eqn:Hlen; [|done].
  destruct (includesChar "000" p) eqn:Hnul; [done|]. cbn [andb negb] in Hp.
  destruct (MAX_PATH_LENGTH <? String.length p)%nat eqn:Hmax; [done|].
  apply Nat.ltb_ge in Hmax. unfold normalizePath.
  set (q := if startsWith p "/" then p else "/" +:+ p).
  assert (Hq : includesChar "000" q = false
               /\ String.length q <= S (String.length p)).
  { unfold q. destruct (startsWith p "/"); [split; [done|lia]|].
    split; [done|]. rewrite length_app. cbn [String.length]. lia. }
  destruct Hq as [Hq1 Hq2].
  set (q' := if negb (q =? "/") && endsWith q "/" then dropLast q else q).
  assert (Hq' : includesChar "000" q' = false
                /\ String.length q' <= String.length q).
  { unfold q'. destruct (negb (q =? "/") && endsWith q "/"); [|done].
    split; [by apply includesChar_dropLast|apply length_dropLast]. }
  destruct Hq' as [Hq1' Hq2']. unfold collapseSlashes.
  rewrite includesChar_collapseFrom by done. split; [done|].
  pose proof (length_collapseFrom false q'). lia.
Qed.

Lemma length_catSegs_ge l : Forall okSeg l -> 2 * length l <= String.length (catSegs l).
Proof.
  induction 1 as [|k l [Hk _] Hl IH]; [done|].
  cbn [catSegs length]. rewrite !length_app. cbn [String.length].
  destruct k; [done|]. cbn [String.length]. lia.
Qed.

(** The proper ancestors of a path that passes the checks pass them. *)
Lemma ancestor_valid p l n :
  pathViolation p = None -> normalizePath p = catSegs l ->
  Forall okSeg l -> 0 < n < length l ->
  pathViolation (catSegs (take n l)) = None.
Proof.
  intros Hp Hnorm Hl Hn.
  destruct (normalizePath_valid p Hp) as [Hnul Hlen].
  rewrite Hnorm in Hnul, Hlen.
  rewrite <- (take_drop n l), catSegs_app in Hnul, Hlen.
  rewrite includesChar_app in Hnul. apply orb_false_elim in Hnul as [Hnul _].
  rewrite length_app in Hlen.
  assert (Hrest : 2 <= String.length (catSegs (drop n l))).
  { pose proof (length_catSegs_ge (drop n l)) as Hge.
    rewrite length_drop in Hge. 
    assert (Forall okSeg (drop n l)) by by apply Forall_drop.
    specialize (Hge H). lia. }
  assert (Hpos : 0 < String.length (catSegs (take n l))).
  { pose proof (length_catSegs_ge (take n l)) as Hge.
    rewrite length_take in Hge.
    assert (Forall okSeg (take n l)) by by apply Forall_take.
    specialize (Hge H). lia. }
  unfold pathViolation, isValidPath.
  assert ((0 <? String.length (catSegs (take n l)))%nat = true) as ->
    by by apply Nat.ltb_lt.
  rewrite Hnul. cbn [andb negb].
  assert ((MAX_PATH_LENGTH <? String.length (catSegs (take n l)))%nat = false)
    as -> by (apply Nat.ltb_ge; lia).
  done.
Qed.

(** ** One directory created *)

Definition dirNode (pp k : string) : FileNode :=
  mkNode directory k (joinPath pp k) None (Some []).

Lemma createDirectory_creates fs l k parent :
  WF fs -> Forall okSeg l -> okSeg k ->
  pathViolation (catSegs (l ++ [k])) = None ->
  map_get (catSegs (l ++ [k])) (files fs) = None ->
  map_get (pathOf l) (files fs) = Some parent ->
  type (deref fs parent) = directory ->
  createDirectory (catSegs (l ++ [k])) fs
  = Returns (Some (length (store fs)))
      (attached fs parent (joinPath (pathOf l) k) k (dirNode (pathOf l) k)).
Proof.
  intros Hwf Hl Hk Hvalid Hfree Hparent Hdir.
  assert (Hlk : Forall okSeg (l ++ [k])).
  { apply Forall_app. split; [done|]. by apply Forall_singleton. }
  unfold createDirectory, validatePath. rewrite Hvalid. vfs_steps.
  rewrite normalizePath_catSegs by (done || by destruct l).
  unfold map_has. rewrite Hfree. vfs_steps.
  rewrite getParentPath_snoc, getFileName_snoc, Hparent by done.
  vfs_steps. rewrite decide_True by done. vfs_steps.
  destruct (wf_entry _ Hwf _ _ Hparent) as (Hplt & _).
  destruct (wf_dir _ Hwf _ _ Hparent Hdir) as (cs & Hcs & _).
  unfold childrenSet. vfs_steps.
  assert (Hread : forall nd fl,
    deref (mkVFS (store fs ++ [nd]) fl (root fs)) parent = deref fs parent).
  { intros nd fl. apply deref_lookup. cbn. rewrite lookup_app_l by done.
    by apply deref_lt. }
  rewrite Hread, Hcs. vfs_steps.
  assert (Ejoin : catSegs (l ++ [k]) = joinPath (pathOf l) k).
  { rewrite joinPath_pathOf by done. by destruct l. }
  unfold attached, withChild, dirNode. by rewrite Hcs, Ejoin.
Qed.

(** ** The walk of [ensureParentDirectories] *)

(** The body of the loop. *)
Definition ensure (dirPath : string) : M unit :=
  present <- exists_ dirPath ;;
  if negb present then createDirectory dirPath ;;; ret tt else ret tt.

Lemma existsIn_canonical fs l :
  Forall okSeg l -> l <> [] -> pathViolation (catSegs l) = None ->
  existsIn fs (catSegs l) = map_has (catSegs l) (files fs).
Proof.
  intros Hl Hne Hvalid. unfold existsIn. rewrite normalizePath_catSegs by done.
  unfold pathViolation in Hvalid.
  by destruct (negb (isValidPath (catSegs l))).
Qed.

Section Ancestors.
Variable l : list string.
Hypothesis Hl : Forall okSeg l.
Hypothesis Hvalid : forall n, 0 < n < length l ->
  pathViolation (catSegs (take n l)) = None.

(** The ancestors up to the one of [n] segments are directories, and no
    file is on the way to the path. *)
Definition upTo (n : nat) (fs : VirtualFileSystem) : Prop :=
  WF fs
  /\ (forall m, m <= n -> m < length l ->
        exists r, map_get (pathOf (take m l)) (files fs) = Some r
                  /\ type (deref fs r) = directory)
  /\ (forall m r, m < length l ->
        map_get (pathOf (take m l)) (files fs) = Some r ->
        type (deref fs r) = directory).

Lemma take_snoc n k :
  l !! n = Some k -> take (S n) l = take n l ++ [k].
Proof. intros Hk. by apply take_S_r. Qed.

Lemma ensure_step n fs :
  S n < length l -> upTo n fs ->
  exists fs', ensure (catSegs (take (S n) l)) fs = Returns tt fs'
    /\ upTo (S n) fs'
    /\ (forall q, map_get q (files fs) = None ->
          q <> catSegs (take (S n) l) -> map_get q (files fs') = None).
Proof using Hl Hvalid.
  intros Hn (Hwf & Hdone & Hway).
  destruct (lookup_lt_is_Some_2 l n) as [k Hk]; [lia|].
  pose proof (take_snoc n k Hk) as Etake.
  assert (Hpre : Forall okSeg (take n l)) by by apply Forall_take.
  assert (Hokk : okSeg k).
  { rewrite Forall_forall in Hl. apply Hl. by eapply list_elem_of_lookup_2. }
  assert (Hall : Forall okSeg (take (S n) l)) by by apply Forall_take.
  assert (Hne : take (S n) l <> []) by (rewrite Etake; by destruct (take n l)).
  assert (Hv : pathViolation (catSegs (take (S n) l)) = None)
    by (apply Hvalid; lia).
  unfold ensure. rewrite bind_exists, existsIn_canonical by done.
  unfold map_has.
  destruct (map_get (catSegs (take (S n) l)) (files fs)) as [r|] eqn:Hhere.
  - cbn [negb]. exists fs. split; [done|]. split; [|done].
    split; [done|]. split; [|done]. intros m Hm Hml.
    destruct (decide (m = S n)) as [->|Hne'].
    + exists r. rewrite pathOf_catSegs by done. split; [done|].
      apply (Hway (S n)); [done|]. by rewrite pathOf_catSegs.
    + apply Hdone; lia.
  - cbn [negb].
    destruct (Hdone n) as (parent & Hparent & Hdir); [lia..|].
    rewrite Etake in Hv, Hhere |- *.
    rewrite (bind_Returns _ _ _ _ _
               (createDirectory_creates fs (take n l) k parent Hwf Hpre Hokk
                  Hv Hhere Hparent Hdir)).
    rewrite ret_eq. eexists. split; [reflexivity|].
    assert (Ejoin : joinPath (pathOf (take n l)) k = pathOf (take n l ++ [k])).
    { by apply joinPath_pathOf. }
    assert (Ecat : pathOf (take n l ++ [k]) = catSegs (take n l ++ [k])).
    { apply pathOf_catSegs. by destruct (take n l). }
    rewrite <- Ecat, <- Ejoin in Hhere.
    set (fs' := attached fs parent _ k _).
    assert (Hwf' : WF fs').
    { by apply (attach_WF fs parent (pathOf (take n l)) k). }
    assert (Hidx : forall q, map_get q (files fs')
              = if decide (joinPath (pathOf (take n l)) k = q)
                then Some (length (store fs)) else map_get q (files fs)).
    { intros q. by apply (attach_index fs parent (pathOf (take n l)) k). }
    assert (Hnew : deref fs' (length (store fs)) = dirNode (pathOf (take n l)) k).
    { by apply (attach_deref_new fs parent (pathOf (take n l)) k). }
    assert (Hold : forall q r, map_get q (files fs) = Some r ->
              map_get q (files fs') = Some r
              /\ type (deref fs' r) = type (deref fs r)).
    { intros q r Hq. split.
      - by apply (attach_index_old fs parent (pathOf (take n l)) k).
      - destruct (wf_entry _ Hwf _ _ Hq) as (Hlt & _).
        by destruct (attach_fields fs parent (pathOf (take n l)) k
                       (dirNode (pathOf (take n l)) k) Hwf Hparent r Hlt)
          as (? & _). }
    split; [split; [done|split]|].
    + intros m Hm Hml. destruct (decide (m = S n)) as [->|Hne'].
      * exists (length (store fs)). rewrite Etake, <- Ejoin, Hidx.
        rewrite decide_True by done. by rewrite Hnew.
      * destruct (Hdone m) as (r & Hr & Hty); [lia..|].
        exists r. destruct (Hold _ _ Hr) as [-> ->]. done.
    + intros m r Hml. rewrite Hidx. case_decide as E.
      * intros [= <-]. by rewrite Hnew.
      * intros Hr. destruct (Hold _ _ Hr) as [_ ->]. by apply (Hway m).
    + intros q Hq Hqne. rewrite Hidx, decide_False; [done|].
      rewrite Ejoin, Ecat. by intros <-.
Qed.

Lemma ensure_loop b : forall a fs,
  S a + b = length l -> upTo a fs ->
  exists fs',
    forEach (List.map (fun n => catSegs (take n l)) (seq (S a) b)) ensure fs
    = Returns tt fs'
    /\ upTo (length l - 1) fs'
    /\ (map_get (catSegs l) (files fs) = None ->
        map_get (catSegs l) (files fs') = None).
Proof using Hl Hvalid.
  induction b as [|b IH]; intros a fs Hab Hup.
  - exists fs. split; [done|]. split; [|done].
    by replace (length l - 1) with a by lia.
  - cbn [seq List.map]. rewrite forEach_cons.
    destruct (ensure_step a fs) as (fs1 & Hrun & Hup1 & Hfresh); [lia|done|].
    rewrite (bind_Returns _ _ _ _ _ Hrun).
    destruct (IH (S a) fs1) as (fs' & Hloop & Hup' & Hfree'); [lia|done|].
    exists fs'. split; [done|]. split; [done|].
    intros Hfree. apply Hfree', Hfresh; [done|].
    intros E. apply catSegs_inj in E; [|done|by apply Forall_take].
    apply (f_equal length) in E. rewrite length_take in E. lia.
Qed.

End Ancestors.

(** ** [createFile] *)

Lemma ensureParentDirectories_canonical l fs :
  Forall okSeg l -> l <> [] ->
  ensureParentDirectories (catSegs l) fs
  = forEach (List.map (fun n => catSegs (take n l)) (seq 1 (length l - 1)))
      ensure fs.
Proof.
  intros Hl Hne. unfold ensureParentDirectories, createDirectoryPath.
  fold (segmentsOf (catSegs l)). rewrite segmentsOf_catSegs by done.
  rewrite directoryPrefixes_seq.
  rewrite (List.map_ext _ (fun n => catSegs (take n l)))
    by (intros n; apply app_nil_l).
  reflexivity.
Qed.

(** X14.  [createFile] creates the missing ancestors: in a file system
    that satisfies the invariant of the data model, for valid arguments
    and a path that normalizes without a trailing slash, is not taken and
    has no file among its ancestors, [createFile] returns the new node;
    afterwards every ancestor is a directory of the index, the file is
    indexed with its content, and the invariant holds. *)
Theorem createFile_vivifies (p c : string) (l : list string)
    (fs : VirtualFileSystem) :
  WF fs -> pathViolation p = None -> contentViolation c = None ->
  Forall okSeg l -> l <> [] -> normalizePath p = catSegs l ->
  map_get (catSegs l) (files fs) = None ->
  (forall m r, m < length l ->
     map_get (pathOf (take m l)) (files fs) = Some r ->
     type (deref fs r) = directory) ->
  exists f fs',
    createFile p c fs = Returns (Some f) fs'
    /\ WF fs'
    /\ (forall m, m < length l ->
          exists r, map_get (pathOf (take m l)) (files fs') = Some r
                    /\ type (deref fs' r) = directory)
    /\ map_get (catSegs l) (files fs') = Some f
    /\ type (deref fs' f) = file
    /\ content (deref fs' f) = Some c.
Proof.
  intros Hwf Hp Hc Hl Hne Hnorm Hfree Hway.
  assert (Hvalid : forall n, 0 < n < length l ->
            pathViolation (catSegs (take n l)) = None).
  { intros n Hn. by apply (ancestor_valid p). }
  assert (Hup0 : upTo l 0 fs).
  { split; [done|]. split; [|done]. intros m Hm _.
    assert (m = 0) as -> by lia. exists (root fs).
    split; [apply (wf_root _ Hwf)|apply (wf_root_dir _ Hwf)]. }
  destruct (ensure_loop l Hl Hvalid (length l - 1) 0 fs) as
    (fs1 & Hloop & (Hwf1 & Hdirs & Hway1) & Hfree1); [|done|].
  { destruct l; [done|]. cbn [length]. lia. }
  specialize (Hfree1 Hfree).
  destruct (exists_last Hne) as (l0 & k & El).
  assert (Hl0 : Forall okSeg l0 /\ okSeg k).
  { rewrite El in Hl. by apply Forall_app in Hl as [? [? _]%Forall_cons]. }
  destruct Hl0 as [Hl0 Hk].
  assert (Etake : take (length l - 1) l = l0).
  { rewrite El, List.length_app. cbn [length].
    replace (length l0 + 1 - 1) with (length l0) by lia.
    by rewrite take_app_length. }
  destruct (Hdirs (length l - 1)) as (parent & Hparent & Hdir); [lia| |].
  { destruct l; [done|]. cbn [length]. lia. }
  rewrite Etake in Hparent.
  assert (Hrun : createFile p c fs
            = Returns (Some (length (store fs1)))
                (attached fs1 parent (joinPath (pathOf l0) k) k
                   (mkNode file k (joinPath (pathOf l0) k) (Some c) None))).
  { unfold createFile, validatePath, validateContent.
    rewrite Hp, Hc, !bind_ret, bind_get, Hnorm. unfold map_has.
    rewrite Hfree.
    rewrite <- ensureParentDirectories_canonical in Hloop by done.
    rewrite (bind_Returns _ _ _ _ _ Hloop).
    vfs_steps. rewrite El.
    rewrite getParentPath_snoc, getFileName_snoc by done.
    rewrite Hparent. vfs_steps.
    rewrite decide_True by done. vfs_steps.
    destruct (wf_entry _ Hwf1 _ _ Hparent) as (Hplt & _).
    destruct (wf_dir _ Hwf1 _ _ Hparent Hdir) as (cs & Hcs & _).
    unfold childrenSet. vfs_steps.
    assert (Hread : forall nd fl,
      deref (mkVFS (store fs1 ++ [nd]) fl (root fs1)) parent
      = deref fs1 parent).
    { intros nd fl. apply deref_lookup. cbn. rewrite lookup_app_l by done.
      by apply deref_lt. }
    rewrite Hread, Hcs. vfs_steps.
    assert (Ejoin : catSegs (l0 ++ [k]) = joinPath (pathOf l0) k).
    { rewrite joinPath_pathOf by done. by destruct l0. }
    unfold attached, withChild. by rewrite Hcs, Ejoin. }
  eexists _, _. split; [exact Hrun|].
  assert (Ejoin : catSegs l = joinPath (pathOf l0) k).
  { rewrite El, joinPath_pathOf by done. by destruct l0. }
  rewrite Ejoin in Hfree1 |- *.
  set (node := mkNode file k (joinPath (pathOf l0) k) (Some c) None) in *.
  set (fs' := attached fs1 parent _ k node) in *.
  assert (Hnew : deref fs' (length (store fs1)) = node).
  { by apply (attach_deref_new fs1 parent (pathOf l0) k). }
  split; [|split; [|split; [|by rewrite Hnew]]].
  - apply (attach_WF fs1 parent (pathOf l0) k node); try done.
  - intros m Hm. destruct (Hdirs m) as (r & Hr & Hty); [lia|done|].
    exists r. split.
    + by apply (attach_index_old fs1 parent (pathOf l0) k).
    + destruct (wf_entry _ Hwf1 _ _ Hr) as (Hlt & _).
      destruct (attach_fields fs1 parent (pathOf l0) k node Hwf1 Hparent
                  r Hlt) as (Ety & _).
      unfold fs'. by rewrite Ety.
  - unfold fs'. rewrite attach_index. by rewrite decide_True.
Qed.

Lemma createFile_vivifies_witness :
  exists f fs',
    createFile "src/components//Button.jsx" "x" VFS.new = Returns (Some f) fs'
    /\ WF fs'
    /\ (forall m, m < 3 ->
          exists r, map_get (pathOf (take m ["src"; "components"; "Button.jsx"]))
                      (files fs') = Some r
                    /\ type (deref fs' r) = directory)
    /\ map_get "/src/components/Button.jsx" (files fs') = Some f
    /\ type (deref fs' f) = file
    /\ content (deref fs' f) = Some "x".
Proof.
  apply (createFile_vivifies "src/components//Button.jsx" "x"
           ["src"; "components"; "Button.jsx"] VFS.new WF_new eq_refl eq_refl
           ltac:(repeat constructor; done) ltac:(done) eq_refl eq_refl).
  intros m r Hm Hget. cbn [length] in Hm.
  destruct m as [|[|[|m]]]; [..|lia]; vm_compute in Hget;
    [by injection Hget as <-|done..].
Defined.

End Vivify.
From Stdlib Require Import ZArith.

(** * The text-editor commands of the file system

    [viewFile], [createFileWithParents], [replaceInFile] and
    [insertInFile] of [VirtualFileSystem].  A JavaScript number that
    counts lines is embedded as an integer of [Z]. *)

Module Tools.
Import JS PathUtils VFS.

Import Pipeline (Q, nl).

(** The line feed as a code unit, and the tabulator. *)
Definition nlc : ascii := "010"%char.
Definition tab : string := String "009"%char EmptyString.

(** An integer in a template literal: its decimal digits, behind a minus
    sign when it is negative. *)
Definition showZ (z : Z) : string := NilZero.string_of_int (Z.to_int z).

(** [s.includes(t)] *)
Fixpoint includes (s t : string) : bool :=
  String.prefix t s ||
  match s with
  | EmptyString => false
  | String _ s' => includes s' t
  end.

(** [s.slice(n)] for [n] from zero to the length of [s]. *)
Fixpoint dropString (n : nat) (s : string) : string :=
  match n, s with
  | S n', String _ s' => dropString n' s'
  | _, _ => s
  end.

(** The leftmost occurrence of [sep] in [s]: what is before it and what
    is after it. *)
Fixpoint find (sep s : string) : option (string * string) :=
  if String.prefix sep s then Some (EmptyString, dropString (String.length sep) s)
  else
    match s with
    | EmptyString => None
    | String c s' =>
        match find sep s' with
        | Some (before, after) => Some (String c before, after)
        | None => None
        end
    end.

(** [s.split(sep)] for a separator that is not empty: the pieces between
    the successive occurrences of [sep], each search resuming where the
    last occurrence ended. *)
Fixpoint splitRounds (rounds : nat) (sep s : string) : list string :=
  match rounds with
  | 0 => [s]
  | S rounds =>
      match find sep s with
      | Some (before, after) => before :: splitRounds rounds sep after
      | None => [s]
      end
  end.

(** [s.split(sep)]; with the empty separator, the code units of [s]. *)
Definition splitOn (sep s : string) : list string :=
  if String.eqb sep EmptyString
  then List.map (fun c => String c EmptyString) (list_ascii_of_string s)
  else splitRounds (S (String.length s)) sep s.

(** [lines.map((line, index) => `${start + index}\t${line}`)] *)
Definition numberLines (start : Z) (lines : list string) : list string :=
  imap (fun index line => showZ (start + Z.of_nat index) +:+ tab +:+ line)
    lines.

(** [l.slice(b, e)]: an index below zero counts from the end. *)
Definition sliceIndex (len i : Z) : Z :=
  if (i <? 0)%Z then Z.max (len + i) 0 else Z.min i len.

Definition slice {A} (b e : Z) (l : list A) : list A :=
  let len := Z.of_nat (length l) in
  let k := sliceIndex len b in
  let final := sliceIndex len e in
  take (Z.to_nat (final - k)) (drop (Z.to_nat k) l).

(** [lines.splice(i, 0, text)] for [i] from zero to the length. *)
Definition spliceIn {A} (i : nat) (x : A) (l : list A) : list A :=
  take i l ++ [x] ++ drop i l.

Section Locale.

(** [a.localeCompare(b)]: below zero, zero or above, by the collation of
    the host. *)
Variable localeCompare : string -> string -> Z.

(** [l.sort((a, b) => a.name.localeCompare(b.name))]; the sort of an
    array is stable. *)
Fixpoint insertByName (x : FileNode) (l : list FileNode) : list FileNode :=
  match l with
  | [] => [x]
  | y :: l' =>
      if (localeCompare (name x) (name y) <=? 0)%Z then x :: l
      else y :: insertByName x l'
  end.

Definition sortByName (l : list FileNode) : list FileNode :=
  foldr insertByName [] l.

Definition childLine (child : FileNode) : string :=
  (if decide (type child = directory) then "[DIR]" else "[FILE]")
  +:+ " " +:+ name child.

Definition viewFile (path : string) (viewRange : option (Z * Z)) : M string :=
  node <- getNode path ;;
  match node with
  | None => ret ("File not found: " +:+ path)
  | Some f =>
      n <- read f ;;
      if decide (type n = directory) then
        children <- listDirectory path ;;
        match children with
        | None | Some [] => ret "(empty directory)"
        | Some cs =>
            fs <- get ;;
            ret (join nl (List.map childLine
                            (sortByName (List.map (deref fs) cs))))
        end
      else
        let content := orEmpty (content n) in
        match viewRange with
        | Some (start, end_) =>
            let lines := split nlc content in
            let startLine := Z.max 1 start in
            let endLine :=
              if (end_ =? -1)%Z then Z.of_nat (length lines)
              else Z.min (Z.of_nat (length lines)) end_ in
            let viewedLines := slice (startLine - 1) endLine lines in
            ret (join nl (numberLines startLine viewedLines))
        | None =>
            let lines := split nlc content in
            let numbered := join nl (numberLines 1 lines) in
            ret (if String.eqb numbered EmptyString then "(empty file)"
                 else numbered)
        end
  end.

End Locale.

(** The loop of [createFileWithParents]: [currentPath] grows by one part
    per round, the last part left out. *)
Fixpoint createParents (currentPath : string) (parts : list string)
  : M unit :=
  match parts with
  | [] => ret tt
  | [_] => ret tt
  | part :: rest =>
      let currentPath := currentPath +:+ "/" +:+ part in
      present <- exists_ currentPath ;;
      (if negb present then createDirectory currentPath ;;; ret tt
       else ret tt) ;;;
      createParents currentPath rest
  end.

Definition createFileWithParents (path content : string) : M string :=
  present <- exists_ path ;;
  if present then ret ("Error: File already exists: " +:+ path)
  else
    let parts := filterBoolean (split "/" path) in
    createParents EmptyString parts ;;;
    createFile path content ;;;
    ret ("File created: " +:+ path).

(** [new RegExp(oldStr.replace(/[.*+?^${}()|[\]\\]/g, "\\$&"), "g")]:
    every code unit of [oldStr] that the pattern syntax reads as an
    operator is escaped, so the pattern matches [oldStr] and nothing
    else. *)
Definition literalPattern (oldStr : string) : Regex.regex := Regex.lit oldStr.

Definition replaceInFile (path oldStr newStr : string) : M string :=
  node <- getNode path ;;
  match node with
  | None => ret ("Error: File not found: " +:+ path)
  | Some f =>
      n <- read f ;;
      if decide (type n = file) then
        c <- readFile path ;;
        let content := orEmpty c in
        if String.eqb oldStr EmptyString || negb (includes content oldStr)
        then ret ("Error: String not found in file: " +:+ Q +:+ oldStr +:+ Q)
        else
          let occurrences :=
            length (Regex.execAll (literalPattern oldStr) content) in
          let updatedContent := join newStr (splitOn oldStr content) in
          updateFile path updatedContent ;;;
          ret ("Replaced " +:+ showZ (Z.of_nat occurrences)
               +:+ " occurrence(s) of the string in " +:+ path)
      else ret ("Error: Cannot edit a directory: " +:+ path)
  end.

(** A line number in a template literal; an argument left out is
    [undefined]. *)
Definition showLine (insertLine : option Z) : string :=
  match insertLine with
  | Some i => showZ i
  | None => "undefined"
  end.

Definition insertInFile (path : string) (insertLine : option Z)
  (text : string) : M string :=
  node <- getNode path ;;
  match node with
  | None => ret ("Error: File not found: " +:+ path)
  | Some f =>
      n <- read f ;;
      if decide (type n = file) then
        c <- readFile path ;;
        let content := orEmpty c in
        let lines := split nlc content in
        let invalid :=
          "Error: Invalid line number: " +:+ showLine insertLine
          +:+ ". File has " +:+ showZ (Z.of_nat (length lines)) +:+ " lines." in
        match insertLine with
        | None => ret invalid
        | Some i =>
            if (i <? 0)%Z || (Z.of_nat (length lines) <? i)%Z then ret invalid
            else
              let lines := spliceIn (Z.to_nat i) text lines in
              let updatedContent := join nl lines in
              updateFile path updatedContent ;;;
              ret ("Text inserted at line " +:+ showZ i +:+ " in " +:+ path)
        end
      else ret ("Error: Cannot edit a directory: " +:+ path)
  end.

End Tools.

(** * What the text-editor commands do *)

Module ToolFacts.
Import JS PathUtils VFS Tools StringFacts MapFacts Segments VFSFacts
  RenameFacts VFSOps Invariant HtmlFacts.
Import Pipeline (Q, nl).

(** ** Lines: [split] and [join] on one separator *)

Definition free (c : ascii) (k : string) : Prop := includesChar c k = false.

Lemma split_free c k : free c k -> split c k = [k].
Proof.
  unfold free. induction k as [|d k IH]; [done|]. cbn.
  intros [Hd Hk]%orb_false_iff. by rewrite Hd, (IH Hk).
Qed.

Lemma split_app_sep c x y :
  split c (x +:+ String c y) = split c x ++ split c y.
Proof.
  induction x as [|d x IH].
  - rewrite app_nil_l. cbn [split app]. by rewrite Ascii.eqb_refl.
  - rewrite app_cons. cbn [split]. rewrite IH.
    destruct (Ascii.eqb d c); [done|].
    destruct (split c x) as [|h t] eqn:E; [by apply split_nonempty in E|].
    done.
Qed.

Lemma split_all_free c s : Forall (free c) (split c s).
Proof.
  induction s as [|d s IH]; cbn [split].
  { by apply Forall_singleton. }
  destruct (Ascii.eqb d c) eqn:Hd.
  - by apply Forall_cons.
  - destruct (split c s) as [|h t].
    { apply Forall_singleton. unfold free. cbn. by rewrite Hd. }
    apply Forall_cons in IH as [Hh Ht]. apply Forall_cons. split; [|done].
    unfold free in *. cbn. by rewrite Hd, Hh.
Qed.

Lemma join_cons_sep sep k l :
  l <> [] -> join sep (k :: l) = k +:+ sep +:+ join sep l.
Proof. by destruct l. Qed.

Lemma join_split_sep c s : join (String c "") (split c s) = s.
Proof.
  induction s as [|d s IH]; [done|]. cbn [split].
  pose proof (split_nonempty c s) as Hne.
  destruct (Ascii.eqb_spec d c) as [->|Hc].
  - rewrite join_cons_sep by done. by rewrite IH.
  - destruct (split c s) as [|h t] eqn:E; [done|].
    destruct t as [|h' t].
    + cbn [join] in *. by rewrite IH.
    + rewrite join_cons_sep in * by done. by rewrite app_cons, IH.
Qed.

Lemma split_join c l :
  l <> [] -> split c (join (String c "") l) = concat (List.map (split c) l).
Proof.
  induction l as [|k l IH]; [done|]. intros _.
  destruct l as [|k' l].
  - cbn. by rewrite List.app_nil_r.
  - rewrite join_cons_sep by done.
    change (String c "" +:+ join (String c "") (k' :: l))
      with (String c (join (String c "") (k' :: l))).
    rewrite split_app_sep, IH by done. done.
Qed.

Lemma concat_split_free c l :
  Forall (free c) l -> concat (List.map (split c) l) = l.
Proof.
  induction 1 as [|k l Hk _ IH]; [done|].
  cbn. by rewrite (split_free _ _ Hk), IH.
Qed.

(** The length of a joined text: the pieces and the separators between
    them. *)
Definition sumLengths (l : list string) : nat :=
  foldr (fun k n => String.length k + n) 0 l.

Lemma sumLengths_app l1 l2 :
  sumLengths (l1 ++ l2) = sumLengths l1 + sumLengths l2.
Proof.
  induction l1 as [|k l1 IH]; [done|].
  change (String.length k + sumLengths (l1 ++ l2)
          = String.length k + sumLengths l1 + sumLengths l2).
  rewrite IH. lia.
Qed.

Lemma length_join sep l :
  String.length (join sep l)
  = sumLengths l + String.length sep * (length l - 1).
Proof.
  induction l as [|k l IH]; [cbn; lia|].
  destruct l as [|k' l].
  - cbn. lia.
  - rewrite join_cons_sep by done. rewrite !length_app, IH.
    change (sumLengths (k :: k' :: l))
      with (String.length k + sumLengths (k' :: l)).
    cbn [length]. lia.
Qed.

(** ** Occurrences of a string: [find], [split] and the pattern *)

Lemma prefix_dropString sep s :
  String.prefix sep s = true -> s = sep +:+ dropString (String.length sep) s.
Proof.
  revert s. induction sep as [|a sep IH]; intros s; [done|].
  destruct s as [|b s]; [done|]. cbn.
  destruct (ascii_dec a b) as [->|]; [|done].
  intros H. rewrite app_cons. f_equal. by apply IH.
Qed.

Lemma find_Some sep s a b : find sep s = Some (a, b) -> s = a +:+ sep +:+ b.
Proof.
  revert a. induction s as [|c s IH]; intros a; cbn [find].
  - destruct (String.prefix sep "") eqn:Hp; [|done].
    intros [= <- <-]. rewrite app_nil_l. by apply prefix_dropString.
  - destruct (String.prefix sep (String c s)) eqn:Hp.
    + intros [= <- <-]. rewrite app_nil_l. by apply prefix_dropString.
    + destruct (find sep s) as [[a' b']|] eqn:E; [|done].
      intros [= <- <-]. rewrite app_cons. f_equal. by apply IH.
Qed.

Lemma find_includes sep s : is_Some (find sep s) <-> includes s sep = true.
Proof.
  induction s as [|c s IH]; cbn [find includes].
  - destruct (String.prefix sep ""); cbn; [by split|].
    split; [by intros [? [=]]|done].
  - destruct (String.prefix sep (String c s)); cbn; [by split|].
    rewrite <- IH. destruct (find sep s) as [[a b]|]; [by split|].
    split; by intros [? [=]].
Qed.

Lemma splitRounds_nonempty n sep s : splitRounds n sep s <> [].
Proof. destruct n; cbn; [done|]. by destruct (find sep s) as [[? ?]|]. Qed.

(** The pieces, joined by the separator, are the text. *)
Lemma join_splitRounds n sep s : join sep (splitRounds n sep s) = s.
Proof.
  revert s. induction n as [|n IH]; intros s; [done|]. cbn [splitRounds].
  destruct (find sep s) as [[a b]|] eqn:E; [|done].
  rewrite join_cons_sep by apply splitRounds_nonempty.
  rewrite IH. symmetry. by apply find_Some.
Qed.

Lemma matchK_lit {R} sep prev s cap
    (k : option ascii -> string -> option string -> option R) :
  Regex.matchK (Regex.lit sep) prev s cap k
  = if String.prefix sep s
    then k (Regex.lastChar prev sep) (dropString (String.length sep) s) cap
    else None.
Proof.
  revert prev s. induction sep as [|a sep IH]; intros prev s.
  { by destruct s. }
  cbn [Regex.lit Regex.matchK]. destruct s as [|b s]; [done|].
  cbn [String.prefix String.length dropString Regex.lastChar].
  unfold Regex.isChar. destruct (ascii_dec a b) as [->|Hab].
  - rewrite Ascii.eqb_refl. apply IH.
  - assert (Ascii.eqb b a = false) as -> by (apply Ascii.eqb_neq; congruence).
    done.
Qed.

Lemma search_lit sep prev s :
  Regex.search (Regex.lit sep) prev s
  = match find sep s with
    | Some (a, b) => Some (a, b, None)
    | None => None
    end.
Proof.
  revert prev. induction s as [|c s IH]; intros prev;
    cbn [Regex.search find]; unfold Regex.matchAt; rewrite matchK_lit.
  - by destruct (String.prefix sep "").
  - destruct (String.prefix sep (String c s)); [done|].
    rewrite IH. by destruct (find sep s) as [[a b]|].
Qed.

(** The matches of the pattern are the gaps between the pieces. *)
Lemma length_execAllFrom n sep prev s :
  S (length (Regex.execAllFrom n (Regex.lit sep) prev s))
  = length (splitRounds n sep s).
Proof.
  revert prev s. induction n as [|n IH]; intros prev s; [done|].
  cbn [Regex.execAllFrom splitRounds]. rewrite search_lit.
  destruct (find sep s) as [[a b]|]; [|done].
  cbn [length]. by rewrite IH.
Qed.

(** ** Editing a file that [readFile] finds *)

Lemma readFile_inv p c fs fs' :
  readFile p fs = Returns (Some c) fs' ->
  fs' = fs /\ pathViolation p = None
  /\ exists f, map_get (normalizePath p) (files fs) = Some f
       /\ type (deref fs f) = file
       /\ orEmpty (content (deref fs f)) = c.
Proof.
  unfold readFile. intros Hrun.
  destruct (validatePath p fs) as [[] s0|e s0] eqn:Hv.
  2:{ by rewrite (bind_Throws _ _ _ _ _ Hv) in Hrun. }
  rewrite (bind_Returns _ _ _ _ _ Hv) in Hrun.
  apply validatePath_inv in Hv as [Hp ->].
  rewrite bind_filesGet in Hrun.
  destruct (map_get (normalizePath p) (files fs)) as [f|] eqn:Hf; [|done].
  rewrite bind_read in Hrun.
  destruct (decide (type (deref fs f) = file)) as [Hfile|]; [|done].
  injection Hrun as <- <-. split; [done|]. split; [done|]. by exists f.
Qed.

Lemma pathViolation_valid p : pathViolation p = None -> isValidPath p = true.
Proof. unfold pathViolation. by destruct (isValidPath p). Qed.

Lemma edit_file p c fs :
  allocated fs ->
  readFile p fs = Returns (Some c) fs ->
  exists f,
    getNode p fs = Returns (Some f) fs
    /\ type (deref fs f) = file
    /\ forall c', contentViolation c' = None ->
         exists fs',
           updateFile p c' fs = Returns true fs'
           /\ readFile p fs' = Returns (Some c') fs'
           /\ files fs' = files fs.
Proof.
  intros Halloc Hread.
  destruct (readFile_inv _ _ _ _ Hread) as (_ & Hp & f & Hf & Hfile & Hc).
  exists f. split.
  { unfold getNode. rewrite (pathViolation_valid _ Hp). cbn [negb].
    unfold filesGet. by rewrite Hf. }
  split; [done|]. intros c' Hc'.
  eexists. unfold updateFile, readFile, validatePath, validateContent.
  rewrite Hp, Hc', !bind_ret, !bind_filesGet, Hf, bind_read.
  rewrite decide_True by done. rewrite bind_write, ret_eq.
  split; [reflexivity|]. cbn [files]. rewrite Hf. split; [|done].
  rewrite bind_read, deref_mkVFS, list_lookup_insert_eq
    by by apply Halloc in Hf.
  cbn [type content]. by rewrite decide_True.
Qed.

(** X15.  [insertInFile] on a file that [readFile] finds, with a line
    number from zero to the number of lines and room for the text:
    afterwards the lines of the file are the first [i] lines as before,
    then the lines of the text, then the other lines as before.  The
    index is not touched. *)
Theorem insertInFile_inserts (p text c : string) (i : Z)
    (fs : VirtualFileSystem) :
  allocated fs ->
  readFile p fs = Returns (Some c) fs ->
  (0 <= i <= Z.of_nat (length (split nlc c)))%Z ->
  String.length c + String.length text + 1 <= MAX_FILE_SIZE ->
  exists fs' c',
    insertInFile p (Some i) text fs
    = Returns ("Text inserted at line " +:+ showZ i +:+ " in " +:+ p) fs'
    /\ readFile p fs' = Returns (Some c') fs'
    /\ split nlc c'
       = take (Z.to_nat i) (split nlc c) ++ split nlc text
         ++ drop (Z.to_nat i) (split nlc c)
    /\ files fs' = files fs.
Proof.
  intros Halloc Hread Hi Hroom.
  destruct (edit_file _ _ _ Halloc Hread) as (f & Hnode & Hfile & Hupd).
  set (lines := split nlc c) in *.
  set (c' := join nl (spliceIn (Z.to_nat i) text lines)).
  assert (Hlines : Forall (free nlc) lines) by apply split_all_free.
  assert (Hlen : String.length c' = String.length c + String.length text + 1).
  { assert (Hsum : sumLengths lines
              = sumLengths (take (Z.to_nat i) lines)
                + sumLengths (drop (Z.to_nat i) lines)).
    { by rewrite <- sumLengths_app, take_drop. }
    assert (Hc : String.length c
              = sumLengths lines + String.length nl * (length lines - 1)).
    { rewrite <- length_join. unfold lines, nl. by rewrite join_split_sep. }
    pose proof (split_nonempty nlc c) as Hne. fold lines in Hne.
    assert (0 < length lines) by (destruct lines; [done|cbn; lia]).
    unfold c', spliceIn. rewrite length_join, !sumLengths_app.
    rewrite !List.length_app, length_take, length_drop. cbn [length].
    rewrite Hc, Hsum.
    change (sumLengths [text]) with (String.length text + 0).
    change (String.length nl) with 1. lia. }
  destruct (Hupd c') as (fs' & Hrun & Hread' & Hfiles).
  { unfold contentViolation.
    assert ((MAX_FILE_SIZE <? String.length c')%nat = false) as ->; [|done].
    apply Nat.ltb_ge. lia. }
  exists fs', c'. split; [|split; [done|split; [|done]]].
  - unfold insertInFile. rewrite (bind_Returns _ _ _ _ _ Hnode), bind_read.
    rewrite decide_True by done.
    rewrite (bind_Returns _ _ _ _ _ Hread).
    change (orEmpty (Some c)) with c. fold lines.
    assert ((i <? 0)%Z || (Z.of_nat (length lines) <? i)%Z = false) as ->.
    { apply orb_false_iff. split; apply Z.ltb_ge; lia. }
    fold c'. by rewrite (bind_Returns _ _ _ _ _ Hrun).
  - unfold c', spliceIn, nl. rewrite split_join by by destruct (take _ _).
    rewrite !map_app, !concat_app.
    rewrite (concat_split_free _ (take _ _)) by by apply Forall_take.
    rewrite (concat_split_free _ (drop _ _)) by by apply Forall_drop.
    cbn [List.map concat]. by rewrite List.app_nil_r.
Qed.

Lemma insertInFile_inserts_witness :
  let fs := after (createFile "/a.txt" ("one" +:+ nl +:+ "three") VFS.new) in
  exists fs',
    insertInFile "/a.txt" (Some 1%Z) "two" fs
    = Returns "Text inserted at line 1 in /a.txt" fs'
    /\ readFile "/a.txt" fs'
       = Returns (Some ("one" +:+ nl +:+ "two" +:+ nl +:+ "three")) fs'.
Proof.
  intros fs.
  assert (Halloc : allocated fs).
  { intros p r.
    change (files fs) with ([("/", 0); ("/a.txt", 1)] : list (string * ref)).
    change (length (store fs)) with 2. cbn [map_get].
    repeat case_decide; intros [= <-]; lia. }
  destruct (insertInFile_inserts "/a.txt" "two" ("one" +:+ nl +:+ "three") 1
              fs Halloc eq_refl)
    as (fs' & c' & Hrun & Hread & Hlines & _).
  { change (length (split nlc ("one" +:+ nl +:+ "three"))) with 2. lia. }
  { apply Nat.leb_le. reflexivity. }
  exists fs'. split; [exact Hrun|].
  rewrite Hread. do 2 f_equal.
  rewrite <- (join_split_sep nlc c'), Hlines. reflexivity.
Defined.

(** ** [replaceInFile] *)

Lemma find_shorter sep s a b :
  sep <> "" -> find sep s = Some (a, b) -> String.length b < String.length s.
Proof.
  intros Hsep E. apply find_Some in E. rewrite E, !length_app.
  destruct sep; [done|]. cbn [String.length]. lia.
Qed.

(** The rounds that [splitOn] allows are enough: more of them change
    nothing. *)
Lemma splitRounds_enough sep n : forall m s,
  sep <> "" -> String.length s < n -> String.length s < m ->
  splitRounds n sep s = splitRounds m sep s.
Proof.
  induction n as [|n IH]; intros m s Hsep Hn Hm; [lia|].
  destruct m as [|m]; [lia|]. cbn [splitRounds].
  destruct (find sep s) as [[a b]|] eqn:E; [|done].
  pose proof (find_shorter _ _ _ _ Hsep E). f_equal. apply IH; [done|lia..].
Qed.

Lemma splitOn_rounds sep s :
  sep <> "" -> splitOn sep s = splitRounds (S (String.length s)) sep s.
Proof.
  intros Hsep. unfold splitOn.
  by destruct (String.eqb_spec sep "") as [->|_].
Qed.

Lemma splitOn_found sep s :
  sep <> "" -> includes s sep = true -> 2 <= length (splitOn sep s).
Proof.
  intros Hsep [[a b] E]%find_includes. rewrite splitOn_rounds by done.
  cbn [splitRounds]. rewrite E. cbn [length].
  pose proof (splitRounds_nonempty (String.length s) sep b).
  destruct (splitRounds _ sep b); [done|cbn; lia].
Qed.

(** [updateFile] with a content over the size limit throws, whatever the
    path holds, and leaves the state as it is. *)
Lemma updateFile_too_large p c e fs :
  pathViolation p = None -> contentViolation c = Some e ->
  updateFile p c fs = Throws e fs.
Proof.
  intros Hp Hc. unfold updateFile, validatePath, validateContent.
  by rewrite Hp, Hc, bind_ret, bind_throw.
Qed.

(** X16.  [replaceInFile] on a file that [readFile] finds and that holds
    the string to replace: the content was the pieces joined by the old
    string.  When the same pieces joined by the new string pass the size
    check of [validateContent], they become the content, the number that
    the message reports is the number of occurrences replaced, one less
    than the number of pieces and at least one, and the index is not
    touched.  When they do not pass it, the call throws the error of
    [validateContent], which [updateFile] raises, and the state is as it
    was. *)
Theorem replaceInFile_replaces (p oldStr newStr c : string)
    (fs : VirtualFileSystem) :
  allocated fs ->
  readFile p fs = Returns (Some c) fs ->
  oldStr <> "" -> includes c oldStr = true ->
  let updated := join newStr (splitOn oldStr c) in
  join oldStr (splitOn oldStr c) = c
  /\ (contentViolation updated = None ->
      exists fs' n,
        replaceInFile p oldStr newStr fs
        = Returns ("Replaced " +:+ showZ (Z.of_nat n)
                   +:+ " occurrence(s) of the string in " +:+ p) fs'
        /\ 1 <= n /\ length (splitOn oldStr c) = S n
        /\ readFile p fs' = Returns (Some updated) fs'
        /\ files fs' = files fs)
  /\ (forall e, contentViolation updated = Some e ->
        e = FILE_TOO_LARGE (String.length updated)
        /\ replaceInFile p oldStr newStr fs = Throws e fs).
Proof.
  intros Halloc Hread Hold Hinc updated.
  destruct (edit_file _ _ _ Halloc Hread) as (f & Hnode & Hfile & Hupd).
  pose proof (splitOn_found _ _ Hold Hinc) as Hpieces.
  assert (Hcount : S (length (Regex.execAll (literalPattern oldStr) c))
                   = length (splitOn oldStr c)).
  { rewrite splitOn_rounds by done. apply length_execAllFrom. }
  assert (Hstart :
            replaceInFile p oldStr newStr fs
            = (updateFile p updated ;;;
               ret ("Replaced "
                    +:+ showZ (Z.of_nat
                                 (length (Regex.execAll
                                            (literalPattern oldStr) c)))
                    +:+ " occurrence(s) of the string in " +:+ p)) fs).
  { unfold replaceInFile.
    rewrite (bind_Returns _ _ _ _ _ Hnode), bind_read.
    rewrite decide_True by done.
    rewrite (bind_Returns _ _ _ _ _ Hread).
    change (orEmpty (Some c)) with c. rewrite Hinc.
    destruct (String.eqb_spec oldStr "") as [->|_]; [done|].
    reflexivity. }
  split; [|split].
  - rewrite splitOn_rounds by done. apply join_splitRounds.
  - intros Hroom. destruct (Hupd _ Hroom) as (fs' & Hrun & Hread' & Hfiles).
    exists fs', (length (Regex.execAll (literalPattern oldStr) c)).
    split; [|split; [lia|split; [done|split; done]]].
    by rewrite Hstart, (bind_Returns _ _ _ _ _ Hrun).
  - intros e He. split.
    { unfold contentViolation in He.
      destruct (Nat.ltb MAX_FILE_SIZE (String.length updated)); [|done].
      by injection He as <-. }
    destruct (readFile_inv _ _ _ _ Hread) as (_ & Hp & _).
    rewrite Hstart.
    by rewrite (bind_Throws _ _ _ _ _ (updateFile_too_large _ _ _ _ Hp He)).
Qed.

Lemma replaceInFile_replaces_witness :
  let fs := after (createFile "/a.txt" "a-b-c" VFS.new) in
  exists fs',
    replaceInFile "/a.txt" "-" "+" fs
    = Returns "Replaced 2 occurrence(s) of the string in /a.txt" fs'
    /\ readFile "/a.txt" fs' = Returns (Some "a+b+c") fs'.
Proof.
  intros fs.
  assert (Halloc : allocated fs).
  { intros p r.
    change (files fs) with ([("/", 0); ("/a.txt", 1)] : list (string * ref)).
    change (length (store fs)) with 2. cbn [map_get].
    repeat case_decide; intros [= <-]; lia. }
  destruct (replaceInFile_replaces "/a.txt" "-" "+" "a-b-c" fs Halloc eq_refl)
    as (_ & Hok & _); [done|done|].
  destruct Hok as (fs' & n & Hrun & _ & Hn & Hread & _); [done|].
  exists fs'. injection Hn as <-. split; [exact Hrun|exact Hread].
Defined.

(** ** [viewFile] *)

Lemma free_showZ c z :
  Regex.isDigit c = false -> c <> "-"%char -> free c (showZ z).
Proof.
  intros Hc Hm. unfold free, showZ.
  assert (Hu : forall u, includesChar c (NilZero.string_of_uint u) = false).
  { intros u. unfold NilZero.string_of_uint.
    destruct u; try by apply includesChar_string_of_uint.
    change (Ascii.eqb "0" c || false = false).
    rewrite orb_false_r. apply Ascii.eqb_neq. intros <-. done. }
  destruct z as [|q|q]; cbn [Z.to_int NilZero.string_of_int]; [apply Hu..|].
  cbn [includesChar]. rewrite Hu, orb_false_r. by apply Ascii.eqb_neq.
Qed.

Lemma numberLines_cons start line lines :
  numberLines start (line :: lines)
  = (showZ start +:+ tab +:+ line) :: numberLines (start + 1) lines.
Proof.
  unfold numberLines. rewrite imap_cons. f_equal.
  - by rewrite Z.add_0_r.
  - apply imap_ext. intros i x _. cbn. do 2 f_equal. lia.
Qed.

Lemma numberLines_free start lines :
  Forall (free nlc) lines -> Forall (free nlc) (numberLines start lines).
Proof.
  intros H. revert start. induction H as [|k l Hk _ IH]; intros start.
  { constructor. }
  rewrite numberLines_cons. constructor; [|apply IH].
  unfold free. rewrite !includesChar_app.
  rewrite (free_showZ nlc start) by done. by rewrite Hk.
Qed.

Lemma split_join_free c l :
  l <> [] -> Forall (free c) l -> split c (join (String c "") l) = l.
Proof. intros Hne Hl. by rewrite split_join, concat_split_free. Qed.

Lemma slice_range {A} (a b : Z) (l : list A) :
  (1 <= a <= b)%Z -> (b <= Z.of_nat (length l))%Z ->
  slice (a - 1) b l
  = take (Z.to_nat (b - a + 1)) (drop (Z.to_nat (a - 1)) l).
Proof.
  intros Ha Hb. unfold slice, sliceIndex.
  assert ((a - 1 <? 0)%Z = false) as -> by (apply Z.ltb_ge; lia).
  assert ((b <? 0)%Z = false) as -> by (apply Z.ltb_ge; lia).
  rewrite !Z.min_l by lia. do 2 f_equal. lia.
Qed.

Lemma slice_all {A} (l : list A) : slice 0 (Z.of_nat (length l)) l = l.
Proof.
  unfold slice, sliceIndex.
  assert ((Z.of_nat (length l) <? 0)%Z = false) as ->
    by (apply Z.ltb_ge; lia).
  cbn [Z.ltb Z.compare]. rewrite Z.min_id, Z.min_l by lia.
  rewrite Z.sub_0_r, Nat2Z.id. cbn [Z.to_nat drop]. apply firstn_all.
Qed.

(** X17.  [viewFile] on a file that [readFile] finds: the view has one
    line for every line of the content, the line number from one, a
    tabulator, then the line; so it is never the text [(empty file)],
    and the range from one to minus one gives the same view.  A range
    from [a] to [b] within the file gives the lines [a] to [b], both
    included, under their own numbers.  The state is not touched. *)
Theorem viewFile_numbers_lines (localeCompare : string -> string -> Z)
    (p c : string) (fs : VirtualFileSystem) :
  readFile p fs = Returns (Some c) fs ->
  exists out,
    viewFile localeCompare p None fs = Returns out fs
    /\ viewFile localeCompare p (Some (1, -1)%Z) fs = Returns out fs
    /\ split nlc out = numberLines 1 (split nlc c)
    /\ out <> "(empty file)"
    /\ forall a b, (1 <= a <= b)%Z ->
         (b <= Z.of_nat (length (split nlc c)))%Z ->
         exists part,
           viewFile localeCompare p (Some (a, b)) fs = Returns part fs
           /\ split nlc part
              = numberLines a (take (Z.to_nat (b - a + 1))
                                 (drop (Z.to_nat (a - 1)) (split nlc c))).
Proof.
  intros Hread.
  destruct (readFile_inv _ _ _ _ Hread) as (_ & Hp & f & Hf & Hfile & Hc).
  assert (Hnode : getNode p fs = Returns (Some f) fs).
  { unfold getNode. rewrite (pathViolation_valid _ Hp). cbn [negb].
    unfold filesGet. by rewrite Hf. }
  assert (Hview : forall range,
    viewFile localeCompare p range fs
    = match range with
      | Some (start, end_) =>
          let lines := split nlc c in
          let startLine := Z.max 1 start in
          let endLine :=
            if (end_ =? -1)%Z then Z.of_nat (length lines)
            else Z.min (Z.of_nat (length lines)) end_ in
          Returns (join nl (numberLines startLine
                              (slice (startLine - 1) endLine lines))) fs
      | None =>
          let numbered := join nl (numberLines 1 (split nlc c)) in
          Returns (if String.eqb numbered "" then "(empty file)"
                   else numbered) fs
      end).
  { intros range. unfold viewFile.
    rewrite (bind_Returns _ _ _ _ _ Hnode), bind_read.
    rewrite decide_False by (rewrite Hfile; done). rewrite Hc.
    by destruct range as [[start end_]|]. }
  set (lines := split nlc c) in *.
  assert (Hlines : Forall (free nlc) lines) by apply split_all_free.
  assert (Hne : lines <> []) by apply split_nonempty.
  set (out := join nl (numberLines 1 lines)).
  assert (Hhead : exists rest, out = String "1" rest).
  { unfold out. destruct lines as [|k l]; [done|].
    rewrite numberLines_cons. change (showZ 1) with "1".
    destruct (numberLines (1 + 1) l).
    - cbn [join]. rewrite app_cons. by eexists.
    - rewrite join_cons_sep by done. rewrite app_cons. by eexists. }
  destruct Hhead as (rest & Hout).
  assert (Hnumbered : forall start l,
            l <> [] -> Forall (free nlc) l ->
            split nlc (join nl (numberLines start l)) = numberLines start l).
  { intros start l Hl Hfree. apply split_join_free.
    - destruct l; [done|]. by rewrite numberLines_cons.
    - by apply numberLines_free. }
  exists out. split; [|split; [|split; [|split]]].
  - rewrite (Hview None). cbn zeta. fold out. by rewrite Hout.
  - rewrite (Hview (Some (1, -1)%Z)). cbn zeta.
    change (-1 =? -1)%Z with true. cbn iota.
    change (Z.max 1 1 - 1)%Z with 0%Z. change (Z.max 1 1) with 1%Z.
    by rewrite slice_all.
  - by apply Hnumbered.
  - by rewrite Hout.
  - intros a b Hab Hb. eexists. split.
    + rewrite (Hview (Some (a, b))). cbn zeta.
      assert ((b =? -1)%Z = false) as -> by (apply Z.eqb_neq; lia).
      rewrite Z.max_r, Z.min_r by lia. rewrite slice_range by done.
      reflexivity.
    + apply Hnumbered.
      * intros E. apply (f_equal length) in E.
        rewrite length_take, length_drop in E. cbn [length] in E. lia.
      * by apply Forall_take, Forall_drop.
Qed.

Lemma viewFile_numbers_lines_witness :
  let fs := after (createFile "/a.txt" "" VFS.new) in
  viewFile (fun _ _ => 0%Z) "/a.txt" None fs = Returns ("1" +:+ tab) fs
  /\ split nlc ("1" +:+ tab) = numberLines 1 (split nlc "").
Proof.
  intros fs.
  destruct (viewFile_numbers_lines (fun _ _ => 0%Z) "/a.txt" "" fs eq_refl)
    as (out & Hview & _ & Hsplit & _).
  assert (out = "1" +:+ tab) as ->.
  { rewrite <- (join_split_sep nlc out), Hsplit. reflexivity. }
  by split.
Defined.

End ToolFacts.
(** * [createFileWithParents] and the walk of [createFile] *)

Module Parents.
Import JS PathUtils VFS Tools StringFacts MapFacts Segments VFSFacts
  RenameFacts PathShape VFSOps Invariant Vivify ToolFacts.

(** ** The segments of a path and of its normalized form *)

Definition rawSegments (p : string) : list string :=
  filterBoolean (split "/" p).

Lemma rawSegments_slash p : rawSegments (String "/" p) = rawSegments p.
Proof. unfold rawSegments. cbn [split Ascii.eqb Bool.eqb]. done. Qed.

Lemma rawSegments_trailing s : rawSegments (s +:+ "/") = rawSegments s.
Proof.
  unfold rawSegments.
  change (s +:+ "/") with (s +:+ "/" +:+ "").
  rewrite split_app_slash. unfold filterBoolean.
  rewrite List.filter_app. cbn. by rewrite List.app_nil_r.
Qed.

Lemma endsWith_slash q :
  endsWith q "/" = true -> exists s, q = s +:+ "/".
Proof.
  induction q as [|c q IH]; [done|]. cbn [endsWith].
  intros [E|E]%orb_true_iff.
  - apply String.eqb_eq in E. exists "". by rewrite E.
  - destruct (IH E) as [s ->]. exists (String c s). by rewrite app_cons.
Qed.

Lemma split_head_other c s :
  Ascii.eqb c "/" = false ->
  exists h t, split "/" s = h :: t /\ split "/" (String c s) = String c h :: t.
Proof. apply split_cons_other. Qed.

(** Collapsing the runs of slashes keeps the first piece when the text
    is not behind a slash, and the pieces that are not empty. *)
Lemma collapseFrom_segments s :
  (exists h t t',
      split "/" s = h :: t /\ split "/" (collapseFrom false s) = h :: t'
      /\ filterBoolean t' = filterBoolean t)
  /\ rawSegments (collapseFrom true s) = rawSegments s.
Proof.
  induction s as [|c s [(h & t & t' & Hs & Hc & Ht) Htrue]].
  { split; [by exists "", [], []|done]. }
  cbn [collapseFrom]. destruct (Ascii.eqb c "/") eqn:Ec.
  - apply Ascii.eqb_eq in Ec as ->. split.
    + exists "", (split "/" s), (split "/" (collapseFrom true s)).
      by repeat split.
    + by rewrite rawSegments_slash.
  - assert (Hboth : split "/" (String c s) = String c h :: t
                    /\ split "/" (String c (collapseFrom false s))
                       = String c h :: t').
    { cbn [split]. by rewrite Ec, Hs, Hc. }
    destruct Hboth as [E1 E2]. split.
    + by exists (String c h), t, t'.
    + unfold rawSegments. rewrite E1, E2. unfold filterBoolean in *.
      cbn [List.filter String.eqb negb]. by rewrite Ht.
Qed.

Lemma rawSegments_collapse s :
  rawSegments (collapseSlashes s) = rawSegments s.
Proof.
  destruct (collapseFrom_segments s) as [(h & t & t' & Hs & Hc & Ht) _].
  unfold rawSegments, collapseSlashes. rewrite Hs, Hc.
  unfold filterBoolean in *. cbn [List.filter]. by rewrite Ht.
Qed.

(** The parts that [createFileWithParents] walks are the segments that
    [createDirectoryPath] walks. *)
Lemma rawSegments_normalizePath p : segmentsOf p = rawSegments p.
Proof.
  unfold segmentsOf. fold (rawSegments (normalizePath p)).
  unfold normalizePath. rewrite rawSegments_collapse.
  set (q := if startsWith p "/" then p else "/" +:+ p).
  assert (Hq : rawSegments q = rawSegments p).
  { unfold q. destruct (startsWith p "/"); [done|].
    rewrite slash_app. apply rawSegments_slash. }
  destruct (negb (q =? "/") && endsWith q "/") eqn:E; [|done].
  apply andb_true_iff in E as [_ [s Es]%endsWith_slash].
  rewrite <- Hq, Es.
  change (s +:+ "/") with (s +:+ String "/" ""). rewrite dropLast_snoc.
  symmetry. apply rawSegments_trailing.
Qed.

Lemma segmentsOf_normalizePath p :
  segmentsOf (normalizePath p) = segmentsOf p.
Proof.
  rewrite (rawSegments_normalizePath (normalizePath p)).
  reflexivity.
Qed.

(** A normalized path is its segments, each behind a slash, and at most
    one more slash. *)
Lemma normalized_segments p :
  exists t, normalizePath p = catSegs (segmentsOf p) +:+ t.
Proof.
  destruct (normalizePath_form p) as (l & Hl & [E|[Hne E]]).
  - destruct l as [|k l].
    + exists "/". unfold segmentsOf. rewrite E. done.
    + exists "". rewrite app_nil_r.
      rewrite pathOf_catSegs in E by done.
      rewrite <- segmentsOf_normalizePath, E.
      by rewrite segmentsOf_catSegs.
  - exists "/". unfold segmentsOf. rewrite E.
    change (catSegs l +:+ "/") with (catSegs l +:+ "/" +:+ "").
    rewrite split_app_slash, split_catSegs by by apply okSeg_slashless.
    unfold filterBoolean. rewrite List.filter_app.
    cbn [List.filter String.eqb negb]. rewrite List.app_nil_r.
    fold (filterBoolean l). by rewrite filterBoolean_okSegs.
Qed.

(** The proper ancestors of a path that passes the checks pass them. *)
Lemma ancestors_valid p n :
  pathViolation p = None -> 0 < n < length (segmentsOf p) ->
  pathViolation (catSegs (take n (segmentsOf p))) = None.
Proof.
  intros Hp Hn. pose proof (segmentsOf_ok p) as Hl.
  destruct (normalizePath_valid p Hp) as [Hnul Hlen].
  destruct (normalized_segments p) as [t Hnorm].
  set (l := segmentsOf p) in *.
  rewrite Hnorm in Hnul, Hlen.
  rewrite <- (take_drop n l), catSegs_app in Hnul, Hlen.
  rewrite !includesChar_app in Hnul.
  apply orb_false_elim in Hnul as [[Hnul _]%orb_false_elim _].
  rewrite !length_app in Hlen.
  assert (Hrest : 2 <= String.length (catSegs (drop n l))).
  { pose proof (length_catSegs_ge (drop n l)) as Hge.
    rewrite length_drop in Hge.
    assert (Hd : Forall okSeg (drop n l)) by by apply Forall_drop.
    specialize (Hge Hd). lia. }
  assert (Hpos : 0 < String.length (catSegs (take n l))).
  { pose proof (length_catSegs_ge (take n l)) as Hge.
    rewrite length_take in Hge.
    assert (Ht : Forall okSeg (take n l)) by by apply Forall_take.
    specialize (Hge Ht). lia. }
  unfold pathViolation, isValidPath.
  assert ((0 <? String.length (catSegs (take n l)))%nat = true) as ->
    by by apply Nat.ltb_lt.
  rewrite Hnul. cbn [andb negb].
  assert ((MAX_PATH_LENGTH <? String.length (catSegs (take n l)))%nat = false)
    as -> by (apply Nat.ltb_ge; lia).
  done.
Qed.

(** ** The walk over the ancestors, run twice *)

Lemma forEach_same {A} (l : list A) (body : A -> M unit) fs :
  (forall x, x ∈ l -> body x fs = Returns tt fs) ->
  forEach l body fs = Returns tt fs.
Proof.
  induction l as [|x l IH]; intros H; [done|].
  rewrite forEach_cons, (bind_Returns _ _ _ _ _ (H x ltac:(left))).
  apply IH. intros y Hy. apply H. by right.
Qed.

Section Walk.
Variable l : list string.
Hypothesis Hl : Forall okSeg l.
Hypothesis Hvalid : forall n, 0 < n < length l ->
  pathViolation (catSegs (take n l)) = None.
Variable fs : VirtualFileSystem.
Hypothesis Hwf : WF fs.

Definition ancestors : list string :=
  List.map (fun n => catSegs (take n l)) (seq 1 (length l - 1)).

Lemma ancestors_elem q :
  q ∈ ancestors -> exists n, 0 < n < length l /\ q = catSegs (take n l).
Proof.
  unfold ancestors. intros (n & -> & Hn)%list_elem_of_fmap.
  apply elem_of_seq in Hn. exists n. split; [lia|done].
Qed.

(** Either no file is on the way, or one is. *)
Lemma way_dec n :
  (forall m r, m < n ->
     map_get (pathOf (take m l)) (files fs) = Some r ->
     type (deref fs r) = directory)
  \/ (exists m r, m < n
        /\ map_get (pathOf (take m l)) (files fs) = Some r
        /\ type (deref fs r) <> directory).
Proof.
  induction n as [|n [IH|(m & r & Hm & Hr & Hty)]].
  - left. intros m r Hm. lia.
  - destruct (map_get (pathOf (take n l)) (files fs)) as [r|] eqn:Hr.
    + destruct (decide (type (deref fs r) = directory)) as [Hty|Hty].
      * left. intros m r' Hm Hr'. destruct (decide (m = n)) as [->|].
        -- congruence.
        -- apply (IH m); [lia|done].
      * right. exists n, r. split; [lia|done].
    + left. intros m r' Hm Hr'. destruct (decide (m = n)) as [->|].
      * congruence.
      * apply (IH m); [lia|done].
  - right. exists m, r. split; [lia|done].
Qed.

(** A proper prefix of an indexed path is the path of a directory. *)
Lemma index_prefix_dir pre t c :
  Forall okSeg (pre ++ t) -> t <> [] ->
  map_get (pathOf (pre ++ t)) (files fs) = Some c ->
  exists y, map_get (pathOf pre) (files fs) = Some y
    /\ type (deref fs y) = directory.
Proof using Hwf.
  revert c. induction t as [|k t IH] using rev_ind; intros c Hok Hne Hc.
  { done. }
  rewrite List.app_assoc in Hok, Hc.
  apply Forall_app in Hok as [Hok [Hk _]%Forall_cons].
  destruct (index_parent fs Hwf _ _ _ Hok Hk Hc) as (y & _ & Hy & Hty & _).
  destruct t as [|k' t].
  - rewrite List.app_nil_r in Hy. by exists y.
  - by apply (IH y).
Qed.

Lemma take_take_app m n :
  m <= n -> take n l = take m l ++ drop m (take n l).
Proof.
  intros Hmn. rewrite <- (take_drop m (take n l)) at 1.
  by rewrite take_take, Nat.min_l.
Qed.

(** With a file on the way the walk changes nothing. *)
Lemma blocked_walk j r :
  j < length l ->
  map_get (pathOf (take j l)) (files fs) = Some r ->
  type (deref fs r) <> directory ->
  forall n, 0 < n < length l ->
    ensure (catSegs (take n l)) fs = Returns tt fs.
Proof using Hl Hvalid Hwf.
  intros Hj Hr Hty n Hn.
  assert (Hgone : forall m, j < m <= length l ->
            map_get (pathOf (take m l)) (files fs) = None).
  { intros m Hm.
    destruct (map_get (pathOf (take m l)) (files fs)) as [c|] eqn:Hc; [|done].
    rewrite (take_take_app j m) in Hc by lia.
    destruct (index_prefix_dir (take j l) (drop j (take m l)) c)
      as (y & Hy & Hdir); [| |done|].
    - rewrite <- take_take_app by lia. by apply Forall_take.
    - intros E. apply (f_equal length) in E.
      rewrite length_drop, length_take in E. cbn in E. lia.
    - congruence. }
  assert (Hne : take n l <> []).
  { intros E. apply (f_equal length) in E. rewrite length_take in E.
    cbn in E. lia. }
  assert (Hok : Forall okSeg (take n l)) by by apply Forall_take.
  unfold ensure. rewrite bind_exists, existsIn_canonical
    by (done || apply Hvalid; lia).
  unfold map_has.
  destruct (decide (n <= j)) as [Hnj|Hnj].
  - destruct (index_prefix fs Hwf (take n l) (drop n (take j l)) r)
      as (y & Hy).
    + rewrite <- take_take_app by done. by apply Forall_take.
    + by rewrite <- take_take_app.
    + rewrite pathOf_catSegs in Hy by done. by rewrite Hy.
  - pose proof (Hgone n ltac:(lia)) as Hhere.
    rewrite pathOf_catSegs in Hhere by done. rewrite Hhere. cbn [negb].
    destruct n as [|n]; [lia|].
    destruct (lookup_lt_is_Some_2 l n) as [k Hk]; [lia|].
    assert (Etake : take (S n) l = take n l ++ [k]) by by apply take_S_r.
    assert (Hpre : Forall okSeg (take n l)) by by apply Forall_take.
    assert (Hokk : okSeg k).
    { rewrite Forall_forall in Hl. apply Hl. by eapply list_elem_of_lookup_2. }
    unfold createDirectory, validatePath.
    rewrite Hvalid by lia. vfs_steps.
    rewrite normalizePath_catSegs by done. unfold map_has.
    rewrite Hhere. vfs_steps.
    rewrite Etake, getParentPath_snoc by done.
    destruct (decide (n = j)) as [->|Hnj'].
    + rewrite Hr. vfs_steps. by rewrite decide_False.
    + by rewrite Hgone by lia.
Qed.

(** Once every ancestor is a directory the walk changes nothing. *)
Lemma settled_walk n :
  upTo l (length l - 1) fs -> 0 < n < length l ->
  ensure (catSegs (take n l)) fs = Returns tt fs.
Proof using Hl Hvalid.
  intros (_ & Hdirs & _) Hn.
  assert (Hne : take n l <> []).
  { intros E. apply (f_equal length) in E. rewrite length_take in E.
    cbn in E. lia. }
  assert (Hok : Forall okSeg (take n l)) by by apply Forall_take.
  unfold ensure. rewrite bind_exists, existsIn_canonical
    by (done || apply Hvalid; lia).
  unfold map_has.
  destruct (Hdirs n) as (r & Hr & _); [lia..|].
  rewrite pathOf_catSegs in Hr by done. by rewrite Hr.
Qed.

End Walk.

(** The walk returns, and a second walk changes nothing. *)
Lemma walk_twice l fs :
  Forall okSeg l ->
  (forall n, 0 < n < length l -> pathViolation (catSegs (take n l)) = None) ->
  WF fs ->
  exists fs1,
    forEach (ancestors l) ensure fs = Returns tt fs1
    /\ forEach (ancestors l) ensure fs1 = Returns tt fs1.
Proof.
  intros Hl Hvalid Hwf.
  destruct (decide (l = [])) as [->|Hne].
  { by exists fs. }
  destruct (way_dec l fs (length l)) as [Hway|(j & r & Hj & Hr & Hty)].
  - destruct (ensure_loop l Hl Hvalid (length l - 1) 0 fs)
      as (fs1 & Hloop & Hup & _).
    + destruct l; [done|cbn [length]; lia].
    + split; [done|]. split; [|done]. intros m Hm _.
      assert (m = 0) as -> by lia. exists (root fs).
      split; [apply (wf_root _ Hwf)|apply (wf_root_dir _ Hwf)].
    + exists fs1. split; [done|]. apply forEach_same.
      intros q (n & Hn & ->)%ancestors_elem. by apply settled_walk.
  - exists fs.
    assert (Hsame : forEach (ancestors l) ensure fs = Returns tt fs).
    { apply forEach_same. intros q (n & Hn & ->)%ancestors_elem.
      by apply (blocked_walk l Hl Hvalid fs Hwf j r). }
    done.
Qed.

(** ** [createFileWithParents] *)

Lemma bind_ext {A B} (m : M A) (k k' : A -> M B) fs :
  (forall a s, k a s = k' a s) -> bind m k fs = bind m k' fs.
Proof. intros H. unfold bind. destruct (m fs); [apply H|done]. Qed.

Lemma createParents_forEach parts : forall cur fs,
  createParents cur parts fs = forEach (directoryPrefixes cur parts) ensure fs.
Proof.
  induction parts as [|part rest IH]; intros cur fs; [done|].
  destruct rest as [|part' rest]; [done|].
  change (createParents cur (part :: part' :: rest) fs)
    with (bind (exists_ (cur +:+ "/" +:+ part)) (fun present =>
            bind (if negb present
                  then createDirectory (cur +:+ "/" +:+ part) ;;; ret tt
                  else ret tt)
              (fun _ => createParents (cur +:+ "/" +:+ part) (part' :: rest)))
            fs).
  change (directoryPrefixes cur (part :: part' :: rest))
    with ((cur +:+ "/" +:+ part)
          :: directoryPrefixes (cur +:+ "/" +:+ part) (part' :: rest)).
  rewrite forEach_cons. unfold ensure at 1. rewrite bind_bind.
  rewrite !bind_exists. apply bind_ext. intros _ s. apply IH.
Qed.

Lemma directoryPrefixes_ancestors l : directoryPrefixes "" l = ancestors l.
Proof.
  rewrite directoryPrefixes_seq. unfold ancestors.
  apply List.map_ext. intros n. apply app_nil_l.
Qed.

Lemma ensureParentDirectories_walk p fs :
  ensureParentDirectories (normalizePath p) fs
  = forEach (ancestors (segmentsOf p)) ensure fs.
Proof.
  unfold ensureParentDirectories, createDirectoryPath.
  fold (segmentsOf (normalizePath p)).
  by rewrite segmentsOf_normalizePath, directoryPrefixes_ancestors.
Qed.

(** What [createFile] does once the ancestors are there. *)
Definition place (p c : string) : M (option ref) :=
  let normalized := normalizePath p in
  parent <- getParentNode normalized ;;
  match parent with
  | None => ret None
  | Some parent =>
      pn <- read parent ;;
      if decide (type pn = directory) then
        let fileName := getFileName normalized in
        f <- alloc (mkNode file fileName normalized (Some c) None) ;;
        filesSet normalized f ;;;
        childrenSet parent fileName f ;;;
        ret (Some f)
      else ret None
  end.

Lemma createFile_walk p c fs :
  pathViolation p = None -> contentViolation c = None ->
  map_get (normalizePath p) (files fs) = None ->
  createFile p c fs
  = bind (forEach (ancestors (segmentsOf p)) ensure) (fun _ => place p c) fs.
Proof.
  intros Hp Hc Hfree. unfold createFile, validatePath, validateContent.
  rewrite Hp, Hc, !bind_ret, bind_get. unfold map_has. rewrite Hfree.
  unfold bind at 1. rewrite ensureParentDirectories_walk. reflexivity.
Qed.

Lemma place_returns p c fs :
  WF fs -> exists v fs', place p c fs = Returns v fs'.
Proof.
  intros Hwf. unfold place. vfs_steps.
  destruct (map_get (getParentPath (normalizePath p)) (files fs))
    as [parent|] eqn:Hparent; vfs_steps; [|by eexists _, _].
  destruct (decide (type (deref fs parent) = directory)) as [Hdir|];
    vfs_steps; [|by eexists _, _].
  destruct (wf_entry _ Hwf _ _ Hparent) as (Hplt & _).
  destruct (wf_dir _ Hwf _ _ Hparent Hdir) as (cs & Hcs & _).
  unfold childrenSet. vfs_steps.
  assert (Hread : forall nd fl,
    deref (mkVFS (store fs ++ [nd]) fl (root fs)) parent = deref fs parent).
  { intros nd fl. apply deref_lookup. cbn. rewrite lookup_app_l by done.
    by apply deref_lt. }
  rewrite Hread, Hcs. vfs_steps. by eexists _, _.
Qed.

(** X18.  In a file system that satisfies the invariant of the data
    model, for valid arguments and a path that is not taken,
    [createFileWithParents] leaves the state that [createFile] alone
    leaves: the directories that its own loop creates are those that
    [createFile] creates.  It reports [File created] whatever
    [createFile] returns, also when that is [null] and no file was
    created. *)
Theorem createFileWithParents_is_createFile (p c : string)
    (fs : VirtualFileSystem) :
  WF fs -> pathViolation p = None -> contentViolation c = None ->
  existsIn fs p = false ->
  exists v fs',
    createFile p c fs = Returns v fs'
    /\ createFileWithParents p c fs = Returns ("File created: " +:+ p) fs'.
Proof.
  intros Hwf Hp Hc Hex.
  assert (Hfree : map_get (normalizePath p) (files fs) = None).
  { unfold existsIn in Hex. rewrite (pathViolation_valid _ Hp) in Hex.
    by apply map_has_false. }
  destruct (walk_twice (segmentsOf p) fs (segmentsOf_ok p)
              (fun n => ancestors_valid p n Hp) Hwf)
    as (fs1 & Hw1 & Hw2).
  assert (Hepd : ensureParentDirectories (normalizePath p) fs = Returns tt fs1).
  { by rewrite ensureParentDirectories_walk. }
  destruct (ensureParentDirectories_grows _ _ _ Hwf Hepd) as [Hwf1 Hg].
  assert (Hfree1 : map_get (normalizePath p) (files fs1) = None).
  { apply (grows_fresh _ _ _ Hg); [done|].
    intros Hin. apply createDirectoryPath_spec in Hin
      as (pre & rest & Hsegs & Hpre & Hrest & Hok & E).
    rewrite segmentsOf_normalizePath in Hsegs.
    destruct (normalized_segments p) as [t Ht].
    rewrite E, Hsegs, catSegs_app in Ht.
    apply (f_equal String.length) in Ht. rewrite !length_app in Ht.
    pose proof (segmentsOf_ok p) as Hall. rewrite Hsegs in Hall.
    apply Forall_app in Hall as [_ Hall].
    pose proof (length_catSegs_ge rest Hall).
    destruct rest; [done|]. cbn [length] in *. lia. }
  destruct (place_returns p c fs1 Hwf1) as (v & fs' & Hplace).
  exists v, fs'. split.
  - rewrite createFile_walk by done.
    by rewrite (bind_Returns _ _ _ _ _ Hw1).
  - unfold createFileWithParents. rewrite bind_exists, Hex.
    fold (rawSegments p). rewrite <- rawSegments_normalizePath.
    assert (Hparents : createParents "" (segmentsOf p) fs = Returns tt fs1).
    { by rewrite createParents_forEach, directoryPrefixes_ancestors. }
    rewrite (bind_Returns _ _ _ _ _ Hparents).
    assert (Hcreate : createFile p c fs1 = Returns v fs').
    { rewrite createFile_walk by done.
      by rewrite (bind_Returns _ _ _ _ _ Hw2). }
    by rewrite (bind_Returns _ _ _ _ _ Hcreate).
Qed.

Lemma createFileWithParents_is_createFile_witness :
  let fs := after (createFile "/a" "x" VFS.new) in
  createFile "/a/b" "y" fs = Returns None fs
  /\ createFileWithParents "/a/b" "y" fs = Returns "File created: /a/b" fs.
Proof.
  intros fs.
  assert (Hwf : WF fs).
  { apply (createFile_canonical VFS.new fs ["a"] "x" (Some 1) WF_new);
      [by repeat constructor|done|reflexivity]. }
  destruct (createFileWithParents_is_createFile "/a/b" "y" fs Hwf eq_refl
              eq_refl eq_refl) as (v & fs' & Hcreate & Htool).
  assert (Hrun : createFile "/a/b" "y" fs = Returns None fs) by reflexivity.
  rewrite Hrun in Hcreate. injection Hcreate as <- <-. by split.
Defined.

End Parents.
(** * The tool-call handlers

    [handleStrReplaceEditor], [handleFileManager] and [handleToolCall]
    of [file-system-handlers].  The callbacks [onFileChange] and
    [onFileSelect] are embedded as the events that a handler emits, in
    the order of the calls. *)

Module Handlers.
Import JS.

(** The arguments of a tool call; a property that is absent is
    [None]. *)
Record Args := mkArgs {
  command : option string;
  path : option string;
  file_text : option string;
  old_str : option string;
  new_str : option string;
  insert_line : option Z;
  new_path : option string
}.

Record ToolCall := mkToolCall {
  toolName : string;
  args : option Args
}.

Inductive Event :=
  | onFileChange
  | onFileSelect (p : option string).

(** [if (!result.startsWith("Error:")) onFileChange()] *)
Definition unlessError (result : string) : list Event :=
  if negb (startsWith result "Error:") then [onFileChange] else [].

(** [command === c] *)
Definition isCommand (command : option string) (c : string) : bool :=
  match command with
  | Some x => String.eqb x c
  | None => false
  end.

Definition handleStrReplaceEditor (args : Args) : VFS.M (list Event) :=
  if isCommand (command args) "create" then
    match path args, file_text args with
    | Some p, Some text =>
        if negb (String.eqb p EmptyString) then
          VFS.bind (Tools.createFileWithParents p text) (fun result =>
          VFS.ret (unlessError result))
        else VFS.ret []
    | _, _ => VFS.ret []
    end
  else if isCommand (command args) "str_replace" then
    match path args, old_str args, new_str args with
    | Some p, Some old, Some new =>
        if negb (String.eqb p EmptyString) then
          VFS.bind (Tools.replaceInFile p old new) (fun result =>
          VFS.ret (unlessError result))
        else VFS.ret []
    | _, _, _ => VFS.ret []
    end
  else if isCommand (command args) "insert" then
    match path args, new_str args, insert_line args with
    | Some p, Some new, Some line =>
        if negb (String.eqb p EmptyString) then
          VFS.bind (Tools.insertInFile p (Some line) new) (fun result =>
          VFS.ret (unlessError result))
        else VFS.ret []
    | _, _, _ => VFS.ret []
    end
  else VFS.ret [].

(** The selection after a rename: the new path when the selected file
    was renamed, the new path and what followed the old one when the
    selected file is inside the renamed directory. *)
Definition followRename (selectedFile : option string) (p new : string)
  : list Event :=
  match selectedFile with
  | Some s =>
      if String.eqb s p then [onFileSelect (Some new)]
      else if startsWith s (p +:+ "/")
      then [onFileSelect (Some (new +:+ Tools.dropString (String.length p) s))]
      else []
  | None => []
  end.

Definition followDelete (selectedFile : option string) (p : string)
  : list Event :=
  match selectedFile with
  | Some s => if String.eqb s p then [onFileSelect None] else []
  | None => []
  end.

Definition handleFileManager (stack : nat) (args : Args)
  (selectedFile : option string) : VFS.M (list Event) :=
  if isCommand (command args) "rename" then
    match path args, new_path args with
    | Some p, Some new =>
        if negb (String.eqb p EmptyString) && negb (String.eqb new EmptyString)
        then
          VFS.bind (VFS.rename stack p new) (fun success =>
          if success
          then VFS.ret (followRename selectedFile p new ++ [onFileChange])
          else VFS.ret [])
        else VFS.ret []
    | _, _ => VFS.ret []
    end
  else if isCommand (command args) "delete" then
    match path args with
    | Some p =>
        if negb (String.eqb p EmptyString) then
          VFS.bind (VFS.deleteFile stack p) (fun success =>
          if success
          then VFS.ret (followDelete selectedFile p ++ [onFileChange])
          else VFS.ret [])
        else VFS.ret []
    | None => VFS.ret []
    end
  else VFS.ret [].

Definition handleToolCall (stack : nat) (toolCall : ToolCall)
  (selectedFile : option string) : VFS.M (list Event) :=
  match args toolCall with
  | Some a =>
      if String.eqb (toolName toolCall) "str_replace_editor"
      then handleStrReplaceEditor a
      else if String.eqb (toolName toolCall) "file_manager"
      then handleFileManager stack a selectedFile
      else VFS.ret []
  | None => VFS.ret []
  end.

End Handlers.

(** * What the handlers announce *)

Module HandlerFacts.
Import JS PathUtils VFS Tools StringFacts MapFacts VFSFacts VFSOps ToolFacts.
Import Pipeline (Q, nl).
Import Handlers (Args, ToolCall, Event, onFileChange, onFileSelect,
  unlessError, isCommand, handleStrReplaceEditor, followRename, followDelete,
  handleFileManager, handleToolCall).

(** ** A command that reports an error has changed nothing *)

Lemma getNode_state p fs : exists v, getNode p fs = Returns v fs.
Proof. unfold getNode. destruct (negb (isValidPath p)); by eexists. Qed.

Lemma readFile_state p fs v fs' : readFile p fs = Returns v fs' -> fs' = fs.
Proof.
  unfold readFile, validatePath. destruct (pathViolation p); [done|].
  rewrite bind_ret, bind_filesGet.
  destruct (map_get (normalizePath p) (files fs)) as [f|]; [|by intros [= _ <-]].
  rewrite bind_read. destruct (decide _); by intros [= _ <-].
Qed.

Lemma createFileWithParents_error p c fs result fs' :
  createFileWithParents p c fs = Returns result fs' ->
  startsWith result "Error:" = true -> fs' = fs.
Proof.
  unfold createFileWithParents. rewrite bind_exists.
  destruct (existsIn fs p); [by intros [= _ <-]|].
  intros Hrun Herr.
  destruct (createParents "" (filterBoolean (split "/" p)) fs)
    as [[] s1|e s1] eqn:E1.
  2:{ by rewrite (bind_Throws _ _ _ _ _ E1) in Hrun. }
  rewrite (bind_Returns _ _ _ _ _ E1) in Hrun.
  destruct (createFile p c s1) as [v s2|e s2] eqn:E2.
  2:{ by rewrite (bind_Throws _ _ _ _ _ E2) in Hrun. }
  rewrite (bind_Returns _ _ _ _ _ E2) in Hrun.
  injection Hrun as <- <-. done.
Qed.

Lemma replaceInFile_error p old new fs result fs' :
  replaceInFile p old new fs = Returns result fs' ->
  startsWith result "Error:" = true -> fs' = fs.
Proof.
  unfold replaceInFile. destruct (getNode_state p fs) as [v Hnode].
  rewrite (bind_Returns _ _ _ _ _ Hnode).
  destruct v as [f|]; [|by intros [= _ <-]].
  rewrite bind_read. destruct (decide _) as [_|_]; [|by intros [= _ <-]].
  destruct (readFile p fs) as [c s1|e s1] eqn:E1.
  2:{ by rewrite (bind_Throws _ _ _ _ _ E1). }
  rewrite (bind_Returns _ _ _ _ _ E1).
  apply readFile_state in E1 as ->.
  destruct (_ || _); [by intros [= _ <-]|].
  intros Hrun Herr.
  destruct (updateFile p (join new (splitOn old (orEmpty c))) fs)
    as [b s2|e s2] eqn:E2.
  2:{ by rewrite (bind_Throws _ _ _ _ _ E2) in Hrun. }
  rewrite (bind_Returns _ _ _ _ _ E2) in Hrun.
  injection Hrun as <- <-. done.
Qed.

Lemma insertInFile_error p line text fs result fs' :
  insertInFile p line text fs = Returns result fs' ->
  startsWith result "Error:" = true -> fs' = fs.
Proof.
  unfold insertInFile. destruct (getNode_state p fs) as [v Hnode].
  rewrite (bind_Returns _ _ _ _ _ Hnode).
  destruct v as [f|]; [|by intros [= _ <-]].
  rewrite bind_read. destruct (decide _) as [_|_]; [|by intros [= _ <-]].
  destruct (readFile p fs) as [c s1|e s1] eqn:E1.
  2:{ by rewrite (bind_Throws _ _ _ _ _ E1). }
  rewrite (bind_Returns _ _ _ _ _ E1).
  apply readFile_state in E1 as ->.
  destruct line as [i|]; [|by intros [= _ <-]].
  destruct (_ || _); [by intros [= _ <-]|].
  intros Hrun Herr.
  destruct (updateFile p
              (join nl (spliceIn (Z.to_nat i) text (split nlc (orEmpty c))))
              fs) as [b s2|e s2] eqn:E2.
  2:{ by rewrite (bind_Throws _ _ _ _ _ E2) in Hrun. }
  rewrite (bind_Returns _ _ _ _ _ E2) in Hrun.
  injection Hrun as <- <-. done.
Qed.

Lemma deleteFile_refused stack p fs fs' :
  deleteFile stack p fs = Returns false fs' -> fs' = fs.
Proof.
  unfold deleteFile, validatePath. destruct (pathViolation p); [done|].
  rewrite bind_ret, bind_filesGet.
  destruct (map_get (normalizePath p) (files fs)) as [f|]; [|by intros [= <-]].
  destruct (normalizePath p =? "/"); [by intros [= <-]|].
  rewrite bind_getParentNode.
  destruct (map_get (getParentPath (normalizePath p)) (files fs)) as [op|];
    [|by intros [= <-]].
  rewrite bind_read. destruct (decide _) as [_|_]; [|by intros [= <-]].
  intros Hrun.
  destruct (deleteRecursively stack f fs) as [[] s1|e s1] eqn:E1.
  2:{ by rewrite (bind_Throws _ _ _ _ _ E1) in Hrun. }
  rewrite (bind_Returns _ _ _ _ _ E1), bind_read in Hrun.
  destruct (childrenDelete op (name (deref s1 f)) s1) as [[] s2|e s2] eqn:E2.
  2:{ by rewrite (bind_Throws _ _ _ _ _ E2) in Hrun. }
  by rewrite (bind_Returns _ _ _ _ _ E2) in Hrun.
Qed.

(** One command of the editor: the handler's answer to its result. *)
Lemma announced {tool : M string} fs evs fs' :
  (forall result s, tool fs = Returns result s ->
     startsWith result "Error:" = true -> s = fs) ->
  bind tool (fun result => ret (unlessError result)) fs = Returns evs fs' ->
  (evs = [] /\ fs' = fs) \/ evs = [onFileChange].
Proof.
  intros Herr Hrun. destruct (tool fs) as [result s|e s] eqn:E.
  2:{ by rewrite (bind_Throws _ _ _ _ _ E) in Hrun. }
  rewrite (bind_Returns _ _ _ _ _ E) in Hrun. injection Hrun as <- <-.
  unfold unlessError. destruct (startsWith result "Error:") eqn:Hs.
  - left. split; [done|]. by apply (Herr result).
  - by right.
Qed.

Lemma handleStrReplaceEditor_announces a fs evs fs' :
  handleStrReplaceEditor a fs = Returns evs fs' ->
  (evs = [] /\ fs' = fs) \/ evs = [onFileChange].
Proof.
  unfold handleStrReplaceEditor.
  destruct (isCommand (Handlers.command a) "create").
  { destruct (Handlers.path a) as [p|]; [|intros [= <- <-]; by left].
    destruct (Handlers.file_text a) as [text|]; [|intros [= <- <-]; by left].
    destruct (negb (p =? "")); [|intros [= <- <-]; by left].
    apply announced. intros result s. apply createFileWithParents_error. }
  destruct (isCommand (Handlers.command a) "str_replace").
  { destruct (Handlers.path a) as [p|]; [|intros [= <- <-]; by left].
    destruct (Handlers.old_str a) as [old|]; [|intros [= <- <-]; by left].
    destruct (Handlers.new_str a) as [new|]; [|intros [= <- <-]; by left].
    destruct (negb (p =? "")); [|intros [= <- <-]; by left].
    apply announced. intros result s. apply replaceInFile_error. }
  destruct (isCommand (Handlers.command a) "insert").
  { destruct (Handlers.path a) as [p|]; [|intros [= <- <-]; by left].
    destruct (Handlers.new_str a) as [new|]; [|intros [= <- <-]; by left].
    destruct (Handlers.insert_line a) as [line|]; [|intros [= <- <-]; by left].
    destruct (negb (p =? "")); [|intros [= <- <-]; by left].
    apply announced. intros result s. apply insertInFile_error. }
  intros [= <- <-]. by left.
Qed.

(** X19.  A tool call that returns has called [onFileChange] last, or
    has called nothing; and when it has called nothing the file system
    is as it was, unless the call is a rename of the file manager, which
    can have created directories before it refused. *)
Theorem changes_are_announced (stack : nat) (toolCall : ToolCall)
    (selectedFile : option string) (fs fs' : VirtualFileSystem)
    (evs : list Event) :
  handleToolCall stack toolCall selectedFile fs = Returns evs fs' ->
  (evs = [] \/ last evs = Some onFileChange)
  /\ (evs = [] ->
      fs' = fs
      \/ (Handlers.toolName toolCall = "file_manager"
          /\ exists a, Handlers.args toolCall = Some a
               /\ Handlers.command a = Some "rename")).
Proof.
  unfold handleToolCall.
  destruct (Handlers.args toolCall) as [a|]; [|intros [= <- <-]; by auto].
  destruct (String.eqb_spec (Handlers.toolName toolCall) "str_replace_editor")
    as [_|_].
  { intros [[-> ->]| ->]%handleStrReplaceEditor_announces; [by auto|].
    split; [by right|done]. }
  destruct (String.eqb_spec (Handlers.toolName toolCall) "file_manager")
    as [Htool|_]; [|intros [= <- <-]; by auto].
  unfold handleFileManager.
  destruct (isCommand (Handlers.command a) "rename") eqn:Hren.
  { assert (Hcmd : Handlers.command a = Some "rename").
    { unfold isCommand in Hren. destruct (Handlers.command a) as [x|]; [|done].
      by apply String.eqb_eq in Hren as ->. }
    intros Hrun. split; [|intros _; right; split; [done|by exists a]].
    destruct (Handlers.path a) as [p|]; [|injection Hrun as <- <-; by left].
    destruct (Handlers.new_path a) as [new|];
      [|injection Hrun as <- <-; by left].
    destruct (_ && _); [|injection Hrun as <- <-; by left].
    destruct (rename stack p new fs) as [b s|e s] eqn:E.
    2:{ by rewrite (bind_Throws _ _ _ _ _ E) in Hrun. }
    rewrite (bind_Returns _ _ _ _ _ E) in Hrun.
    destruct b; injection Hrun as <- <-; [|by left].
    right. by rewrite last_snoc. }
  destruct (isCommand (Handlers.command a) "delete");
    [|intros [= <- <-]; by auto].
  destruct (Handlers.path a) as [p|]; [|intros [= <- <-]; by auto].
  destruct (negb (p =? "")); [|intros [= <- <-]; by auto].
  intros Hrun.
  destruct (deleteFile stack p fs) as [b s|e s] eqn:E.
  2:{ by rewrite (bind_Throws _ _ _ _ _ E) in Hrun. }
  rewrite (bind_Returns _ _ _ _ _ E) in Hrun.
  destruct b; injection Hrun as <- <-.
  - split; [right; by rewrite last_snoc|]. by destruct (followDelete _ _).
  - apply deleteFile_refused in E as ->. by auto.
Qed.

Lemma changes_are_announced_witness :
  let call := Handlers.mkToolCall "str_replace_editor"
    (Some (Handlers.mkArgs (Some "create") (Some "/a.txt") (Some "x")
             None None None None)) in
  let fs' := after (createFile "/a.txt" "x" VFS.new) in
  handleToolCall 1 call None VFS.new = Returns [onFileChange] fs'
  /\ handleToolCall 1 call None fs' = Returns [] fs'
  /\ ([onFileChange] = [] \/ last [onFileChange] = Some onFileChange).
Proof.
  intros call fs'.
  assert (H1 : handleToolCall 1 call None VFS.new = Returns [onFileChange] fs')
    by reflexivity.
  assert (H2 : handleToolCall 1 call None fs' = Returns [] fs')
    by reflexivity.
  split; [done|]. split; [done|].
  exact (proj1 (changes_are_announced 1 call None VFS.new fs' [onFileChange]
                  H1)).
Defined.

End HandlerFacts.
(** * The selection after a rename *)

Module Selection.
Import JS PathUtils VFS Tools StringFacts MapFacts Segments VFSFacts
  RenameFacts Propagation.
Import Handlers (Args, Event, onFileChange, onFileSelect, isCommand,
  followRename, handleFileManager).

(** What a successful rename does to a node indexed at the old path or
    below it. *)
Lemma rename_moves stack oldPath newPath fs fs' r c :
  WF fs ->
  rename stack oldPath newPath fs = Returns true fs' ->
  Forall okSeg r ->
  map_get (normalizePath oldPath +:+ catSegs r) (files fs) = Some c ->
  map_get (normalizePath newPath +:+ catSegs r) (files fs') = Some c
  /\ map_get (normalizePath oldPath +:+ catSegs r) (files fs') = None
  /\ type (deref fs' c) = type (deref fs c)
  /\ content (deref fs' c) = content (deref fs c).
Proof.
  intros Hwf Hrun Hr Hc.
  set (O := normalizePath oldPath) in *. set (N := normalizePath newPath).
  destruct (rename_inv _ _ _ _ _ Hrun)
    as (d & op & np & W & Hvalid & HO & HN & Hd & HNfs & Hop & Hopd & Hepd
        & Hnp & Hnpd & Hrel).
  fold O N in HO, HN, Hd, HNfs, Hop, Hepd, Hnp, Hrel.
  destruct (wf_entry _ Hwf _ _ Hd) as (Hdlt & Hdpath & lO & HlO & EO).
  destruct (exists_last (l := lO)) as (lO' & k0 & ElO).
  { intros ->. by apply HO. }
  assert (HlO_ne : lO <> []) by (rewrite ElO; by destruct lO').
  rewrite pathOf_catSegs in EO by done.
  assert (HlO' : Forall okSeg lO' /\ okSeg k0).
  { rewrite ElO in HlO. by apply Forall_app in HlO as [? [? _]%Forall_cons]. }
  destruct HlO' as [HlO' Hk0].
  destruct (ensureParentDirectories_grows _ _ _ Hwf Hepd) as [HW Hg].
  assert (HdW : map_get (catSegs lO) (files W) = Some d).
  { rewrite <- EO. by apply (grows_index _ _ _ Hg). }
  assert (HopW : map_get (pathOf lO') (files W) = Some op).
  { apply (grows_index _ _ _ Hg).
    rewrite EO, ElO, getParentPath_snoc in Hop by done. done. }
  assert (HNW : map_get N (files W) = None).
  { apply (grows_fresh _ _ _ Hg); [done|]. apply createDirectoryPath_not_self. }
  destruct (wf_entry _ HW _ _ Hnp) as (Hnplt & _ & lnp & Hlnp & Enp).
  assert (Hpar : forall l k,
            Forall okSeg l -> okSeg k -> N = catSegs (l ++ [k]) -> lnp = l).
  { intros l k Hl Hk E. rewrite E, getParentPath_snoc in Enp by done.
    symmetry. by apply pathOf_inj. }
  rewrite Enp in Hnp.
  destruct (wf_entry _ HW _ _ HdW) as (HdltW & _).
  destruct (relink_inv _ _ _ _ _ _ _ _ HdltW Hnplt Hrel) as (s2 & Hrl & Hcont).
  rewrite EO, ElO in Hrl. rewrite ElO in HdW.
  destruct (moved_Inv W s2 d op np lO' k0 lnp N (getFileName N) HW HlO' Hk0
              HdW HopW Hlnp Hnp Hnpd HNW (normalizePath_nonempty newPath)
              Hpar Hrl stack fs' Hcont) as [Hfresh HI].
  rewrite <- ElO in Hrl, HdW, Hfresh, HI.
  pose proof (rl_files _ _ _ _ _ _ _ _ Hrl) as Hfiles.
  pose proof (outcome_old W s2 fs' d lO N HW HlO HlO_ne HdW Hfresh Hfiles HI)
    as Hold.
  pose proof (outcome_new W s2 fs' d lO N HW HlO HlO_ne HdW Hfresh Hfiles HI)
    as Hnew.
  rewrite <- EO in Hold.
  assert (Hdfs : map_get (pathOf lO) (files fs) = Some d).
  { by rewrite pathOf_catSegs, <- EO. }
  assert (Hpo : pathOf (lO ++ r) = O +:+ catSegs r).
  { rewrite EO. by apply outcome_pathOf. }
  split; [|split; [by apply Hold|]].
  - destruct (decide (r = [])) as [->|Hne].
    + cbn [catSegs] in *. rewrite app_nil_r in *.
      assert (c = d) as -> by congruence. done.
    + assert (Hdesc : desc fs d c r).
      { apply (index_desc fs Hwf d lO); [done..|]. by rewrite Hpo. }
      pose proof (desc_grows _ _ _ _ _ _ _ Hwf Hg HlO Hdfs Hdesc) as HcW.
      apply (inv_new _ _ _ _ _ _ _ HI c r HcW Hne Hne).
  - destruct (wf_entry _ Hwf _ _ Hc) as (Hclt & _).
    destruct (grows_fields _ _ _ Hg c Hclt) as (Gt & _ & _ & Gc).
    rewrite <- Gt, <- Gc.
    destruct (decide (r = [])) as [->|Hne].
    + cbn [catSegs] in Hc. rewrite app_nil_r in Hc.
      assert (c = d) as -> by congruence.
      rewrite (inv_top _ _ _ _ _ _ _ HI).
      split; [apply (rl_type _ _ _ _ _ _ _ _ Hrl)
             |apply (rl_content _ _ _ _ _ _ _ _ Hrl)].
    + assert (Hdesc : desc fs d c r).
      { apply (index_desc fs Hwf d lO); [done..|]. by rewrite Hpo. }
      pose proof (desc_grows _ _ _ _ _ _ _ Hwf Hg HlO Hdfs Hdesc) as HcW.
      by rewrite (inv_done _ _ _ _ _ _ _ HI c r HcW Hne Hne).
Qed.

(** ** The path that the handler selects *)

Lemma dropString_app p x : dropString (String.length p) (p +:+ x) = x.
Proof. induction p as [|a p IH]; [by destruct x|]. by rewrite app_cons. Qed.

Lemma eqb_app_ne p x : x <> "" -> (p +:+ x =? p) = false.
Proof.
  intros Hx. apply String.eqb_neq. intros E.
  apply (f_equal String.length) in E. rewrite length_app in E.
  destruct x; [done|]. cbn [String.length] in E. lia.
Qed.

Lemma followRename_inside p new r :
  Forall okSeg r ->
  followRename (Some (p +:+ catSegs r)) p new
  = [onFileSelect (Some (new +:+ catSegs r))].
Proof.
  intros Hr. unfold followRename. destruct r as [|k r].
  - cbn [catSegs]. by rewrite !app_nil_r, String.eqb_refl.
  - rewrite eqb_app_ne by done.
    assert (startsWith (p +:+ catSegs (k :: r)) (p +:+ "/") = true) as ->.
    { unfold startsWith. cbn [catSegs]. rewrite <- (app_assoc p "/").
      apply prefix_app. }
    by rewrite dropString_app.
Qed.

(** X20.  When the file manager renames a path, both paths in normal
    form, and the selected file is at the old path or below it, a
    successful rename selects the same place below the new path, then
    announces the change; the node that was indexed at the selected path
    is indexed at the newly selected one, with its kind and its content,
    and nothing is indexed at the old one. *)
Theorem selection_follows_rename (stack : nat) (a : Args)
    (lO lN r : list string) (c : ref) (fs fs' : VirtualFileSystem)
    (evs : list Event) :
  WF fs ->
  Forall okSeg lO -> lO <> [] -> Forall okSeg lN -> lN <> [] ->
  Forall okSeg r ->
  Handlers.command a = Some "rename" ->
  Handlers.path a = Some (catSegs lO) ->
  Handlers.new_path a = Some (catSegs lN) ->
  map_get (catSegs lO +:+ catSegs r) (files fs) = Some c ->
  handleFileManager stack a (Some (catSegs lO +:+ catSegs r)) fs
  = Returns evs fs' ->
  evs <> [] ->
  evs = [onFileSelect (Some (catSegs lN +:+ catSegs r)); onFileChange]
  /\ map_get (catSegs lN +:+ catSegs r) (files fs') = Some c
  /\ map_get (catSegs lO +:+ catSegs r) (files fs') = None
  /\ type (deref fs' c) = type (deref fs c)
  /\ content (deref fs' c) = content (deref fs c).
Proof.
  intros Hwf HlO HOne HlN HNne Hr Hcmd Hpath Hnew Hc Hrun Hevs.
  unfold handleFileManager in Hrun. rewrite Hcmd, Hpath, Hnew in Hrun.
  cbn [isCommand] in Hrun. rewrite String.eqb_refl in Hrun.
  assert (HO : (catSegs lO =? "") = false)
    by (apply String.eqb_neq; by destruct lO).
  assert (HN : (catSegs lN =? "") = false)
    by (apply String.eqb_neq; by destruct lN).
  rewrite HO, HN in Hrun. cbn [negb andb] in Hrun.
  destruct (rename stack (catSegs lO) (catSegs lN) fs) as [b s|e s] eqn:E.
  2:{ by rewrite (bind_Throws _ _ _ _ _ E) in Hrun. }
  rewrite (bind_Returns _ _ _ _ _ E) in Hrun.
  destruct b; [|by injection Hrun as <- <-].
  rewrite followRename_inside in Hrun by done. injection Hrun as <- <-.
  split; [done|].
  pose proof (rename_moves stack (catSegs lO) (catSegs lN) fs s r c Hwf E Hr)
    as Hmoves.
  rewrite !normalizePath_catSegs in Hmoves by done. by apply Hmoves.
Qed.

Lemma selection_follows_rename_witness :
  let a := Handlers.mkArgs (Some "rename") (Some "/dir") None None None None
             (Some "/dir2") in
  let fs' := after (rename 3 "/dir" "/dir2" dirWithFile) in
  handleFileManager 3 a (Some "/dir/x.txt") dirWithFile
  = Returns [onFileSelect (Some "/dir2/x.txt"); onFileChange] fs'
  /\ map_get "/dir2/x.txt" (files fs') = Some 2
  /\ map_get "/dir/x.txt" (files fs') = None
  /\ content (deref fs' 2) = Some "hi".
Proof.
  intros a fs'.
  assert (Hrun : handleFileManager 3 a (Some "/dir/x.txt") dirWithFile
            = Returns [onFileSelect (Some "/dir2/x.txt"); onFileChange] fs')
    by reflexivity.
  assert (Hseg : forall k, k <> "" -> includesChar "/" k = false ->
            Forall okSeg [k]) by (intros k ? ?; by repeat constructor).
  destruct (selection_follows_rename 3 a ["dir"] ["dir2"] ["x.txt"] 2
              dirWithFile fs'
              [onFileSelect (Some "/dir2/x.txt"); onFileChange]
              dirWithFile_WF (Hseg "dir" ltac:(done) eq_refl) ltac:(done)
              (Hseg "dir2" ltac:(done) eq_refl) ltac:(done)
              (Hseg "x.txt" ltac:(done) eq_refl) eq_refl eq_refl eq_refl
              eq_refl Hrun ltac:(done))
    as (_ & Hnew & Hold & _ & Hcontent).
  split; [exact Hrun|]. split; [exact Hnew|]. split; [exact Hold|].
  rewrite Hcontent. reflexivity.
Defined.

End Selection.
(** * [deserialize]: a table of files restored *)

Module Restore.
Import JS PathUtils VFS StringFacts MapFacts Segments VFSFacts RenameFacts
  PathShape VFSOps Invariant Vivify Parents.

(** ** The order of the walk *)

Lemma elem_of_insertSorted x y l : y ∈ insertSorted x l <-> y = x \/ y ∈ l.
Proof.
  induction l as [|z l IH]; cbn [insertSorted].
  - rewrite list_elem_of_singleton, elem_of_nil. tauto.
  - destruct (String.leb x z).
    + by rewrite elem_of_cons.
    + rewrite !elem_of_cons, IH. tauto.
Qed.

Lemma elem_of_sortStrings y l : y ∈ sortStrings l <-> y ∈ l.
Proof.
  induction l as [|x l IH]; [done|].
  cbn [sortStrings fold_right].
  rewrite elem_of_insertSorted, elem_of_cons. fold (sortStrings l).
  by rewrite IH.
Qed.

Lemma NoDup_insertSorted x l : x ∉ l -> NoDup l -> NoDup (insertSorted x l).
Proof.
  induction l as [|z l IH]; intros Hx Hnd; cbn [insertSorted].
  - apply NoDup_singleton.
  - destruct (String.leb x z); [by apply NoDup_cons|].
    apply not_elem_of_cons in Hx as [Hxz Hx].
    apply NoDup_cons in Hnd as [Hz Hnd]. apply NoDup_cons. split.
    + rewrite elem_of_insertSorted. intros [->|Hin]; done.
    + by apply IH.
Qed.

Lemma NoDup_sortStrings l : NoDup l -> NoDup (sortStrings l).
Proof.
  induction 1 as [|x l Hx Hnd IH]; [apply NoDup_nil_2|].
  cbn [sortStrings fold_right]. fold (sortStrings l).
  apply NoDup_insertSorted; [|done]. by rewrite elem_of_sortStrings.
Qed.

(** ** Keys of a table *)

Lemma map_get_key {V} (p : string) (m : list (string * V)) :
  p ∈ m.*1 <-> is_Some (map_get p m).
Proof.
  split.
  - intros Hin. destruct (map_get p m) eqn:E; [by eexists|].
    by apply map_get_None_notin in E.
  - intros [v Hv]. apply map_get_Some_In in Hv.
    apply list_elem_of_fmap. by exists (p, v).
Qed.

(** ** The opening: the index and the root are emptied *)

Lemma clearAll_WF fs :
  WF fs ->
  exists s0,
    clearAll fs = Returns tt s0 /\ WF s0
    /\ forall q r, map_get q (files s0) = Some r -> q = "/".
Proof.
  intros Hwf. unfold clearAll. vfs_steps.
  destruct (wf_entry _ Hwf _ _ (wf_root _ Hwf)) as (Hlt & Hpath & _).
  destruct (wf_dir _ Hwf _ _ (wf_root _ Hwf) (wf_root_dir _ Hwf))
    as (cs & Hcs & _).
  assert (Hread : deref (mkVFS (store fs) [] (root fs)) (root fs)
                  = deref fs (root fs)) by done.
  rewrite Hread, Hcs. vfs_steps. unfold filesSet. cbn [store files root].
  eexists. split; [reflexivity|].
  set (rn := mkNode _ _ _ _ _).
  set (s0 := mkVFS _ _ _).
  assert (Hroot : deref s0 (root fs) = rn).
  { unfold s0. by rewrite deref_mkVFS, list_lookup_insert_eq. }
  assert (Hidx : forall q r, map_get q (files s0) = Some r ->
            q = "/" /\ r = root fs).
  { intros q r. cbn. case_decide; [|done]. by intros [= <-]. }
  split.
  - split.
    + cbn. by rewrite decide_True.
    + cbn [root s0]. change (type (deref s0 (root fs)) = directory).
      rewrite Hroot. cbn. apply (wf_root_dir _ Hwf).
    + intros q r [-> ->]%Hidx. rewrite Hroot. split.
      { cbn. by rewrite length_insert. }
      split; [done|]. by exists [].
    + intros q r [-> ->]%Hidx _. rewrite Hroot. exists [].
      split; [done|]. split; [apply NoDup_nil_2|]. by intros k c.
    + by intros q r [-> ->]%Hidx.
  - intros q r Hq. by destruct (Hidx _ _ Hq).
Qed.

(** ** [createFile] once the ancestors are there *)

Lemma place_attaches fs l0 k c parent :
  WF fs -> Forall okSeg l0 -> okSeg k ->
  map_get (catSegs (l0 ++ [k])) (files fs) = None ->
  map_get (pathOf l0) (files fs) = Some parent ->
  type (deref fs parent) = directory ->
  place (catSegs (l0 ++ [k])) c fs
  = Returns (Some (length (store fs)))
      (attached fs parent (joinPath (pathOf l0) k) k
         (mkNode file k (joinPath (pathOf l0) k) (Some c) None)).
Proof.
  intros Hwf Hl0 Hk Hfree Hparent Hdir.
  assert (Hall : Forall okSeg (l0 ++ [k])).
  { apply Forall_app. split; [done|]. by apply Forall_singleton. }
  unfold place. rewrite normalizePath_catSegs by (done || by destruct l0).
  vfs_steps. rewrite getParentPath_snoc, getFileName_snoc by done.
  rewrite Hparent. vfs_steps. rewrite decide_True by done. vfs_steps.
  destruct (wf_entry _ Hwf _ _ Hparent) as (Hplt & _).
  destruct (wf_dir _ Hwf _ _ Hparent Hdir) as (cs & Hcs & _).
  unfold childrenSet. vfs_steps.
  assert (Hread : forall nd fl,
    deref (mkVFS (store fs ++ [nd]) fl (root fs)) parent = deref fs parent).
  { intros nd fl. apply deref_lookup. cbn. rewrite lookup_app_l by done.
    by apply deref_lt. }
  rewrite Hread, Hcs. vfs_steps.
  assert (Ejoin : catSegs (l0 ++ [k]) = joinPath (pathOf l0) k).
  { rewrite joinPath_pathOf by done. by destruct l0. }
  unfold attached, withChild. by rewrite Hcs, Ejoin.
Qed.

(** ** The walk of [deserialize] *)

Section Table.
Variable data : list (string * string).

(** The keys are paths in normal form that pass the checks, the contents
    pass the check, and no key is the path of an ancestor of another. *)
Hypothesis Hkeys : forall p, p ∈ data.*1 ->
  exists l, Forall okSeg l /\ l <> [] /\ p = catSegs l
            /\ pathViolation p = None.
Hypothesis Hcontents : forall p c,
  map_get p data = Some c -> contentViolation c = None.
Hypothesis Hprefix : forall l t,
  Forall okSeg (l ++ t) -> l <> [] ->
  catSegs l ∈ data.*1 -> catSegs (l ++ t) ∈ data.*1 -> t = [].








End Table.

Lemma map_fst_fmap {V} (m : list (string * V)) : List.map fst m = m.*1.
Proof. induction m as [|x m IH]; [done|]. cbn. by rewrite IH. Qed.



End Restore.
(** * [deserializeFromNodes]: a table of descriptors restored *)

Module Rebuild.
Import JS PathUtils VFS StringFacts MapFacts Segments VFSFacts RenameFacts
  PathShape VFSOps Invariant Vivify Parents Restore.

Section Nodes.
Variable data : list (string * FileNode).

(** The keys other than the root are paths in normal form that pass the
    checks, the contents of the files pass the check, and the path of
    every ancestor of a key is the key of a directory. *)
Hypothesis Hkeys : forall p n, map_get p data = Some n -> p <> "/" ->
  exists l, Forall okSeg l /\ l <> [] /\ p = catSegs l
    /\ pathViolation p = None
    /\ (type n = file -> contentViolation (orEmpty (content n)) = None).
Hypothesis Hclosed : forall l t,
  Forall okSeg (l ++ t) -> l <> [] -> t <> [] ->
  catSegs (l ++ t) ∈ data.*1 ->
  exists n, map_get (catSegs l) data = Some n /\ type n = directory.

(** The body of the loop. *)
Definition rebuildOne (p : string) : M unit :=
  if String.eqb p "/" then ret tt
  else
    match map_get p data with
    | None => ret tt
    | Some node =>
        createMissingParents p ;;;
        match type node with
        | file => createFile p (orEmpty (content node)) ;;; ret tt
        | directory => createDirectory p ;;; ret tt
        end
    end.

(** The state when the keys of [rebuilt] are done: the index holds,
    beyond the root, only keys of the table, each with the kind of its
    descriptor, the files among them done and with their contents; and
    the keys that are done are indexed. *)
Record Rebuilt (rebuilt : list string) (s : VirtualFileSystem) : Prop :=
  mkRebuilt {
  rb_wf : WF s;
  rb_index : forall q r, map_get q (files s) = Some r -> q <> "/" ->
    exists n, map_get q data = Some n /\ type (deref s r) = type n
      /\ (type n = file ->
          q ∈ rebuilt
          /\ content (deref s r) = Some (orEmpty (content n)));
  rb_done : forall q, q ∈ rebuilt -> q <> "/" ->
    is_Some (map_get q (files s))
}.

Lemma Rebuilt_more rebuilt s p :
  Rebuilt rebuilt s -> (p <> "/" -> is_Some (map_get p (files s))) ->
  Rebuilt (p :: rebuilt) s.
Proof.
  intros [Hwf Hindex Hdone] Hp. split; [done| |].
  - intros q r Hq Hne. destruct (Hindex _ _ Hq Hne) as (n & Hn & Hty & Hfile).
    exists n. split; [done|]. split; [done|]. intros Hf.
    destruct (Hfile Hf). split; [by right|done].
  - intros q [->|Hin]%elem_of_cons Hne; [by apply Hp|by apply Hdone].
Qed.

Lemma Rebuilt_attached rebuilt s l0 k parent nd n :
  Rebuilt rebuilt s ->
  Forall okSeg l0 -> okSeg k ->
  map_get (pathOf l0) (files s) = Some parent ->
  type (deref s parent) = directory ->
  map_get (joinPath (pathOf l0) k) (files s) = None ->
  name nd = k -> path nd = joinPath (pathOf l0) k ->
  (type nd = directory -> children nd = Some []) ->
  map_get (joinPath (pathOf l0) k) data = Some n ->
  type nd = type n ->
  (type n = file -> content nd = Some (orEmpty (content n))) ->
  Rebuilt (joinPath (pathOf l0) k :: rebuilt)
    (attached s parent (joinPath (pathOf l0) k) k nd).
Proof.
  intros [Hwf Hindex Hdone] Hl0 Hk Hparent Hdir Hfree Hname Hpath Hkids Hn
    Hty Hcontent.
  set (s' := attached s parent (joinPath (pathOf l0) k) k nd).
  assert (Hnew : deref s' (length (store s)) = nd).
  { by apply (attach_deref_new s parent (pathOf l0) k). }
  assert (Hidx : forall q, map_get q (files s')
            = if decide (joinPath (pathOf l0) k = q)
              then Some (length (store s)) else map_get q (files s)).
  { intros q. by apply (attach_index s parent (pathOf l0) k). }
  split.
  - by apply (attach_WF s parent (pathOf l0) k nd).
  - intros q r. rewrite Hidx. case_decide as Eq.
    + intros [= <-] _. subst q. exists n. rewrite Hnew.
      split; [done|]. split; [done|]. intros Hf. split; [by left|by apply Hcontent].
    + intros Hq Hne. destruct (Hindex _ _ Hq Hne) as (n' & Hn' & Hty' & Hfile).
      destruct (wf_entry _ Hwf _ _ Hq) as (Hlt & _).
      destruct (attach_fields s parent (pathOf l0) k nd Hwf Hparent r Hlt)
        as (Ft & _ & _ & Fc).
      exists n'. fold s' in Ft, Fc. rewrite Ft, Fc.
      split; [done|]. split; [done|]. intros Hf.
      destruct (Hfile Hf). split; [by right|done].
  - intros q [->|Hin]%elem_of_cons Hne.
    + rewrite Hidx, decide_True by done. by eexists.
    + destruct (Hdone _ Hin Hne) as [r Hr]. exists r.
      by apply (attach_index_old s parent (pathOf l0) k).
Qed.

Lemma rebuild_step rebuilt s p :
  Rebuilt rebuilt s -> p ∈ data.*1 -> p ∉ rebuilt ->
  exists s', rebuildOne p s = Returns tt s' /\ Rebuilt (p :: rebuilt) s'.
Proof using Hkeys Hclosed.
  intros Hrb Hp Hnew. unfold rebuildOne.
  destruct (String.eqb_spec p "/") as [->|Hroot].
  { exists s. split; [done|]. by apply Rebuilt_more. }
  pose proof Hp as [n Hn]%map_get_key. rewrite Hn.
  destruct (Hkeys _ _ Hn Hroot) as (l & Hl & Hne & -> & Hvalid_p & Hc).
  pose proof Hrb as [Hwf Hindex Hdone].
  assert (Hanc : forall m, 0 < m < length l ->
            take m l <> []
            /\ exists n', map_get (catSegs (take m l)) data = Some n'
                          /\ type n' = directory).
  { intros m Hm.
    assert (Htake : take m l <> []).
    { intros E. apply (f_equal length) in E. rewrite length_take in E.
      cbn in E. lia. }
    split; [done|]. apply (Hclosed (take m l) (drop m l));
      rewrite ?take_drop; try done.
    intros E. apply (f_equal length) in E. rewrite length_drop in E.
    cbn in E. lia. }
  assert (Hway : forall m r, m < length l ->
            map_get (pathOf (take m l)) (files s) = Some r ->
            type (deref s r) = directory).
  { intros m r Hm Hr. destruct (decide (m = 0)) as [->|Hm0].
    { change (pathOf (take 0 l)) with "/" in Hr. pose proof (wf_root _ Hwf).
      assert (r = root s) as -> by congruence. apply (wf_root_dir _ Hwf). }
    destruct (Hanc m) as (Htake & n' & Hn' & Hdir); [lia|].
    rewrite pathOf_catSegs in Hr by done.
    destruct (Hindex _ _ Hr) as (n'' & Hn'' & Hty & _).
    { apply catSegs_not_root. by apply Forall_take. }
    congruence. }
  assert (Hvalid : forall m, 0 < m < length l ->
            pathViolation (catSegs (take m l)) = None).
  { intros m Hm. apply (ancestor_valid (catSegs l)); try done.
    by apply normalizePath_catSegs. }
  assert (Hup0 : upTo l 0 s).
  { split; [done|]. split; [|done]. intros m Hm _.
    assert (m = 0) as -> by lia. exists (root s).
    split; [apply (wf_root _ Hwf)|apply (wf_root_dir _ Hwf)]. }
  destruct (ensure_loop l Hl Hvalid (length l - 1) 0 s)
    as (s1 & Hloop & Hup1 & Hfree1); [|done|].
  { destruct l; [done|cbn [length]; lia]. }
  fold (ancestors l) in Hloop.
  destruct (createMissing_canonical (ancestors l) s s1 Hwf) as [Hwf1 Hg].
  { intros q (m & Hm & ->)%ancestors_elem. exists (take m l).
    split; [by apply Forall_take|]. split; [|done]. by apply Hanc. }
  { exact Hloop. }
  assert (Hsegs : segmentsOf (catSegs l) = l) by by apply segmentsOf_catSegs.
  assert (Hparents : createMissingParents (catSegs l) s = Returns tt s1).
  { unfold createMissingParents. fold (rawSegments (catSegs l)).
    rewrite <- rawSegments_normalizePath, Hsegs, directoryPrefixes_ancestors.
    exact Hloop. }
  rewrite (bind_Returns _ _ _ _ _ Hparents).
  pose proof Hup1 as (_ & Hdirs & _).
  assert (Hrb1 : Rebuilt rebuilt s1).
  { split; [done| |].
    - intros q r Hq1 Hqne.
      destruct (map_get q (files s)) as [r0|] eqn:Hq.
      + assert (r0 = r) as ->.
        { pose proof (grows_index _ _ _ Hg _ _ Hq). congruence. }
        destruct (wf_entry _ Hwf _ _ Hq) as (Hlt & _).
        destruct (grows_fields _ _ _ Hg r Hlt) as (Gt & _ & _ & Gc).
        rewrite Gt, Gc. by apply Hindex.
      + destruct (decide (q ∈ ancestors l)) as [Hin|Hnin].
        2:{ pose proof (grows_fresh _ _ _ Hg _ Hq Hnin). congruence. }
        apply ancestors_elem in Hin as (m & Hm & ->).
        destruct (Hanc m Hm) as (Htake & n' & Hn' & Hdir).
        destruct (Hdirs m) as (r' & Hr' & Hdir'); [lia..|].
        rewrite pathOf_catSegs in Hr' by done.
        assert (r' = r) as -> by congruence.
        exists n'. split; [done|]. split; [congruence|].
        intros Hf. congruence.
    - intros q Hin Hqne. destruct (Hdone _ Hin Hqne) as [r Hr].
      exists r. by apply (grows_index _ _ _ Hg). }
  destruct (exists_last Hne) as (l0 & k & El).
  assert (Hl0 : Forall okSeg l0 /\ okSeg k).
  { rewrite El in Hl. by apply Forall_app in Hl as [? [? _]%Forall_cons]. }
  destruct Hl0 as [Hl0 Hk].
  assert (Etake : take (length l - 1) l = l0).
  { rewrite El, List.length_app. cbn [length].
    replace (length l0 + 1 - 1) with (length l0) by lia.
    by rewrite take_app_length. }
  destruct (Hdirs (length l - 1)) as (parent & Hparent & Hdir); [lia| |].
  { destruct l; [done|]. cbn [length]. lia. }
  rewrite Etake in Hparent.
  assert (Ejoin : catSegs l = joinPath (pathOf l0) k).
  { rewrite El, joinPath_pathOf by done. by destruct l0. }
  destruct (type n) eqn:Hkind.
  - (* a file *)
    assert (Hfree : map_get (catSegs l) (files s) = None).
    { destruct (map_get (catSegs l) (files s)) as [r|] eqn:E; [|done].
      destruct (Hindex _ _ E Hroot) as (n' & Hn' & _ & Hfile).
      assert (n' = n) as -> by congruence.
      by destruct (Hfile Hkind). }
    specialize (Hfree1 Hfree).
    assert (Hcreate : createFile (catSegs l) (orEmpty (content n)) s1
              = Returns (Some (length (store s1)))
                  (attached s1 parent (joinPath (pathOf l0) k) k
                     (mkNode file k (joinPath (pathOf l0) k)
                        (Some (orEmpty (content n))) None))).
    { rewrite createFile_walk
        by (done || (by apply Hc) || by rewrite normalizePath_catSegs).
      rewrite Hsegs.
      assert (Hagain : forEach (ancestors l) ensure s1 = Returns tt s1).
      { apply forEach_same. intros q (m & Hm & ->)%ancestors_elem.
        by apply (settled_walk l Hl Hvalid s1). }
      rewrite (bind_Returns _ _ _ _ _ Hagain). rewrite El.
      apply place_attaches; try done. by rewrite <- El. }
    rewrite (bind_Returns _ _ _ _ _ Hcreate). eexists. split; [done|].
    rewrite Ejoin in Hfree1, Hn |- *.
    apply (Rebuilt_attached rebuilt s1 l0 k parent _ n);
      try done; try (by rewrite Hkind).
  - (* a directory *)
    destruct (map_get (catSegs l) (files s1)) as [r|] eqn:Hhere.
    + assert (Hcreate : createDirectory (catSegs l) s1 = Returns None s1).
      { unfold createDirectory, validatePath. rewrite Hvalid_p.
        rewrite bind_ret, bind_get, normalizePath_catSegs by done.
        unfold map_has. by rewrite Hhere. }
      rewrite (bind_Returns _ _ _ _ _ Hcreate). exists s1.
      split; [done|]. apply Rebuilt_more; [done|]. intros _. by eexists.
    + assert (Hcreate : createDirectory (catSegs l) s1
                = Returns (Some (length (store s1)))
                    (attached s1 parent (joinPath (pathOf l0) k) k
                       (dirNode (pathOf l0) k))).
      { rewrite El. apply createDirectory_creates; try done;
          by rewrite <- El. }
      rewrite (bind_Returns _ _ _ _ _ Hcreate). eexists. split; [done|].
      rewrite Ejoin in Hhere, Hn |- *.
      apply (Rebuilt_attached rebuilt s1 l0 k parent _ n);
        try done; try (by rewrite Hkind); intros Hf; congruence.
Qed.

Lemma rebuild_loop todo : forall rebuilt s,
  Rebuilt rebuilt s ->
  (forall x, x ∈ todo -> x ∈ data.*1 /\ x ∉ rebuilt) ->
  NoDup todo ->
  exists s', forEach todo rebuildOne s = Returns tt s'
    /\ Rebuilt (rev todo ++ rebuilt) s'.
Proof using Hkeys Hclosed.
  induction todo as [|p todo IH]; intros rebuilt s Hrb Htodo Hnd.
  { by exists s. }
  apply NoDup_cons in Hnd as [Hp Hnd].
  destruct (Htodo p ltac:(left)) as [Hkey Hnew].
  destruct (rebuild_step rebuilt s p Hrb Hkey Hnew) as (s1 & Hrun & Hrb1).
  destruct (IH (p :: rebuilt) s1 Hrb1) as (s' & Hloop & Hrb'); [|done|].
  { intros x Hx. destruct (Htodo x ltac:(by right)) as [? ?].
    split; [done|]. intros [->|?]%elem_of_cons; done. }
  exists s'. rewrite forEach_cons, (bind_Returns _ _ _ _ _ Hrun).
  split; [done|]. cbn [rev]. by rewrite <- List.app_assoc.
Qed.

End Nodes.

(** What the index holds at a path: the kind of the node, and the
    content when it is a file. *)
Definition shape (fs : VirtualFileSystem) (q : string)
  : option (NodeType * string) :=
  match map_get q (files fs) with
  | Some r =>
      Some (type (deref fs r),
            if decide (type (deref fs r) = file)
            then orEmpty (content (deref fs r)) else "")
  | None => None
  end.

Lemma deserializeFromNodes_rebuilds (data : list (string * FileNode))
    (fs : VirtualFileSystem) :
  WF fs ->
  NoDup data.*1 ->
  (forall p n, map_get p data = Some n -> p <> "/" ->
     exists l, Forall okSeg l /\ l <> [] /\ p = catSegs l
       /\ pathViolation p = None
       /\ (type n = file -> contentViolation (orEmpty (content n)) = None)) ->
  (forall l t, Forall okSeg (l ++ t) -> l <> [] -> t <> [] ->
     catSegs (l ++ t) ∈ data.*1 ->
     exists n, map_get (catSegs l) data = Some n /\ type n = directory) ->
  exists fs',
    deserializeFromNodes data fs = Returns tt fs'
    /\ WF fs'
    /\ forall q, q <> "/" ->
         match map_get q (files fs') with
         | Some r =>
             exists n, map_get q data = Some n
               /\ type (deref fs' r) = type n
               /\ (type n = file ->
                   content (deref fs' r) = Some (orEmpty (content n)))
         | None => map_get q data = None
         end.
Proof.
  intros Hwf Hnd Hkeys Hclosed.
  destruct (clearAll_WF fs Hwf) as (s0 & Hclear & Hwf0 & Honly).
  assert (Hrb0 : Rebuilt data [] s0).
  { split; [done| |by intros q Hq%elem_of_nil].
    intros q r Hq Hne. by pose proof (Honly _ _ Hq). }
  destruct (rebuild_loop data Hkeys Hclosed (sortStrings data.*1) [] s0 Hrb0)
    as (fs' & Hloop & [Hwf' Hindex Hdone]).
  { intros x Hx. rewrite elem_of_sortStrings in Hx.
    split; [done|apply not_elem_of_nil]. }
  { by apply NoDup_sortStrings. }
  rewrite List.app_nil_r in Hindex, Hdone.
  assert (Hall : forall x, x ∈ rev (sortStrings data.*1) <-> x ∈ data.*1).
  { intros x. by rewrite list_elem_of_In, <- in_rev, <- list_elem_of_In,
      elem_of_sortStrings. }
  exists fs'. split; [|split; [done|]].
  { unfold deserializeFromNodes. rewrite (bind_Returns _ _ _ _ _ Hclear).
    rewrite map_fst_fmap. exact Hloop. }
  intros q Hq. destruct (map_get q (files fs')) as [r|] eqn:Hr.
  - destruct (Hindex _ _ Hr Hq) as (n & Hn & Hty & Hfile).
    exists n. split; [done|]. split; [done|]. intros Hf.
    by destruct (Hfile Hf).
  - destruct (map_get q data) eqn:E; [|done].
    assert (Hin : q ∈ rev (sortStrings data.*1)).
    { apply Hall, map_get_key. by eexists. }
    destruct (Hdone _ Hin Hq) as [r Hr']. congruence.
Qed.

Lemma serializeEntries_NoDup fs entries acc :
  NoDup acc.*1 -> NoDup (serializeEntries fs entries acc).*1.
Proof.
  revert acc. induction entries as [|[p r] entries IH]; intros acc Hacc;
    [done|].
  cbn [serializeEntries]. apply IH. by apply map_set_NoDup.
Qed.

Lemma serialize_get fs q :
  NoDup (files fs).*1 ->
  map_get q (serialize fs)
  = option_map (fun r => descriptor (deref fs r)) (map_get q (files fs)).
Proof.
  intros Hnd. unfold serialize. rewrite serializeEntries_get by done.
  by destruct (map_get q (files fs)).
Qed.

(** X26.  [serialize] and [deserializeFromNodes] round trip: for a file
    system that satisfies the invariant of the data model and whose
    indexed paths and contents pass the checks, [deserializeFromNodes] of
    what [serialize] returns, into any file system that satisfies the
    invariant, returns and leaves a file system whose index holds the
    same paths, each with the same kind and, for a file, the same
    content.  The invariant holds in it. *)
Theorem serialize_round_trip (fs target : VirtualFileSystem) :
  WF fs -> WF target ->
  NoDup (files fs).*1 ->
  (forall p r, map_get p (files fs) = Some r ->
     pathViolation p = None
     /\ contentViolation (orEmpty (content (deref fs r))) = None) ->
  exists fs',
    deserializeFromNodes (serialize fs) target = Returns tt fs'
    /\ WF fs'
    /\ forall q, shape fs' q = shape fs q.
Proof.
  intros Hwf Htarget Hnd Hvalid.
  assert (Hdesc : forall n, type (descriptor n) = type n
            /\ (type n = file -> content (descriptor n) = content n)).
  { intros n. unfold descriptor. case_decide as E; [|done].
    split; [done|]. intros Hf. congruence. }
  assert (Hkey : forall p n, map_get p (serialize fs) = Some n ->
            exists r, map_get p (files fs) = Some r
                      /\ n = descriptor (deref fs r)).
  { intros p n. rewrite serialize_get by done.
    destruct (map_get p (files fs)) as [r|]; [|done].
    intros [= <-]. by exists r. }
  destruct (deserializeFromNodes_rebuilds (serialize fs) target Htarget)
    as (fs' & Hrun & Hwf' & Hsame).
  - apply serializeEntries_NoDup, NoDup_nil_2.
  - intros p n Hn Hroot. destruct (Hkey _ _ Hn) as (r & Hr & ->).
    destruct (wf_entry _ Hwf _ _ Hr) as (_ & _ & l & Hl & ->).
    destruct (Hvalid _ _ Hr) as [Hpv Hcv].
    assert (Hne : l <> []) by (by intros ->).
    exists l. split; [done|]. split; [done|].
    split; [by apply pathOf_catSegs|]. split; [done|].
    intros Hf. destruct (Hdesc (deref fs r)) as [Ht Hc].
    rewrite Ht in Hf. by rewrite (Hc Hf).
  - intros l t Hok Hne Ht [n Hn]%map_get_key.
    destruct (Hkey _ _ Hn) as (r & Hr & _).
    pose proof Hok as [Hl _]%Forall_app.
    rewrite <- pathOf_catSegs in Hr by (by destruct l).
    destruct (index_prefix_dir fs Hwf l t r Hok Ht Hr) as (y & Hy & Hdir).
    rewrite pathOf_catSegs in Hy by done.
    exists (descriptor (deref fs y)). rewrite serialize_get, Hy by done.
    split; [done|]. by destruct (Hdesc (deref fs y)) as [-> _].
  - exists fs'. split; [done|]. split; [done|]. intros q. unfold shape.
    destruct (decide (q = "/")) as [->|Hq].
    { rewrite (wf_root _ Hwf), (wf_root _ Hwf').
      rewrite (wf_root_dir _ Hwf), (wf_root_dir _ Hwf'). done. }
    specialize (Hsame q Hq).
    destruct (map_get q (files fs')) as [r'|].
    + destruct Hsame as (n & Hn & Hty & Hfile).
      destruct (Hkey _ _ Hn) as (r & Hr & ->). rewrite Hr.
      destruct (Hdesc (deref fs r)) as [Ht Hc]. rewrite Ht in Hty, Hfile.
      rewrite Hty.
      destruct (decide (type (deref fs r) = file)) as [Hf|]; [|done].
      rewrite (Hfile Hf), (Hc Hf). done.
    + rewrite serialize_get in Hsame by done.
      by destruct (map_get q (files fs)).
Qed.

Lemma serialize_round_trip_witness :
  let fs := after (createFile "/src/App.jsx" "a" VFS.new) in
  exists fs',
    deserializeFromNodes (serialize fs) VFS.new = Returns tt fs'
    /\ shape fs' "/src/App.jsx" = Some (file, "a")
    /\ shape fs' "/src" = Some (directory, "")
    /\ shape fs' "/App.jsx" = None.
Proof.
  intros fs.
  assert (Hwf : WF fs).
  { apply (createFile_canonical VFS.new fs ["src"; "App.jsx"] "a" (Some 2)
             WF_new); [by repeat constructor|done|reflexivity]. }
  destruct (serialize_round_trip fs VFS.new Hwf WF_new)
    as (fs' & Hrun & _ & Hshape).
  - change ((files fs).*1) with ["/"; "/src"; "/src/App.jsx"].
    repeat (apply NoDup_cons; split;
            [rewrite ?elem_of_cons, elem_of_nil; intros H;
             repeat (destruct H as [H|H]; [discriminate H|]); done|]).
    apply NoDup_nil_2.
  - intros p r.
    change (files fs)
      with ([("/", 0); ("/src", 1); ("/src/App.jsx", 2)] : list (string * ref)).
    cbn [map_get]. repeat case_decide; try done; intros [= <-]; subst p;
      split; reflexivity.
  - exists fs'. split; [exact Hrun|]. rewrite !Hshape. by repeat split.
Defined.

End Rebuild.
(** * [listDirectory] and the index *)

Module Listing.
Import JS PathUtils VFS StringFacts MapFacts Segments VFSFacts RenameFacts.

Lemma elem_of_values {V} (c : V) (cs : list (string * V)) :
  NoDup cs.*1 ->
  c ∈ List.map snd cs <-> exists k, map_get k cs = Some c.
Proof.
  intros Hnd. split.
  - intros Hin. apply list_elem_of_In, in_map_iff in Hin as ([k c'] & E & Hin).
    cbn in E. subst c'. exists k. apply map_get_In_NoDup; [done|].
    by apply list_elem_of_In.
  - intros [k Hk]. apply map_get_Some_In in Hk.
    apply list_elem_of_In, in_map_iff. exists (k, c).
    split; [done|]. by apply list_elem_of_In.
Qed.

(** X23.  In a file system that satisfies the invariant of the data
    model, [listDirectory] returns an array exactly for a valid path
    that indexes a directory, and the array holds exactly the nodes that
    the index holds one segment below that path: a node with the name
    [k] is in it if and only if it is indexed at the path followed by
    [k].  The state is not touched. *)
Theorem listDirectory_lists_index (p : string) (fs : VirtualFileSystem) :
  WF fs ->
  exists res,
    listDirectory p fs = Returns res fs
    /\ (is_Some res <->
        isValidPath p = true
        /\ exists d, map_get (normalizePath p) (files fs) = Some d
                     /\ type (deref fs d) = directory)
    /\ forall cs, res = Some cs ->
         forall k c, okSeg k ->
           (c ∈ cs /\ name (deref fs c) = k)
           <-> map_get (joinPath (normalizePath p) k) (files fs) = Some c.
Proof.
  intros Hwf. unfold listDirectory.
  destruct (isValidPath p) eqn:Hp; cbn [negb].
  2:{ exists None. split; [done|].
      split; [|done]. split; [by intros [? [=]]|by intros [[=] _]]. }
  rewrite bind_filesGet. set (N := normalizePath p).
  destruct (map_get N (files fs)) as [d|] eqn:Hd.
  2:{ exists None. split; [done|]. split; [|done].
      split; [by intros [? [=]]|by intros (_ & ? & [=] & _)]. }
  rewrite bind_read.
  destruct (decide (type (deref fs d) = directory)) as [Hdir|Hfile].
  2:{ exists None. split; [done|]. split; [|done].
      split; [by intros [? [=]]|]. intros (_ & d' & [= <-] & Hdir). done. }
  eexists. split; [reflexivity|]. split.
  { split; [|by eexists]. intros _. split; [done|]. by exists d. }
  intros cs' [= <-] k c Hk.
  destruct (wf_dir _ Hwf _ _ Hd Hdir) as (cs & Hcs & Hnd & Hall).
  rewrite Hcs. cbn [default].
  destruct (wf_entry _ Hwf _ _ Hd) as (_ & _ & l & Hl & EN).
  split.
  - intros [Hin Hname]. apply elem_of_values in Hin as [k' Hk']; [|done].
    destruct (Hall _ _ Hk') as (_ & Hname' & Hidx). congruence.
  - intros Hc. rewrite EN, joinPath_pathOf in Hc by done.
    destruct (index_parent fs Hwf l k c Hl Hk Hc)
      as (y & cs1 & Hy & _ & Hcs1 & Hin).
    rewrite <- EN in Hy. assert (y = d) as -> by congruence.
    assert (cs1 = cs) as -> by congruence.
    split; [apply elem_of_values; [done|by exists k]|].
    by destruct (Hall _ _ Hin) as (_ & ? & _).
Qed.

Lemma listDirectory_lists_index_witness :
  let fs := after (createFile "/dir/x.txt" "hi" VFS.new) in
  listDirectory "/dir/" fs = Returns (Some [2]) fs
  /\ map_get "/dir/x.txt" (files fs) = Some 2.
Proof.
  intros fs.
  assert (Hwf : WF fs).
  { apply (createFile_canonical VFS.new fs ["dir"; "x.txt"] "hi" (Some 2)
             WF_new); [by repeat constructor|done|reflexivity]. }
  destruct (listDirectory_lists_index "/dir/" fs Hwf)
    as (res & Hrun & _ & Hiff).
  assert (Hlist : listDirectory "/dir/" fs = Returns (Some [2]) fs)
    by reflexivity.
  split; [exact Hlist|].
  rewrite Hlist in Hrun. injection Hrun as <-.
  apply (Hiff [2] eq_refl "x.txt" 2); [done|].
  split; [by left|reflexivity].
Defined.

End Listing.
(** * [escapeHtml]: nothing is lost and nothing is let through *)

Module EscapeFacts.
Import JS Html StringFacts HtmlFacts.
Import Pipeline (dq).

Lemma replaceChar_app c rep s t :
  replaceChar c rep (s +:+ t) = replaceChar c rep s +:+ replaceChar c rep t.
Proof.
  induction s as [|d s IH]; [by rewrite !app_nil_l|].
  rewrite app_cons. cbn [replaceChar]. rewrite IH.
  destruct (Ascii.eqb d c); [by rewrite app_assoc|by rewrite app_cons].
Qed.

Lemma escapeHtml_app s t : escapeHtml (s +:+ t) = escapeHtml s +:+ escapeHtml t.
Proof. unfold escapeHtml. by rewrite !replaceChar_app. Qed.

Lemma replaceChar_other c rep d :
  Ascii.eqb d c = false -> replaceChar c rep (String d "") = String d "".
Proof. intros H. cbn. by rewrite H. Qed.

(** The five characters that [escapeHtml] replaces. *)
Definition special (c : ascii) : bool :=
  Ascii.eqb c "&" || Ascii.eqb c "<" || Ascii.eqb c ">" || Ascii.eqb c dq
  || Ascii.eqb c "'".

Lemma escapeHtml_plain c :
  special c = false -> escapeHtml (String c "") = String c "".
Proof.
  unfold special. intros H.
  apply orb_false_elim in H as [H H5]. apply orb_false_elim in H as [H H4].
  apply orb_false_elim in H as [H H3]. apply orb_false_elim in H as [H1 H2].
  unfold escapeHtml. by rewrite !replaceChar_other.
Qed.

Lemma escapeHtml_cons c s :
  escapeHtml (String c s) = escapeHtml (String c "") +:+ escapeHtml s.
Proof. by rewrite <- escapeHtml_app. Qed.

(** What a special character becomes. *)
Lemma escapeHtml_special c :
  special c = true ->
  (c = "&"%char /\ escapeHtml (String c "") = "&amp;")
  \/ (c = "<"%char /\ escapeHtml (String c "") = "&lt;")
  \/ (c = ">"%char /\ escapeHtml (String c "") = "&gt;")
  \/ (c = dq /\ escapeHtml (String c "") = "&quot;")
  \/ (c = "'"%char /\ escapeHtml (String c "") = "&#x27;").
Proof.
  unfold special.
  destruct (Ascii.eqb_spec c "&") as [->|_]; [by left|].
  destruct (Ascii.eqb_spec c "<") as [->|_]; [right; by left|].
  destruct (Ascii.eqb_spec c ">") as [->|_]; [right; right; by left|].
  destruct (Ascii.eqb_spec c dq) as [->|_];
    [right; right; right; by left|].
  destruct (Ascii.eqb_spec c "'") as [->|_]; [|done].
  right; right; right; by right.
Qed.

Lemma escapeHtml_nonempty c s : escapeHtml (String c s) <> "".
Proof.
  rewrite escapeHtml_cons. destruct (special c) eqn:Hc.
  - destruct (escapeHtml_special c Hc)
      as [[_ ->]|[[_ ->]|[[_ ->]|[[_ ->]|[_ ->]]]]]; by rewrite app_cons.
  - rewrite escapeHtml_plain by done. by rewrite app_cons.
Qed.

Lemma escapeHtml_inj s : forall t, escapeHtml s = escapeHtml t -> s = t.
Proof.
  induction s as [|a s IH]; intros [|b t] E.
  - done.
  - symmetry in E. by apply escapeHtml_nonempty in E.
  - by apply escapeHtml_nonempty in E.
  - rewrite (escapeHtml_cons a), (escapeHtml_cons b) in E.
    destruct (special a) eqn:Ha; destruct (special b) eqn:Hb.
    + destruct (escapeHtml_special a Ha)
        as [[-> Ea]|[[-> Ea]|[[-> Ea]|[[-> Ea]|[-> Ea]]]]];
        destruct (escapeHtml_special b Hb)
          as [[-> Eb]|[[-> Eb]|[[-> Eb]|[[-> Eb]|[-> Eb]]]]];
        rewrite ?Ea, ?Eb in E; rewrite ?app_cons, ?app_nil_l in E;
        try discriminate E; f_equal; apply IH; congruence.
    + rewrite (escapeHtml_plain b) in E by done.
      destruct (escapeHtml_special a Ha)
        as [[-> Ea]|[[-> Ea]|[[-> Ea]|[[-> Ea]|[-> Ea]]]]];
        rewrite Ea in E; rewrite ?app_cons, ?app_nil_l in E;
        injection E as <- _; discriminate Hb.
    + rewrite (escapeHtml_plain a) in E by done.
      destruct (escapeHtml_special b Hb)
        as [[-> Eb]|[[-> Eb]|[[-> Eb]|[[-> Eb]|[-> Eb]]]]];
        rewrite Eb in E; rewrite ?app_cons, ?app_nil_l in E;
        injection E as -> _; discriminate Ha.
    + rewrite (escapeHtml_plain a), (escapeHtml_plain b) in E by done.
      rewrite !app_cons, !app_nil_l in E. injection E as -> E.
      f_equal. by apply IH.
Qed.

Fixpoint plain (s : string) : bool :=
  match s with
  | EmptyString => true
  | String c s' => negb (special c) && plain s'
  end.

Lemma escapeHtml_id s : plain s = true -> escapeHtml s = s.
Proof.
  induction s as [|c s IH]; [done|]. cbn [plain].
  intros [Hc Hs]%andb_true_iff. apply negb_true_iff in Hc.
  rewrite escapeHtml_cons, escapeHtml_plain, IH by done.
  by rewrite app_cons, app_nil_l.
Qed.

(** X24.  [escapeHtml] loses nothing and lets nothing through: it works
    character by character (the escape of a concatenation is the
    concatenation of the escapes), two different texts never have the
    same escape, a text without the five characters it replaces is left
    as it is, and its result holds no angle bracket and no quote of
    either kind. *)
Theorem escapeHtml_faithful (s t : string) :
  escapeHtml (s +:+ t) = escapeHtml s +:+ escapeHtml t
  /\ (escapeHtml s = escapeHtml t -> s = t)
  /\ (plain s = true -> escapeHtml s = s)
  /\ includesChar "<" (escapeHtml s) = false
  /\ includesChar ">" (escapeHtml s) = false
  /\ includesChar dq (escapeHtml s) = false
  /\ includesChar "'" (escapeHtml s) = false.
Proof.
  split; [apply escapeHtml_app|]. split; [apply escapeHtml_inj|].
  split; [apply escapeHtml_id|]. apply escapeHtml_safe.
Qed.

End EscapeFacts.
(** * The body of the preview document: the report or the bootstrap *)

Module Precedence.
Import JS Regex Html StringFacts HtmlFacts EscapeFacts.
Import Pipeline (Q, nl, dq, truthy).
Import VFS (map_get).



Section Json.
Variable JSON_stringify_string : string -> string.
Variable JSON_parse_imports : string -> option (list (string * string)).

(** The address that the bootstrap script imports: the entry of the
    import map for the entry point when [JSON.parse] finds one that is
    not empty, the entry point itself otherwise. *)
Lemma resolveEntryPoint_cases entryPoint importMap :
  let url := resolveEntryPoint JSON_parse_imports entryPoint importMap in
  (forall importsObj u,
     JSON_parse_imports importMap = Some importsObj ->
     map_get entryPoint importsObj = Some u -> u <> "" -> url = u)
  /\ (JSON_parse_imports importMap = None -> url = entryPoint)
  /\ (forall importsObj,
        JSON_parse_imports importMap = Some importsObj ->
        map_get entryPoint importsObj = None -> url = entryPoint).
Proof.
  unfold resolveEntryPoint. split; [|split].
  - intros importsObj u -> -> Hu. cbn.
    by destruct (String.eqb_spec u "").
  - by intros ->.
  - by intros importsObj -> ->.
Qed.


End Json.

End Precedence.
(** * The style sheet of a build *)

Module StyleFacts.
Import JS PathUtils Regex Pipeline StringFacts PipelineFacts.
Import VFS (map_get, map_has, map_set, map_delete).

(** The texts of a list, one after the other. *)
Definition glue (l : list string) : string := foldr String.append "" l.

Lemma glue_app l1 l2 : glue (l1 ++ l2) = glue l1 +:+ glue l2.
Proof.
  induction l1 as [|x l1 IH]; [by rewrite app_nil_l|].
  cbn [glue foldr app]. fold (glue (l1 ++ l2)) (glue l1).
  by rewrite IH, app_assoc.
Qed.

(** What a file of the map adds to the style sheet: a [.css] file that
    is not read as a script adds its path in a comment and its content. *)
Definition sheetOf (entry : string * string) : string :=
  let '(p, content) := entry in
  if isJavaScriptFile p then ""
  else if endsWith p ".css"
       then "/* " +:+ p +:+ " */" +:+ nl +:+ content +:+ nl +:+ nl
       else "".

(** The file that a style-sheet import names, as [processCssImports]
    resolves it. *)
Definition cssTarget (from cssPath : string) : string :=
  if startsWith cssPath "@/" then replaceFirst "@/" "/" cssPath
  else if startsWith cssPath "./" || startsWith cssPath "../"
       then resolveRelativePath (beforeLastSlash from) cssPath
       else cssPath.

(** What a style-sheet import adds: a comment when its file is not in
    the map. *)
Definition noteOf (files : list (string * string))
  (entry : string * string) : string :=
  let '(from, cssPath) := entry in
  if negb (map_has (cssTarget from cssPath) files)
  then "/* " +:+ cssPath +:+ " not found */" +:+ nl
  else "".

Section Environment.
Variable babel : string -> string -> bool -> BabelOutcome.
Variable createObjectURL : nat -> string -> string.
Variable JSON_stringify_imports : list (string * string) -> string.

(** The style-sheet imports that a file of the map contributes: those
    of a script that Babel transforms into code that [createBlobURL]
    accepts. *)
Definition cssImportsFrom (entry : string * string)
  : list (string * string) :=
  let '(p, content) := entry in
  if isJavaScriptFile p then
    match babel (processedCode content) p (isTypeScript p) with
    | BabelReturns result =>
        match firstMatching dangerousPatterns (default "" result) with
        | None => List.map (pair p) (cssImportsOf content)
        | Some _ => []
        end
    | BabelThrows _ => []
    end
  else [].

(** *** The scripts add no style *)

Lemma styles_addImportVariations p url b :
  styles (addImportVariations p url b) = styles b.
Proof. unfold addImportVariations. by destruct (startsWith p "/"). Qed.

Lemma allCss_addImportVariations p url b :
  allCssImports (addImportVariations p url b) = allCssImports b.
Proof. unfold addImportVariations. by destruct (startsWith p "/"). Qed.

Lemma styles_collectImports l b :
  styles (List.fold_left collectImport l b) = styles b.
Proof.
  revert b. induction l as [|x l IH]; intros b; cbn; [done|].
  rewrite IH. unfold collectImport. by destruct (isPackage x).
Qed.

Lemma allCss_collectImports l b :
  allCssImports (List.fold_left collectImport l b) = allCssImports b.
Proof.
  revert b. induction l as [|x l IH]; intros b; cbn; [done|].
  rewrite IH. unfold collectImport. by destruct (isPackage x).
Qed.

Lemma styles_collectCssImports from l b :
  styles (List.fold_left (collectCssImport from) l b) = styles b.
Proof.
  revert b. induction l as [|x l IH]; intros b; cbn; [done|]. by rewrite IH.
Qed.

Lemma allCss_collectCssImports from l b :
  allCssImports (List.fold_left (collectCssImport from) l b)
  = allCssImports b ++ List.map (pair from) l.
Proof.
  revert b. induction l as [|x l IH]; intros b; cbn [List.fold_left List.map].
  - by rewrite List.app_nil_r.
  - rewrite IH. cbn. by rewrite <- List.app_assoc.
Qed.

Lemma processJavaScriptFile_styles p content ex b :
  isJavaScriptFile p = true ->
  styles (processJavaScriptFile babel createObjectURL p content ex b)
  = styles b
  /\ allCssImports (processJavaScriptFile babel createObjectURL p content ex b)
     = allCssImports b ++ cssImportsFrom (p, content).
Proof.
  intros Hjs. unfold processJavaScriptFile, cssImportsFrom. rewrite Hjs.
  destruct (babel (processedCode content) p (isTypeScript p))
    as [result|message] eqn:Hb.
  - rewrite (transformJSX_returns babel _ _ _ _ Hb).
    cbn [error truthy code missingImports cssImports default].
    unfold createBlobURL.
    rewrite bool_decide_true by apply javascript_allowed. cbn [negb].
    destruct (firstMatching dangerousPatterns (default "" result)).
    + cbn. by rewrite List.app_nil_r.
    + rewrite styles_collectCssImports, styles_collectImports,
        styles_addImportVariations.
      rewrite allCss_collectCssImports, allCss_collectImports,
        allCss_addImportVariations. done.
  - rewrite (transformJSX_throws babel _ _ _ _ Hb).
    cbn [error truthy code missingImports cssImports default].
    destruct (String.eqb message ""); cbn [negb].
    + unfold createBlobURL.
      rewrite bool_decide_true by apply javascript_allowed. cbn [negb].
      change (firstMatching dangerousPatterns "") with (@None string).
      cbn [List.fold_left].
      rewrite styles_addImportVariations, allCss_addImportVariations.
      cbn. by rewrite List.app_nil_r.
    + cbn. by rewrite List.app_nil_r.
Qed.

Lemma processFile_styles ex b entry :
  styles (processFile babel createObjectURL ex b entry)
  = styles b +:+ sheetOf entry
  /\ allCssImports (processFile babel createObjectURL ex b entry)
     = allCssImports b ++ cssImportsFrom entry.
Proof.
  destruct entry as [p content]. unfold processFile, sheetOf.
  destruct (isJavaScriptFile p) eqn:Hjs.
  - rewrite app_nil_r. by apply processJavaScriptFile_styles.
  - unfold cssImportsFrom. rewrite Hjs, List.app_nil_r.
    destruct (endsWith p ".css"); [done|]. by rewrite app_nil_r.
Qed.

Lemma fold_processFile_styles ex files : forall b,
  styles (List.fold_left (processFile babel createObjectURL ex) files b)
  = styles b +:+ glue (List.map sheetOf files)
  /\ allCssImports
       (List.fold_left (processFile babel createObjectURL ex) files b)
     = allCssImports b ++ List.flat_map cssImportsFrom files.
Proof.
  induction files as [|entry files IH]; intros b.
  - cbn. by rewrite app_nil_r, List.app_nil_r.
  - cbn [List.fold_left List.map List.flat_map].
    destruct (IH (processFile babel createObjectURL ex b entry)) as [-> ->].
    destruct (processFile_styles ex b entry) as [-> ->].
    change (glue (sheetOf entry :: List.map sheetOf files))
      with (sheetOf entry +:+ glue (List.map sheetOf files)).
    by rewrite app_assoc, List.app_assoc.
Qed.

(** *** The imports add their comments *)

Lemma fold_processCssImport_styles files entries : forall b,
  styles (List.fold_left (processCssImport files) entries b)
  = styles b +:+ glue (List.map (noteOf files) entries).
Proof.
  induction entries as [|[from cssPath] entries IH]; intros b.
  - cbn. by rewrite app_nil_r.
  - cbn [List.fold_left List.map]. rewrite IH.
    change (glue (noteOf files (from, cssPath)
                  :: List.map (noteOf files) entries))
      with (noteOf files (from, cssPath)
            +:+ glue (List.map (noteOf files) entries)).
    rewrite <- app_assoc. f_equal.
    unfold processCssImport, noteOf, cssTarget.
    destruct (negb (map_has _ files)); [done|]. by rewrite app_nil_r.
Qed.

(** *** The placeholders add no style *)

Lemma placeholderStep_styles files b b' importPath :
  placeholderStep createObjectURL files b importPath = Done b' ->
  styles b' = styles b.
Proof.
  unfold placeholderStep.
  destruct (_ || _); [by intros [= <-]|].
  destruct (isPackage importPath); [by intros [= <-]|].
  destruct (existsb _ _); [by intros [= <-]|].
  destruct (createBlobURL _ _ _ _); [|done].
  intros [= <-]. by destruct (startsWith importPath "@/").
Qed.

Lemma placeholderLoop_styles files todo : forall b b',
  placeholderLoop createObjectURL files todo b = Done b' ->
  styles b' = styles b.
Proof.
  induction todo as [|importPath todo IH]; intros b b'.
  - by intros [= <-].
  - cbn [placeholderLoop].
    destruct (placeholderStep createObjectURL files b importPath)
      as [b1|] eqn:E; [|done].
    intros Hloop. rewrite (IH _ _ Hloop).
    by apply (placeholderStep_styles files b b1 importPath).
Qed.

(** X25.  The style sheet of a build that returns is, in this order, the
    [.css] files of the map that are not read as scripts, each as a
    comment with its path and its content, in the order of the map; then
    one comment for every style-sheet import, of a script that was
    transformed and accepted, whose file is not in the map.  Scripts,
    rejected files and placeholders add nothing to it. *)
Theorem styles_of_build (files : list (string * string))
    (result : ImportMapResult) :
  build babel createObjectURL JSON_stringify_imports files = Done result ->
  resultStyles result
  = glue (List.map sheetOf files)
    +:+ glue (List.map (noteOf files) (List.flat_map cssImportsFrom files)).
Proof.
  unfold build, buildState, createPlaceholderModules.
  set (b1 := processFiles babel createObjectURL files newBuilder).
  set (b2 := processCssImports files b1).
  destruct (placeholderLoop createObjectURL files (allImports b2) b2)
    as [b3|] eqn:E; [|done].
  intros [= <-]. cbn [resultStyles].
  rewrite (placeholderLoop_styles _ _ _ _ E).
  unfold b2, processCssImports. rewrite fold_processCssImport_styles.
  unfold b1, processFiles.
  destruct (fold_processFile_styles (List.map fst files) files newBuilder)
    as [-> ->].
  cbn [styles allCssImports newBuilder app]. by rewrite app_nil_l.
Qed.

End Environment.

Lemma styles_of_build_witness :
  let files := [("/App.jsx", "import './app.css'"); ("/theme.css", "a{}")] in
  exists result,
    build echoBabel numberedURL noJSON files = Done result
    /\ resultStyles result
       = "/* /theme.css */" +:+ nl +:+ "a{}" +:+ nl +:+ nl
         +:+ "/* ./app.css not found */" +:+ nl.
Proof.
  intros files.
  destruct (build echoBabel numberedURL noJSON files) as [result|] eqn:E;
    [|by vm_compute in E].
  exists result. split; [done|].
  rewrite (styles_of_build echoBabel numberedURL noJSON files result E).
  reflexivity.
Defined.

End StyleFacts.
(** * [rename] and the invariant of the data model *)

Module RenameInvariant.
Import JS PathUtils VFS StringFacts MapFacts Segments VFSFacts RenameFacts
  Propagation PathShape VFSOps Invariant.

(** ** The nodes the walk leaves alone *)

(** [i] is reached from [y] through one child entry or more. *)
Inductive under (s : VirtualFileSystem) : ref -> ref -> Prop :=
  | under_child y cs k c :
      type (deref s y) = directory -> children (deref s y) = Some cs ->
      (k, c) ∈ cs -> under s y c
  | under_step y cs k c i :
      type (deref s y) = directory -> children (deref s y) = Some cs ->
      (k, c) ∈ cs -> under s c i -> under s y i.

Lemma sameShape_sym s s' : sameShape s s' -> sameShape s' s.
Proof. intros H i. destruct (H i) as [? ?]. by split. Qed.

Lemma under_shape s s' y i : sameShape s s' -> under s y i -> under s' y i.
Proof.
  intros Hs. induction 1 as [y cs k c Hty Hcs Hk|y cs k c i Hty Hcs Hk _ IH];
    destruct (Hs y) as [Hty' Hcs'].
  - eapply under_child; [congruence| |done]. congruence.
  - eapply under_step; [congruence| |done..]. congruence.
Qed.

(** [updateChildrenPaths] writes to the nodes below the one it is given,
    and to no other; it keeps the root. *)
Lemma walk_frame stack : forall y s s',
  updateChildrenPaths stack y s = Returns tt s' ->
  root s' = root s /\ forall i, ~ under s y i -> deref s' i = deref s i.
Proof.
  induction stack as [|stack IH]; intros y s s'; [done|].
  rewrite updateChildrenPaths_S.
  destruct (type (deref s y)) eqn:Ety; [by intros [= <-]|].
  destruct (children (deref s y)) as [cs|] eqn:Ecs; [|by intros [= <-]].
  assert (Hloop : forall l s1,
            (forall kc, kc ∈ l -> kc ∈ cs) -> sameShape s s1 ->
            forEach l (fun '(_, child) => visit stack y child) s1
            = Returns tt s' ->
            root s' = root s1
            /\ forall i, ~ under s y i -> deref s' i = deref s1 i).
  { induction l as [|[k c] l IHl]; intros s1 Hsub Hsh.
    { rewrite forEach_nil. by intros [= <-]. }
    rewrite forEach_cons. cbv beta iota.
    destruct (visit stack y c s1) as [[] s3|e s3] eqn:Hv.
    2:{ by rewrite (bind_Throws _ _ _ _ _ Hv). }
    rewrite (bind_Returns _ _ _ _ _ Hv). intros Hrest.
    assert (Hkc : (k, c) ∈ cs) by (apply Hsub; constructor).
    assert (Hc : under s y c) by by eapply under_child.
    rewrite visit_eq in Hv.
    set (m := moved s1 c _) in Hv.
    assert (Hm : sameShape s1 m) by apply moved_shape.
    assert (Hmi : forall i, ~ under s y i -> deref m i = deref s1 i).
    { intros i Hi. apply deref_moved_ne. intros ->. by apply Hi. }
    assert (H13 : root s3 = root s1
                  /\ (forall i, ~ under s y i -> deref s3 i = deref s1 i)
                  /\ sameShape s1 s3).
    { destruct (decide (type (deref s1 c) = directory)).
      - pose proof (updateChildrenPaths_shape _ _ _ _ Hv) as Hm3.
        destruct (IH _ _ _ Hv) as [Hr Hf]. split; [by rewrite Hr|].
        split; [|by apply sameShape_trans with m].
        intros i Hi. rewrite Hf; [by apply Hmi|]. intros Hu. apply Hi.
        eapply under_step; [done..|].
        apply (under_shape m s); [|done].
        apply sameShape_sym. by apply sameShape_trans with s1.
      - injection Hv as <-. split; [done|]. by split. }
    destruct H13 as (Hr & Hf & Hsh3).
    destruct (IHl s3) as [Hr' Hf'].
    - intros kc Hin. apply Hsub. by constructor.
    - by apply sameShape_trans with s1.
    - done.
    - split; [congruence|]. intros i Hi. rewrite Hf', Hf; done. }
  intros Hrun. by apply (Hloop cs s); [|apply sameShape_refl|].
Qed.

(** ** The state in which the walk starts *)

(** The child entries of the node [i] once the moved node [d] has left
    its old parent [op] and entered its new parent [np]. *)
Definition relinkedChildren (op np d : ref) (oldName newName : string)
    (i : ref) (cs : list (string * ref)) : list (string * ref) :=
  let cs1 := if decide (i = op) then map_delete oldName cs else cs in
  if decide (i = np) then map_set newName d cs1 else cs1.

Lemma relinkedChildren_get op np d oldName newName i cs k :
  map_get k (relinkedChildren op np d oldName newName i cs)
  = if decide (i = np /\ k = newName) then Some d
    else if decide (i = op /\ k = oldName) then None
    else map_get k cs.
Proof.
  unfold relinkedChildren.
  destruct (decide (i = np)) as [Enp|Enp], (decide (i = op)) as [Eop|Eop];
    rewrite ?map_get_set, ?map_get_delete;
    repeat (destruct (decide _) as [?|?]); try done; intuition congruence.
Qed.

Lemma relinkedChildren_NoDup op np d oldName newName i cs :
  NoDup cs.*1 -> NoDup (relinkedChildren op np d oldName newName i cs).*1.
Proof.
  intros Hnd. unfold relinkedChildren.
  destruct (decide (i = np)), (decide (i = op));
    auto using map_set_NoDup, map_delete_NoDup.
Qed.

(** The steps of [rename] before the walk, with the child entries, the
    names and the paths they leave. *)
Lemma relink_state stack O N d op np W fs' :
  d < length (store W) -> op < length (store W) -> np < length (store W) ->
  relink stack O N d op np W = Returns true fs' ->
  exists s2,
    relinked W s2 O N (getFileName N) d op np
    /\ match type (deref s2 d), children (deref s2 d) with
       | directory, Some _ => updateChildrenPaths stack d s2 = Returns tt fs'
       | _, _ => fs' = s2
       end
    /\ root s2 = root W
    /\ (forall i, i <> d ->
          name (deref s2 i) = name (deref W i)
          /\ path (deref s2 i) = path (deref W i))
    /\ (forall i cs, children (deref W i) = Some cs ->
          children (deref s2 i)
          = Some (relinkedChildren op np d (name (deref W d))
                    (getFileName N) i cs)).
Proof.
  intros Hdlt Hoplt Hnplt. unfold relink, childrenDelete, childrenSet.
  rewrite bind_read, bind_bind, bind_read.
  destruct (children (deref W op)) as [cso|] eqn:Hcso;
    [|by rewrite bind_throw].
  rewrite bind_write. fold (upd W op (mkNode (type (deref W op))
    (name (deref W op)) (path (deref W op)) (content (deref W op))
    (Some (map_delete (name (deref W d)) cso)))).
  set (sa := upd W op _).
  rewrite bind_read, bind_write.
  fold (upd sa d (mkNode (type (deref sa d)) (getFileName N) N
    (content (deref sa d)) (children (deref sa d)))).
  set (sb := upd sa d _).
  rewrite bind_bind, bind_read.
  destruct (children (deref sb np)) as [csn|] eqn:Hcsn;
    [|by rewrite bind_throw].
  rewrite bind_write. fold (upd sb np (mkNode (type (deref sb np))
    (name (deref sb np)) (path (deref sb np)) (content (deref sb np))
    (Some (map_set (getFileName N) d csn)))).
  set (sc := upd sb np _).
  rewrite bind_filesDelete, bind_filesSet. cbn [store files root].
  set (s2 := mkVFS (store sc) _ _).
  rewrite bind_read. intros Hrun. exists s2.
  assert (Hderef : forall i, deref s2 i = deref sc i) by done.
  assert (Hla : length (store sa) = length (store W)) by apply length_upd.
  assert (Hlb : length (store sb) = length (store W)).
  { unfold sb. by rewrite length_upd. }
  assert (Hkids_a : forall i cs, children (deref W i) = Some cs ->
            children (deref sa i)
            = Some (if decide (i = op)
                    then map_delete (name (deref W d)) cs else cs)).
  { intros i cs Hcs. unfold sa. case_decide as Ei.
    - subst i. rewrite deref_upd_eq by done. cbn [children]. congruence.
    - by rewrite deref_upd_ne. }
  assert (Hkids_b : forall i, children (deref sb i) = children (deref sa i)).
  { intros i. unfold sb. by apply (upd_field children). }
  split; [|split; [|split; [|split]]].
  - split.
    + unfold s2. cbn [store]. unfold sc. by rewrite length_upd.
    + done.
    + intros i. rewrite Hderef. unfold sc, sb, sa.
      by rewrite !(upd_field type).
    + intros i. rewrite Hderef. unfold sc, sb, sa.
      by rewrite !(upd_field content).
    + intros i Hop Hnp. rewrite Hderef. unfold sc.
      rewrite deref_upd_ne by done. unfold sb.
      rewrite (upd_field children) by done. unfold sa.
      by rewrite deref_upd_ne.
    + intros i Hop Hnp Hd. rewrite Hderef. unfold sc, sb, sa.
      by rewrite !deref_upd_ne.
    + rewrite Hderef. unfold sc.
      rewrite (upd_field path) by done. unfold sb.
      rewrite deref_upd_eq by lia. done.
    + rewrite Hderef. unfold sc.
      rewrite (upd_field name) by done. unfold sb.
      rewrite deref_upd_eq by lia. done.
    + exists (map_set (getFileName N) d csn). rewrite Hderef. unfold sc.
      rewrite deref_upd_eq by lia. split; [done|]. apply map_get_set_eq.
  - destruct (type (deref s2 d)); [by injection Hrun|].
    destruct (children (deref s2 d)); [|by injection Hrun].
    destruct (updateChildrenPaths stack d s2) as [[] s3|e s3] eqn:Hu.
    + rewrite (bind_Returns _ _ _ _ _ Hu) in Hrun. by injection Hrun as ->.
    + by rewrite (bind_Throws _ _ _ _ _ Hu) in Hrun.
  - done.
  - intros i Hi. rewrite Hderef. unfold sc.
    rewrite (upd_field name), (upd_field path) by done. unfold sb.
    rewrite deref_upd_ne by done. unfold sa.
    by rewrite (upd_field name), (upd_field path).
  - intros i cs Hcs. rewrite Hderef. unfold relinkedChildren.
    destruct (decide (i = np)) as [->|Enp].
    + unfold sc. rewrite deref_upd_eq by lia. cbn [children].
      rewrite Hkids_b, (Hkids_a _ _ Hcs) in Hcsn. congruence.
    + unfold sc. rewrite deref_upd_ne by done.
      by rewrite Hkids_b, (Hkids_a _ _ Hcs).
Qed.

(** ** Whether a path is another one followed by segments *)

Lemma app_dec (X q : string) :
  (exists t, q = X +:+ t) \/ (forall t, q <> X +:+ t).
Proof.
  revert q. induction X as [|a X IH]; intros q.
  { left. exists q. by rewrite app_nil_l. }
  destruct q as [|b q]; [right; intros t; by rewrite app_cons|].
  destruct (decide (a = b)) as [->|Hne].
  - destruct (IH q) as [[t ->]|Hno].
    + left. exists t. by rewrite app_cons.
    + right. intros t. rewrite app_cons. intros [= E]. by apply (Hno t).
  - right. intros t. rewrite app_cons. intros [= E _]. by apply Hne.
Qed.

Lemma catSegs_dec t :
  (exists r, Forall okSeg r /\ t = catSegs r)
  \/ (forall r, Forall okSeg r -> t <> catSegs r).
Proof.
  destruct (decide (t = catSegs (segmentsOf t))) as [E|Hne].
  - left. exists (segmentsOf t). split; [apply segmentsOf_ok|done].
  - right. intros r Hr ->. apply Hne.
    destruct (decide (r = [])) as [->|Hr0]; [done|].
    by rewrite segmentsOf_catSegs.
Qed.

Lemma below_dec X q :
  (exists r, Forall okSeg r /\ q = X +:+ catSegs r)
  \/ (forall r, Forall okSeg r -> q <> X +:+ catSegs r).
Proof.
  destruct (app_dec X q) as [[t ->]|Hno]; [|right; intros r _; apply Hno].
  destruct (catSegs_dec t) as [(r & Hr & ->)|Hno]; [left; by exists r|].
  right. intros r Hr E. apply (inj (String.append X)) in E.
  by apply (Hno r).
Qed.

(** ** The state when the walk is over

    [W] is the state after the directories towards the destination are
    created; the moved node [d] is indexed in it at [O], its old parent
    [op] one segment above; the new path [N] has the segments [lnp]
    followed by [kN], and the new parent [np] is indexed at [lnp]; [s2]
    is the state in which the walk starts and [fs'] the one in which it
    ends. *)
Section Settled.
Variables (W s2 fs' : VirtualFileSystem) (d op np : ref)
  (lO' : list string) (k0 : string) (lnp : list string) (kN : string).
Let lO := lO' ++ [k0].
Let O := catSegs lO.
Let lN := lnp ++ [kN].
Let N := catSegs lN.
Hypothesis HW : WF W.
Hypothesis HlO' : Forall okSeg lO'.
Hypothesis Hk0 : okSeg k0.
Hypothesis Hd : map_get O (files W) = Some d.
Hypothesis Hop : map_get (pathOf lO') (files W) = Some op.
Hypothesis Hlnp : Forall okSeg lnp.
Hypothesis HkN : okSeg kN.
Hypothesis Hnp : map_get (pathOf lnp) (files W) = Some np.
Hypothesis Hnpd : type (deref W np) = directory.
Hypothesis HNW : map_get N (files W) = None.
Hypothesis Hrl : relinked W s2 O N kN d op np.
Hypothesis Hroot2 : root s2 = root W.
Hypothesis Hnames : forall i, i <> d ->
  name (deref s2 i) = name (deref W i)
  /\ path (deref s2 i) = path (deref W i).
Hypothesis Hkids : forall i cs, children (deref W i) = Some cs ->
  children (deref s2 i)
  = Some (relinkedChildren op np d (name (deref W d)) kN i cs).
Hypothesis Hfresh : forall r r',
  Forall okSeg r -> Forall okSeg r' ->
  N +:+ catSegs r <> O +:+ catSegs r'.
Hypothesis HI : Inv W s2 d lO N (fun q => q <> []) fs'.
Hypothesis Hshape : sameShape s2 fs'.
Hypothesis Hroot : root fs' = root s2.
Hypothesis Hframe : forall i, ~ under s2 d i -> deref fs' i = deref s2 i.

Lemma kept_lO : Forall okSeg lO.
Proof.
  apply Forall_app. split; [done|]. by apply Forall_singleton.
Qed.

Lemma kept_lO_ne : lO <> [].
Proof. unfold lO. by destruct lO'. Qed.

Lemma kept_lN : Forall okSeg lN.
Proof.
  apply Forall_app. split; [done|]. by apply Forall_singleton.
Qed.

Lemma kept_lN_ne : lN <> [].
Proof. unfold lN. by destruct lnp. Qed.

Lemma kept_Hd : map_get (pathOf lO) (files W) = Some d.
Proof. by rewrite pathOf_catSegs by apply kept_lO_ne. Qed.

Lemma kept_O r : pathOf (lO ++ r) = O +:+ catSegs r.
Proof.
  rewrite pathOf_catSegs, catSegs_app; [done|].
  intros [E _]%app_eq_nil. by apply kept_lO_ne.
Qed.

Lemma kept_N r : pathOf (lN ++ r) = N +:+ catSegs r.
Proof.
  rewrite pathOf_catSegs, catSegs_app; [done|].
  intros [E _]%app_eq_nil. by apply kept_lN_ne.
Qed.

Lemma kept_nil (X : string) : X +:+ catSegs [] = X.
Proof. cbn [catSegs]. by rewrite app_nil_r. Qed.

(** The nodes below the moved one are indexed below its old path. *)
Lemma kept_below c r :
  desc W d c r ->
  Forall okSeg r /\ map_get (O +:+ catSegs r) (files W) = Some c.
Proof.
  intros Hc. rewrite <- kept_O.
  apply (desc_index W HW d c r lO kept_lO kept_Hd Hc).
Qed.

Lemma kept_index_below c r :
  Forall okSeg r -> map_get (O +:+ catSegs r) (files W) = Some c ->
  desc W d c r.
Proof.
  intros Hr Hc. apply (index_desc W HW d lO); [apply kept_lO|apply kept_Hd|done|].
  by rewrite kept_O.
Qed.

(** An indexed node has one path. *)
Lemma kept_one_path q q' i :
  map_get q (files W) = Some i -> map_get q' (files W) = Some i -> q = q'.
Proof.
  intros H1 H2.
  destruct (wf_entry _ HW _ _ H1) as (_ & Hp1 & _).
  destruct (wf_entry _ HW _ _ H2) as (_ & Hp2 & _). congruence.
Qed.

Lemma kept_not_op c r : desc W d c r -> c <> op.
Proof.
  intros Hc ->. destruct (kept_below _ _ Hc) as [Hr Hidx].
  rewrite <- kept_O in Hidx.
  pose proof (kept_one_path _ _ _ Hidx Hop) as E.
  apply pathOf_inj in E; [|apply Forall_app; split; [apply kept_lO|done]
                           |done].
  apply (f_equal length) in E. unfold lO in E.
  rewrite !List.length_app in E. cbn in E. lia.
Qed.

Lemma kept_not_np c r : desc W d c r -> c <> np.
Proof.
  intros Hc ->. destruct (kept_below _ _ Hc) as [Hr Hidx].
  rewrite <- kept_O in Hidx.
  pose proof (kept_one_path _ _ _ Hidx Hnp) as E.
  apply pathOf_inj in E; [|apply Forall_app; split; [apply kept_lO|done]
                           |done].
  apply (Hfresh [] (r ++ [kN])).
  - constructor.
  - apply Forall_app. split; [done|]. by apply Forall_singleton.
  - rewrite kept_nil. unfold N, lN, O. rewrite <- E.
    by rewrite <- catSegs_app, <- List.app_assoc.
Qed.

(** What is reached from the moved node when the walk starts was below
    it before. *)
Lemma kept_under y i :
  under s2 y i ->
  forall ry, desc W d y ry -> exists r, r <> [] /\ desc W d i (ry ++ r).
Proof.
  assert (Hstep : forall y cs k c ry,
            type (deref s2 y) = directory -> children (deref s2 y) = Some cs ->
            (k, c) ∈ cs -> desc W d y ry -> desc W d c (ry ++ [k])).
  { intros y0 cs k c ry Hty Hcs Hk Hy.
    rewrite (rl_type _ _ _ _ _ _ _ _ Hrl) in Hty.
    rewrite (rl_children _ _ _ _ _ _ _ _ Hrl) in Hcs
      by (by apply kept_not_op with ry || by apply kept_not_np with ry).
    destruct (kept_below _ _ Hy) as [Hry Hidx].
    destruct (wf_dir _ HW _ _ Hidx Hty) as (cs' & Hcs' & Hnd & _).
    assert (cs' = cs) by congruence. subst cs'.
    eapply desc_app; [done|]. eapply desc_child; [done..|].
    by apply map_get_In_NoDup. }
  induction 1 as [y cs k c Hty Hcs Hk|y cs k c i Hty Hcs Hk _ IH];
    intros ry Hy.
  - exists [k]. split; [done|]. by apply (Hstep y cs).
  - destruct (IH (ry ++ [k])) as (r & Hr & Hi); [by apply (Hstep y cs)|].
    exists (k :: r). split; [done|]. by rewrite <- List.app_assoc in Hi.
Qed.

(** A node indexed elsewhere than at or below the old path is not the
    moved one, and the walk leaves it as it is. *)
Lemma kept_outside q i :
  map_get q (files W) = Some i ->
  (forall r, Forall okSeg r -> q <> O +:+ catSegs r) ->
  i <> d
  /\ name (deref fs' i) = name (deref W i)
  /\ path (deref fs' i) = q.
Proof.
  intros Hq Hout.
  assert (Hno : forall r, ~ desc W d i r).
  { intros r Hi. destruct (kept_below _ _ Hi) as [Hr Hidx].
    apply (Hout r Hr). by apply (kept_one_path _ _ i). }
  assert (Hid : i <> d) by (intros ->; apply (Hno []); constructor).
  split; [done|]. rewrite Hframe.
  - destruct (Hnames i Hid) as [-> ->]. split; [done|].
    by destruct (wf_entry _ HW _ _ Hq) as (_ & ? & _).
  - intros Hu.
    destruct (kept_under _ _ Hu [] (desc_nil _ _)) as (r & _ & Hi).
    by apply (Hno r).
Qed.

(** Nothing is indexed at or below the new path before the move. *)
Lemma kept_N_free r :
  Forall okSeg r -> map_get (N +:+ catSegs r) (files W) = None.
Proof.
  intros Hr.
  destruct (map_get (N +:+ catSegs r) (files W)) as [c|] eqn:Hc; [|done].
  exfalso.
  rewrite <- kept_N in Hc.
  destruct (index_prefix W HW lN r c) as (y & Hy).
  - apply Forall_app. split; [apply kept_lN|done].
  - done.
  - rewrite pathOf_catSegs in Hy by apply kept_lN_ne. fold N in Hy.
    congruence.
Qed.

Lemma kept_files : files s2 = map_set N d (map_delete O (files W)).
Proof. apply (rl_files _ _ _ _ _ _ _ _ Hrl). Qed.

(** What is indexed elsewhere stays indexed. *)
Lemma kept_index q i :
  map_get q (files W) = Some i ->
  (forall r, Forall okSeg r -> q <> O +:+ catSegs r) ->
  map_get q (files fs') = Some i.
Proof.
  intros Hq Hout. rewrite (inv_rest _ _ _ _ _ _ _ HI).
  - rewrite kept_files, map_get_set_ne, map_get_delete_ne; [done| |].
    + intros E. apply (Hout []); [constructor|]. by rewrite kept_nil.
    + intros E. rewrite <- E in Hq. congruence.
  - intros c r Hc Hr _. destruct (kept_below _ _ Hc) as [Hok _]. split.
    + intros ->. by rewrite kept_N_free in Hq.
    + by apply Hout.
Qed.

Lemma kept_new : map_get N (files fs') = Some d.
Proof.
  apply (outcome_new W s2 fs' d lO N HW kept_lO kept_lO_ne Hd Hfresh
           kept_files HI).
Qed.

Lemma kept_old r :
  Forall okSeg r -> map_get (O +:+ catSegs r) (files fs') = None.
Proof.
  apply (outcome_old W s2 fs' d lO N HW kept_lO kept_lO_ne Hd Hfresh
           kept_files HI).
Qed.

(** Where an entry of the index comes from. *)
Lemma kept_index_inv q i :
  map_get q (files fs') = Some i ->
  (q = N /\ i = d)
  \/ (exists r, r <> [] /\ desc W d i r /\ q = N +:+ catSegs r)
  \/ (map_get q (files W) = Some i
      /\ forall r, Forall okSeg r -> q <> O +:+ catSegs r).
Proof.
  intros Hq.
  destruct (below_dec O q) as [(r & Hr & ->)|HnO].
  { by rewrite kept_old in Hq. }
  assert (HOq : O <> q).
  { intros E. apply (HnO []); [constructor|]. by rewrite kept_nil. }
  destruct (below_dec N q) as [(r & Hr & ->)|HnN].
  - destruct (decide (r = [])) as [->|Hne].
    + left. rewrite kept_nil in Hq |- *. rewrite kept_new in Hq.
      split; congruence.
    + right; left.
      destruct (map_get (O +:+ catSegs r) (files W)) as [c|] eqn:Hc.
      * pose proof (kept_index_below _ _ Hr Hc) as Hdc.
        rewrite (inv_new _ _ _ _ _ _ _ HI c r Hdc Hne Hne) in Hq.
        exists r. by injection Hq as <-.
      * exfalso. rewrite (inv_rest _ _ _ _ _ _ _ HI) in Hq.
        -- rewrite kept_files, map_get_set_ne, map_get_delete_ne in Hq;
             [by rewrite kept_N_free in Hq|done|].
           intros E. rewrite <- (app_nil_r N) in E at 1.
           apply (inj (String.append N)) in E. symmetry in E.
           by apply catSegs_nonempty in E.
        -- intros c r' Hc' Hr' _. destruct (kept_below _ _ Hc') as [Hok Hidx].
           split; [|by apply Hfresh]. intros E.
           apply (inj (String.append N)) in E.
           apply catSegs_inj in E; [|done..]. subst r'. congruence.
  - right; right. rewrite (inv_rest _ _ _ _ _ _ _ HI) in Hq.
    + rewrite kept_files, map_get_set_ne, map_get_delete_ne in Hq;
        [done|done|].
      intros E. apply (HnN []); [constructor|]. by rewrite kept_nil.
    + intros c r Hc Hr _. destruct (kept_below _ _ Hc) as [Hok _].
      split; [by apply HnN|by apply HnO].
Qed.

Lemma kept_types i : type (deref fs' i) = type (deref W i).
Proof.
  destruct (Hshape i) as [-> _]. apply (rl_type _ _ _ _ _ _ _ _ Hrl).
Qed.

Lemma kept_length : length (store fs') = length (store W).
Proof. apply (inv_len _ _ _ _ _ _ _ HI). Qed.

(** The moved node was the child [k0] of its old parent. *)
Lemma kept_name_d : name (deref W d) = k0.
Proof.
  destruct (index_parent W HW lO' k0 d HlO' Hk0 kept_Hd)
    as (y & cs & Hy & Hty & Hcs & Hk).
  destruct (wf_dir _ HW _ _ Hy Hty) as (cs' & Hcs' & _ & Hall).
  assert (cs' = cs) by congruence. subst cs'.
  by destruct (Hall _ _ Hk) as (_ & ? & _).
Qed.

Lemma kept_children i cs :
  children (deref W i) = Some cs ->
  children (deref fs' i) = Some (relinkedChildren op np d k0 kN i cs).
Proof.
  intros Hcs. destruct (Hshape i) as [_ ->]. rewrite <- kept_name_d.
  by apply Hkids.
Qed.

(** The moved node and the nodes below it, afterwards. *)
Lemma kept_sub y ry :
  desc W d y ry ->
  children (deref fs' y) = children (deref W y)
  /\ path (deref fs' y) = N +:+ catSegs ry
  /\ name (deref fs' y) = (if decide (ry = []) then kN else name (deref W y))
  /\ map_get (N +:+ catSegs ry) (files fs') = Some y.
Proof.
  intros Hy. destruct (decide (ry = [])) as [->|Hne].
  - apply desc_nil_inv in Hy as ->. rewrite kept_nil.
    rewrite (inv_top _ _ _ _ _ _ _ HI). split.
    { apply (rl_children _ _ _ _ _ _ _ _ Hrl).
      - apply kept_not_op with []. constructor.
      - apply kept_not_np with []. constructor. }
    split; [apply (rl_path _ _ _ _ _ _ _ _ Hrl)|].
    split; [apply (rl_name _ _ _ _ _ _ _ _ Hrl)|apply kept_new].
  - rewrite (inv_done _ _ _ _ _ _ _ HI y ry Hy Hne Hne).
    split; [done|]. split; [done|]. split; [done|].
    apply (inv_new _ _ _ _ _ _ _ HI y ry Hy Hne Hne).
Qed.

(** The child entries of the moved node and of the nodes below it. *)
Lemma kept_dir_sub y ry q :
  desc W d y ry -> q = N +:+ catSegs ry ->
  type (deref W y) = directory ->
  exists cs,
    children (deref fs' y) = Some cs /\ NoDup cs.*1
    /\ forall k c,
         map_get k cs = Some c ->
         okSeg k /\ name (deref fs' c) = k
         /\ map_get (joinPath q k) (files fs') = Some c.
Proof.
  intros Hy -> Hty. destruct (kept_below _ _ Hy) as [Hry Hidx].
  destruct (wf_dir _ HW _ _ Hidx Hty) as (cs & Hcs & Hnd & Hall).
  exists cs. destruct (kept_sub _ _ Hy) as (-> & _). split; [done|].
  split; [done|]. intros k c Hk. destruct (Hall _ _ Hk) as (Hok & Hname & _).
  assert (Hc : desc W d c (ry ++ [k])).
  { eapply desc_app; [done|]. by eapply desc_child. }
  destruct (kept_sub _ _ Hc) as (_ & _ & Hn & Hi).
  split; [done|]. split.
  - rewrite Hn. case_decide as E; [by destruct ry|done].
  - rewrite <- kept_N, joinPath_pathOf, <- List.app_assoc, kept_N; [done|].
    apply Forall_app. split; [apply kept_lN|done].
Qed.

(** A child entry elsewhere leads elsewhere, unless it is the entry of
    the moved node. *)
Lemma kept_child_outside q i k :
  map_get q (files W) = Some i -> okSeg k ->
  (forall r, Forall okSeg r -> q <> O +:+ catSegs r) ->
  ~ (i = op /\ k = k0) ->
  forall r, Forall okSeg r -> joinPath q k <> O +:+ catSegs r.
Proof.
  intros Hq Hk Hout Hnot r Hr E.
  destruct (wf_entry _ HW _ _ Hq) as (_ & _ & lq & Hlq & ->).
  rewrite joinPath_pathOf, <- kept_O in E by done.
  apply pathOf_inj in E;
    [|apply Forall_app; split; [done|by apply Forall_singleton]
     |apply Forall_app; split; [apply kept_lO|done]].
  destruct r as [|k' r _] using rev_ind.
  - rewrite List.app_nil_r in E. unfold lO in E.
    apply app_inj_tail in E as [-> ->]. apply Hnot. split; [|done].
    congruence.
  - rewrite List.app_assoc in E. apply app_inj_tail in E as [-> ->].
    apply Forall_app in Hr as [Hr _]. apply (Hout r Hr). apply kept_O.
Qed.

(** The invariant holds when the walk is over. *)
Lemma kept_WF : WF fs'.
Proof using All.
  split.
  - rewrite Hroot, Hroot2. apply kept_index; [apply (wf_root _ HW)|].
    intros r Hr E. change "/" with (pathOf []) in E. rewrite <- kept_O in E.
    apply pathOf_inj in E;
      [|constructor|apply Forall_app; split; [apply kept_lO|done]].
    symmetry in E. apply app_eq_nil in E as [E _]. by apply kept_lO_ne.
  - rewrite kept_types, Hroot, Hroot2. apply (wf_root_dir _ HW).
  - intros q i Hq. rewrite kept_length.
    destruct (kept_index_inv _ _ Hq)
      as [[-> ->]|[(r & Hne & Hi & ->)|[HqW Hout]]].
    + destruct (wf_entry _ HW _ _ Hd) as (Hlt & _). split; [done|].
      destruct (kept_sub d [] (desc_nil _ _)) as (_ & Hp & _).
      rewrite kept_nil in Hp. split; [done|]. exists lN.
      split; [apply kept_lN|]. by rewrite pathOf_catSegs by apply kept_lN_ne.
    + destruct (kept_below _ _ Hi) as [Hr Hidx].
      destruct (wf_entry _ HW _ _ Hidx) as (Hlt & _). split; [done|].
      destruct (kept_sub _ _ Hi) as (_ & Hp & _). split; [done|].
      exists (lN ++ r). split; [|by rewrite kept_N].
      apply Forall_app. split; [apply kept_lN|done].
    + destruct (wf_entry _ HW _ _ HqW) as (Hlt & _ & Hl).
      destruct (kept_outside _ _ HqW Hout) as (_ & _ & Hp). done.
  - intros q i Hq Hdir. rewrite kept_types in Hdir.
    destruct (kept_index_inv _ _ Hq)
      as [[-> ->]|[(r & Hne & Hi & ->)|[HqW Hout]]].
    + apply (kept_dir_sub d []); [constructor|by rewrite kept_nil|done].
    + by apply (kept_dir_sub i r).
    + destruct (wf_dir _ HW _ _ HqW Hdir) as (cs & Hcs & Hnd & Hall).
      exists (relinkedChildren op np d k0 kN i cs).
      split; [by apply kept_children|].
      split; [by apply relinkedChildren_NoDup|]. intros k c.
      rewrite relinkedChildren_get.
      destruct (decide (i = np /\ k = kN)) as [[-> ->]|Hnew].
      { intros [= <-]. split; [done|].
        destruct (kept_sub d [] (desc_nil _ _)) as (_ & _ & Hn & _).
        split; [done|].
        rewrite (kept_one_path _ _ _ HqW Hnp), joinPath_pathOf by done.
        rewrite pathOf_catSegs by apply kept_lN_ne. apply kept_new. }
      destruct (decide (i = op /\ k = k0)) as [|Hold]; [done|].
      intros Hk. destruct (Hall _ _ Hk) as (Hok & Hname & Hidx).
      pose proof (kept_child_outside _ _ _ HqW Hok Hout Hold) as Hout'.
      split; [done|].
      destruct (kept_outside _ _ Hidx Hout') as (_ & Hn & _).
      split; [congruence|]. by apply kept_index.
  - intros q i Hq Hnr.
    destruct (kept_index_inv _ _ Hq)
      as [[-> ->]|[(r & Hne & Hi & ->)|[HqW Hout]]].
    + destruct (wf_dir _ HW _ _ Hnp Hnpd) as (csn & Hcsn & _).
      exists (pathOf lnp), np, (relinkedChildren op np d k0 kN np csn).
      split.
      { apply kept_index; [done|]. intros r Hr E.
        apply (kept_not_np np r); [|done]. apply kept_index_below; [done|].
        by rewrite <- E. }
      split; [by rewrite kept_types|]. split; [by apply kept_children|].
      destruct (kept_sub d [] (desc_nil _ _)) as (_ & _ & -> & _).
      rewrite relinkedChildren_get. by rewrite decide_True.
    + destruct (exists_last (l := r) Hne) as (r' & k & ->).
      apply desc_app_inv in Hi as Hsplit.
      destruct Hsplit as (y & Hy & Hyi).
      apply desc_cons_inv in Hyi as (cs & c0 & Hty & Hcs & Hk & Hnil).
      apply desc_nil_inv in Hnil as ->.
      destruct (kept_below _ _ Hy) as [Hr' Hidx].
      destruct (wf_dir _ HW _ _ Hidx Hty) as (cs' & Hcs' & _ & Hall).
      assert (cs' = cs) by congruence. subst cs'.
      destruct (Hall _ _ Hk) as (_ & Hname & _).
      destruct (kept_sub _ _ Hy) as (Hch & _ & _ & Hiy).
      destruct (kept_sub _ _ Hi) as (_ & _ & Hn & _).
      exists (N +:+ catSegs r'), y, cs. split; [done|].
      split; [by rewrite kept_types|]. split; [congruence|].
      rewrite Hn. case_decide; [done|]. by rewrite Hname.
    + destruct (wf_parent _ HW _ _ HqW Hnr)
        as (q0 & y & cs & Hq0 & Hty & Hcs & Hget).
      destruct (wf_dir _ HW _ _ Hq0 Hty) as (cs' & Hcs' & _ & Hall).
      assert (cs' = cs) by congruence. subst cs'.
      destruct (Hall _ _ Hget) as (Hok & _ & Hidx).
      pose proof (kept_one_path _ _ _ Hidx HqW) as Eq.
      destruct (wf_entry _ HW _ _ Hq0) as (_ & _ & l0 & Hl0 & El0).
      assert (Hout0 : forall r, Forall okSeg r -> q0 <> O +:+ catSegs r).
      { intros r Hr E. apply (Hout (r ++ [name (deref W i)])).
        - apply Forall_app. split; [done|]. by apply Forall_singleton.
        - rewrite <- Eq, E, <- !kept_O, joinPath_pathOf.
          + by rewrite <- List.app_assoc.
          + apply Forall_app. split; [apply kept_lO|done]. }
      destruct (kept_outside _ _ HqW Hout) as (_ & Hn & _).
      exists q0, y, (relinkedChildren op np d k0 kN y cs).
      split; [by apply kept_index|]. split; [by rewrite kept_types|].
      split; [by apply kept_children|].
      rewrite Hn, relinkedChildren_get.
      destruct (decide (y = np /\ _ = kN)) as [[-> Ek]|_].
      { exfalso. rewrite Ek in Eq.
        rewrite (kept_one_path _ _ _ Hq0 Hnp), joinPath_pathOf in Eq by done.
        rewrite pathOf_catSegs in Eq by apply kept_lN_ne.
        fold lN N in Eq. rewrite <- Eq in HqW. congruence. }
      destruct (decide (y = op /\ _ = k0)) as [[-> Ek]|_]; [|done].
      exfalso. rewrite Ek in Eq.
      rewrite (kept_one_path _ _ _ Hq0 Hop), joinPath_pathOf in Eq by done.
      apply (Hout []); [constructor|]. rewrite kept_nil, <- Eq.
      apply pathOf_catSegs, kept_lO_ne.
Qed.

End Settled.

(** ** [rename] as a whole *)

Lemma bind_inv {A B} (m : M A) (k : A -> M B) s b s' :
  bind m k s = Returns b s' ->
  exists a s1, m s = Returns a s1 /\ k a s1 = Returns b s'.
Proof. unfold bind. destruct (m s) as [a s1|e s1]; [eauto|done]. Qed.

(** Past its guards, [rename] returns [true] or does not return. *)
Lemma relink_true stack O N d op np W b fs' :
  relink stack O N d op np W = Returns b fs' -> b = true.
Proof.
  unfold relink. intros H.
  repeat (cbv zeta in H; apply bind_inv in H as (? & ? & _ & H)).
  by injection H.
Qed.

(** A [rename] that returns [false] has changed nothing, or has only
    created the directories towards the destination. *)
Lemma rename_refused stack oldPath newPath fs fs' :
  rename stack oldPath newPath fs = Returns false fs' ->
  fs' = fs
  \/ ensureParentDirectories (normalizePath newPath) fs = Returns tt fs'.
Proof.
  intros Hrun. unfold rename in Hrun.
  destruct (validatePath oldPath fs) as [[] s0|e s0] eqn:Hv1.
  2:{ by rewrite (bind_Throws _ _ _ _ _ Hv1) in Hrun. }
  rewrite (bind_Returns _ _ _ _ _ Hv1) in Hrun.
  apply validatePath_state in Hv1 as ->.
  destruct (validatePath newPath fs) as [[] s0|e s0] eqn:Hv2.
  2:{ by rewrite (bind_Throws _ _ _ _ _ Hv2) in Hrun. }
  rewrite (bind_Returns _ _ _ _ _ Hv2) in Hrun.
  apply validatePath_state in Hv2 as ->.
  set (O := normalizePath oldPath) in *.
  set (N := normalizePath newPath) in *.
  destruct (String.eqb O "/" || String.eqb N "/");
    [left; by injection Hrun|].
  rewrite bind_filesGet, bind_get in Hrun.
  destruct (map_get O (files fs)) as [d|] eqn:Hd;
    [|left; by injection Hrun].
  destruct (map_has N (files fs)) eqn:HNfs; [left; by injection Hrun|].
  rewrite bind_getParentNode in Hrun.
  destruct (map_get (getParentPath O) (files fs)) as [op|] eqn:Hop;
    [|left; by injection Hrun].
  rewrite bind_read in Hrun.
  destruct (decide (type (deref fs op) = directory)) as [Hopd|];
    [|left; by injection Hrun].
  destruct (ensureParentDirectories N fs) as [[] W|e W] eqn:Hepd.
  2:{ by rewrite (bind_Throws _ _ _ _ _ Hepd) in Hrun. }
  rewrite (bind_Returns _ _ _ _ _ Hepd) in Hrun.
  rewrite bind_getParentNode in Hrun.
  destruct (map_get (getParentPath N) (files W)) as [np|] eqn:Hnp;
    [|right; by injection Hrun as <-].
  rewrite bind_read in Hrun.
  destruct (decide (type (deref W np) = directory)) as [Hnpd|];
    [|right; by injection Hrun as <-].
  exfalso. change (relink stack O N d op np W = Returns false fs') in Hrun.
  by apply relink_true in Hrun.
Qed.

(** The condition on the new path is needed: [/a] renamed to [/b//] next
    to a directory [/b] is indexed at [/b/] and takes the place of [/b]
    among the children of the root. *)
Lemma rename_trailing_slashes :
  let fs := after (createDirectory "/b" (after (createFile "/a" "x" VFS.new))) in
  rename 3 "/a" "/b//" fs = Returns true (after (rename 3 "/a" "/b//" fs))
  /\ ~ WF (after (rename 3 "/a" "/b//" fs)).
Proof.
  intros fs. split; [reflexivity|]. intros H.
  destruct (wf_entry _ H "/b/" 1 eq_refl) as (_ & _ & l & Hl & E).
  destruct l as [|k l]; [done|].
  pose proof (endsWith_catSegs (k :: l) Hl ltac:(done)) as Hends.
  change (pathOf (k :: l)) with (catSegs (k :: l)) in E.
  by rewrite <- E in Hends.
Qed.

(** X27.  In a file system that satisfies the invariant of the data
    model, [rename] keeps it, whether it returns [true] or [false], when
    the new path normalizes without a trailing slash. *)
Theorem rename_keeps_invariant (stack : nat) (oldPath newPath : string)
    (fs fs' : VirtualFileSystem) (b : bool) :
  WF fs ->
  normalizePath newPath = "/" \/ endsWith (normalizePath newPath) "/" = false ->
  rename stack oldPath newPath fs = Returns b fs' ->
  WF fs'.
Proof.
  intros Hwf Hcanon Hrun. destruct b.
  2:{ destruct (rename_refused _ _ _ _ _ Hrun) as [->|Hepd]; [done|].
      by destruct (ensureParentDirectories_grows _ _ _ Hwf Hepd). }
  destruct (rename_inv _ _ _ _ _ Hrun)
    as (d & op & np & W & Hvalid & HO & HN & Hd & HNfs & Hop & Hopd & Hepd
        & Hnp & Hnpd & Hrel).
  destruct (wf_entry _ Hwf _ _ Hd) as (Hdlt & Hdpath & lO & HlO & EO).
  destruct (exists_last (l := lO)) as (lO' & k0 & ElO).
  { intros ->. by apply HO. }
  assert (HlO_ne : lO <> []) by (rewrite ElO; by destruct lO').
  rewrite pathOf_catSegs in EO by done.
  assert (HlO' : Forall okSeg lO' /\ okSeg k0).
  { rewrite ElO in HlO. by apply Forall_app in HlO as [? [? _]%Forall_cons]. }
  destruct HlO' as [HlO' Hk0].
  destruct (canonical_normalized newPath Hcanon) as (lN & HlN & EN).
  destruct (exists_last (l := lN)) as (lnp & kN & ElN).
  { intros ->. by apply HN. }
  assert (HlN_ne : lN <> []) by (rewrite ElN; by destruct lnp).
  rewrite pathOf_catSegs in EN by done.
  assert (HlN' : Forall okSeg lnp /\ okSeg kN).
  { rewrite ElN in HlN. by apply Forall_app in HlN as [? [? _]%Forall_cons]. }
  destruct HlN' as [Hlnp HkN].
  rewrite EO, ElO in Hd, Hop, Hrel. rewrite EN, ElN in HNfs, Hepd, Hnp, Hrel.
  rewrite getParentPath_snoc in Hop, Hnp by done.
  destruct (ensureParentDirectories_grows _ _ _ Hwf Hepd) as [HW Hg].
  pose proof (grows_index _ _ _ Hg _ _ Hd) as HdW.
  pose proof (grows_index _ _ _ Hg _ _ Hop) as HopW.
  assert (HNW : map_get (catSegs (lnp ++ [kN])) (files W) = None).
  { apply (grows_fresh _ _ _ Hg); [done|]. apply createDirectoryPath_not_self. }
  assert (Hpar : forall l k, Forall okSeg l -> okSeg k ->
            catSegs (lnp ++ [kN]) = catSegs (l ++ [k]) -> lnp = l).
  { intros l k Hl Hk E. apply catSegs_inj in E.
    - by apply app_inj_tail in E as [? _].
    - by rewrite <- ElN.
    - apply Forall_app. split; [done|]. by apply Forall_singleton. }
  destruct (wf_entry _ HW _ _ HdW) as (HdltW & _).
  destruct (wf_entry _ HW _ _ HopW) as (HopltW & _).
  destruct (wf_entry _ HW _ _ Hnp) as (HnpltW & _).
  destruct (relink_state _ _ _ _ _ _ _ _ HdltW HopltW HnpltW Hrel)
    as (s2 & Hrl & Hcont & Hroot2 & Hnames & Hkids).
  rewrite getFileName_snoc in Hrl, Hkids by done.
  assert (HNne : catSegs (lnp ++ [kN]) <> "").
  { apply catSegs_nonempty. by destruct lnp. }
  destruct (moved_Inv W s2 d op np lO' k0 lnp (catSegs (lnp ++ [kN])) kN
              HW HlO' Hk0 HdW HopW Hlnp Hnp Hnpd HNW HNne Hpar Hrl stack fs'
              Hcont) as [Hfresh HI].
  assert (Hwalk : sameShape s2 fs' /\ root fs' = root s2
                  /\ forall i, ~ under s2 d i -> deref fs' i = deref s2 i).
  { destruct (type (deref s2 d)).
    { subst fs'. split; [apply sameShape_refl|done]. }
    destruct (children (deref s2 d)).
    2:{ subst fs'. split; [apply sameShape_refl|done]. }
    split; [by apply updateChildrenPaths_shape in Hcont|].
    by apply walk_frame in Hcont. }
  destruct Hwalk as (Hshape & Hroot & Hframe).
  by apply (kept_WF W s2 fs' d op np lO' k0 lnp kN).
Qed.

Lemma rename_keeps_invariant_witness :
  let fs := dirWithFile in
  WF fs
  /\ rename 3 "/dir" "/dir2" fs
     = Returns true (after (rename 3 "/dir" "/dir2" fs))
  /\ WF (after (rename 3 "/dir" "/dir2" fs)).
Proof.
  intros fs. split; [exact dirWithFile_WF|]. split; [reflexivity|].
  apply (rename_keeps_invariant 3 "/dir" "/dir2" fs _ true dirWithFile_WF).
  - by right.
  - reflexivity.
Defined.

End RenameInvariant.
